(** * spojit: the event-driven temporal sampling engine

    A shallow embedding of the Python sources [spojit/util.py],
    [spojit/user_model.py], [spojit/artifact_filter.py], [spojit/io.py]
    (roster construction), [spojit/event.py] and [spojit/profile.py],
    followed by the properties of the engine.

    Conventions of the embedding:
    - a Python exception is a value of [exn]; a function that may raise
      returns [result A];
    - [int] is [Z] (or [nat] for sizes and indices), a score is a rational;
    - a [dict] whose iteration order is observed is an insertion-ordered
      association list ([dict_get], [dict_set]); a [dict] that is only
      looked up is a [gmap];
    - a [set] of which only membership and size are observed is a [gset];
      where the code iterates over a set, the iteration order is the
      parameter [set_order] (CPython orders a set of [str] by hashes that
      are salted per process);
    - the local time zone, which [datetime.timestamp] consults for a naive
      date-time, is the parameter [utc_offset].

    Limits of the embedding: texts are strings of bytes, so that [strptime]
    is modelled for ASCII digits; names, handles and dates of the data
    source are strings, with [None] only where the code tests for it
    ([assignee], [resolved_date], [resolution]); [timestamp()] is total on
    the dates that [datetime] accepts. *)

From Stdlib Require Import ZArith QArith Ascii String List Lia Bool.
From stdpp Require Import base option list strings gmap sets sorting.

Open Scope Z_scope.

(** ** Exceptions *)

Inductive exn : Set :=
| ValueError
| KeyError
| IndexError
| AssertionError
| RuntimeError.

Inductive result (A : Type) : Type :=
| Ok (a : A)
| Raise (e : exn).
Arguments Ok {A} a.
Arguments Raise {A} e.

#[global] Instance result_ret : MRet result := fun A a => Ok a.

#[global] Instance result_bind : MBind result := fun A B k r =>
  match r with
  | Ok a => k a
  | Raise e => Raise e
  end.

Fixpoint mapM {A B : Type} (f : A -> result B) (l : list A) : result (list B) :=
  match l with
  | [] => Ok []
  | x :: l' => y ← f x; ys ← mapM f l'; Ok (y :: ys)
  end.

Definition is_ok {A : Type} (r : result A) : bool :=
  match r with Ok _ => true | Raise _ => false end.

(** ** Python truthiness of an optional string *)

Definition truthy (o : option string) : bool :=
  match o with
  | Some s => negb (String.eqb s "")
  | None => false
  end.

(** ** [spojit/util.py]: [date_time_to_timestamp] *)

Module Util.

Record datetime : Set := {
  year : Z; month : Z; day : Z; hour : Z; minute : Z; second : Z
}.

Definition is_digit (c : ascii) : bool :=
  let n := nat_of_ascii c in ((48 <=? n) && (n <=? 57))%nat.

Definition digit (c : ascii) : Z := Z.of_nat (nat_of_ascii c) - 48.

Definition in_range (lo hi : Z) (c : ascii) : bool :=
  is_digit c && (lo <=? digit c) && (digit c <=? hi).

Definition is_char (x c : ascii) : bool := Ascii.eqb x c.

(** The format is compiled to a regular expression and matched with
    [re.IGNORECASE]; a match is a list of successes, in the order in which
    the alternatives of the expression are tried. *)
Definition matches (A : Type) : Type := list (A * list ascii).

Definition two (p1 p2 : ascii -> bool) (s : list ascii) : matches Z :=
  match s with
  | a :: b :: r => if p1 a && p2 b then [(10 * digit a + digit b, r)] else []
  | _ => []
  end.

Definition one (p : ascii -> bool) (s : list ascii) : matches Z :=
  match s with
  | a :: r => if p a then [(digit a, r)] else []
  | _ => []
  end.

(** [" [1-9]"], the last alternative of [%d] *)
Definition blank_one (s : list ascii) : matches Z :=
  match s with
  | a :: b :: r =>
      if is_char " " a && in_range 1 9 b then [(digit b, r)] else []
  | _ => []
  end.

(** [%Y]: [\d\d\d\d] *)
Definition re_Y (s : list ascii) : matches Z :=
  match s with
  | a :: b :: c :: d :: r =>
      if is_digit a && is_digit b && is_digit c && is_digit d
      then [(1000 * digit a + 100 * digit b + 10 * digit c + digit d, r)]
      else []
  | _ => []
  end.

(** [%m]: [1[0-2]|0[1-9]|[1-9]] *)
Definition re_m (s : list ascii) : matches Z :=
  two (is_char "1") (in_range 0 2) s
  ++ two (is_char "0") (in_range 1 9) s
  ++ one (in_range 1 9) s.

(** [%d]: [3[0-1]|[1-2]\d|0[1-9]|[1-9]| [1-9]] *)
Definition re_d (s : list ascii) : matches Z :=
  two (is_char "3") (in_range 0 1) s
  ++ two (in_range 1 2) is_digit s
  ++ two (is_char "0") (in_range 1 9) s
  ++ one (in_range 1 9) s
  ++ blank_one s.

(** [%H]: [2[0-3]|[0-1]\d|\d] *)
Definition re_H (s : list ascii) : matches Z :=
  two (is_char "2") (in_range 0 3) s
  ++ two (in_range 0 1) is_digit s
  ++ one is_digit s.

(** [%M]: [[0-5]\d|\d] *)
Definition re_M (s : list ascii) : matches Z :=
  two (in_range 0 5) is_digit s ++ one is_digit s.

(** [%S]: [6[0-1]|[0-5]\d|\d] *)
Definition re_S (s : list ascii) : matches Z :=
  two (is_char "6") (in_range 0 1) s
  ++ two (in_range 0 5) is_digit s
  ++ one is_digit s.

(** a literal character of the format; letters match in either case *)
Definition lit (c : ascii) (s : list ascii) : matches unit :=
  match s with
  | a :: r =>
      if is_char c a then [(tt, r)]
      else if is_char "T" c && is_char "t" a then [(tt, r)]
      else if is_char "Z" c && is_char "z" a then [(tt, r)]
      else []
  | [] => []
  end.

Definition seq {A B : Type} (m : matches A) (k : A -> list ascii -> matches B)
  : matches B :=
  flat_map (fun ar => k (fst ar) (snd ar)) m.

(** the regular expression of ["%Y-%m-%dT%H:%M:%SZ"] *)
Definition format_regex (s : list ascii) : matches datetime :=
  seq (re_Y s) (fun y s =>
  seq (lit "-" s) (fun _ s =>
  seq (re_m s) (fun mo s =>
  seq (lit "-" s) (fun _ s =>
  seq (re_d s) (fun d s =>
  seq (lit "T" s) (fun _ s =>
  seq (re_H s) (fun h s =>
  seq (lit ":" s) (fun _ s =>
  seq (re_M s) (fun mi s =>
  seq (lit ":" s) (fun _ s =>
  seq (re_S s) (fun se s =>
  seq (lit "Z" s) (fun _ s =>
  [({| year := y; month := mo; day := d;
       hour := h; minute := mi; second := se |}, s)])))))))))))).

Definition is_leap (y : Z) : bool :=
  ((y mod 4 =? 0) && negb (y mod 100 =? 0)) || (y mod 400 =? 0).

Definition days_in_month (y m : Z) : Z :=
  if m =? 2 then (if is_leap y then 29 else 28)
  else if (m =? 4) || (m =? 6) || (m =? 9) || (m =? 11) then 30
  else 31.

(** what the constructors of [datetime.date] and [datetime.datetime] accept *)
Definition valid_datetime (d : datetime) : bool :=
  (1 <=? year d) && (year d <=? 9999)
  && (1 <=? month d) && (month d <=? 12)
  && (1 <=? day d) && (day d <=? days_in_month (year d) (month d))
  && (0 <=? hour d) && (hour d <=? 23)
  && (0 <=? minute d) && (minute d <=? 59)
  && (0 <=? second d) && (second d <=? 59).

(** [datetime.datetime.strptime(arg, "%Y-%m-%dT%H:%M:%SZ")]: the first match
    of the expression, which has to consume the whole input and to denote
    a date-time that exists; every failure is a [ValueError]. *)
Definition strptime (arg : string) : result datetime :=
  match format_regex (list_ascii_of_string arg) with
  | (d, rest) :: _ =>
      match rest with
      | [] => if valid_datetime d then Ok d else Raise ValueError
      | _ :: _ => Raise ValueError
      end
  | [] => Raise ValueError
  end.

(** days from 1970-01-01 to a date of the proleptic Gregorian calendar *)
Definition days_from_civil (y m d : Z) : Z :=
  let y' := if m <=? 2 then y - 1 else y in
  let era := y' / 400 in
  let yoe := y' - era * 400 in
  let mp := if 2 <? m then m - 3 else m + 9 in
  let doy := (153 * mp + 2) / 5 + d - 1 in
  let doe := yoe * 365 + yoe / 4 - yoe / 100 + doy in
  era * 146097 + doe - 719468.

(** the seconds from 1970-01-01T00:00:00 to the date-time read as one wall
    clock, i.e. its POSIX time if it were UTC *)
Definition wall_seconds (d : datetime) : Z :=
  days_from_civil (year d) (month d) (day d) * 86400
  + hour d * 3600 + minute d * 60 + second d.

Section LocalTime.

(** The offset from UTC, in seconds east, that the local time zone of the
    process has at a wall-clock instant.  [strptime] returns a naive
    date-time (the [Z] of the format is a literal, not a zone), and
    [timestamp()] of a naive date-time reads it as local time. *)
Variable utc_offset : Z -> Z.

Definition timestamp (d : datetime) : Z :=
  wall_seconds d - utc_offset (wall_seconds d).

Definition date_time_to_timestamp (arg : string) : result Z :=
  if String.eqb arg "" then Raise ValueError
  else
    d ← strptime arg;
    Ok (timestamp d).

(** the same call on a value that may be [None], which is falsy *)
Definition date_time_to_timestamp_opt (arg : option string) : result Z :=
  match arg with
  | None => Raise ValueError
  | Some s => date_time_to_timestamp s
  end.

End LocalTime.

End Util.


(** ** [spojit/util.py]: [resource_similarity] *)

Module Resource.

(** an argument is a [set], or any other iterable, given as a list *)
Inductive collection : Type :=
| AsList (l : list string)
| AsSet (s : gset string).

Definition as_set (c : collection) : gset string :=
  match c with
  | AsList l => list_to_set l
  | AsSet s => s
  end.

(** [n / d] on integers yields the float nearest to the exact quotient;
    the exact quotient is kept here, in lowest terms *)
Definition true_div (n d : nat) : Q := Qred (Z.of_nat n # Pos.of_nat d).

Definition resource_similarity (first second : collection) : Q :=
  let l1 := as_set first in
  let l2 := as_set second in
  let l3 := l1 ∩ l2 in
  let len_l1 := size l1 in
  let len_l2 := size l2 in
  if (len_l2 <? len_l1)%nat
  then (if (0 <? len_l1)%nat then true_div (size l3) len_l1 else 0%Q)
  else (if (0 <? len_l2)%nat then true_div (size l3) len_l2 else 0%Q).

End Resource.


(** ** Python containers *)

(** [sorted(l, key=...)] and [list.sort(key=...)] are stable; [leb a b] is
    the comparison [key(a) <= key(b)].  An element is placed in front of the
    first element of the sorted rest that is not smaller than it. *)
Fixpoint insert_sorted {A : Type} (leb : A -> A -> bool) (x : A) (l : list A)
  : list A :=
  match l with
  | [] => [x]
  | y :: l' => if leb x y then x :: y :: l' else y :: insert_sorted leb x l'
  end.

Definition stable_sort {A : Type} (leb : A -> A -> bool) (l : list A) : list A :=
  foldr (insert_sorted leb) [] l.

(** an insertion-ordered [dict] *)
Definition dict (K V : Type) : Type := list (K * V).

Fixpoint dict_get {V : Type} (k : string) (d : dict string V) : option V :=
  match d with
  | [] => None
  | (k', v) :: d' => if String.eqb k k' then Some v else dict_get k d'
  end.

(** [d[k] = v]: an existing key keeps its position *)
Fixpoint dict_set {V : Type} (k : string) (v : V) (d : dict string V)
  : dict string V :=
  match d with
  | [] => [(k, v)]
  | (k', v') :: d' =>
      if String.eqb k k' then (k, v) :: d' else (k', v') :: dict_set k v d'
  end.

Definition mem (x : string) (l : list string) : bool :=
  existsb (String.eqb x) l.

(** a [set] that the code iterates over, as the list of its elements in
    the order of their first insertion *)
Definition set_add (x : string) (l : list string) : list string :=
  if mem x l then l else l ++ [x].

Definition set_of_list (l : list string) : list string :=
  fold_left (fun acc x => set_add x acc) l [].

(** ** [spojit/user_model.py] *)

Module UserModel.

Record Developer : Type := {
  number : nat;
  names : gset string;
  user_names : gset string
}.

Definition add_name (name : string) (d : Developer) : Developer :=
  {| number := number d; names := names d ∪ {[name]};
     user_names := user_names d |}.

Definition add_user_name (user_name : string) (d : Developer) : Developer :=
  {| number := number d; names := names d;
     user_names := user_names d ∪ {[user_name]} |}.

Definition has_user_name (user_name : string) (d : Developer) : bool :=
  bool_decide (user_name ∈ user_names d).

Definition has_name (name : string) (d : Developer) : bool :=
  bool_decide (name ∈ names d).

(** apply [f] to the first member that satisfies [p]; [None] when no member
    does ([matches[0]] of the filtered list) *)
Fixpoint update_first (p : Developer -> bool) (f : Developer -> Developer)
  (members : list Developer) : option (list Developer) :=
  match members with
  | [] => None
  | d :: rest =>
      if p d then Some (f d :: rest)
      else option_map (cons d) (update_first p f rest)
  end.

(** [DeveloperTeam.add_or_update_developer], on the member list *)
Definition add_or_update_developer (name user_name : string)
  (members : list Developer) : list Developer :=
  if String.eqb name "" && String.eqb user_name "" then members
  else
    match update_first (has_user_name user_name) (add_name name) members with
    | Some members' => members'
    | None =>
        match update_first (has_name name) (add_user_name user_name) members with
        | Some members' => members'
        | None =>
            members ++ [ {| number := length members; names := {[name]};
                            user_names := {[user_name]} |} ]
        end
    end.

Record LinkedDeveloper : Type := {
  jira_idx : option nat;
  git_idx : option nat
}.

Record ProjectUsers : Type := {
  jira_team : list Developer;
  git_team : list Developer;
  team_links : list LinkedDeveloper
}.

(** [__len__] *)
Definition len (pu : ProjectUsers) : nat := length (team_links pu).

(** [members[idx]] *)
Definition member (members : list Developer) (idx : nat) : result Developer :=
  match members !! idx with
  | Some d => Ok d
  | None => Raise IndexError
  end.

(** the loop of [get_link_id], from the link of index [idx] on *)
Fixpoint get_link_id_from (pu : ProjectUsers) (user_name team_name : string)
  (idx : nat) (links : list LinkedDeveloper) : result (option nat) :=
  match links with
  | [] => Ok None
  | linked_developer :: rest =>
      if String.eqb team_name "jira" then
        match jira_idx linked_developer with
        | Some j =>
            jira_dev ← member (jira_team pu) j;
            if has_user_name user_name jira_dev then Ok (Some idx)
            else get_link_id_from pu user_name team_name (S idx) rest
        | None => get_link_id_from pu user_name team_name (S idx) rest
        end
      else if String.eqb team_name "git" then
        match git_idx linked_developer with
        | Some g =>
            git_dev ← member (git_team pu) g;
            if has_user_name user_name git_dev then Ok (Some idx)
            else get_link_id_from pu user_name team_name (S idx) rest
        | None => get_link_id_from pu user_name team_name (S idx) rest
        end
      else Raise ValueError
  end.

Definition get_link_id (pu : ProjectUsers) (user_name team_name : string)
  : result (option nat) :=
  get_link_id_from pu user_name team_name 0%nat (team_links pu).

(** [list.remove]: drop the first occurrence *)
Fixpoint remove_first (idx : nat) (l : list nat) : list nat :=
  match l with
  | [] => []
  | i :: l' => if Nat.eqb i idx then l' else i :: remove_first idx l'
  end.

Definition shares_name (a b : Developer) : bool :=
  existsb (fun name => has_name name b) (elements (names a)).

(** the inner loop of [link_teams]: the first remaining git developer that
    shares a name with [jira_dev] *)
Fixpoint find_matching (git_members : list Developer) (jira_dev : Developer)
  (remaining : list nat) : result (option (nat * Developer)) :=
  match remaining with
  | [] => Ok None
  | idx :: rest =>
      git_dev ← member git_members idx;
      if shares_name jira_dev git_dev then Ok (Some (idx, git_dev))
      else find_matching git_members jira_dev rest
  end.

Fixpoint link_jira (git_members : list Developer) (jira_members : list Developer)
  (remaining : list nat) (links : list LinkedDeveloper)
  : result (list nat * list LinkedDeveloper) :=
  match jira_members with
  | [] => Ok (remaining, links)
  | jira_dev :: rest =>
      m ← find_matching git_members jira_dev remaining;
      match m with
      | Some (idx, matching_git_dev) =>
          link_jira git_members rest (remove_first idx remaining)
            (links ++ [ {| jira_idx := Some (number jira_dev);
                           git_idx := Some (number matching_git_dev) |} ])
      | None =>
          link_jira git_members rest remaining
            (links ++ [ {| jira_idx := Some (number jira_dev);
                           git_idx := None |} ])
      end
  end.

Definition link_teams (pu : ProjectUsers) : result ProjectUsers :=
  let remaining_git_ids := map number (git_team pu) in
  '(remaining, links) ←
    link_jira (git_team pu) (jira_team pu) remaining_git_ids (team_links pu);
  Ok {| jira_team := jira_team pu; git_team := git_team pu;
        team_links :=
          links ++ map (fun idx => {| jira_idx := None; git_idx := Some idx |})
                       remaining |}.

Definition empty : ProjectUsers :=
  {| jira_team := []; git_team := []; team_links := [] |}.

(** [ProjectUsers.run] on a fresh object *)
Definition run (jira_users git_users : list (string * string))
  : result ProjectUsers :=
  let jira :=
    fold_left (fun ms '(user_name, login) =>
                 add_or_update_developer user_name login ms) jira_users [] in
  let git :=
    fold_left (fun ms '(author, author_email) =>
                 add_or_update_developer author author_email ms) git_users [] in
  link_teams {| jira_team := jira; git_team := git; team_links := [] |}.

(** [DeveloperTeam.identify_by_user_name] *)
Definition identify_by_user_name (user_name : string) (members : list Developer)
  : option Developer :=
  if String.eqb user_name "" then None
  else List.find (has_user_name user_name) members.

(** [ProjectUsers.get_stats]: unique jira users, unique git users, linked
    users *)
Definition get_stats (pu : ProjectUsers) : nat * nat * nat :=
  let count (p : LinkedDeveloper -> bool) :=
    sum_list_with (fun ld => if p ld then 1 else 0)%nat (team_links pu) in
  (count (fun ld => bool_decide (jira_idx ld <> None)
                    && bool_decide (git_idx ld = None)),
   count (fun ld => bool_decide (jira_idx ld = None)
                    && bool_decide (git_idx ld <> None)),
   count (fun ld => bool_decide (jira_idx ld <> None)
                    && bool_decide (git_idx ld <> None))).

(** *** Persistence: [to_json], [from_json], [save], [load]

    The object that [save] hands to [json.dump] and that [load] gets back
    from [json.load]; the text of the file in between is not modelled. *)

Record DeveloperJson : Type := {
  json_number : nat;
  json_names : list string;
  json_user_names : list string
}.

Record ProjectUsersJson : Type := {
  json_project : string;
  json_jira_users : list DeveloperJson;
  json_git_users : list DeveloperJson;
  json_linked_users : list (option nat * option nat)
}.

(** [Developer.from_json] *)
Definition from_json (obj : DeveloperJson) : Developer :=
  {| number := json_number obj;
     names := list_to_set (json_names obj);
     user_names := list_to_set (json_user_names obj) |}.

(** [ProjectUsers.load]: the project name and the rosters afterwards *)
Definition load (obj : ProjectUsersJson) : string * ProjectUsers :=
  (json_project obj,
   {| jira_team := map from_json (json_jira_users obj);
      git_team := map from_json (json_git_users obj);
      team_links :=
        map (fun '(a, b) => {| jira_idx := a; git_idx := b |})
            (json_linked_users obj) |}).

Section SetOrder.

(** the order in which this process iterates over a [set] of strings *)
Variable set_order : list string -> list string.

(** [Developer.to_json] *)
Definition to_json (d : Developer) : DeveloperJson :=
  {| json_number := number d;
     json_names := set_order (elements (names d));
     json_user_names := set_order (elements (user_names d)) |}.

(** [ProjectUsers.save] *)
Definition save (pu : ProjectUsers) (project_name : string) : ProjectUsersJson :=
  {| json_project := project_name;
     json_jira_users := map to_json (jira_team pu);
     json_git_users := map to_json (git_team pu);
     json_linked_users := map (fun ele => (jira_idx ele, git_idx ele))
                              (team_links pu) |}.

End SetOrder.

End UserModel.


(** ** The records of the data source ([spojit/io.py], [JsonImport]) *)

Record Issue : Type := {
  id : string;
  created_date : string;
  resolved_date : option string;
  issue_type : string;                 (* key "type" *)
  status : string;
  resolution : option string;
  assignee : option string;
  assignee_username : string;
  mapped_type : option string          (* set by [_filter_data_source] *)
}.

Record ChangeSet : Type := {
  author : string;
  author_email : string;
  commit_hash : string;
  committed_date : string;
  file_path : list string;
  to_predict : bool                    (* key "__to_predict__" *)
}.

Record DataSource : Type := {
  issues : list Issue;
  issue_to_change_set : dict string (list string);
  change_sets : list ChangeSet
}.

(** ** [spojit/artifact_filter.py] *)

Class ArtifactFilter : Type := {
  issue_type_to_category : Issue -> option string;
  is_relevant_issue : Issue -> bool;
  is_relevant_commit : ChangeSet -> bool;
  is_source_file : string -> bool
}.

Module DefaultFilter.

Definition ISSUE_TYPE_MAPPING : dict string string :=
  [ ("Bug", "bug"); ("Feature Request", "feature"); ("New Feature", "feature");
    ("Enhancement", "improvement"); ("Improvement", "improvement");
    ("Sub-task", "task"); ("Task", "task") ]%string.

Definition SOURCE_FILE_EXTENSIONS : list string :=
  [ ".java"; ".as"; ".h"; ".hpp"; ".hh"; ".c"; ".cpp"; ".cc"; ".groovy";
    ".scala" ]%string.

Fixpoint starts_with (p s : list ascii) : bool :=
  match p, s with
  | [], _ => true
  | a :: p', b :: s' => Ascii.eqb a b && starts_with p' s'
  | _ :: _, [] => false
  end.

(** [fn.endswith(ext)] *)
Definition endswith (fn ext : string) : bool :=
  starts_with (rev (list_ascii_of_string ext)) (rev (list_ascii_of_string fn)).

Definition has_source_file_extension (fn : string) : bool :=
  existsb (endswith fn) SOURCE_FILE_EXTENSIONS.

Definition is_source_file (file_path : string) : bool :=
  if negb (has_source_file_extension file_path) then false else true.

Definition issue_type_to_category (issue : Issue) : option string :=
  dict_get (issue_type issue) ISSUE_TYPE_MAPPING.

Definition is_relevant_issue (issue : Issue) : bool :=
  let mapped_type := issue_type_to_category issue in
  bool_decide (mapped_type <> None)
  && bool_decide (resolution issue ∈ [None; Some "Done"; Some "Fixed"]%string)
  && mem (status issue) ["Open"; "Reopened"; "Resolved"; "Closed"]%string.

Definition is_relevant_commit (commit : ChangeSet) : bool :=
  (0 <? length (filter (fun f => is_source_file f = true) (file_path commit)))%nat.

End DefaultFilter.

#[global] Instance default_filter : ArtifactFilter := {|
  issue_type_to_category := DefaultFilter.issue_type_to_category;
  is_relevant_issue := DefaultFilter.is_relevant_issue;
  is_relevant_commit := DefaultFilter.is_relevant_commit;
  is_source_file := DefaultFilter.is_source_file
|}.

(** ** [spojit/io.py]: [build_project_users] and the similarity handlers *)

Module IO.

Record TextSimilarityHandler : Type := {
  code_to_issue_lsi : string -> string -> string -> option Q;
  code_to_issue_vsm_ngram : string -> string -> string -> option Q;
  commit_to_issue_vsm_ngram : string -> string -> option Q
}.

Record TraceSimilarityHandler : Type := {
  trace_metric : string -> string -> string -> option Q
}.

(** the handlers that always return [None]; [TextSimilarityHandler()] and
    [TraceSimilarityHandler()] without arguments fall back to them *)
Definition _NoneI2OHandler : string -> string -> option Q := fun _ _ => None.
Definition _NoneI2CHandler : string -> string -> string -> option Q :=
  fun _ _ _ => None.

Definition no_text_similarity : TextSimilarityHandler :=
  {| code_to_issue_lsi := _NoneI2CHandler;
     code_to_issue_vsm_ngram := _NoneI2CHandler;
     commit_to_issue_vsm_ngram := _NoneI2OHandler |}.

Definition no_trace_similarity : TraceSimilarityHandler :=
  {| trace_metric := _NoneI2CHandler |}.

(** [raw[key].update([value])] on a [defaultdict(set)] *)
Definition raw_update (key value : string) (raw : dict string (list string))
  : dict string (list string) :=
  match dict_get key raw with
  | Some values => dict_set key (set_add value values) raw
  | None => dict_set key [value] raw
  end.

Section SetOrder.

(** the order in which this process iterates over a [set] of strings
    holding the given elements *)
Variable set_order : list string -> list string.

Definition _flatten (d : dict string (list string)) : list (string * string) :=
  flat_map (fun '(key, values) => map (pair key) (set_order values)) d.

Definition by_name (a b : string * string) : bool := String.leb (fst a) (fst b).

Definition build_project_users (project_data : DataSource)
  : result UserModel.ProjectUsers :=
  let jira_raw :=
    fold_left (fun raw issue =>
                 if truthy (assignee issue)
                 then raw_update (default "" (assignee issue))
                                 (assignee_username issue) raw
                 else raw)
              (issues project_data) [] in
  let git_raw :=
    fold_left (fun raw commit =>
                 raw_update (author commit) (author_email commit) raw)
              (change_sets project_data) [] in
  let jira_users := stable_sort by_name (_flatten jira_raw) in
  let git_users := stable_sort by_name (_flatten git_raw) in
  UserModel.run jira_users git_users.

End SetOrder.

End IO.

(** ** [spojit/event.py] *)

Module EventPkg.

Inductive Event : Type :=
| JiraEvent (date_time : string) (time_stamp : Z) (issue_id action : string)
| GitEvent (date_time : string) (time_stamp : Z) (commit_hash : string).

Definition time_stamp (e : Event) : Z :=
  match e with
  | JiraEvent _ t _ _ => t
  | GitEvent _ t _ => t
  end.

Definition _DATE_TIME_FAR_IN_FUTURE : string := "2030-12-31T23:59:59Z".

Definition TIME_STAMP_OFFSET : Z := -946684800.

(** the offsets that [EventStreamCreator.__init__] sets *)
Record EventStreamCreator : Type := {
  jira_create_offset_seconds : Z;
  jira_resolve_offset_seconds : Z;
  git_commit_offset_seconds : Z
}.

Definition new_creator : EventStreamCreator :=
  {| jira_create_offset_seconds := 0;
     jira_resolve_offset_seconds := 30 * 60;
     git_commit_offset_seconds := 0 |}.

Section LocalTime.

Variable utc_offset : Z -> Z.

Definition _new_issue_created_event (offset : Z) (issue : Issue) : result Event :=
  let created_date := created_date issue in
  t ← Util.date_time_to_timestamp utc_offset created_date;
  Ok (JiraEvent created_date (t + offset) (id issue) "create").

Definition _new_issue_resolved_event (offset : Z) (issue : Issue) : result Event :=
  let resolved_date :=
    if truthy (resolved_date issue)
    then default "" (resolved_date issue)
    else _DATE_TIME_FAR_IN_FUTURE in
  t ← Util.date_time_to_timestamp utc_offset resolved_date;
  Ok (JiraEvent resolved_date (t + offset) (id issue) "resolve").

Definition _new_git_event (offset : Z) (commit : ChangeSet) : result Event :=
  let committed_date := committed_date commit in
  t ← Util.date_time_to_timestamp utc_offset committed_date;
  Ok (GitEvent committed_date (t + offset) (commit_hash commit)).

Fixpoint jira_events_of (create_offset resolve_offset : Z) (l : list Issue)
  : result (list Event) :=
  match l with
  | [] => Ok []
  | issue :: l' =>
      c ← _new_issue_created_event create_offset issue;
      r ← _new_issue_resolved_event resolve_offset issue;
      es ← jira_events_of create_offset resolve_offset l';
      Ok (c :: r :: es)
  end.

Definition generate_jira_events (esc : EventStreamCreator) (data_source : DataSource)
  : result (list Event) :=
  let create_offset := jira_create_offset_seconds esc + TIME_STAMP_OFFSET in
  let resolve_offset := jira_resolve_offset_seconds esc + TIME_STAMP_OFFSET in
  jira_events_of create_offset resolve_offset (issues data_source).

Definition generate_git_events (esc : EventStreamCreator) (data_source : DataSource)
  : result (list Event) :=
  let offset := git_commit_offset_seconds esc + TIME_STAMP_OFFSET in
  mapM (_new_git_event offset) (change_sets data_source).

Definition by_time_stamp (a b : Event) : bool := time_stamp a <=? time_stamp b.

(** [generate]: the value of [self.event_stream] afterwards *)
Definition generate (esc : EventStreamCreator) (data_source : DataSource)
  : result (list Event) :=
  jira_events ← generate_jira_events esc data_source;
  git_events ← generate_git_events esc data_source;
  Ok (stable_sort by_time_stamp (jira_events ++ git_events)).

End LocalTime.

End EventPkg.

(** ** [spojit/sample.py]: [TrainingSample] *)

Record LinkedCommit : Type := {
  time_difference : option Z;
  resource_overlap : option Q;
  committer_user_id : option nat
}.

Definition no_linked_commit : LinkedCommit :=
  {| time_difference := None; resource_overlap := None;
     committer_user_id := None |}.

Record TrainingSample : Type := {
  date_time : string;
  f00_commit_hash : string;
  f01_issue_id : string;
  f99_is_linked : bool;
  f03_commit_user_id : nat;
  f04_issue_user_id : nat;
  f06_is_commit_within_issue_life_time : option bool;
  f07_09_previous_linked_commit : LinkedCommit;
  f11_num_commits_to_this_issues : nat;
  f12_num_open_issues_at_commit_time : nat;
  f13_num_open_issues_from_committer_at_commit_time : nat;
  f14_time_difference_issue_creation_and_commit : Z;
  f15_time_difference_commit_and_issue_resolve : option Z;
  f17_19_next_linked_commit : LinkedCommit;
  f30_max_similarity_code_to_issue_lsi : Q;
  f31_max_similarity_code_to_issue_vsm_with_ngram : Q;
  f32_similarity_commit_to_issue_vsm_with_ngram : Q;
  f40_max_trace_similarity : Q
}.

(** [sample.f06_is_commit_within_issue_life_time = b] *)
Definition set_f06 (b : bool) (s : TrainingSample) : TrainingSample :=
  {| date_time := date_time s;
     f00_commit_hash := f00_commit_hash s;
     f01_issue_id := f01_issue_id s;
     f99_is_linked := f99_is_linked s;
     f03_commit_user_id := f03_commit_user_id s;
     f04_issue_user_id := f04_issue_user_id s;
     f06_is_commit_within_issue_life_time := Some b;
     f07_09_previous_linked_commit := f07_09_previous_linked_commit s;
     f11_num_commits_to_this_issues := f11_num_commits_to_this_issues s;
     f12_num_open_issues_at_commit_time := f12_num_open_issues_at_commit_time s;
     f13_num_open_issues_from_committer_at_commit_time :=
       f13_num_open_issues_from_committer_at_commit_time s;
     f14_time_difference_issue_creation_and_commit :=
       f14_time_difference_issue_creation_and_commit s;
     f15_time_difference_commit_and_issue_resolve :=
       f15_time_difference_commit_and_issue_resolve s;
     f17_19_next_linked_commit := f17_19_next_linked_commit s;
     f30_max_similarity_code_to_issue_lsi := f30_max_similarity_code_to_issue_lsi s;
     f31_max_similarity_code_to_issue_vsm_with_ngram :=
       f31_max_similarity_code_to_issue_vsm_with_ngram s;
     f32_similarity_commit_to_issue_vsm_with_ngram :=
       f32_similarity_commit_to_issue_vsm_with_ngram s;
     f40_max_trace_similarity := f40_max_trace_similarity s |}.

(** ** [spojit/profile.py] *)

Module Profile.

(** *** [IssueLifeTimeManager] *)

Record IssueLifeTimeManager : Type := {
  resolved_issues : list string;
  current_open_issues : list string
}.

Definition new_manager : IssueLifeTimeManager :=
  {| resolved_issues := []; current_open_issues := [] |}.

Definition create_issue (issue_id : string) (m : IssueLifeTimeManager)
  : IssueLifeTimeManager :=
  if mem issue_id (current_open_issues m) then m
  else {| resolved_issues := resolved_issues m;
          current_open_issues := current_open_issues m ++ [issue_id] |}.

Definition resolve_issue (issue_id : string) (m : IssueLifeTimeManager)
  : IssueLifeTimeManager :=
  let current_open_issues' :=
    filter (fun e => e <> issue_id) (current_open_issues m) in
  if mem issue_id (resolved_issues m)
  then {| resolved_issues := resolved_issues m;
          current_open_issues := current_open_issues' |}
  else {| resolved_issues := resolved_issues m ++ [issue_id];
          current_open_issues := current_open_issues' |}.

(** *** Filtering and preparing the data source *)

Definition with_file_path (fp : list string) (c : ChangeSet) : ChangeSet :=
  {| author := author c; author_email := author_email c;
     commit_hash := commit_hash c; committed_date := committed_date c;
     file_path := fp; to_predict := to_predict c |}.

Definition _filter_change_sets (change_sets : list ChangeSet)
  (artifact_filter : ArtifactFilter) : list ChangeSet :=
  flat_map (fun commit =>
              let mod_commit :=
                with_file_path
                  (filter (fun f => @is_source_file artifact_filter f = true)
                          (file_path commit))
                  commit in
              if @is_relevant_commit artifact_filter mod_commit
              then [mod_commit] else [])
           change_sets.

Definition add_mapped_type (artifact_filter : ArtifactFilter) (issue : Issue)
  : Issue :=
  {| id := id issue; created_date := created_date issue;
     resolved_date := resolved_date issue; issue_type := issue_type issue;
     status := status issue; resolution := resolution issue;
     assignee := assignee issue; assignee_username := assignee_username issue;
     mapped_type := @issue_type_to_category artifact_filter issue |}.

Definition _mark_as_to_predict (d : ChangeSet) : ChangeSet :=
  {| author := author d; author_email := author_email d;
     commit_hash := commit_hash d; committed_date := committed_date d;
     file_path := file_path d; to_predict := true |}.

Definition _is_marked_as_to_predict (d : ChangeSet) : bool := to_predict d.

Definition _all_linked_changed_sets (ds : DataSource) : gset string :=
  list_to_set (flat_map snd (issue_to_change_set ds)).

Section SetOrder.

Variable set_order : list string -> list string.

(** [used_change_set_ids.intersection(commits)] keeps the elements of
    [commits] that are in the set; [list(valid_ids)] iterates over it *)
Definition _filter_data_source (data_source : DataSource)
  (artifact_filter : ArtifactFilter) : DataSource :=
  let issues' :=
    map (add_mapped_type artifact_filter)
        (filter (fun i => @is_relevant_issue artifact_filter i = true)
                (issues data_source)) in
  let used_issue_ids := map id issues' in
  let change_sets' :=
    _filter_change_sets (change_sets data_source) artifact_filter in
  let used_change_set_ids := map commit_hash change_sets' in
  let issue_to_change_set' :=
    fold_left
      (fun acc '(issue_id, commits) =>
         if negb (mem issue_id used_issue_ids) then acc
         else
           let valid_ids :=
             set_of_list
               (filter (fun c => mem c used_change_set_ids = true) commits) in
           match valid_ids with
           | [] => acc
           | _ :: _ => dict_set issue_id (set_order valid_ids) acc
           end)
      (issue_to_change_set data_source) [] in
  {| issues := issues'; issue_to_change_set := issue_to_change_set';
     change_sets := change_sets' |}.

Definition _prepare_data_source (data_source : DataSource)
  (new_change_sets : list ChangeSet) : result DataSource :=
  let history_commit_hashes := map commit_hash (change_sets data_source) in
  let overlap :=
    filter (fun h => mem h history_commit_hashes = true)
           (map commit_hash new_change_sets) in
  match overlap with
  | _ :: _ => Raise ValueError
  | [] =>
      let marked_change_sets := map _mark_as_to_predict new_change_sets in
      let tmp_data_source :=
        {| issues := issues data_source;
           issue_to_change_set := issue_to_change_set data_source;
           change_sets := change_sets data_source ++ marked_change_sets |} in
      Ok (_filter_data_source tmp_data_source default_filter)
  end.

End SetOrder.

(** *** [ProfileGenerator] *)

(** the copies that the look-ups hold, with the key ["user_id"] added *)
Record IssueEntry : Type := {
  issue_of : Issue;
  issue_user_id : nat
}.

Record ChangeSetEntry : Type := {
  change_set_of : ChangeSet;
  change_set_user_id : nat
}.

Record ProfileGenerator : Type := {
  data_source : DataSource;
  esc : EventPkg.EventStreamCreator;
  allowed_issue_types : list string;
  text_similarity_handler : IO.TextSimilarityHandler;
  trace_handler : IO.TraceSimilarityHandler;
  issue_manager : IssueLifeTimeManager;
  project_users : UserModel.ProjectUsers;
  unknown_jira_user_id : nat;
  unknown_git_user_id : nat;
  issue_id_to_issue : gmap string IssueEntry;
  commit_hash_to_change_set : gmap string ChangeSetEntry;
  commit_hash_to_issue_ids : gmap string (list string);
  linked_change_sets_unconstrained : gset string
}.

Definition MAX_DIFFERENCE_BETWEEN_RESOLVED_AND_COMMITTED_SEC : Q :=
  (15 # 10) * 24 * 3600.

Definition NO_SIMILARITY : Q := 0.

(** [x in self.allowed_issue_types] for a mapped type, which may be [None] *)
Definition allowed (self : ProfileGenerator) (mapped : option string) : bool :=
  match mapped with
  | Some t => mem t (allowed_issue_types self)
  | None => false
  end.

(** [user_id = get_link_id(...); if user_id is None: user_id = unknown] *)
Definition link_id_or (pu : UserModel.ProjectUsers) (user_name team_name : string)
  (unknown : nat) : result nat :=
  user_id ← UserModel.get_link_id pu user_name team_name;
  Ok (default unknown user_id).

Definition build_issue_lookup (self : ProfileGenerator)
  : result (gmap string IssueEntry) :=
  foldl (fun acc raw_issue =>
           result ← acc;
           if negb (allowed self (mapped_type raw_issue)) then Ok result
           else
             user_id ← link_id_or (project_users self)
                          (assignee_username raw_issue) "jira"
                          (unknown_jira_user_id self);
             Ok (<[id raw_issue :=
                     {| issue_of := raw_issue; issue_user_id := user_id |}]>
                   result))
        (Ok ∅) (issues (data_source self)).

Definition build_change_set_lookup (self : ProfileGenerator)
  : result (gmap string ChangeSetEntry) :=
  foldl (fun acc raw_commit =>
           result ← acc;
           user_id ← link_id_or (project_users self)
                        (author_email raw_commit) "git"
                        (unknown_git_user_id self);
           Ok (<[commit_hash raw_commit :=
                   {| change_set_of := raw_commit;
                      change_set_user_id := user_id |}]> result))
        (Ok ∅) (change_sets (data_source self)).

Definition build_change_set_issue_inverse_lookup (self : ProfileGenerator)
  : gmap string (list string) :=
  foldl (fun hash_to_issue_ids '(issue_id, data) =>
           foldl (fun hash_to_issue_ids commit_hash =>
                    match hash_to_issue_ids !! commit_hash with
                    | Some issues =>
                        if negb (mem issue_id issues)
                        then <[commit_hash := issues ++ [issue_id]]>
                               hash_to_issue_ids
                        else hash_to_issue_ids
                    | None => <[commit_hash := [issue_id]]> hash_to_issue_ids
                    end)
                 hash_to_issue_ids data)
        ∅ (issue_to_change_set (data_source self)).

Definition is_relevant_event (self : ProfileGenerator) (event : EventPkg.Event)
  : bool :=
  match event with
  | EventPkg.GitEvent _ _ commit_hash =>
      match commit_hash_to_issue_ids self !! commit_hash with
      | None =>
          if bool_decide (commit_hash ∈ linked_change_sets_unconstrained self)
          then false else true
      | Some linked_issues =>
          existsb (fun issue_id =>
                     match issue_id_to_issue self !! issue_id with
                     | Some issue => allowed self (mapped_type (issue_of issue))
                     | None => false
                     end)
                  linked_issues
      end
  | EventPkg.JiraEvent _ _ issue_id _ =>
      match issue_id_to_issue self !! issue_id with
      | None => false
      | Some issue => allowed self (mapped_type (issue_of issue))
      end
  end.

Definition get_number_of_links_to_issue_before (self : ProfileGenerator)
  (issue_id date_time_before : string) : nat :=
  let linked_commit_hashes :=
    default [] (dict_get issue_id (issue_to_change_set (data_source self))) in
  length
    (List.filter
       (fun commit_hash =>
          match commit_hash_to_change_set self !! commit_hash with
          | Some commit =>
              String.ltb (committed_date (change_set_of commit)) date_time_before
          | None => false
          end)
       linked_commit_hashes).

Definition get_number_of_currently_open_issues_assigned_to_user
  (self : ProfileGenerator) (user_id : nat) : nat :=
  length
    (List.filter
       (fun issue_id =>
          match issue_id_to_issue self !! issue_id with
          | Some issue => Nat.eqb user_id (issue_user_id issue)
          | None => false
          end)
       (current_open_issues (issue_manager self))).

Definition Qltb (a b : Q) : bool := negb (Qle_bool b a).

(** [max(values, default=default)]: the first of the largest values *)
Definition py_max (values : list Q) (default : Q) : Q :=
  match values with
  | [] => default
  | v :: vs => fold_left (fun m x => if Qltb m x then x else m) vs v
  end.

Definition _get_maximum_text_similarity
  (handler : string -> string -> string -> option Q)
  (issue_id commit_hash : string) (file_paths : list string) (default : Q) : Q :=
  let get_sim file_path := handler issue_id commit_hash file_path in
  let sim_values := map get_sim file_paths in
  py_max (omap (fun val => val) sim_values) default.

Definition by_committed_date (a b : ChangeSetEntry) : bool :=
  String.leb (committed_date (change_set_of a)) (committed_date (change_set_of b)).

Fixpoint takewhile {A : Type} (p : A -> bool) (l : list A) : list A :=
  match l with
  | [] => []
  | x :: l' => if p x then x :: takewhile p l' else []
  end.

Fixpoint dropwhile {A : Type} (p : A -> bool) (l : list A) : list A :=
  match l with
  | [] => []
  | x :: l' => if p x then dropwhile p l' else l
  end.

Section LocalTime.

Variable utc_offset : Z -> Z.

Abbreviation date_time_to_timestamp := (Util.date_time_to_timestamp utc_offset).

(** one of the two blocks that fill a neighbour descriptor; [sign] is 1
    for the previous commit ([t1 - t2]) and -1 for the next ([t2 - t1]) *)
Definition neighbour (sign : Z) (commit other : ChangeSetEntry)
  : result LinkedCommit :=
  t1 ← date_time_to_timestamp (committed_date (change_set_of commit));
  t2 ← date_time_to_timestamp (committed_date (change_set_of other));
  let overlap :=
    Resource.resource_similarity
      (Resource.AsList (file_path (change_set_of commit)))
      (Resource.AsList (file_path (change_set_of other))) in
  Ok {| time_difference := Some (sign * (t1 - t2));
        resource_overlap := Some overlap;
        committer_user_id := Some (change_set_user_id other) |}.

(** the values of [f07_09_previous_linked_commit] and
    [f17_19_next_linked_commit] after the call *)
Definition check_previous_and_next_commits (self : ProfileGenerator)
  (commit : ChangeSetEntry) (issue : IssueEntry)
  : result (LinkedCommit * LinkedCommit) :=
  let linked_commit_hashes :=
    default [] (dict_get (id (issue_of issue))
                         (issue_to_change_set (data_source self))) in
  let linked_commits :=
    omap (fun h => commit_hash_to_change_set self !! h) linked_commit_hashes in
  match linked_commits with
  | [] => Ok (no_linked_commit, no_linked_commit)
  | _ :: _ =>
      let sorted_linked_commits := stable_sort by_committed_date linked_commits in
      let committed_date' := committed_date (change_set_of commit) in
      let previous_commits :=
        takewhile (fun c => String.ltb (committed_date (change_set_of c))
                                        committed_date')
                  sorted_linked_commits in
      let next_commits :=
        dropwhile (fun c => String.leb (committed_date (change_set_of c))
                                        committed_date')
                  sorted_linked_commits in
      prev ←
        match last previous_commits with
        | Some previous_commit => neighbour 1 commit previous_commit
        | None => Ok no_linked_commit
        end;
      next ←
        match head next_commits with
        | Some next_commit => neighbour (-1) commit next_commit
        | None => Ok no_linked_commit
        end;
      Ok (prev, next)
  end.

Definition create_training_sample (self : ProfileGenerator)
  (commit : ChangeSetEntry) (issue : IssueEntry) : result TrainingSample :=
  let commit_hash := commit_hash (change_set_of commit) in
  let issue_id := id (issue_of issue) in
  let is_linked :=
    match commit_hash_to_issue_ids self !! commit_hash with
    | Some linked_issue_ids => mem issue_id linked_issue_ids
    | None => false
    end in
  let f11 :=
    get_number_of_links_to_issue_before self issue_id
      (committed_date (change_set_of commit)) in
  let f12 := length (current_open_issues (issue_manager self)) in
  let f13 :=
    get_number_of_currently_open_issues_assigned_to_user self
      (change_set_user_id commit) in
  if negb (f13 <=? f12)%nat then Raise AssertionError
  else
    t1 ← date_time_to_timestamp (created_date (issue_of issue));
    t2 ← date_time_to_timestamp (committed_date (change_set_of commit));
    f15 ←
      (if truthy (resolved_date (issue_of issue))
       then t3 ← date_time_to_timestamp
                   (default "" (resolved_date (issue_of issue)));
            Ok (Some (t3 - t2))
       else Ok None);
    let committed_file_paths := file_path (change_set_of commit) in
    let f30 :=
      _get_maximum_text_similarity
        (IO.code_to_issue_lsi (text_similarity_handler self))
        issue_id commit_hash committed_file_paths NO_SIMILARITY in
    let f31 :=
      _get_maximum_text_similarity
        (IO.code_to_issue_vsm_ngram (text_similarity_handler self))
        issue_id commit_hash committed_file_paths NO_SIMILARITY in
    let f32 :=
      default NO_SIMILARITY
        (IO.commit_to_issue_vsm_ngram (text_similarity_handler self)
           issue_id commit_hash) in
    let f40 :=
      _get_maximum_text_similarity (IO.trace_metric (trace_handler self))
        issue_id commit_hash committed_file_paths NO_SIMILARITY in
    '(prev, next) ← check_previous_and_next_commits self commit issue;
    Ok {| date_time := committed_date (change_set_of commit);
          f00_commit_hash := commit_hash;
          f01_issue_id := issue_id;
          f99_is_linked := is_linked;
          f03_commit_user_id := change_set_user_id commit;
          f04_issue_user_id := issue_user_id issue;
          f06_is_commit_within_issue_life_time := None;
          f07_09_previous_linked_commit := prev;
          f11_num_commits_to_this_issues := f11;
          f12_num_open_issues_at_commit_time := f12;
          f13_num_open_issues_from_committer_at_commit_time := f13;
          f14_time_difference_issue_creation_and_commit := t2 - t1;
          f15_time_difference_commit_and_issue_resolve := f15;
          f17_19_next_linked_commit := next;
          f30_max_similarity_code_to_issue_lsi := f30;
          f31_max_similarity_code_to_issue_vsm_with_ngram := f31;
          f32_similarity_commit_to_issue_vsm_with_ngram := f32;
          f40_max_trace_similarity := f40 |}.

(** the three loops of [create_samples_for_change_set] *)

Fixpoint linked_samples (self : ProfileGenerator) (commit : ChangeSetEntry)
  (linked_issue_ids : list string) : result (list TrainingSample) :=
  match linked_issue_ids with
  | [] => Ok []
  | issue_id :: rest =>
      match issue_id_to_issue self !! issue_id with
      | Some issue =>
          if allowed self (mapped_type (issue_of issue)) then
            sample ← create_training_sample self commit issue;
            let sample :=
              set_f06 (mem issue_id (current_open_issues (issue_manager self)))
                      sample in
            samples ← linked_samples self commit rest;
            Ok (sample :: samples)
          else linked_samples self commit rest
      | None => linked_samples self commit rest
      end
  end.

Fixpoint open_samples (self : ProfileGenerator) (commit : ChangeSetEntry)
  (open_issue_ids : list string) : result (list TrainingSample) :=
  match open_issue_ids with
  | [] => Ok []
  | issue_id :: rest =>
      match issue_id_to_issue self !! issue_id with
      | None => open_samples self commit rest
      | Some issue =>
          sample ← create_training_sample self commit issue;
          samples ← open_samples self commit rest;
          Ok (set_f06 true sample :: samples)
      end
  end.

Fixpoint resolved_samples (self : ProfileGenerator) (commit : ChangeSetEntry)
  (commit_time_stamp : Z) (resolved_issue_ids : list string)
  : result (list TrainingSample) :=
  match resolved_issue_ids with
  | [] => Ok []
  | issue_id :: rest =>
      match issue_id_to_issue self !! issue_id with
      | None => resolved_samples self commit commit_time_stamp rest
      | Some issue =>
          resolved_time_stamp ←
            Util.date_time_to_timestamp_opt utc_offset
              (resolved_date (issue_of issue));
          let diff_sec := Z.abs (commit_time_stamp - resolved_time_stamp) in
          if Qltb (inject_Z diff_sec)
                  MAX_DIFFERENCE_BETWEEN_RESOLVED_AND_COMMITTED_SEC
          then
            sample ← create_training_sample self commit issue;
            samples ← resolved_samples self commit commit_time_stamp rest;
            Ok (set_f06 false sample :: samples)
          else resolved_samples self commit commit_time_stamp rest
      end
  end.

Definition unlinked_samples (self : ProfileGenerator) (commit : ChangeSetEntry)
  : result (list TrainingSample) :=
  active ← open_samples self commit (current_open_issues (issue_manager self));
  commit_time_stamp ←
    date_time_to_timestamp (committed_date (change_set_of commit));
  previous ← resolved_samples self commit commit_time_stamp
               (resolved_issues (issue_manager self));
  Ok (active ++ previous).

Definition create_samples_for_change_set (self : ProfileGenerator)
  (commit_hash : string) : result (list TrainingSample) :=
  match commit_hash_to_change_set self !! commit_hash with
  | None => Raise ValueError
  | Some commit =>
      let is_training := negb (_is_marked_as_to_predict (change_set_of commit)) in
      if is_training then
        match commit_hash_to_issue_ids self !! commit_hash with
        | Some (issue_id :: rest) =>
            linked_samples self commit (issue_id :: rest)
        | _ => unlinked_samples self commit
        end
      else unlinked_samples self commit
  end.

(** *** [run] *)

Definition with_manager (m : IssueLifeTimeManager) (self : ProfileGenerator)
  : ProfileGenerator :=
  {| data_source := data_source self; esc := esc self;
     allowed_issue_types := allowed_issue_types self;
     text_similarity_handler := text_similarity_handler self;
     trace_handler := trace_handler self;
     issue_manager := m;
     project_users := project_users self;
     unknown_jira_user_id := unknown_jira_user_id self;
     unknown_git_user_id := unknown_git_user_id self;
     issue_id_to_issue := issue_id_to_issue self;
     commit_hash_to_change_set := commit_hash_to_change_set self;
     commit_hash_to_issue_ids := commit_hash_to_issue_ids self;
     linked_change_sets_unconstrained := linked_change_sets_unconstrained self |}.

Definition with_lookups (i : gmap string IssueEntry)
  (c : gmap string ChangeSetEntry) (l : gmap string (list string))
  (self : ProfileGenerator) : ProfileGenerator :=
  {| data_source := data_source self; esc := esc self;
     allowed_issue_types := allowed_issue_types self;
     text_similarity_handler := text_similarity_handler self;
     trace_handler := trace_handler self;
     issue_manager := issue_manager self;
     project_users := project_users self;
     unknown_jira_user_id := unknown_jira_user_id self;
     unknown_git_user_id := unknown_git_user_id self;
     issue_id_to_issue := i;
     commit_hash_to_change_set := c;
     commit_hash_to_issue_ids := l;
     linked_change_sets_unconstrained := linked_change_sets_unconstrained self |}.

(** the two collectors *)
Record Collectors : Type := {
  data_source_collector : list TrainingSample;
  to_predict_collector : list TrainingSample
}.

(** one iteration of the loop over the event stream *)
Definition step (st : ProfileGenerator * Collectors) (event : EventPkg.Event)
  : result (ProfileGenerator * Collectors) :=
  let '(self, out) := st in
  if negb (is_relevant_event self event) then Ok st
  else
    match event with
    | EventPkg.JiraEvent _ _ issue_id action =>
        if String.eqb action "create" then
          Ok (with_manager (create_issue issue_id (issue_manager self)) self, out)
        else if String.eqb action "resolve" then
          Ok (with_manager (resolve_issue issue_id (issue_manager self)) self, out)
        else Raise RuntimeError
    | EventPkg.GitEvent _ _ commit_hash =>
        samples ← create_samples_for_change_set self commit_hash;
        match commit_hash_to_change_set self !! commit_hash with
        | None => Raise KeyError
        | Some commit =>
            if _is_marked_as_to_predict (change_set_of commit) then
              Ok (self,
                  {| data_source_collector := data_source_collector out;
                     to_predict_collector := to_predict_collector out ++ samples |})
            else
              Ok (self,
                  {| data_source_collector := data_source_collector out ++ samples;
                     to_predict_collector := to_predict_collector out |})
        end
    end.

Fixpoint replay (st : ProfileGenerator * Collectors)
  (event_stream : list EventPkg.Event) : result (ProfileGenerator * Collectors) :=
  match event_stream with
  | [] => Ok st
  | event :: rest => st' ← step st event; replay st' rest
  end.

Definition no_samples : Collectors :=
  {| data_source_collector := []; to_predict_collector := [] |}.

(** the state in which the loop of [run] starts *)
Definition prepare_run (self : ProfileGenerator)
  : result (ProfileGenerator * list EventPkg.Event) :=
  event_stream ← EventPkg.generate utc_offset (esc self) (data_source self);
  i ← build_issue_lookup self;
  c ← build_change_set_lookup self;
  let l := build_change_set_issue_inverse_lookup self in
  Ok (with_lookups i c l self, event_stream).

Definition run (self : ProfileGenerator) : result Collectors :=
  '(self', event_stream) ← prepare_run self;
  '(_, out) ← replay (self', no_samples) event_stream;
  Ok out.

Section SetOrder.

Variable set_order : list string -> list string.

(** [ProfileGenerator.__init__] *)
Definition init (data_source : DataSource)
  (change_sets_to_predict : list ChangeSet)
  (text_similarity_handler : IO.TextSimilarityHandler)
  (trace_handler : IO.TraceSimilarityHandler) (issue_types : list string)
  : result ProfileGenerator :=
  data_source' ←
    _prepare_data_source set_order data_source change_sets_to_predict;
  project_users ← IO.build_project_users set_order data_source';
  Ok {| Profile.data_source := data_source';
        esc := EventPkg.new_creator;
        allowed_issue_types := issue_types;
        Profile.text_similarity_handler := text_similarity_handler;
        Profile.trace_handler := trace_handler;
        issue_manager := new_manager;
        Profile.project_users := project_users;
        unknown_jira_user_id := UserModel.len project_users;
        unknown_git_user_id := (UserModel.len project_users + 1)%nat;
        issue_id_to_issue := ∅;
        commit_hash_to_change_set := ∅;
        commit_hash_to_issue_ids := ∅;
        linked_change_sets_unconstrained :=
          _all_linked_changed_sets data_source |}.

(** the sampling pipeline: construct the generator and run it *)
Definition pipeline (data_source : DataSource)
  (change_sets_to_predict : list ChangeSet)
  (text_similarity_handler : IO.TextSimilarityHandler)
  (trace_handler : IO.TraceSimilarityHandler) (issue_types : list string)
  : result Collectors :=
  self ← init data_source change_sets_to_predict text_similarity_handler
              trace_handler issue_types;
  run self.

End SetOrder.

End LocalTime.

End Profile.

(** ** [spojit/weka.py]: attributes, instances and data sets *)

Module Weka.

Inductive att_type_t : Set :=
| ATT_TYPE_NUMERIC
| ATT_TYPE_NOMINAL
| ATT_TYPE_STRING.

Record Attribute : Type := {
  name : string;
  att_type : att_type_t;
  description : option string;
  nominal_values : option (list string)
}.

Definition create_numeric_attribute (name : string) (desc : option string)
  : Attribute :=
  {| name := name; att_type := ATT_TYPE_NUMERIC; description := desc;
     nominal_values := None |}.

Definition create_string_attribute (name : string) (desc : option string)
  : Attribute :=
  {| name := name; att_type := ATT_TYPE_STRING; description := desc;
     nominal_values := None |}.

Definition create_nominal_attribute (name : string) (values : list string)
  (desc : option string) : Attribute :=
  {| name := name; att_type := ATT_TYPE_NOMINAL; description := desc;
     nominal_values := Some values |}.

(** a value of an instance: [None], a number or a text *)
Inductive Value : Type :=
| VNone
| VNum (q : Q)
| VStr (s : string).

Record Instances : Type := {
  relation_name : string;
  attributes : list Attribute;
  values : list (list Value)
}.

Definition create_dataset (relation_name : string) (attributes : list Attribute)
  : Instances :=
  {| relation_name := relation_name; attributes := attributes; values := [] |}.

Definition add_instance (dataset : Instances) (instance : list Value)
  : result Instances :=
  if negb (length instance =? length (attributes dataset))%nat
  then Raise AssertionError
  else Ok {| relation_name := relation_name dataset;
             attributes := attributes dataset;
             values := values dataset ++ [instance] |}.

End Weka.

(** ** [spojit/sample.py]: the export of the records *)

Module Sample.
Import Weka.

Definition NOMINAL_TRUE_FALSE_VALUES : list string := ["t"; "f"]%string.
Definition NOMINAL_CLASS : list string := ["linked"; "non_linked"]%string.

Definition _weka_att_num (name desc : string) : Attribute :=
  create_numeric_attribute name (Some desc).
Definition _weka_att_nom (name : string) (values : list string) (desc : string)
  : Attribute :=
  create_nominal_attribute name values (Some desc).
Definition _weka_att_str (name desc : string) : Attribute :=
  create_string_attribute name (Some desc).

Definition CLOSENESS_PREVIOUS_LINKED_COMMIT_SEC : Z := 2 * 24 * 3600.
Definition CLOSENESS_NEXT_LINKED_COMMIT_SEC : Z := 2 * 24 * 3600.
Definition CLOSENESS_TO_ISSUE_RESOLUTION_SEC : Q := (25 # 10) * 24 * 3600.

Definition SPOJIT_ATTRIBUTES : list Attribute :=
  [
    _weka_att_num "sample_id"
      "XX just for orientation";
    _weka_att_str "commit_hash"
      "00: just for orientation";
    _weka_att_str "issue_id"
      "01: just for orientation";
    _weka_att_num "commit_user_id"
      "03: committer of the change set";
    _weka_att_num "issue_user_id"
      "04: assignee of the issues";
    _weka_att_nom "assignee_is_committer" NOMINAL_TRUE_FALSE_VALUES
      "05: are committer and assignee the same person";
    _weka_att_nom "is_commit_within_issue_lifetime" NOMINAL_TRUE_FALSE_VALUES
      "06: issue and commit existed at same time, i.e";
    _weka_att_num "previous_commit_time_difference"
      "07: time difference in seconds to a previous commit
    that was linked to the same issue [seconds]";
    _weka_att_nom "previous_commit_is_close" NOMINAL_TRUE_FALSE_VALUES
      "08: Was the previous to the same issue 'close'";
    _weka_att_num "previous_commit_resource_overlap"
      "09: resource overlap to previous commit
    that was linked to the same issue";
    _weka_att_nom "previous_commit_is_same_user" NOMINAL_TRUE_FALSE_VALUES
      "10: the committer of the previous commit linked
    to this issue is the current committer";
    _weka_att_num "number_existing_links_to_issue_at_commit_time"
      "11: number of existing links to the issue at commit time
    (excluding this commit, if it is linked)";
    _weka_att_num "number_of_open_issues_at_commit_time"
      "12: number of open issues at commit time";
    _weka_att_num "number_of_open_issues_at_commit_time_for_committer"
      "13: number of open issues at commit time assigned to committer";
    _weka_att_num "time_diff_issue_creation_and_commit"
      "14: seconds between issue creation and commit time [seconds]

       Issue life time: A ... B
       Commit time    : X

       -A------X------------B-----> time
        |<---->|
          X - A";
    _weka_att_num "time_diff_commit_and_issue_resolve"
      "15: seconds between the commit time and resolve of the issue

      Issue life time: A ... B
      Commit time    : X

      -A------X------------B-----> time
              |<---------->|
                   B - X";
    _weka_att_nom "is_committed_close_to_issue_resolve" NOMINAL_TRUE_FALSE_VALUES
      "16: commit occurred close to issue resolution

      Issue life time: A ... B
      Commit time    : X

      -A-----------X------B------X---------> time
                   |<---->|<---->|

          abs(B-X) < tolerance";
    _weka_att_num "next_commit_time_difference"
      "17: time difference in seconds to a next commit
    that was linked to the same issue [seconds]";
    _weka_att_nom "next_commit_is_close" NOMINAL_TRUE_FALSE_VALUES
      "18: Is the next commit to the same issue 'close'";
    _weka_att_num "next_commit_resource_overlap"
      "19: resource overlap to next commit
    that was linked to the same issue";
    _weka_att_nom "next_commit_is_same_user" NOMINAL_TRUE_FALSE_VALUES
      "20: the committer of the previous commit linked
    to this issue is the current committer";
    _weka_att_num "max_sim_code_to_issue_lsi"
      "30: maximum similarity of the source code files of  commit
    to the issue using LSI";
    _weka_att_num "max_sim_code_to_issue_vsm_ngram"
      "31: maximum similarity of the source code files of  commit
    to the issue using VSM with NGram";
    _weka_att_num "sim_commit_to_issue_vsm_ngram"
      "32: similarity of commit message to issue using VSM with NGram";
    _weka_att_num "max_trace_similarity"
      "40: Trace similarity metric";
    _weka_att_nom "class" NOMINAL_CLASS
      "99: Ground truth. is this commit linked to the issue"
  ]%string.

Definition _same_users (user_id_1 user_id_2 : option nat) : option bool :=
  match user_id_1, user_id_2 with
  | Some a, Some b => Some (Nat.eqb a b)
  | _, _ => None
  end.

Definition _to_nominal_bool (value : option bool) : Value :=
  match value with
  | None => VNone
  | Some b => VStr (if b then "t" else "f")
  end.

Definition num_of_nat (n : nat) : Value := VNum (inject_Z (Z.of_nat n)).
Definition num_of_Z (z : Z) : Value := VNum (inject_Z z).

(** a field that holds a number or [None] *)
Definition num_or_none {A : Type} (f : A -> Value) (o : option A) : Value :=
  match o with
  | Some a => f a
  | None => VNone
  end.

(** the time difference of a neighbour descriptor and its closeness *)
Definition time_difference_values (closeness : Z) (d : LinkedCommit) : list Value :=
  match time_difference d with
  | None => [VNone; VNone]
  | Some time_diff =>
      [num_of_Z time_diff; _to_nominal_bool (Some (time_diff <? closeness))]
  end.

Definition sample_to_weka_instance (sample : TrainingSample) : result (list Value) :=
  let instance_values :=
    [num_of_Z 0]
    ++ [VStr (f00_commit_hash sample); VStr (f01_issue_id sample);
        num_of_nat (f03_commit_user_id sample);
        num_of_nat (f04_issue_user_id sample);
        _to_nominal_bool (_same_users (Some (f03_commit_user_id sample))
                                      (Some (f04_issue_user_id sample)))]
    ++ [_to_nominal_bool (f06_is_commit_within_issue_life_time sample)]
    ++ time_difference_values CLOSENESS_PREVIOUS_LINKED_COMMIT_SEC
         (f07_09_previous_linked_commit sample)
    ++ [num_or_none VNum (resource_overlap (f07_09_previous_linked_commit sample))]
    ++ [_to_nominal_bool
          (_same_users (Some (f03_commit_user_id sample))
             (committer_user_id (f07_09_previous_linked_commit sample)))]
    ++ [num_of_nat (f11_num_commits_to_this_issues sample);
        num_of_nat (f12_num_open_issues_at_commit_time sample);
        num_of_nat (f13_num_open_issues_from_committer_at_commit_time sample)]
    ++ [num_of_Z (f14_time_difference_issue_creation_and_commit sample)]
    ++ [num_or_none num_of_Z (f15_time_difference_commit_and_issue_resolve sample)]
    ++ [match f15_time_difference_commit_and_issue_resolve sample with
        | None => VStr "f"
        | Some f15 =>
            let is_close :=
              negb (Qle_bool CLOSENESS_TO_ISSUE_RESOLUTION_SEC
                             (inject_Z (Z.abs f15))) in
            VStr (if is_close then "t" else "f")
        end]
    ++ time_difference_values CLOSENESS_NEXT_LINKED_COMMIT_SEC
         (f17_19_next_linked_commit sample)
    ++ [num_or_none VNum (resource_overlap (f17_19_next_linked_commit sample))]
    ++ [_to_nominal_bool
          (_same_users (Some (f03_commit_user_id sample))
             (committer_user_id (f17_19_next_linked_commit sample)))]
    ++ [VNum (f30_max_similarity_code_to_issue_lsi sample);
        VNum (f31_max_similarity_code_to_issue_vsm_with_ngram sample);
        VNum (f32_similarity_commit_to_issue_vsm_with_ngram sample)]
    ++ [VNum (f40_max_trace_similarity sample)]
    ++ [VStr (if f99_is_linked sample then "linked" else "non_linked")] in
  if negb (length instance_values =? length SPOJIT_ATTRIBUTES)%nat
  then Raise AssertionError
  else Ok instance_values.

(** [inst[0] = v] *)
Definition set_first (v : Value) (inst : list Value) : result (list Value) :=
  match inst with
  | [] => Raise IndexError
  | _ :: rest => Ok (v :: rest)
  end.

Definition create_weka_dataset (relation_name : string)
  (samples : list TrainingSample) : result Instances :=
  fold_left
    (fun acc s =>
       dataset ← acc;
       inst ← sample_to_weka_instance s;
       inst ← set_first (num_of_nat (length (values dataset) + 1)) inst;
       add_instance dataset inst)
    samples (Ok (create_dataset relation_name SPOJIT_ATTRIBUTES)).

End Sample.

(** * Properties *)

(** ** Definitions that the statements use *)

(** two local time zones: UTC, and two hours east of it *)
Definition tz_utc : Z -> Z := fun _ => 0.
Definition tz_plus2 : Z -> Z := fun _ => 7200.

(** two processes that iterate over equal sets in opposite orders *)
Definition order_a : list string -> list string := fun l => l.
Definition order_b : list string -> list string := @rev string.

(** *** Concrete data for the examples *)

Module Example.

Definition issue (id created : string) (resolved : option string) : Issue :=
  {| id := id; created_date := created; resolved_date := resolved;
     issue_type := "Bug";
     status := if truthy resolved then "Resolved" else "Open";
     resolution := if truthy resolved then Some "Fixed" else None;
     assignee := None; assignee_username := ""; mapped_type := None |}%string.

Definition commit (author email hash date : string) : ChangeSet :=
  {| author := author; author_email := email; commit_hash := hash;
     committed_date := date; file_path := ["src/a.java"%string];
     to_predict := false |}.

(** two issues, one of them resolved; three commits of the history, of
    which [c2] is linked to the first issue; and one commit to predict,
    which the link table links to the first issue as well *)
Definition history : DataSource :=
  {| issues :=
       [ issue "I-1" "2017-01-01T00:00:00Z" (Some "2017-01-05T00:00:00Z");
         issue "I-2" "2017-01-02T00:00:00Z" None ];
     issue_to_change_set := [ ("I-1", ["c2"; "p1"]) ];
     change_sets :=
       [ commit "Bob" "bob@x.org" "c1" "2017-01-03T00:00:00Z";
         commit "Bob" "bob@x.org" "c2" "2017-01-05T00:30:00Z";
         commit "Cid" "cid@x.org" "c3" "2017-01-10T00:00:00Z";
         commit "Cid" "cid@x.org" "c4" "2017-01-06T00:00:00Z" ] |}%string.

Definition to_predict : list ChangeSet :=
  [ commit "Cid" "cid@x.org" "p1" "2017-01-04T00:00:00Z" ]%string.

(** the generator for these data, after the preparations of [run] *)
Definition started : result (Profile.ProfileGenerator * list EventPkg.Event) :=
  self0 ← Profile.init order_a history to_predict
             IO.no_text_similarity IO.no_trace_similarity ["bug"%string];
  Profile.prepare_run tz_utc self0.

(** one issue and three unlinked commits; the second author name shares
    an e-mail address with the first and has another one of its own *)
Definition aliases : DataSource :=
  {| issues := [ issue "I-1" "2017-01-01T00:00:00Z" None ];
     issue_to_change_set := [];
     change_sets :=
       [ commit "Bob" "bob@x.org" "c1" "2017-01-02T00:00:00Z";
         commit "Robert" "bob@x.org" "c2" "2017-01-03T00:00:00Z";
         commit "Robert" "rob@y.org" "c3" "2017-01-04T00:00:00Z" ] |}%string.

(** one issue with three linked commits, two of them of the same instant *)
Definition same_instant : DataSource :=
  {| issues := [ issue "I-1" "2017-01-01T00:00:00Z" None ];
     issue_to_change_set := [ ("I-1", ["c1"; "c2"; "c3"]) ];
     change_sets :=
       [ commit "Bob" "bob@x.org" "c1" "2017-01-02T00:00:00Z";
         commit "Cid" "cid@x.org" "c2" "2017-01-02T00:00:00Z";
         commit "Bob" "bob@x.org" "c3" "2017-01-03T00:00:00Z" ] |}%string.

(** the identity fields of a record *)
Definition identities (s : TrainingSample)
  : string * string * nat * nat * option nat :=
  (f00_commit_hash s, f01_issue_id s, f03_commit_user_id s, f04_issue_user_id s,
   committer_user_id (f07_09_previous_linked_commit s)).

Definition training_identities (r : result Profile.Collectors)
  : list (string * string * nat * nat * option nat) :=
  match r with
  | Ok out => map identities (Profile.data_source_collector out)
  | Raise _ => []
  end.

(** what is read off a record in the examples *)
Definition view (s : TrainingSample) : string * string * option bool :=
  (f00_commit_hash s, f01_issue_id s, f06_is_commit_within_issue_life_time s).

End Example.

Module LifeTime.
Import Profile.

Inductive operation : Type :=
| CreateIssue (issue_id : string)
| ResolveIssue (issue_id : string).

Definition apply_operation (m : IssueLifeTimeManager) (op : operation)
  : IssueLifeTimeManager :=
  match op with
  | CreateIssue i => create_issue i m
  | ResolveIssue i => resolve_issue i m
  end.

(** the manager after a sequence of calls on a fresh one *)
Definition apply_operations (ops : list operation) : IssueLifeTimeManager :=
  fold_left apply_operation ops new_manager.

Definition in_both (m : IssueLifeTimeManager) (i : string) : Prop :=
  i ∈ current_open_issues m ∧ i ∈ resolved_issues m.

(** no [create_issue] of an id comes after a [resolve_issue] of that id *)
Definition no_create_after_resolve (ops : list operation) : Prop :=
  ∀ pre post i, ops = pre ++ CreateIssue i :: post → ResolveIssue i ∉ pre.

End LifeTime.

Module Identity.
Import UserModel.

Definition roster (pu : ProjectUsers) (team_name : string) : list Developer :=
  if String.eqb team_name "jira" then jira_team pu else git_team pu.

Definition side (team_name : string) (ld : LinkedDeveloper) : option nat :=
  if String.eqb team_name "jira" then jira_idx ld else git_idx ld.

(** the link has a member on the side of the team that owns the handle *)
Definition owns (pu : ProjectUsers) (team_name user_name : string)
  (ld : LinkedDeveloper) : Prop :=
  ∃ j dev, side team_name ld = Some j ∧ roster pu team_name !! j = Some dev
           ∧ user_name ∈ user_names dev.

(** the number of a member is its position in the roster *)
Definition numbered (members : list Developer) : Prop :=
  ∀ k d, members !! k = Some d → number d = k.

(** the indices of a link are indices of the two rosters *)
Definition link_in_range (jira git : list Developer) (ld : LinkedDeveloper)
  : Prop :=
  (∀ j, jira_idx ld = Some j → (j < length jira)%nat)
  ∧ (∀ g, git_idx ld = Some g → (g < length git)%nat).

(** every index of a link is an index of its roster *)
Definition links_in_range (pu : ProjectUsers) : Prop :=
  ∀ ld, ld ∈ team_links pu →
    (∀ j, jira_idx ld = Some j → (j < length (jira_team pu))%nat)
    ∧ (∀ g, git_idx ld = Some g → (g < length (git_team pu))%nat).

(** the id that the engine substitutes for an identity without a link
    ([ProfileGenerator.__init__]) *)
Definition unknown_user_id (pu : ProjectUsers) (team_name : string) : nat :=
  if String.eqb team_name "jira" then len pu else (len pu + 1)%nat.

(** the sentinel as the specification words it: one greater than the
    roster size *)
Definition sentinel_one_greater (pu : ProjectUsers) : nat := (len pu + 1)%nat.

End Identity.

Module TimeFormat.
Import Util.

(** one or two characters, each a digit or a blank *)
Definition field (f : list ascii) : Prop :=
  (length f = 1 ∨ length f = 2)%nat
  ∧ Forall (fun c => is_digit c = true ∨ c = " "%char) f.

(** the shape of a text that the format ["%Y-%m-%dT%H:%M:%SZ"] can match:
    four digits for the year, then month, day, hour, minute and second of
    one or two characters, with the separators of the format in between *)
Definition iso_shape (s : list ascii) : Prop :=
  ∃ Y m d H M S t z,
    length Y = 4%nat ∧ Forall (fun c => is_digit c = true) Y
    ∧ field m ∧ field d ∧ field H ∧ field M ∧ field S
    ∧ (t = "T" ∨ t = "t")%char ∧ (z = "Z" ∨ z = "z")%char
    ∧ s = Y ++ "-"%char :: m ++ "-"%char :: d ++ t :: H ++ ":"%char :: M
            ++ ":"%char :: S ++ [z].

End TimeFormat.

Module Stream.
Import EventPkg.

Section LocalTime.

Variable utc_offset : Z → Z.

(** the time of a date text on the numeric axis; 0 stands for a text
    that the conversion rejects *)
Definition seconds (date : string) : Z :=
  match Util.date_time_to_timestamp utc_offset date with
  | Ok t => t
  | Raise _ => 0
  end.

(** the resolution date of an issue, a date far in the future when the
    issue is unresolved *)
Definition resolution_date (issue : Issue) : string :=
  if truthy (resolved_date issue) then default "" (resolved_date issue)
  else _DATE_TIME_FAR_IN_FUTURE.

Definition creation_event (esc : EventStreamCreator) (issue : Issue) : Event :=
  JiraEvent (created_date issue)
    (seconds (created_date issue)
     + (jira_create_offset_seconds esc + TIME_STAMP_OFFSET))
    (id issue) "create".

Definition resolution_event (esc : EventStreamCreator) (issue : Issue) : Event :=
  JiraEvent (resolution_date issue)
    (seconds (resolution_date issue)
     + (jira_resolve_offset_seconds esc + TIME_STAMP_OFFSET))
    (id issue) "resolve".

Definition commit_event (esc : EventStreamCreator) (commit : ChangeSet) : Event :=
  GitEvent (committed_date commit)
    (seconds (committed_date commit)
     + (git_commit_offset_seconds esc + TIME_STAMP_OFFSET))
    (commit_hash commit).

(** per issue, in the order of the collection: creation, then resolution *)
Definition issue_events (esc : EventStreamCreator) (ds : DataSource)
  : list Event :=
  flat_map (λ issue, [creation_event esc issue; resolution_event esc issue])
           (issues ds).

Definition commit_events (esc : EventStreamCreator) (ds : DataSource)
  : list Event :=
  map (commit_event esc) (change_sets ds).

Definition parses (date : string) : Prop :=
  is_ok (Util.date_time_to_timestamp utc_offset date) = true.

(** every date of the data source can be converted *)
Definition dates_parse (ds : DataSource) : Prop :=
  (∀ issue, issue ∈ issues ds →
     parses (created_date issue) ∧ parses (resolution_date issue))
  ∧ (∀ commit, commit ∈ change_sets ds → parses (committed_date commit)).

End LocalTime.

Definition ascending (stream : list Event) : Prop :=
  StronglySorted (λ a b, time_stamp a ≤ time_stamp b) stream.

(** the events of the stream that carry the time stamp [t], in stream order *)
Definition at_time (t : Z) (stream : list Event) : list Event :=
  filter (λ e, time_stamp e = t) stream.

End Stream.

Module Engine.
Import Profile.

(** the call does not end in a failed [assert] *)
Definition never_asserts {A : Type} (r : result A) : Prop :=
  r ≠ Raise AssertionError.

(** the sanity condition of [create_training_sample] *)
Definition counts_ok (s : TrainingSample) : Prop :=
  (f13_num_open_issues_from_committer_at_commit_time s
   ≤ f12_num_open_issues_at_commit_time s)%nat.

(** all records of a run, training first *)
Definition records (out : Collectors) : list TrainingSample :=
  data_source_collector out ++ to_predict_collector out.

Section LocalTime.

Variable utc_offset : Z → Z.

(** the states that the loop of [run] passes through: it starts from the
    look-ups that [run] builds for a generator with a fresh manager, and
    continues with one iteration of the loop, for any event *)
Inductive reachable (self0 : ProfileGenerator)
  : ProfileGenerator → Collectors → Prop :=
| reachable_start self1 events :
    issue_manager self0 = new_manager →
    prepare_run utc_offset self0 = Ok (self1, events) →
    reachable self0 self1 no_samples
| reachable_step self out event self' out' :
    reachable self0 self out →
    step utc_offset (self, out) event = Ok (self', out') →
    reachable self0 self' out'.

(** what the look-ups and the manager of a reachable state satisfy *)
Definition consistent (self : ProfileGenerator) : Prop :=
  Stream.dates_parse utc_offset (data_source self)
  ∧ (∀ k e, issue_id_to_issue self !! k = Some e →
       id (issue_of e) = k ∧ issue_of e ∈ issues (data_source self)
       ∧ allowed self (mapped_type (issue_of e)) = true)
  ∧ (∀ k e, commit_hash_to_change_set self !! k = Some e →
       commit_hash (change_set_of e) = k
       ∧ change_set_of e ∈ change_sets (data_source self))
  ∧ commit_hash_to_issue_ids self = build_change_set_issue_inverse_lookup self
  ∧ (∀ i, i ∈ current_open_issues (issue_manager self)
          ∨ i ∈ resolved_issues (issue_manager self) →
          is_Some (issue_id_to_issue self !! i)).

End LocalTime.

(** the issue ids that the filtered link table links to a commit *)
Definition linked_issue_ids (self : ProfileGenerator) (commit_hash : string)
  : list string :=
  default [] (commit_hash_to_issue_ids self !! commit_hash).

(** the issue is known to the engine and its category is allowed *)
Definition in_scope (self : ProfileGenerator) (issue_id : string) : bool :=
  match issue_id_to_issue self !! issue_id with
  | Some issue => allowed self (mapped_type (issue_of issue))
  | None => false
  end.

Definition is_open (self : ProfileGenerator) (issue_id : string) : bool :=
  mem issue_id (current_open_issues (issue_manager self)).

(** the tolerance, in seconds *)
Definition TOLERANCE : Z := 129600.

(** the issue has a resolution time that differs from the time of the
    commit by less than the tolerance *)
Definition resolved_within (utc_offset : Z → Z) (self : ProfileGenerator)
  (commit : ChangeSetEntry) (issue_id : string) : bool :=
  match issue_id_to_issue self !! issue_id with
  | Some issue =>
      Z.abs (Stream.seconds utc_offset (committed_date (change_set_of commit))
             - Stream.seconds utc_offset (Stream.resolution_date (issue_of issue)))
      <? TOLERANCE
  | None => false
  end.

(** the records go to the collector that the marker of the commit selects *)
Definition emit (commit : ChangeSetEntry) (samples : list TrainingSample)
  (out : Collectors) : Collectors :=
  if to_predict (change_set_of commit)
  then {| data_source_collector := data_source_collector out;
          to_predict_collector := to_predict_collector out ++ samples |}
  else {| data_source_collector := data_source_collector out ++ samples;
          to_predict_collector := to_predict_collector out |}.

(** the filtered link table links the issue to the commit *)
Definition linked_in_table (self : ProfileGenerator) (commit_hash issue_id : string)
  : Prop :=
  ∃ hashes, (issue_id, hashes) ∈ issue_to_change_set (data_source self)
            ∧ commit_hash ∈ hashes.

(** the number of records for an issue *)
Definition records_for (issue_id : string) (samples : list TrainingSample) : nat :=
  length (List.filter (λ s, String.eqb (f01_issue_id s) issue_id) samples).

End Engine.

Module Roster.
Import UserModel.

(** the member owns the pair: the name is one of its names and the handle
    one of its handles *)
Definition owns_pair (name user_name : string) (d : Developer) : Prop :=
  name ∈ names d ∧ user_name ∈ user_names d.

(** no handle belongs to two members *)
Definition handles_unique (members : list Developer) : Prop :=
  ∀ k1 k2 d1 d2 u,
    members !! k1 = Some d1 → members !! k2 = Some d2 →
    u ∈ user_names d1 → u ∈ user_names d2 → k1 = k2.

(** every member of the first roster is in the second at the same position,
    with the same number, and has lost no name and no handle *)
Definition grown (members members' : list Developer) : Prop :=
  ∀ k d, members !! k = Some d →
    ∃ d', members' !! k = Some d' ∧ number d' = number d
          ∧ names d ⊆ names d' ∧ user_names d ⊆ user_names d'.

(** the link has a member on at least one side *)
Definition has_side (ld : LinkedDeveloper) : Prop :=
  jira_idx ld ≠ None ∨ git_idx ld ≠ None.

(** the two members of a two-sided link have a name in common *)
Definition linked_by_name (pu : ProjectUsers) (ld : LinkedDeveloper) : Prop :=
  ∀ j g, jira_idx ld = Some j → git_idx ld = Some g →
    ∃ dj dg name, jira_team pu !! j = Some dj ∧ git_team pu !! g = Some dg
                  ∧ name ∈ names dj ∧ name ∈ names dg.

(** iterating over a set visits the elements of the set *)
Definition enumerates (set_order : list string → list string) : Prop :=
  ∀ l x, x ∈ set_order l ↔ x ∈ l.

End Roster.

Module Filtering.
Import Profile.

(** the commit with the files of the default filter's source extensions only *)
Definition source_part (c : ChangeSet) : ChangeSet :=
  with_file_path (filter (λ f, DefaultFilter.is_source_file f = true) (file_path c)) c.

(** the commit touches at least one file with a source extension *)
Definition has_source_file (c : ChangeSet) : bool :=
  existsb DefaultFilter.has_source_file_extension (file_path c).

(** the categories of the default filter *)
Definition categories : list string := ["bug"; "feature"; "improvement"; "task"]%string.

End Filtering.

Module Order.

(** [a] occurs in the list at a position before an occurrence of [b] *)
Definition before {A : Type} (a b : A) (l : list A) : Prop :=
  ∃ l1 l2 l3, l = l1 ++ a :: l2 ++ b :: l3.

End Order.

Module Lookup.
Import Profile.

(** the id that a look-up gives to an identity: its link id, or the
    substitute when it has none *)
Definition user_id_of (pu : UserModel.ProjectUsers) (user_name team_name : string)
  (unknown : nat) : nat :=
  match link_id_or pu user_name team_name unknown with
  | Ok user_id => user_id
  | Raise _ => unknown
  end.

(** the entry of the issue look-up for an issue *)
Definition issue_entry (self : ProfileGenerator) (issue : Issue) : IssueEntry :=
  {| issue_of := issue;
     issue_user_id := user_id_of (project_users self) (assignee_username issue)
                        "jira" (unknown_jira_user_id self) |}.

(** the entry of the commit look-up for a commit *)
Definition change_set_entry (self : ProfileGenerator) (commit : ChangeSet)
  : ChangeSetEntry :=
  {| change_set_of := commit;
     change_set_user_id := user_id_of (project_users self) (author_email commit)
                             "git" (unknown_git_user_id self) |}.

(** the last element of the list that passes the test *)
Definition last_with {A : Type} (p : A → bool) (l : list A) : option A :=
  last (List.filter p l).

End Lookup.

Module Records.
Import Profile.

(** the record pairs a commit of the data source, with the given marker,
    and an issue of the data source whose category is allowed; it carries
    the hash and date of the commit and the id of the issue, and its
    "within issue life time" flag is set *)
Definition pairs (self : ProfileGenerator) (marker : bool) (s : TrainingSample)
  : Prop :=
  f06_is_commit_within_issue_life_time s ≠ None
  ∧ ∃ c i, c ∈ change_sets (data_source self) ∧ i ∈ issues (data_source self)
           ∧ f00_commit_hash s = commit_hash c ∧ f01_issue_id s = id i
           ∧ date_time s = committed_date c
           ∧ allowed self (mapped_type i) = true
           ∧ to_predict c = marker.

(** what a record of the three loops looks like, for a commit and the
    issue look-up *)
Definition made_for (self : ProfileGenerator) (commit : ChangeSetEntry)
  (s : TrainingSample) : Prop :=
  f06_is_commit_within_issue_life_time s ≠ None
  ∧ f00_commit_hash s = commit_hash (change_set_of commit)
  ∧ date_time s = committed_date (change_set_of commit)
  ∧ ∃ k issue, issue_id_to_issue self !! k = Some issue
               ∧ f01_issue_id s = id (issue_of issue).

(** the look-ups index the data source *)
Definition indexed (self0 self : ProfileGenerator) : Prop :=
  (∀ k e, issue_id_to_issue self !! k = Some e →
     issue_of e ∈ issues (data_source self0)
     ∧ allowed self0 (mapped_type (issue_of e)) = true)
  ∧ (∀ k e, commit_hash_to_change_set self !! k = Some e →
       change_set_of e ∈ change_sets (data_source self0)).

End Records.

Module Returns.
Import Profile EventPkg.

Section LocalTime.

Variable utc_offset : Z → Z.

(** every commit event is earlier than the resolution event of every issue
    without a resolution date, which is the event at the far-future date *)
Definition commits_precede_open_end (esc : EventStreamCreator) (ds : DataSource)
  : Prop :=
  ∀ c i, c ∈ change_sets ds → i ∈ issues ds →
    truthy (resolved_date i) = false →
    time_stamp (Stream.commit_event utc_offset esc c)
    < time_stamp (Stream.resolution_event utc_offset esc i).

(** what [run] needs of the data: the dates convert, the issue ids are
    unique and no commit is as late as the far-future date *)
Definition well_dated (esc : EventStreamCreator) (ds : DataSource) : Prop :=
  Stream.dates_parse utc_offset ds
  ∧ NoDup (map id (issues ds))
  ∧ commits_precede_open_end esc ds.

(** what [run] needs of the generator *)
Definition ready (self : ProfileGenerator) : Prop :=
  issue_manager self = new_manager
  ∧ Identity.links_in_range (project_users self)
  ∧ well_dated (esc self) (data_source self).

(** the state of the loop of [run] after the events [done] of the stream *)
Definition in_progress (self : ProfileGenerator) (done rest : list Event) : Prop :=
  Engine.consistent utc_offset self
  ∧ well_dated (esc self) (data_source self)
  ∧ (∀ c, c ∈ change_sets (data_source self) →
          is_Some (commit_hash_to_change_set self !! commit_hash c))
  ∧ (∀ i, i ∈ resolved_issues (issue_manager self) →
          ∃ d t, JiraEvent d t i "resolve" ∈ done)
  ∧ (∀ e, e ∈ done ++ rest →
          e ∈ Stream.issue_events utc_offset (esc self) (data_source self)
              ++ Stream.commit_events utc_offset (esc self) (data_source self))
  ∧ Stream.ascending (done ++ rest).

End LocalTime.

(** the history and the new commits in one data source *)
Definition combined (ds : DataSource) (new_change_sets : list ChangeSet)
  : DataSource :=
  {| issues := issues ds; issue_to_change_set := issue_to_change_set ds;
     change_sets := change_sets ds ++ new_change_sets |}.

End Returns.

Module Errors.

(** the call raises no error other than [e0] *)
Definition raises_only {A : Type} (e0 : exn) (r : result A) : Prop :=
  ∀ e, r = Raise e → e = e0.

(** the action of an issue event is one of the two that [run] knows *)
Definition known_action (event : EventPkg.Event) : Prop :=
  match event with
  | EventPkg.JiraEvent _ _ _ action =>
      action = "create"%string ∨ action = "resolve"%string
  | EventPkg.GitEvent _ _ _ => True
  end.

End Errors.

Module Neighbours.
Import Profile.

Definition date (c : ChangeSetEntry) : string := committed_date (change_set_of c).

(** the commits that the link table links to the issue and that the commit
    look-up knows *)
Definition linked_commits (self : ProfileGenerator) (issue : IssueEntry)
  : list ChangeSetEntry :=
  omap (λ h, commit_hash_to_change_set self !! h)
       (default [] (dict_get (id (issue_of issue))
                             (issue_to_change_set (data_source self)))).

(** [p] is a latest one of the linked commits dated before the commit *)
Definition latest_before (self : ProfileGenerator) (commit : ChangeSetEntry)
  (issue : IssueEntry) (p : ChangeSetEntry) : Prop :=
  p ∈ linked_commits self issue
  ∧ String.ltb (date p) (date commit) = true
  ∧ ∀ q, q ∈ linked_commits self issue →
         String.ltb (date q) (date commit) = true →
         String.leb (date q) (date p) = true.

(** [n] is an earliest one of the linked commits dated after the commit *)
Definition earliest_after (self : ProfileGenerator) (commit : ChangeSetEntry)
  (issue : IssueEntry) (n : ChangeSetEntry) : Prop :=
  n ∈ linked_commits self issue
  ∧ String.leb (date n) (date commit) = false
  ∧ ∀ q, q ∈ linked_commits self issue →
         String.leb (date q) (date commit) = false →
         String.leb (date n) (date q) = true.

(** the descriptor of a neighbour: the distance in time, the resource
    overlap and the author *)
Definition descriptor (distance : Z) (commit other : ChangeSetEntry) : LinkedCommit :=
  {| time_difference := Some distance;
     resource_overlap :=
       Some (Resource.resource_similarity
               (Resource.AsList (file_path (change_set_of commit)))
               (Resource.AsList (file_path (change_set_of other))));
     committer_user_id := Some (change_set_user_id other) |}.

End Neighbours.

(** a generator after the preparations of [run]: one issue with two linked
    commits, [a] and [b], and an unlinked commit [c] dated between them *)
Module NeighbourExample.
Import Profile.

Definition entry (hash date : string) (user_id : nat) : ChangeSetEntry :=
  {| change_set_of := Example.commit "Bob" "bob@x.org" hash date;
     change_set_user_id := user_id |}.

Definition a : ChangeSetEntry := entry "a" "2017-01-02T00:00:00Z" 0.
Definition b : ChangeSetEntry := entry "b" "2017-01-05T00:00:00Z" 1.
Definition c : ChangeSetEntry := entry "c" "2017-01-03T00:00:00Z" 0.

Definition issue : IssueEntry :=
  {| issue_of := Example.issue "I-1" "2017-01-01T00:00:00Z" None;
     issue_user_id := 2 |}.

Definition generator : ProfileGenerator :=
  {| data_source :=
       {| issues := [issue_of issue];
          issue_to_change_set := [("I-1", ["b"; "a"])]%string;
          change_sets := [change_set_of a; change_set_of b; change_set_of c] |};
     esc := EventPkg.new_creator;
     allowed_issue_types := ["bug"%string];
     text_similarity_handler := IO.no_text_similarity;
     trace_handler := IO.no_trace_similarity;
     issue_manager := new_manager;
     project_users := UserModel.empty;
     unknown_jira_user_id := 0;
     unknown_git_user_id := 1;
     issue_id_to_issue := {[ "I-1"%string := issue ]};
     commit_hash_to_change_set :=
       <["a"%string := a]> (<["b"%string := b]> {[ "c"%string := c ]});
     commit_hash_to_issue_ids :=
       <["a"%string := ["I-1"%string]]> {[ "b"%string := ["I-1"%string] ]};
     linked_change_sets_unconstrained := {[ "a"%string; "b"%string ]} |}.

End NeighbourExample.

Module Schema.
Import Weka Sample.

(** the value fits the type of the attribute: a number or a missing value
    for a numeric attribute, one of the declared values or a missing value
    for a nominal attribute, a text for a string attribute *)
Definition conforms (a : Attribute) (v : Value) : Prop :=
  match att_type a with
  | ATT_TYPE_NUMERIC => v = VNone ∨ ∃ q, v = VNum q
  | ATT_TYPE_NOMINAL =>
      v = VNone ∨ ∃ s, v = VStr s ∧ s ∈ default [] (nominal_values a)
  | ATT_TYPE_STRING => ∃ s, v = VStr s
  end.

(** the instance of a record with its sample id set *)
Definition numbered (sample_id : nat) (sample : TrainingSample) : list Value :=
  match sample_to_weka_instance sample with
  | Ok (_ :: rest) => num_of_nat sample_id :: rest
  | _ => []
  end.

End Schema.

Module LifeSpan.
Import Profile EventPkg.

(** the call on the life-time manager that [run] makes for an event *)
Definition operation_of (self : ProfileGenerator) (event : Event)
  : option LifeTime.operation :=
  match event with
  | JiraEvent _ _ issue_id action =>
      if is_relevant_event self event then
        if String.eqb action "create" then Some (LifeTime.CreateIssue issue_id)
        else if String.eqb action "resolve" then Some (LifeTime.ResolveIssue issue_id)
        else None
      else None
  | GitEvent _ _ _ => None
  end.

Definition operations (self : ProfileGenerator) (events : list Event)
  : list LifeTime.operation :=
  omap (operation_of self) events.

Section LocalTime.

Variable utc_offset : Z → Z.

(** the time stamps of the two events of an issue *)
Definition created (esc : EventStreamCreator) (issue : Issue) : Z :=
  time_stamp (Stream.creation_event utc_offset esc issue).

Definition resolved (esc : EventStreamCreator) (issue : Issue) : Z :=
  time_stamp (Stream.resolution_event utc_offset esc issue).

End LocalTime.

(** a resolved issue of an allowed category and a commit made between its
    creation and its resolution *)
Definition example_issue : Issue :=
  {| id := "I-1"; created_date := "2017-01-01T00:00:00Z";
     resolved_date := Some "2017-01-05T00:00:00Z";
     issue_type := "Bug"; status := "Resolved"; resolution := Some "Fixed";
     assignee := None; assignee_username := ""; mapped_type := Some "bug" |}%string.

Definition example : ProfileGenerator :=
  {| data_source :=
       {| issues := [example_issue];
          issue_to_change_set := [];
          change_sets :=
            [Example.commit "Bob" "bob@x.org" "c1" "2017-01-03T00:00:00Z"] |};
     esc := new_creator;
     allowed_issue_types := ["bug"%string];
     text_similarity_handler := IO.no_text_similarity;
     trace_handler := IO.no_trace_similarity;
     issue_manager := new_manager;
     project_users := UserModel.empty;
     unknown_jira_user_id := 0;
     unknown_git_user_id := 1;
     issue_id_to_issue := ∅;
     commit_hash_to_change_set := ∅;
     commit_hash_to_issue_ids := ∅;
     linked_change_sets_unconstrained := ∅ |}.

End LifeSpan.

Module Canonical.
Import Util.

(** the character of the last decimal digit of a number *)
Definition digit_char (n : Z) : ascii := ascii_of_nat (Z.to_nat (48 + n mod 10)).

Definition two_digits (n : Z) : list ascii := [digit_char (n / 10); digit_char n].

Definition four_digits (n : Z) : list ascii :=
  [digit_char (n / 1000); digit_char (n / 100); digit_char (n / 10); digit_char n].

(** the text of a date-time in the format [%Y-%m-%dT%H:%M:%SZ], every field
    padded with zeros to its full width *)
Definition padded (d : datetime) : string :=
  string_of_list_ascii
    (four_digits (year d) ++ "-"%char :: two_digits (month d)
     ++ "-"%char :: two_digits (day d) ++ "T"%char :: two_digits (hour d)
     ++ ":"%char :: two_digits (minute d) ++ ":"%char :: two_digits (second d)
     ++ ["Z"%char]).

(** the text is the padded form of the date-time that [strptime] reads
    from it *)
Definition is_canonical (s : string) : bool :=
  match strptime s with
  | Ok d => String.eqb s (padded d)
  | Raise _ => false
  end.

(** the order of the calendar on date-times *)
Definition earlier (a b : datetime) : Prop :=
  year a < year b
  ∨ year a = year b
    ∧ (month a < month b
       ∨ month a = month b
         ∧ (day a < day b
            ∨ day a = day b
              ∧ (hour a < hour b
                 ∨ hour a = hour b
                   ∧ (minute a < minute b
                      ∨ minute a = minute b ∧ second a < second b)))).

(** a comparison decided by [c], or by [k] where [c] is a tie *)
Definition lex (c k : comparison) : comparison :=
  match c with
  | Eq => k
  | _ => c
  end.

(** the comparison of two date-times by the calendar *)
Definition calendar_compare (a b : datetime) : comparison :=
  lex (year a ?= year b)
    (lex (month a ?= month b)
       (lex (day a ?= day b)
          (lex (hour a ?= hour b)
             (lex (minute a ?= minute b) (second a ?= second b))))).

(** the days before the first of March of a year, from the same day of
    the year 0 *)
Definition march_days (y : Z) : Z := 365 * y + y / 4 - y / 100 + y / 400.

(** later wall-clock times of the local zone are later instants *)
Definition increasing (utc_offset : Z → Z) : Prop :=
  ∀ a b, a < b → a - utc_offset a < b - utc_offset b.

End Canonical.

Module InTime.
Import Profile Neighbours.

Section LocalTime.

Variable utc_offset : Z → Z.

(** the time stamp of the date of a commit *)
Definition at_time (c : ChangeSetEntry) (t : Z) : Prop :=
  Util.date_time_to_timestamp utc_offset (date c) = Ok t.

(** the descriptor is empty and no linked commit is earlier than [tc], or
    it gives the distance to the latest linked commit earlier than [tc] *)
Definition previous_in_time (self : ProfileGenerator) (issue : IssueEntry)
  (tc : Z) (prev : LinkedCommit) : Prop :=
  (time_difference prev = None
   ∧ ∀ q tq, q ∈ linked_commits self issue → at_time q tq → tc ≤ tq)
  ∨ ∃ p tp,
      p ∈ linked_commits self issue ∧ at_time p tp ∧ tp < tc
      ∧ time_difference prev = Some (tc - tp)
      ∧ ∀ q tq, q ∈ linked_commits self issue → at_time q tq → tq < tc → tq ≤ tp.

(** the descriptor is empty and no linked commit is later than [tc], or
    it gives the distance to the earliest linked commit later than [tc] *)
Definition next_in_time (self : ProfileGenerator) (issue : IssueEntry)
  (tc : Z) (next : LinkedCommit) : Prop :=
  (time_difference next = None
   ∧ ∀ q tq, q ∈ linked_commits self issue → at_time q tq → tq ≤ tc)
  ∨ ∃ n tn,
      n ∈ linked_commits self issue ∧ at_time n tn ∧ tc < tn
      ∧ time_difference next = Some (tn - tc)
      ∧ ∀ q tq, q ∈ linked_commits self issue → at_time q tq → tc < tq → tn ≤ tq.

End LocalTime.

End InTime.

Module Relevance.
Import Profile.

(** the link table links the commit to an issue of an allowed category *)
Definition linked_in_scope (self : ProfileGenerator) (h : string) : Prop :=
  ∃ issue hashes,
    issue ∈ issues (data_source self)
    ∧ allowed self (mapped_type issue) = true
    ∧ (id issue, hashes) ∈ issue_to_change_set (data_source self)
    ∧ h ∈ hashes.

(** no entry of the link table names the commit *)
Definition never_linked (ds : DataSource) (h : string) : Prop :=
  ∀ i hashes, (i, hashes) ∈ issue_to_change_set ds → h ∉ hashes.

End Relevance.

(** ** Auxiliary lemmas *)

Lemma bind_ok {A B : Type} (r : result A) (k : A → result B) b :
  r ≫= k = Ok b → ∃ a, r = Ok a ∧ k a = Ok b.
Proof. destruct r as [a|e]; cbn; [by exists a | done]. Qed.


Lemma mem_true (x : string) (l : list string) : mem x l = true ↔ x ∈ l.
Proof.
  unfold mem. rewrite existsb_exists. split.
  - intros (y & Hin & Heq). apply String.eqb_eq in Heq. subst y.
    by apply list_elem_of_In.
  - intros Hin. exists x. split; [by apply list_elem_of_In | apply String.eqb_refl].
Qed.

Lemma mem_false (x : string) (l : list string) : mem x l = false ↔ x ∉ l.
Proof.
  rewrite <- mem_true. destruct (mem x l); split; congruence.
Qed.

(** ** The resource overlap *)

(** C9: the resource overlap of two file-path collections does not depend
    on the order of its arguments. *)
Theorem resource_similarity_symmetric (a b : Resource.collection) :
  Resource.resource_similarity a b = Resource.resource_similarity b a.
Proof.
  unfold Resource.resource_similarity.
  rewrite (comm_L (∩) (Resource.as_set b) (Resource.as_set a)).
  generalize (size (Resource.as_set a ∩ Resource.as_set b)).
  generalize (size (Resource.as_set a)) (size (Resource.as_set b)).
  intros n1 n2 k.
  destruct (Nat.ltb_spec n2 n1), (Nat.ltb_spec n1 n2); try lia; try done.
  by replace n2 with n1 by lia.
Qed.

(** ** The issue life-time manager *)

Section LifeTimeFacts.
Import Profile LifeTime.

Lemma apply_operations_snoc ops op :
  apply_operations (ops ++ [op]) = apply_operation (apply_operations ops) op.
Proof. unfold apply_operations. by rewrite fold_left_app. Qed.

Lemma resolved_create i m : resolved_issues (create_issue i m) = resolved_issues m.
Proof. unfold create_issue. by destruct (mem i (current_open_issues m)). Qed.

Lemma elem_of_open_create j i m :
  j ∈ current_open_issues (create_issue i m)
  ↔ j ∈ current_open_issues m ∨ j = i.
Proof.
  unfold create_issue. destruct (mem i (current_open_issues m)) eqn:E; simpl.
  - apply mem_true in E. split; [by left | intros [?| ->]; done].
  - rewrite elem_of_app, list_elem_of_singleton. done.
Qed.

Lemma elem_of_open_resolve j i m :
  j ∈ current_open_issues (resolve_issue i m)
  ↔ j ∈ current_open_issues m ∧ j ≠ i.
Proof.
  unfold resolve_issue.
  destruct (mem i (resolved_issues m)); simpl;
    rewrite list_elem_of_filter; tauto.
Qed.

Lemma elem_of_resolved_resolve j i m :
  j ∈ resolved_issues (resolve_issue i m) ↔ j ∈ resolved_issues m ∨ j = i.
Proof.
  unfold resolve_issue. destruct (mem i (resolved_issues m)) eqn:E; simpl.
  - apply mem_true in E. split; [by left | intros [?| ->]; done].
  - rewrite elem_of_app, list_elem_of_singleton. done.
Qed.

(** the resolved set holds exactly the ids that were resolved *)
Lemma elem_of_resolved ops i :
  i ∈ resolved_issues (apply_operations ops) ↔ ResolveIssue i ∈ ops.
Proof.
  induction ops as [|op ops IH] using rev_ind.
  - cbn. split; intros H; inversion H.
  - rewrite apply_operations_snoc, elem_of_app, list_elem_of_singleton.
    destruct op as [k|k]; simpl.
    + rewrite resolved_create, IH. split; [by left | intros [|]; [done|congruence]].
    + rewrite elem_of_resolved_resolve, IH.
      split; (intros [|]; [by left | right; congruence]).
Qed.

(** an open id was created, and not resolved since *)
Lemma elem_of_open ops i :
  i ∈ current_open_issues (apply_operations ops) →
  ∃ pre post, ops = pre ++ CreateIssue i :: post ∧ ResolveIssue i ∉ post.
Proof.
  induction ops as [|op ops IH] using rev_ind.
  - cbn. intros H; inversion H.
  - rewrite apply_operations_snoc. destruct op as [k|k]; simpl.
    + rewrite elem_of_open_create. intros [H| ->].
      * destruct (IH H) as (pre & post & -> & Hn).
        exists pre, (post ++ [CreateIssue k]). split.
        -- by rewrite <- app_assoc.
        -- rewrite elem_of_app, list_elem_of_singleton. intros [|]; [done|congruence].
      * exists ops, []. split; [done | by intros H%elem_of_nil].
    + rewrite elem_of_open_resolve. intros [H Hne].
      destruct (IH H) as (pre & post & -> & Hn).
      exists pre, (post ++ [ResolveIssue k]). split.
      * by rewrite <- app_assoc.
      * rewrite elem_of_app, list_elem_of_singleton. intros [|]; [done|congruence].
Qed.

Lemma no_create_after_resolve_prefix pre ops :
  pre `prefix_of` ops → no_create_after_resolve ops → no_create_after_resolve pre.
Proof.
  intros [rest ->] H p q i ->. apply (H p (q ++ rest) i).
  by rewrite <- app_assoc.
Qed.

Lemma ordered_not_in_both ops i :
  no_create_after_resolve ops → ¬ in_both (apply_operations ops) i.
Proof.
  intros Hord [Hopen Hres].
  apply elem_of_resolved in Hres.
  destruct (elem_of_open _ _ Hopen) as (pre & post & -> & Hpost).
  apply elem_of_app in Hres as [Hres|Hres].
  - by apply (Hord pre post i).
  - apply elem_of_cons in Hres as [Hres|Hres]; [congruence | done].
Qed.

End LifeTimeFacts.

(** The statement of C3 fails for a sequence that creates an id again
    after it was resolved: the id is then in both sets. *)
Lemma reopened_issue_in_both_sets :
  LifeTime.in_both
    (LifeTime.apply_operations
       [LifeTime.CreateIssue "A"; LifeTime.ResolveIssue "A";
        LifeTime.CreateIssue "A"]%string)
    "A"%string.
Proof.
  split; cbn; [apply list_elem_of_singleton | apply list_elem_of_singleton]; done.
Qed.

(** C3 (amended): for every sequence of [create_issue] and [resolve_issue]
    calls on a fresh manager in which no id is created after it was
    resolved, at every instant no id is in both the open and the resolved
    set, and an id that is resolved at one instant is resolved and not open
    at every later instant. *)
Theorem lifetime_sets_disjoint (ops : list LifeTime.operation) :
  LifeTime.no_create_after_resolve ops →
  (∀ pre i, pre `prefix_of` ops →
     ¬ LifeTime.in_both (LifeTime.apply_operations pre) i)
  ∧ (∀ pre pre' i, pre `prefix_of` pre' → pre' `prefix_of` ops →
       i ∈ Profile.resolved_issues (LifeTime.apply_operations pre) →
       i ∈ Profile.resolved_issues (LifeTime.apply_operations pre')
       ∧ i ∉ Profile.current_open_issues (LifeTime.apply_operations pre')).
Proof.
  intros Hord. split.
  - intros pre i Hpre. apply ordered_not_in_both.
    by apply (no_create_after_resolve_prefix pre ops).
  - intros pre pre' i Hpp Hpre' Hres.
    assert (Hres' : i ∈ Profile.resolved_issues (LifeTime.apply_operations pre')).
    { apply elem_of_resolved. apply elem_of_resolved in Hres.
      destruct Hpp as [rest ->]. apply elem_of_app. by left. }
    split; [done|]. intros Hopen.
    apply (ordered_not_in_both pre' i); [|by split].
    by apply (no_create_after_resolve_prefix pre' ops).
Qed.

Lemma lifetime_sets_disjoint_witness :
  ¬ LifeTime.in_both
      (LifeTime.apply_operations
         [LifeTime.CreateIssue "A"; LifeTime.CreateIssue "B";
          LifeTime.ResolveIssue "A"]%string)
      "A"%string.
Proof.
  refine (proj1 (lifetime_sets_disjoint
            [LifeTime.CreateIssue "A"; LifeTime.CreateIssue "B";
             LifeTime.ResolveIssue "A"; LifeTime.ResolveIssue "B"]%string _)
            _ _ _).
  - intros pre post i Heq Hin.
    destruct pre as [|o1 [|o2 [|o3 [|o4 [|o5 pre]]]]]; simplify_eq/=;
      repeat (apply elem_of_cons in Hin as [Hin|Hin]; [discriminate|]);
      by apply elem_of_nil in Hin.
  - by exists [LifeTime.ResolveIssue "B"]%string.
Defined.

(** ** The identity look-up *)

Section IdentityFacts.
Import UserModel Identity.

Lemma has_user_name_true user_name dev :
  has_user_name user_name dev = true ↔ user_name ∈ user_names dev.
Proof. unfold has_user_name. apply bool_decide_eq_true. Qed.

(** without a link the loop ends at once, whatever the team name *)
Lemma get_link_id_no_links pu user_name team_name :
  team_links pu = [] → get_link_id pu user_name team_name = Ok None.
Proof. unfold get_link_id. by intros ->. Qed.

Lemma get_link_id_from_unknown_team pu user_name team_name idx ld links :
  team_name ≠ "jira"%string → team_name ≠ "git"%string →
  get_link_id_from pu user_name team_name idx (ld :: links) = Raise ValueError.
Proof.
  intros Hj Hg. simpl.
  apply String.eqb_neq in Hj as ->. by apply String.eqb_neq in Hg as ->.
Qed.

Lemma member_not_value_error members j :
  member members j ≠ Raise ValueError.
Proof. unfold member. by destruct (members !! j). Qed.

Lemma get_link_id_from_value_error pu user_name team_name idx links :
  get_link_id_from pu user_name team_name idx links = Raise ValueError →
  links ≠ [] ∧ team_name ≠ "jira"%string ∧ team_name ≠ "git"%string.
Proof.
  revert idx. induction links as [|ld links IH]; intros idx; [done|].
  simpl. destruct (String.eqb_spec team_name "jira") as [->|Hj].
  - destruct (jira_idx ld) as [j|]; [|intros H; by destruct (IH _ H) as (_ & ? & _)].
    unfold member. destruct (jira_team pu !! j) as [dev|]; simpl; [|done].
    destruct (has_user_name user_name dev); [done|].
    intros H; by destruct (IH _ H) as (_ & ? & _).
  - destruct (String.eqb_spec team_name "git") as [->|Hg]; [|done].
    destruct (git_idx ld) as [g|]; [|intros H; by destruct (IH _ H) as (_ & _ & ?)].
    unfold member. destruct (git_team pu !! g) as [dev|]; simpl; [|done].
    destruct (has_user_name user_name dev); [done|].
    intros H; by destruct (IH _ H) as (_ & _ & ?).
Qed.

(** one link of the loop, for a recognised team and an index in range *)
Lemma get_link_id_from_cons pu user_name team_name idx ld links :
  team_name = "jira"%string ∨ team_name = "git"%string →
  (∀ j, side team_name ld = Some j → is_Some (roster pu team_name !! j)) →
  (owns pu team_name user_name ld ∧
     get_link_id_from pu user_name team_name idx (ld :: links) = Ok (Some idx))
  ∨ (¬ owns pu team_name user_name ld ∧
     get_link_id_from pu user_name team_name idx (ld :: links)
     = get_link_id_from pu user_name team_name (S idx) links).
Proof.
  unfold owns, side, roster. intros [-> | ->] Hrange; simpl in *.
  - destruct (jira_idx ld) as [j|]; [|right; split; [|done]].
    + destruct (Hrange j eq_refl) as [dev Hdev].
      unfold member. rewrite Hdev. simpl.
      destruct (has_user_name user_name dev) eqn:E.
      * left. split; [|done]. exists j, dev. by apply has_user_name_true in E.
      * right. split; [|done]. intros (j' & dev' & [= <-] & Hd & Hin).
        rewrite Hdev in Hd. injection Hd as <-.
        apply has_user_name_true in Hin. congruence.
    + by intros (j & dev & ? & _).
  - destruct (git_idx ld) as [j|]; [|right; split; [|done]].
    + destruct (Hrange j eq_refl) as [dev Hdev].
      unfold member. rewrite Hdev. simpl.
      destruct (has_user_name user_name dev) eqn:E.
      * left. split; [|done]. exists j, dev. by apply has_user_name_true in E.
      * right. split; [|done]. intros (j' & dev' & [= <-] & Hd & Hin).
        rewrite Hdev in Hd. injection Hd as <-.
        apply has_user_name_true in Hin. congruence.
    + by intros (j & dev & ? & _).
Qed.

Lemma links_in_range_side pu team_name ld j :
  links_in_range pu → ld ∈ team_links pu → side team_name ld = Some j →
  is_Some (roster pu team_name !! j).
Proof.
  intros Hr Hin Hs. destruct (Hr ld Hin) as [Hj Hg].
  apply lookup_lt_is_Some. unfold side, roster in *.
  destruct (String.eqb team_name "jira"); auto.
Qed.

(** the loop returns the position of the first owning link, if any *)
Lemma get_link_id_from_spec pu user_name team_name links idx :
  team_name = "jira"%string ∨ team_name = "git"%string →
  (∀ ld j, ld ∈ links → side team_name ld = Some j →
           is_Some (roster pu team_name !! j)) →
  (∀ k ld, links !! k = Some ld → owns pu team_name user_name ld →
     (∀ k' ld', (k' < k)%nat → links !! k' = Some ld' →
                ¬ owns pu team_name user_name ld') →
     get_link_id_from pu user_name team_name idx links = Ok (Some (idx + k)%nat))
  ∧ ((∀ ld, ld ∈ links → ¬ owns pu team_name user_name ld) →
     get_link_id_from pu user_name team_name idx links = Ok None).
Proof.
  intros Hteam. revert idx. induction links as [|ld links IH]; intros idx Hrange.
  - split; [intros k ld Hk; by rewrite lookup_nil in Hk | done].
  - assert (Hld : ∀ j, side team_name ld = Some j →
                       is_Some (roster pu team_name !! j)).
    { intros j. apply Hrange. by left. }
    destruct (IH (S idx)) as [IH1 IH2].
    { intros ld' j Hin. apply Hrange. by right. }
    destruct (get_link_id_from_cons pu user_name team_name idx ld links Hteam Hld)
      as [[Hown Heq] | [Hnown Heq]]; rewrite Heq; split.
    + intros [|k] ld' Hk Ho Hfirst.
      * by rewrite Nat.add_0_r.
      * exfalso. apply (Hfirst 0%nat ld); [lia|done|done].
    + intros Hnone. exfalso. apply (Hnone ld); [by left | done].
    + intros [|k] ld' Hk Ho Hfirst.
      * simpl in Hk. injection Hk as <-. done.
      * replace (idx + S k)%nat with (S idx + k)%nat by lia.
        apply (IH1 k ld' Hk Ho). intros k' ld'' Hlt Hk'.
        apply (Hfirst (S k') ld''); [lia | done].
    + intros Hnone. apply IH2. intros ld' Hin. apply Hnone. by right.
Qed.

End IdentityFacts.

(** C10: with an empty link list [get_link_id] returns [None] for every
    user name and every team name, recognised or not; a [ValueError] is
    raised for a team name other than ["jira"] and ["git"] exactly when there
    is at least one link. *)
Theorem get_link_id_empty_links :
  (∀ pu user_name team_name,
     UserModel.team_links pu = [] →
     UserModel.get_link_id pu user_name team_name = Ok None)
  ∧ (∀ pu user_name team_name,
       UserModel.get_link_id pu user_name team_name = Raise ValueError →
       UserModel.team_links pu ≠ []
       ∧ team_name ≠ "jira"%string ∧ team_name ≠ "git"%string)
  ∧ (∀ pu user_name team_name,
       UserModel.team_links pu ≠ [] →
       team_name ≠ "jira"%string → team_name ≠ "git"%string →
       UserModel.get_link_id pu user_name team_name = Raise ValueError).
Proof.
  split; [|split].
  - apply get_link_id_no_links.
  - intros pu user_name team_name. apply get_link_id_from_value_error.
  - intros pu user_name team_name Hne Hj Hg. unfold UserModel.get_link_id.
    destruct (UserModel.team_links pu) as [|ld links]; [done|].
    by apply get_link_id_from_unknown_team.
Qed.

Lemma get_link_id_empty_links_witness :
  UserModel.get_link_id UserModel.empty "tony" "svn" = Ok None
  ∧ UserModel.get_link_id
      {| UserModel.jira_team := []; UserModel.git_team := [];
         UserModel.team_links :=
           [ {| UserModel.jira_idx := None; UserModel.git_idx := None |} ] |}
      "tony" "svn" = Raise ValueError.
Proof.
  split.
  - apply (proj1 get_link_id_empty_links). reflexivity.
  - apply (proj2 (proj2 get_link_id_empty_links)); simpl; discriminate.
Defined.

(** the rosters that the engine builds have their link indices in range *)

Section RosterFacts.
Import UserModel Identity.

Lemma update_first_numbered_from base p f l l' :
  (∀ d, number (f d) = number d) →
  update_first p f l = Some l' →
  (∀ k d, l !! k = Some d → number d = (base + k)%nat) →
  (∀ k d, l' !! k = Some d → number d = (base + k)%nat)
  ∧ length l' = length l.
Proof.
  intros Hf. revert base l'.
  induction l as [|x l IH]; intros base l'; simpl; [done|].
  destruct (p x).
  - intros [= <-] Hl. split; [|done]. intros [|k] d; simpl.
    + intros [= <-]. rewrite Hf. by apply (Hl 0%nat).
    + intros Hk. by apply (Hl (S k)).
  - destruct (update_first p f l) as [l2|] eqn:E; [|done]. simpl.
    intros [= <-] Hl.
    destruct (IH (S base) l2 eq_refl) as [H1 H2].
    { intros k d Hk. rewrite (Hl (S k) d Hk). lia. }
    split; [|simpl; by rewrite H2]. intros [|k] d; simpl.
    + intros [= <-]. by apply (Hl 0%nat).
    + intros Hk. rewrite (H1 k d Hk). lia.
Qed.

Lemma add_or_update_developer_numbered name user_name members :
  numbered members → numbered (add_or_update_developer name user_name members).
Proof.
  intros Hn. unfold add_or_update_developer.
  destruct (_ && _); [done|].
  destruct (update_first _ (add_name name) members) as [m1|] eqn:E1.
  { by destruct (update_first_numbered_from 0 _ (add_name name) _ _
                   (λ d, eq_refl) E1 Hn). }
  destruct (update_first _ (add_user_name user_name) members) as [m2|] eqn:E2.
  { by destruct (update_first_numbered_from 0 _ (add_user_name user_name) _ _
                   (λ d, eq_refl) E2 Hn). }
  intros k d Hk. apply lookup_app_Some in Hk as [Hk|[Hlen Hk]].
  - by apply Hn.
  - apply list_lookup_singleton_Some in Hk as [Hk <-]. simpl. lia.
Qed.

Lemma fold_add_or_update_numbered (users : list (string * string)) members :
  numbered members →
  numbered (fold_left (λ ms '(name, user_name),
                         add_or_update_developer name user_name ms)
                      users members).
Proof.
  revert members. induction users as [|[n u] users IH]; intros members Hn; simpl;
    [done|].
  apply IH. by apply add_or_update_developer_numbered.
Qed.

Lemma numbered_lt members d :
  numbered members → d ∈ members → (number d < length members)%nat.
Proof.
  intros Hn Hd. apply list_elem_of_lookup in Hd as [k Hk].
  rewrite (Hn k d Hk). by apply lookup_lt_Some in Hk.
Qed.

Lemma find_matching_some git_members jira_dev remaining idx git_dev :
  find_matching git_members jira_dev remaining = Ok (Some (idx, git_dev)) →
  idx ∈ remaining ∧ git_members !! idx = Some git_dev.
Proof.
  induction remaining as [|i rest IH]; simpl; [done|].
  unfold member. destruct (git_members !! i) as [d|] eqn:Hi; [|done]. cbn.
  destruct (shares_name jira_dev d).
  - intros [= <- <-]. split; [by left | done].
  - intros H. destruct (IH H) as [? ?]. split; [by right | done].
Qed.

Lemma elem_of_remove_first i idx l : i ∈ remove_first idx l → i ∈ l.
Proof.
  induction l as [|x l IH]; simpl; [done|].
  destruct (Nat.eqb x idx); [by right|].
  intros [->|H]%elem_of_cons; [by left | right; by apply IH].
Qed.

Lemma link_jira_in_range jira git js remaining links remaining' links' :
  numbered git →
  (∀ d, d ∈ js → (number d < length jira)%nat) →
  (∀ i, i ∈ remaining → (i < length git)%nat) →
  (∀ ld, ld ∈ links → link_in_range jira git ld) →
  link_jira git js remaining links = Ok (remaining', links') →
  (∀ i, i ∈ remaining' → (i < length git)%nat)
  ∧ (∀ ld, ld ∈ links' → link_in_range jira git ld).
Proof.
  intros Hgit. revert remaining links.
  induction js as [|jd js IH]; intros remaining links Hjs Hrem Hlinks; simpl.
  - by intros [= <- <-].
  - intros H. apply bind_ok in H as (m & Hm & H).
    assert (Hjd : (number jd < length jira)%nat) by (apply Hjs; by left).
    assert (Hjs' : ∀ d, d ∈ js → (number d < length jira)%nat).
    { intros d Hd. apply Hjs. by right. }
    destruct m as [[idx gd]|].
    + apply find_matching_some in Hm as [Hidx Hgd].
      apply (IH _ _ Hjs') in H; [done| |].
      * intros i Hi. apply Hrem. by apply elem_of_remove_first in Hi.
      * intros ld [Hld| ->%list_elem_of_singleton]%elem_of_app; [by apply Hlinks|].
        split; simpl.
        -- by intros j [= <-].
        -- intros g [= <-]. rewrite (Hgit idx gd Hgd). by apply Hrem.
    + apply (IH _ _ Hjs') in H; [done|done|].
      intros ld [Hld| ->%list_elem_of_singleton]%elem_of_app; [by apply Hlinks|].
      split; simpl; [by intros j [= <-] | done].
Qed.

Lemma run_links_in_range jira_users git_users pu :
  UserModel.run jira_users git_users = Ok pu → links_in_range pu.
Proof.
  unfold UserModel.run, link_teams. cbn [jira_team git_team team_links].
  set (jira := fold_left _ jira_users []). set (git := fold_left _ git_users []).
  assert (Hj : numbered jira).
  { apply fold_add_or_update_numbered. intros k d Hk. by rewrite lookup_nil in Hk. }
  assert (Hg : numbered git).
  { apply fold_add_or_update_numbered. intros k d Hk. by rewrite lookup_nil in Hk. }
  intros H. apply bind_ok in H as ([remaining links] & Hl & [= <-]).
  apply (link_jira_in_range jira git) in Hl as [Hrem Hlinks]; try done.
  - intros ld. cbn [team_links jira_team git_team].
    intros [Hld|Hld]%elem_of_app; [by apply Hlinks|].
    apply list_elem_of_fmap in Hld as (idx & -> & Hidx). split; simpl; [done|].
    intros g [= <-]. by apply Hrem.
  - intros d Hd. by apply numbered_lt.
  - intros i Hi. apply list_elem_of_fmap in Hi as (d & -> & Hd).
    by apply numbered_lt.
  - intros ld Hld. by apply elem_of_nil in Hld.
Qed.

End RosterFacts.

(** The statement of C5 fails on the tracker side: for a handle that no
    link owns, [get_link_id] returns [None] and the engine substitutes the
    roster size itself, not one more. *)
Lemma unknown_jira_id_is_roster_size :
  match
    Profile.init order_a
      {| issues := []; issue_to_change_set := [];
         change_sets :=
           [Example.commit "Bob" "bob@x.org" "c1" "2017-01-02T00:00:00Z"] |}
      [] IO.no_text_similarity IO.no_trace_similarity ["bug"%string]
  with
  | Ok self =>
      let pu := Profile.project_users self in
      UserModel.len pu = 1%nat
      ∧ UserModel.get_link_id pu "ghost" "jira" = Ok None
      ∧ Profile.link_id_or pu "ghost" "jira" (Profile.unknown_jira_user_id self)
        = Ok 1%nat
      ∧ Profile.link_id_or pu "ghost" "jira" (Profile.unknown_jira_user_id self)
        ≠ Ok (Identity.sentinel_one_greater pu)
  | Raise _ => False
  end.
Proof. vm_compute. repeat split; discriminate. Qed.

(** C5 (amended): for a handle and a roster tag ["jira"] or ["git"], on a
    roster whose link indices are in range: if some link has a member on
    that side owning the handle, [get_link_id] returns the index of the
    first such link; otherwise it returns [None], for which the engine
    substitutes the roster size on the tracker side and one more than the
    roster size on the version-control side.  [ProfileGenerator.__init__]
    sets the two substitutes so, and the roster that it builds has its link
    indices in range. *)
Theorem identity_lookup :
  (∀ pu user_name team_name,
     team_name = "jira"%string ∨ team_name = "git"%string →
     Identity.links_in_range pu →
     (∀ idx ld,
        UserModel.team_links pu !! idx = Some ld →
        Identity.owns pu team_name user_name ld →
        (∀ k ld', (k < idx)%nat → UserModel.team_links pu !! k = Some ld' →
                  ¬ Identity.owns pu team_name user_name ld') →
        UserModel.get_link_id pu user_name team_name = Ok (Some idx)
        ∧ Profile.link_id_or pu user_name team_name
            (Identity.unknown_user_id pu team_name) = Ok idx)
     ∧ ((∀ ld, ld ∈ UserModel.team_links pu →
               ¬ Identity.owns pu team_name user_name ld) →
        UserModel.get_link_id pu user_name team_name = Ok None
        ∧ Profile.link_id_or pu user_name team_name
            (Identity.unknown_user_id pu team_name)
          = Ok (Identity.unknown_user_id pu team_name)))
  ∧ (∀ pu, Identity.unknown_user_id pu "jira" = UserModel.len pu
           ∧ Identity.unknown_user_id pu "git" = (UserModel.len pu + 1)%nat)
  ∧ (∀ set_order ds to_predict text trace issue_types self,
       Profile.init set_order ds to_predict text trace issue_types = Ok self →
       Profile.unknown_jira_user_id self
       = Identity.unknown_user_id (Profile.project_users self) "jira"
       ∧ Profile.unknown_git_user_id self
         = Identity.unknown_user_id (Profile.project_users self) "git"
       ∧ Identity.links_in_range (Profile.project_users self)).
Proof.
  split; [|split].
  - intros pu user_name team_name Hteam Hrange.
    destruct (get_link_id_from_spec pu user_name team_name
                (UserModel.team_links pu) 0%nat Hteam) as [Hfound Hnone].
    { intros ld j Hin. by apply links_in_range_side. }
    unfold Profile.link_id_or, UserModel.get_link_id. split.
    + intros idx ld Hidx Hown Hfirst.
      by rewrite (Hfound idx ld Hidx Hown Hfirst).
    + intros Hno. by rewrite (Hnone Hno).
  - done.
  - intros set_order ds to_predict text trace issue_types self.
    unfold Profile.init.
    destruct (Profile._prepare_data_source _ _ _) as [ds'|]; [|done]. simpl.
    destruct (IO.build_project_users _ _) as [pu|] eqn:Hpu; [|done]. simpl.
    intros [= <-]. split; [done|]. split; [done|]. simpl.
    by apply (run_links_in_range _ _ pu Hpu).
Qed.

Lemma identity_lookup_witness :
  let pu :=
    {| UserModel.jira_team :=
         [ {| UserModel.number := 0; UserModel.names := {["Tony Stark"%string]};
              UserModel.user_names := {["tony"%string]} |} ];
       UserModel.git_team := [];
       UserModel.team_links :=
         [ {| UserModel.jira_idx := Some 0%nat; UserModel.git_idx := None |} ] |} in
  UserModel.get_link_id pu "tony" "jira" = Ok (Some 0%nat)
  ∧ UserModel.get_link_id pu "tony" "git" = Ok None.
Proof.
  intros pu.
  assert (Hrange : Identity.links_in_range pu).
  { intros ld Hin. apply list_elem_of_singleton in Hin as ->. split.
    - intros j [= <-]. simpl. lia.
    - intros g. discriminate. }
  split.
  - refine (proj1 (proj1 (proj1 identity_lookup pu "tony" "jira"
                            (or_introl eq_refl) Hrange)
                     0%nat _ eq_refl _ _)).
    + exists 0%nat, {| UserModel.number := 0;
                       UserModel.names := {["Tony Stark"%string]};
                       UserModel.user_names := {["tony"%string]} |}.
      split; [reflexivity|]. split; [reflexivity|]. simpl. set_solver.
    + intros k ld' Hk. lia.
  - refine (proj1 (proj2 (proj1 identity_lookup pu "tony" "git"
                            (or_intror eq_refl) Hrange) _)).
    intros ld Hin. apply list_elem_of_singleton in Hin as ->.
    intros (j & dev & Hside & _). discriminate.
Defined.

(** ** The timestamp conversion *)

Section TimeFormatFacts.
Import Util TimeFormat.

Lemma in_range_digit lo hi c : in_range lo hi c = true → is_digit c = true.
Proof.
  unfold in_range. intros H.
  apply andb_prop in H as [H _]. by apply andb_prop in H as [H _].
Qed.

Lemma is_char_digit x c : is_digit x = true → is_char x c = true → is_digit c = true.
Proof. unfold is_char. intros Hx H%Ascii.eqb_eq. by subst. Qed.

Lemma two_shape p1 p2 s v r :
  (∀ c, p1 c = true → is_digit c = true) → (∀ c, p2 c = true → is_digit c = true) →
  In (v, r) (two p1 p2 s) → ∃ f, s = f ++ r ∧ field f.
Proof.
  intros H1 H2. unfold two. destruct s as [|a [|b s]]; try done.
  destruct (p1 a) eqn:E1, (p2 b) eqn:E2; simpl; try done.
  intros [[= <- <-]|[]]. exists [a; b]. split; [done|]. split; [by right|].
  repeat constructor; auto.
Qed.

Lemma one_shape p s v r :
  (∀ c, p c = true → is_digit c = true) →
  In (v, r) (one p s) → ∃ f, s = f ++ r ∧ field f.
Proof.
  intros H1. unfold one. destruct s as [|a s]; try done.
  destruct (p a) eqn:E1; simpl; try done.
  intros [[= <- <-]|[]]. exists [a]. split; [done|]. split; [by left|].
  repeat constructor; auto.
Qed.

Lemma blank_one_shape s v r :
  In (v, r) (blank_one s) → ∃ f, s = f ++ r ∧ field f.
Proof.
  unfold blank_one. destruct s as [|a [|b s]]; try done.
  destruct (is_char " " a) eqn:E1, (in_range 1 9 b) eqn:E2; simpl; try done.
  intros [[= <- <-]|[]]. exists [a; b]. split; [done|]. split; [by right|].
  apply in_range_digit in E2.
  constructor; [right; symmetry; by apply Ascii.eqb_eq|].
  constructor; [by left|]. constructor.
Qed.

Ltac digit_side :=
  first [ apply in_range_digit | apply is_char_digit; reflexivity | done ].

Lemma re_field_shape (re : list ascii → matches Z) s v r :
  re = re_m ∨ re = re_d ∨ re = re_H ∨ re = re_M ∨ re = re_S →
  In (v, r) (re s) → ∃ f, s = f ++ r ∧ field f.
Proof.
  intros [-> | [-> | [-> | [-> | ->]]]];
    unfold re_m, re_d, re_H, re_M, re_S; intros H;
    repeat (apply in_app_or in H as [H|H]);
    first [ by apply blank_one_shape in H
          | apply two_shape in H; [done | intros c; digit_side ..]
          | apply one_shape in H; [done | intros c; digit_side ..] ].
Qed.

Lemma lit_shape c s r :
  In (tt, r) (lit c s) →
  ∃ a, s = a :: r ∧ (a = c ∨ (c = "T"%char ∧ a = "t"%char)
                        ∨ (c = "Z"%char ∧ a = "z"%char)).
Proof.
  unfold lit. destruct s as [|a s]; [done|].
  destruct (is_char c a) eqn:E1.
  { intros [[= <-]|[]]. exists a. split; [done|]. left. symmetry. by apply Ascii.eqb_eq. }
  destruct (is_char "T" c && is_char "t" a) eqn:E2.
  { intros [[= <-]|[]]. exists a. split; [done|]. right; left.
    apply andb_prop in E2 as [?%Ascii.eqb_eq ?%Ascii.eqb_eq]. by subst. }
  destruct (is_char "Z" c && is_char "z" a) eqn:E3; [|done].
  intros [[= <-]|[]]. exists a. split; [done|]. right; right.
  apply andb_prop in E3 as [?%Ascii.eqb_eq ?%Ascii.eqb_eq]. by subst.
Qed.

Lemma re_Y_shape s v r :
  In (v, r) (re_Y s) →
  ∃ Y, s = Y ++ r ∧ length Y = 4%nat ∧ Forall (fun c => is_digit c = true) Y.
Proof.
  unfold re_Y. destruct s as [|a [|b [|c [|d s]]]]; try done.
  destruct (is_digit a) eqn:Ea, (is_digit b) eqn:Eb, (is_digit c) eqn:Ec,
           (is_digit d) eqn:Ed; simpl; try done.
  intros [[= <- <-]|[]]. exists [a; b; c; d].
  split; [done|]. split; [done|]. by repeat constructor.
Qed.

Lemma in_seq {A B : Type} (m : matches A) (k : A → list ascii → matches B) b r :
  In (b, r) (seq m k) → ∃ a s, In (a, s) m ∧ In (b, r) (k a s).
Proof.
  unfold seq. rewrite in_flat_map. intros ([a s] & Hin & Hk). by exists a, s.
Qed.

Lemma format_regex_shape s d :
  In (d, []) (format_regex s) → iso_shape s.
Proof.
  unfold format_regex. intros H.
  apply in_seq in H as (y & s1 & HY & H). apply re_Y_shape in HY as (Y & -> & HlY & HdY).
  apply in_seq in H as ([] & s2 & H1 & H). apply lit_shape in H1 as (c1 & -> & Hc1).
  apply in_seq in H as (? & s3 & Hm & H).
  apply (re_field_shape re_m) in Hm as (fm & -> & Hfm); [|tauto].
  apply in_seq in H as ([] & s4 & H2 & H). apply lit_shape in H2 as (c2 & -> & Hc2).
  apply in_seq in H as (? & s5 & Hd & H).
  apply (re_field_shape re_d) in Hd as (fd & -> & Hfd); [|tauto].
  apply in_seq in H as ([] & s6 & H3 & H). apply lit_shape in H3 as (c3 & -> & Hc3).
  apply in_seq in H as (? & s7 & HH & H).
  apply (re_field_shape re_H) in HH as (fH & -> & HfH); [|tauto].
  apply in_seq in H as ([] & s8 & H4 & H). apply lit_shape in H4 as (c4 & -> & Hc4).
  apply in_seq in H as (? & s9 & HM & H).
  apply (re_field_shape re_M) in HM as (fM & -> & HfM); [|tauto].
  apply in_seq in H as ([] & s10 & H5 & H). apply lit_shape in H5 as (c5 & -> & Hc5).
  apply in_seq in H as (? & s11 & HS & H).
  apply (re_field_shape re_S) in HS as (fS & -> & HfS); [|tauto].
  apply in_seq in H as ([] & s12 & H6 & H). apply lit_shape in H6 as (c6 & -> & Hc6).
  destruct H as [[= _ ->]|[]].
  exists Y, fm, fd, fH, fM, fS, c3, c6.
  assert (c1 = "-"%char) as -> by (destruct Hc1 as [|[[? _]|[? _]]]; done).
  assert (c2 = "-"%char) as -> by (destruct Hc2 as [|[[? _]|[? _]]]; done).
  assert (c4 = ":"%char) as -> by (destruct Hc4 as [|[[? _]|[? _]]]; done).
  assert (c5 = ":"%char) as -> by (destruct Hc5 as [|[[? _]|[? _]]]; done).
  do 7 (split; [done|]). split; [|split; [|done]].
  - destruct Hc3 as [|[[_ ?]|[? _]]]; [by left | by right | done].
  - destruct Hc6 as [|[[? _]|[_ ?]]]; [by left | done | by right].
Qed.

Lemma strptime_shape arg d :
  strptime arg = Ok d → iso_shape (list_ascii_of_string arg).
Proof.
  unfold strptime.
  destruct (format_regex (list_ascii_of_string arg)) as [|[d' rest] ms] eqn:E; [done|].
  destruct rest; [|done]. intros _.
  apply (format_regex_shape _ d'). rewrite E. by left.
Qed.

Lemma strptime_raises arg e : strptime arg = Raise e → e = ValueError.
Proof.
  unfold strptime.
  destruct (format_regex (list_ascii_of_string arg)) as [|[d' rest] ms]; [congruence|].
  destruct rest; [|congruence]. destruct (valid_datetime d'); congruence.
Qed.

End TimeFormatFacts.




(** ** Stable sorting *)

Section SortPermutation.
Context {A : Type} (cmp : A → A → bool).

Lemma insert_sorted_perm x l : insert_sorted cmp x l ≡ₚ x :: l.
Proof.
  induction l as [|y l IH]; simpl; [done|].
  destruct (cmp x y); [done|]. rewrite IH. apply Permutation_swap.
Qed.

Lemma stable_sort_perm l : stable_sort cmp l ≡ₚ l.
Proof.
  induction l as [|x l IH]; simpl; [done|].
  rewrite insert_sorted_perm. by rewrite IH.
Qed.

End SortPermutation.

(** sorting by an integer key *)

Section StableSort.
Context {A : Type} (key : A → Z).

#[local] Abbreviation leb := (λ a b : A, key a <=? key b).
#[local] Abbreviation le := (λ a b : A, key a ≤ key b).

Lemma insert_sorted_sorted x l :
  StronglySorted le l → StronglySorted le (insert_sorted leb x l).
Proof.
  induction 1 as [|y l Hs IH Hy]; simpl.
  - repeat constructor.
  - destruct (Z.leb_spec (key x) (key y)) as [Hle|Hlt].
    + constructor; [by constructor|]. constructor; [done|].
      eapply Forall_impl; [exact Hy|]. intros z Hz. simpl in *. lia.
    + constructor; [done|]. rewrite insert_sorted_perm.
      constructor; [lia | done].
Qed.

Lemma stable_sort_sorted l : StronglySorted le (stable_sort leb l).
Proof.
  induction l as [|x l IH]; simpl; [constructor|].
  by apply insert_sorted_sorted.
Qed.

(** among the elements of one key, insertion puts the new one first *)
Lemma filter_insert_sorted t x l :
  filter (λ a, key a = t) (insert_sorted leb x l)
  = filter (λ a, key a = t) (x :: l).
Proof.
  induction l as [|y l IH]; simpl; [done|].
  destruct (Z.leb_spec (key x) (key y)) as [Hle|Hlt]; [done|].
  rewrite !filter_cons in *. rewrite IH.
  destruct (decide (key y = t)), (decide (key x = t)); try done. lia.
Qed.

(** the elements of one key keep the order that they had in the input *)
Lemma filter_stable_sort t l :
  filter (λ a, key a = t) (stable_sort leb l) = filter (λ a, key a = t) l.
Proof.
  induction l as [|x l IH]; simpl; [done|].
  rewrite filter_insert_sorted, !filter_cons. by rewrite IH.
Qed.

End StableSort.

(** ** The event stream *)

Section StreamFacts.
Import EventPkg Stream.

Variable utc_offset : Z → Z.

Lemma parses_seconds date :
  parses utc_offset date →
  Util.date_time_to_timestamp utc_offset date = Ok (seconds utc_offset date).
Proof.
  unfold parses, seconds.
  by destruct (Util.date_time_to_timestamp utc_offset date).
Qed.

Lemma new_issue_created_event_ok esc issue :
  parses utc_offset (created_date issue) →
  _new_issue_created_event utc_offset
    (jira_create_offset_seconds esc + TIME_STAMP_OFFSET) issue
  = Ok (creation_event utc_offset esc issue).
Proof.
  intros H. unfold _new_issue_created_event. by rewrite (parses_seconds _ H).
Qed.

Lemma new_issue_resolved_event_ok esc issue :
  parses utc_offset (resolution_date issue) →
  _new_issue_resolved_event utc_offset
    (jira_resolve_offset_seconds esc + TIME_STAMP_OFFSET) issue
  = Ok (resolution_event utc_offset esc issue).
Proof.
  intros H. unfold _new_issue_resolved_event.
  fold (resolution_date issue). by rewrite (parses_seconds _ H).
Qed.

Lemma new_git_event_ok esc commit :
  parses utc_offset (committed_date commit) →
  _new_git_event utc_offset
    (git_commit_offset_seconds esc + TIME_STAMP_OFFSET) commit
  = Ok (commit_event utc_offset esc commit).
Proof.
  intros H. unfold _new_git_event. by rewrite (parses_seconds _ H).
Qed.

Lemma generate_jira_events_ok esc ds :
  (∀ issue, issue ∈ issues ds →
     parses utc_offset (created_date issue)
     ∧ parses utc_offset (resolution_date issue)) →
  generate_jira_events utc_offset esc ds = Ok (issue_events utc_offset esc ds).
Proof.
  unfold generate_jira_events, issue_events.
  induction (issues ds) as [|issue l IH]; intros H; simpl; [done|].
  destruct (H issue) as [Hc Hr]; [by left|].
  rewrite (new_issue_created_event_ok esc issue Hc). simpl.
  rewrite (new_issue_resolved_event_ok esc issue Hr). simpl.
  rewrite IH; [done|]. intros i Hi. apply H. by right.
Qed.

Lemma generate_git_events_ok esc ds :
  (∀ commit, commit ∈ change_sets ds →
     parses utc_offset (committed_date commit)) →
  generate_git_events utc_offset esc ds = Ok (commit_events utc_offset esc ds).
Proof.
  unfold generate_git_events, commit_events.
  induction (change_sets ds) as [|commit l IH]; intros H; simpl; [done|].
  rewrite (new_git_event_ok esc commit); [|apply H; by left]. simpl.
  rewrite IH; [done|]. intros c Hc. apply H. by right.
Qed.

Lemma generate_ok esc ds :
  dates_parse utc_offset ds →
  generate utc_offset esc ds
  = Ok (stable_sort by_time_stamp
          (issue_events utc_offset esc ds ++ commit_events utc_offset esc ds)).
Proof.
  intros [Hi Hc]. unfold generate.
  rewrite (generate_jira_events_ok esc ds Hi). simpl.
  by rewrite (generate_git_events_ok esc ds Hc).
Qed.

(** conversely, a stream is only produced when every date converts *)
Lemma jira_events_of_parses co ro l es :
  jira_events_of utc_offset co ro l = Ok es →
  ∀ issue, issue ∈ l →
    parses utc_offset (created_date issue)
    ∧ parses utc_offset (resolution_date issue).
Proof.
  revert es. induction l as [|i l IH]; intros es H issue Hin.
  - by apply elem_of_nil in Hin.
  - simpl in H. unfold _new_issue_created_event, _new_issue_resolved_event in H.
    fold (resolution_date i) in H. unfold parses.
    destruct (Util.date_time_to_timestamp utc_offset (created_date i)) eqn:E1;
      [|done]. simpl in H.
    destruct (Util.date_time_to_timestamp utc_offset (resolution_date i)) eqn:E2;
      [|done]. simpl in H.
    destruct (jira_events_of utc_offset co ro l) as [es'|] eqn:E3; [|done].
    apply elem_of_cons in Hin as [->|Hin].
    + by rewrite E1, E2.
    + by apply (IH es').
Qed.

Lemma git_events_parses o l es :
  mapM (_new_git_event utc_offset o) l = Ok es →
  ∀ commit, commit ∈ l → parses utc_offset (committed_date commit).
Proof.
  revert es. induction l as [|c l IH]; intros es H commit Hin.
  - by apply elem_of_nil in Hin.
  - cbn [mapM] in H.
    destruct (_new_git_event utc_offset o c) as [e|] eqn:E0; [|done].
    cbn in H.
    destruct (mapM (_new_git_event utc_offset o) l) as [es'|] eqn:E3; [|done].
    apply elem_of_cons in Hin as [->|Hin]; [|by apply (IH es')].
    unfold _new_git_event in E0. unfold parses.
    by destruct (Util.date_time_to_timestamp utc_offset (committed_date c)).
Qed.

Lemma generate_dates_parse esc ds stream :
  generate utc_offset esc ds = Ok stream → dates_parse utc_offset ds.
Proof.
  unfold generate, generate_jira_events, generate_git_events.
  destruct (jira_events_of _ _ _ _) as [je|] eqn:E1; [|done]. simpl.
  destruct (mapM _ _) as [ge|] eqn:E2; [|done]. intros _. split.
  - by apply (jira_events_of_parses _ _ _ _ E1).
  - by apply (git_events_parses _ _ _ E2).
Qed.

End StreamFacts.

(** C6: when the dates of the filtered issues and commits convert, the
    event stream is produced; it consists of one creation event and one
    resolution event per issue (at the resolution time, or at the far-future
    date when unresolved) and one event per commit, each at its time plus
    its offset plus the shared epoch constant; it is sorted ascending by time
    stamp; and the sort is stable: the events of one time stamp keep the
    insertion order, issue events (creation before resolution, issue by
    issue) before commit events. *)
Theorem event_stream_sorted_stable (utc_offset : Z → Z)
  (esc : EventPkg.EventStreamCreator) (ds : DataSource) :
  Stream.dates_parse utc_offset ds →
  ∃ stream,
    EventPkg.generate utc_offset esc ds = Ok stream
    ∧ stream ≡ₚ Stream.issue_events utc_offset esc ds
                 ++ Stream.commit_events utc_offset esc ds
    ∧ Stream.ascending stream
    ∧ ∀ t, Stream.at_time t stream
           = Stream.at_time t (Stream.issue_events utc_offset esc ds)
             ++ Stream.at_time t (Stream.commit_events utc_offset esc ds).
Proof.
  intros Hdates. eexists. split; [by apply generate_ok|].
  split; [apply stable_sort_perm|].
  split; [apply (stable_sort_sorted EventPkg.time_stamp)|].
  intros t. unfold Stream.at_time.
  rewrite <- filter_app. apply (filter_stable_sort EventPkg.time_stamp).
Qed.

(** ** The sanity assertion of the engine *)

Section NeverAsserts.
Import Engine.

Context {A B : Type}.

Lemma never_asserts_ok (a : A) : never_asserts (Ok a).
Proof. done. Qed.

Lemma never_asserts_bind (r : result A) (k : A → result B) :
  never_asserts r → (∀ a, r = Ok a → never_asserts (k a)) → never_asserts (r ≫= k).
Proof.
  unfold never_asserts. destruct r as [a|e]; cbn.
  - intros _ H. by apply H.
  - intros H _ [= ->]. by apply H.
Qed.

End NeverAsserts.

Section EngineFacts.
Import Profile Engine.
Variable utc_offset : Z → Z.

Lemma date_time_to_timestamp_raises arg e :
  Util.date_time_to_timestamp utc_offset arg = Raise e → e = ValueError.
Proof.
  unfold Util.date_time_to_timestamp. destruct (String.eqb arg ""); [congruence|].
  destruct (Util.strptime arg) as [d|e'] eqn:E; simpl; [done|].
  intros [= <-]. by apply (strptime_raises arg).
Qed.

Lemma date_time_to_timestamp_never_asserts arg :
  never_asserts (Util.date_time_to_timestamp utc_offset arg).
Proof. intros H. by apply date_time_to_timestamp_raises in H. Qed.

Lemma neighbour_never_asserts sign commit other :
  never_asserts (neighbour utc_offset sign commit other).
Proof.
  unfold neighbour.
  apply never_asserts_bind; [apply date_time_to_timestamp_never_asserts|intros t1 _].
  apply never_asserts_bind; [apply date_time_to_timestamp_never_asserts|intros t2 _].
  done.
Qed.

Lemma check_previous_and_next_commits_never_asserts self commit issue :
  never_asserts (check_previous_and_next_commits utc_offset self commit issue).
Proof.
  unfold check_previous_and_next_commits.
  destruct (omap _ _); [done|].
  apply never_asserts_bind.
  { destruct (last _); [apply neighbour_never_asserts | done]. }
  intros prev _. apply never_asserts_bind; [|done].
  destruct (head _); [apply neighbour_never_asserts | done].
Qed.

Lemma open_issues_of_user_le self user_id :
  (get_number_of_currently_open_issues_assigned_to_user self user_id
   ≤ length (current_open_issues (issue_manager self)))%nat.
Proof.
  unfold get_number_of_currently_open_issues_assigned_to_user.
  apply List.filter_length_le.
Qed.

Lemma create_training_sample_never_asserts self commit issue :
  never_asserts (create_training_sample utc_offset self commit issue).
Proof.
  unfold create_training_sample.
  pose proof (open_issues_of_user_le self (change_set_user_id commit)) as Hle.
  apply Nat.leb_le in Hle. rewrite Hle. simpl.
  apply never_asserts_bind; [apply date_time_to_timestamp_never_asserts|intros t1 _].
  apply never_asserts_bind; [apply date_time_to_timestamp_never_asserts|intros t2 _].
  apply never_asserts_bind.
  { destruct (truthy _); [|done].
    apply never_asserts_bind; [apply date_time_to_timestamp_never_asserts|done]. }
  intros f15 _.
  apply never_asserts_bind; [apply check_previous_and_next_commits_never_asserts|].
  by intros [prev next] _.
Qed.

Lemma create_training_sample_counts self commit issue s :
  create_training_sample utc_offset self commit issue = Ok s →
  (f13_num_open_issues_from_committer_at_commit_time s
   ≤ f12_num_open_issues_at_commit_time s)%nat.
Proof.
  unfold create_training_sample.
  pose proof (open_issues_of_user_le self (change_set_user_id commit)) as Hle.
  destruct (negb _); [done|]. intros H.
  apply bind_ok in H as (t1 & _ & H). apply bind_ok in H as (t2 & _ & H).
  apply bind_ok in H as (f15 & _ & H).
  apply bind_ok in H as ([prev next] & _ & H).
  by injection H as <-.
Qed.

Lemma linked_samples_counts self commit ids samples :
  linked_samples utc_offset self commit ids = Ok samples →
  Forall counts_ok samples.
Proof.
  revert samples. induction ids as [|i ids IH]; intros samples; simpl.
  - by intros [= <-].
  - destruct (issue_id_to_issue self !! i) as [issue|]; [|apply IH].
    destruct (allowed self _); [|apply IH]. intros H.
    apply bind_ok in H as (s & Hs & H). apply bind_ok in H as (ss & Hss & H).
    injection H as <-. constructor; [|by apply IH].
    by apply create_training_sample_counts in Hs.
Qed.

Lemma open_samples_counts self commit ids samples :
  open_samples utc_offset self commit ids = Ok samples →
  Forall counts_ok samples.
Proof.
  revert samples. induction ids as [|i ids IH]; intros samples; simpl.
  - by intros [= <-].
  - destruct (issue_id_to_issue self !! i) as [issue|]; [|apply IH]. intros H.
    apply bind_ok in H as (s & Hs & H). apply bind_ok in H as (ss & Hss & H).
    injection H as <-. constructor; [|by apply IH].
    by apply create_training_sample_counts in Hs.
Qed.

Lemma resolved_samples_counts self commit t ids samples :
  resolved_samples utc_offset self commit t ids = Ok samples →
  Forall counts_ok samples.
Proof.
  revert samples. induction ids as [|i ids IH]; intros samples; simpl.
  - by intros [= <-].
  - destruct (issue_id_to_issue self !! i) as [issue|]; [|apply IH]. intros H.
    apply bind_ok in H as (rt & _ & H). destruct (Qltb _ _); [|by apply IH].
    apply bind_ok in H as (s & Hs & H). apply bind_ok in H as (ss & Hss & H).
    injection H as <-. constructor; [|by apply IH].
    by apply create_training_sample_counts in Hs.
Qed.

Lemma create_samples_counts self commit_hash samples :
  create_samples_for_change_set utc_offset self commit_hash = Ok samples →
  Forall counts_ok samples.
Proof.
  assert (Hun : ∀ commit, unlinked_samples utc_offset self commit = Ok samples →
                          Forall counts_ok samples).
  { intros commit H. unfold unlinked_samples in H.
    apply bind_ok in H as (active & Ha & H). apply bind_ok in H as (t & _ & H).
    apply bind_ok in H as (previous & Hp & H). injection H as <-.
    apply Forall_app. split.
    - by apply open_samples_counts in Ha.
    - by apply resolved_samples_counts in Hp. }
  unfold create_samples_for_change_set.
  destruct (commit_hash_to_change_set self !! commit_hash) as [commit|]; [|done].
  destruct (negb _); [|apply Hun].
  destruct (commit_hash_to_issue_ids self !! commit_hash) as [[|i ids]|];
    [apply Hun | apply linked_samples_counts | apply Hun].
Qed.

Lemma step_counts self out event self' out' :
  step utc_offset (self, out) event = Ok (self', out') →
  Forall counts_ok (records out) → Forall counts_ok (records out').
Proof.
  unfold step. destruct (negb _); [by intros [= <- <-]|].
  destruct event as [d t i action|d t h].
  - destruct (String.eqb action "create"); [by intros [= <- <-]|].
    destruct (String.eqb action "resolve"); [by intros [= <- <-]|done].
  - intros H. apply bind_ok in H as (samples & Hs & H).
    apply create_samples_counts in Hs.
    destruct (commit_hash_to_change_set self !! h) as [commit|]; [|done].
    destruct (_is_marked_as_to_predict _); injection H as <- <-;
      unfold records; simpl; rewrite !Forall_app; tauto.
Qed.

Lemma replay_counts events st st' :
  replay utc_offset st events = Ok st' →
  Forall counts_ok (records st.2) → Forall counts_ok (records st'.2).
Proof.
  revert st. induction events as [|event events IH]; intros st; simpl.
  - by intros [= <-].
  - intros H Hst. apply bind_ok in H as ([self1 out1] & Hstep & H).
    apply (IH _ H). destruct st as [self out].
    by apply (step_counts _ _ _ _ _ Hstep).
Qed.

Lemma run_counts self out :
  run utc_offset self = Ok out →
  Forall counts_ok (records out).
Proof.
  unfold run. intros H. apply bind_ok in H as ([self' events] & _ & H).
  apply bind_ok in H as ([self'' out'] & Hr & H). injection H as <-.
  apply (replay_counts _ _ _ Hr). constructor.
Qed.

Lemma member_never_asserts members j : never_asserts (UserModel.member members j).
Proof. unfold UserModel.member. by destruct (members !! j). Qed.

Lemma get_link_id_never_asserts pu user_name team_name :
  never_asserts (UserModel.get_link_id pu user_name team_name).
Proof.
  unfold UserModel.get_link_id. generalize 0%nat.
  induction (UserModel.team_links pu) as [|ld links IH]; intros idx; simpl; [done|].
  destruct (String.eqb team_name "jira").
  - destruct (UserModel.jira_idx ld); [|apply IH].
    apply never_asserts_bind; [apply member_never_asserts|intros dev _].
    destruct (UserModel.has_user_name _ _); [done|apply IH].
  - destruct (String.eqb team_name "git"); [|done].
    destruct (UserModel.git_idx ld); [|apply IH].
    apply never_asserts_bind; [apply member_never_asserts|intros dev _].
    destruct (UserModel.has_user_name _ _); [done|apply IH].
Qed.

Lemma link_id_or_never_asserts pu user_name team_name unknown :
  never_asserts (link_id_or pu user_name team_name unknown).
Proof.
  unfold link_id_or.
  apply never_asserts_bind; [apply get_link_id_never_asserts|done].
Qed.

Lemma foldl_never_asserts {A B : Type} (f : result A → B → result A) l acc :
  (∀ acc x, never_asserts acc → never_asserts (f acc x)) →
  never_asserts acc → never_asserts (foldl f acc l).
Proof.
  intros Hf. revert acc. induction l as [|x l IH]; intros acc Hacc; simpl; [done|].
  apply IH. by apply Hf.
Qed.

Lemma build_issue_lookup_never_asserts self :
  never_asserts (build_issue_lookup self).
Proof.
  unfold build_issue_lookup. apply foldl_never_asserts; [|done].
  intros acc raw_issue Hacc. apply never_asserts_bind; [done|intros result _].
  destruct (negb _); [done|].
  apply never_asserts_bind; [apply link_id_or_never_asserts|done].
Qed.

Lemma build_change_set_lookup_never_asserts self :
  never_asserts (build_change_set_lookup self).
Proof.
  unfold build_change_set_lookup. apply foldl_never_asserts; [|done].
  intros acc raw_commit Hacc. apply never_asserts_bind; [done|intros result _].
  apply never_asserts_bind; [apply link_id_or_never_asserts|done].
Qed.

Lemma generate_never_asserts esc ds :
  never_asserts (EventPkg.generate utc_offset esc ds).
Proof.
  unfold EventPkg.generate. apply never_asserts_bind.
  { unfold EventPkg.generate_jira_events.
    induction (issues ds) as [|issue l IH]; simpl; [done|].
    apply never_asserts_bind.
    { unfold EventPkg._new_issue_created_event.
      apply never_asserts_bind;
        [apply date_time_to_timestamp_never_asserts|done]. }
    intros c _. apply never_asserts_bind.
    { unfold EventPkg._new_issue_resolved_event.
      apply never_asserts_bind;
        [apply date_time_to_timestamp_never_asserts|done]. }
    intros r _. apply never_asserts_bind; [apply IH|done]. }
  intros jira_events _. apply never_asserts_bind; [|done].
  unfold EventPkg.generate_git_events.
  induction (change_sets ds) as [|commit l IH]; simpl; [done|].
  apply never_asserts_bind.
  { unfold EventPkg._new_git_event.
    apply never_asserts_bind; [apply date_time_to_timestamp_never_asserts|done]. }
  intros e _. apply never_asserts_bind; [apply IH|done].
Qed.

Lemma linked_samples_never_asserts self commit ids :
  never_asserts (linked_samples utc_offset self commit ids).
Proof.
  induction ids as [|i ids IH]; simpl; [done|].
  destruct (issue_id_to_issue self !! i) as [issue|]; [|apply IH].
  destruct (allowed self _); [|apply IH].
  apply never_asserts_bind; [apply create_training_sample_never_asserts|].
  intros s _. apply never_asserts_bind; [apply IH|done].
Qed.

Lemma open_samples_never_asserts self commit ids :
  never_asserts (open_samples utc_offset self commit ids).
Proof.
  induction ids as [|i ids IH]; simpl; [done|].
  destruct (issue_id_to_issue self !! i) as [issue|]; [|apply IH].
  apply never_asserts_bind; [apply create_training_sample_never_asserts|].
  intros s _. apply never_asserts_bind; [apply IH|done].
Qed.

Lemma resolved_samples_never_asserts self commit t ids :
  never_asserts (resolved_samples utc_offset self commit t ids).
Proof.
  induction ids as [|i ids IH]; simpl; [done|].
  destruct (issue_id_to_issue self !! i) as [issue|]; [|apply IH].
  apply never_asserts_bind.
  { unfold Util.date_time_to_timestamp_opt.
    destruct (resolved_date _); [apply date_time_to_timestamp_never_asserts|done]. }
  intros rt _. destruct (Qltb _ _); [|apply IH].
  apply never_asserts_bind; [apply create_training_sample_never_asserts|].
  intros s _. apply never_asserts_bind; [apply IH|done].
Qed.

Lemma create_samples_never_asserts self commit_hash :
  never_asserts (create_samples_for_change_set utc_offset self commit_hash).
Proof.
  assert (Hun : ∀ commit, never_asserts (unlinked_samples utc_offset self commit)).
  { intros commit. unfold unlinked_samples.
    apply never_asserts_bind; [apply open_samples_never_asserts|intros a _].
    apply never_asserts_bind; [apply date_time_to_timestamp_never_asserts|].
    intros t _.
    apply never_asserts_bind; [apply resolved_samples_never_asserts|done]. }
  unfold create_samples_for_change_set.
  destruct (commit_hash_to_change_set self !! commit_hash) as [commit|]; [|done].
  destruct (negb _); [|apply Hun].
  destruct (commit_hash_to_issue_ids self !! commit_hash) as [[|i ids]|];
    [apply Hun | apply linked_samples_never_asserts | apply Hun].
Qed.

Lemma step_never_asserts st event : never_asserts (step utc_offset st event).
Proof.
  destruct st as [self out]. unfold step. destruct (negb _); [done|].
  destruct event as [d t i action|d t h].
  - destruct (String.eqb action "create"); [done|].
    by destruct (String.eqb action "resolve").
  - apply never_asserts_bind; [apply create_samples_never_asserts|].
    intros samples _.
    destruct (commit_hash_to_change_set self !! h) as [commit|]; [|done].
    by destruct (_is_marked_as_to_predict _).
Qed.

Lemma replay_never_asserts events st : never_asserts (replay utc_offset st events).
Proof.
  revert st. induction events as [|event events IH]; intros st; simpl; [done|].
  apply never_asserts_bind; [apply step_never_asserts|]. intros st' _. apply IH.
Qed.

Lemma run_never_asserts self : never_asserts (run utc_offset self).
Proof.
  unfold run. apply never_asserts_bind.
  { unfold prepare_run.
    apply never_asserts_bind; [apply generate_never_asserts|intros es _].
    apply never_asserts_bind; [apply build_issue_lookup_never_asserts|intros i _].
    apply never_asserts_bind; [apply build_change_set_lookup_never_asserts|done]. }
  intros [self' events] _.
  apply never_asserts_bind; [apply replay_never_asserts|]. by intros [? ?] _.
Qed.
End EngineFacts.

Section InitFacts.
Import Profile Engine.

Lemma find_matching_never_asserts git_members jira_dev remaining :
  never_asserts (UserModel.find_matching git_members jira_dev remaining).
Proof.
  induction remaining as [|idx rest IH]; simpl; [done|].
  apply never_asserts_bind; [apply member_never_asserts|intros git_dev _].
  by destruct (UserModel.shares_name _ _).
Qed.

Lemma link_jira_never_asserts git_members jira_members remaining links :
  never_asserts (UserModel.link_jira git_members jira_members remaining links).
Proof.
  revert remaining links.
  induction jira_members as [|jira_dev rest IH]; intros remaining links;
    simpl; [done|].
  apply never_asserts_bind; [apply find_matching_never_asserts|].
  intros [[idx dev]|] _; apply IH.
Qed.

Lemma run_users_never_asserts jira_users git_users :
  never_asserts (UserModel.run jira_users git_users).
Proof.
  unfold UserModel.run, UserModel.link_teams.
  apply never_asserts_bind; [apply link_jira_never_asserts|].
  by intros [remaining links] _.
Qed.

Lemma init_never_asserts set_order ds to_predict text trace issue_types :
  never_asserts (init set_order ds to_predict text trace issue_types).
Proof.
  unfold init. apply never_asserts_bind.
  { unfold _prepare_data_source. by destruct (filter _ _). }
  intros ds' _. apply never_asserts_bind; [|done].
  apply run_users_never_asserts.
Qed.

End InitFacts.

(** C7: the number of open issues assigned to the author of the commit is
    at most the number of open issues: the count never exceeds the length
    of the open list, every record that [create_training_sample] returns and
    every record that a run collects satisfies the bound, and neither
    [create_training_sample] nor a run nor the whole pipeline ends in the
    failed sanity assertion, on any input. *)
Theorem open_issue_counts (utc_offset : Z → Z) :
  (∀ self user_id,
     (Profile.get_number_of_currently_open_issues_assigned_to_user self user_id
      ≤ length (Profile.current_open_issues (Profile.issue_manager self)))%nat)
  ∧ (∀ self commit issue s,
       Profile.create_training_sample utc_offset self commit issue = Ok s →
       Engine.counts_ok s)
  ∧ (∀ self commit issue,
       Engine.never_asserts
         (Profile.create_training_sample utc_offset self commit issue))
  ∧ (∀ self out,
       Profile.run utc_offset self = Ok out →
       Forall Engine.counts_ok (Engine.records out))
  ∧ (∀ self, Engine.never_asserts (Profile.run utc_offset self))
  ∧ (∀ set_order ds to_predict text trace issue_types,
       Engine.never_asserts
         (Profile.pipeline utc_offset set_order ds to_predict text trace
            issue_types)
       ∧ ∀ out,
           Profile.pipeline utc_offset set_order ds to_predict text trace
             issue_types = Ok out →
           Forall Engine.counts_ok (Engine.records out)).
Proof.
  split; [apply open_issues_of_user_le|].
  split; [apply create_training_sample_counts|].
  split; [apply create_training_sample_never_asserts|].
  split; [apply run_counts|].
  split; [apply run_never_asserts|].
  intros set_order ds to_predict text trace issue_types.
  unfold Profile.pipeline. split.
  - apply never_asserts_bind; [apply init_never_asserts|].
    intros self _. apply run_never_asserts.
  - intros out H. apply bind_ok in H as (self & _ & H).
    by apply (run_counts utc_offset self).
Qed.

Lemma open_issue_counts_witness :
  match
    Profile.pipeline tz_utc order_a Example.history Example.to_predict
      IO.no_text_similarity IO.no_trace_similarity ["bug"%string]
  with
  | Ok out => length (Engine.records out) = 8%nat
              ∧ Forall Engine.counts_ok (Engine.records out)
  | Raise _ => False
  end.
Proof.
  destruct (Profile.pipeline tz_utc order_a Example.history Example.to_predict
              IO.no_text_similarity IO.no_trace_similarity ["bug"%string])
    as [out|e] eqn:E.
  - split.
    + vm_compute in E. injection E as <-. reflexivity.
    + exact (proj2 (proj2 (proj2 (proj2 (proj2 (proj2
               (open_issue_counts tz_utc)))))
               order_a Example.history Example.to_predict
               IO.no_text_similarity IO.no_trace_similarity ["bug"%string])
               out E).
  - vm_compute in E. discriminate E.
Defined.

Lemma event_stream_sorted_stable_witness :
  ∃ stream,
    EventPkg.generate tz_utc EventPkg.new_creator Example.history = Ok stream
    ∧ stream ≡ₚ Stream.issue_events tz_utc EventPkg.new_creator Example.history
                 ++ Stream.commit_events tz_utc EventPkg.new_creator
                      Example.history
    ∧ Stream.ascending stream
    ∧ ∀ t, Stream.at_time t stream
           = Stream.at_time t
               (Stream.issue_events tz_utc EventPkg.new_creator Example.history)
             ++ Stream.at_time t
                  (Stream.commit_events tz_utc EventPkg.new_creator
                     Example.history).
Proof.
  apply (event_stream_sorted_stable tz_utc EventPkg.new_creator Example.history).
  split.
  - intros issue Hin.
    repeat (apply elem_of_cons in Hin as [->|Hin]; [by vm_compute|]).
    by apply elem_of_nil in Hin.
  - intros commit Hin.
    repeat (apply elem_of_cons in Hin as [->|Hin]; [by vm_compute|]).
    by apply elem_of_nil in Hin.
Defined.

(** ** Determinism across processes *)

(** C4: the output of the sampling pipeline depends on the order in which
    the process iterates over sets of strings.  On the same data and with
    the same oracles, two processes that differ only in that order produce
    different records: the roster is built from name and handle pairs that are
    sorted by name only, so that the handles of one name arrive in set
    order, and the link lists of the filtered data source are lists of
    sets, so that linked commits of one instant are neighbours in set order. *)
Theorem pipeline_depends_on_set_order :
  let run set_order ds :=
    Profile.pipeline tz_utc set_order ds [] IO.no_text_similarity
      IO.no_trace_similarity ["bug"%string] in
  (Example.training_identities (run order_a Example.aliases)
   = [("c1", "I-1", 0, 1, None); ("c2", "I-1", 0, 1, None);
      ("c3", "I-1", 0, 1, None)]%string%nat
   ∧ Example.training_identities (run order_b Example.aliases)
     = [("c1", "I-1", 0, 2, None); ("c2", "I-1", 0, 2, None);
        ("c3", "I-1", 1, 2, None)]%string%nat
   ∧ run order_a Example.aliases ≠ run order_b Example.aliases)
  ∧ (Example.training_identities (run order_a Example.same_instant)
     = [("c1", "I-1", 0, 2, None); ("c2", "I-1", 1, 2, None);
        ("c3", "I-1", 0, 2, Some 1)]%string%nat
     ∧ Example.training_identities (run order_b Example.same_instant)
       = [("c1", "I-1", 0, 2, None); ("c2", "I-1", 1, 2, None);
          ("c3", "I-1", 0, 2, Some 0)]%string%nat
     ∧ run order_a Example.same_instant ≠ run order_b Example.same_instant).
Proof.
  intros run. split.
  - split; [by vm_compute|]. split; [by vm_compute|].
    intros H. apply (f_equal Example.training_identities) in H.
    vm_compute in H. discriminate H.
  - split; [by vm_compute|]. split; [by vm_compute|].
    intros H. apply (f_equal Example.training_identities) in H.
    vm_compute in H. discriminate H.
Qed.


(** ** The sampling rules *)

Section Lookups.
Import Profile Engine.

Lemma foldl_raise {A B : Type} (f : result A → B → result A) e l :
  (∀ x, f (Raise e) x = Raise e) → foldl f (Raise e) l = Raise e.
Proof. intros Hf. induction l as [|x l IH]; simpl; [done|]. by rewrite Hf. Qed.

(** an invariant of the accumulator of a loop that may raise *)
Lemma foldl_result_inv {A B : Type} (P : A → Prop) (L : list B)
  (f : result A → B → result A) l acc m :
  (∀ e x, f (Raise e) x = Raise e) →
  (∀ a x a', x ∈ L → P a → f (Ok a) x = Ok a' → P a') →
  (∀ x, x ∈ l → x ∈ L) →
  foldl f acc l = Ok m → ∃ a, acc = Ok a ∧ (P a → P m).
Proof.
  intros Hraise Hstep. revert acc.
  induction l as [|x l IH]; intros acc Hl; simpl.
  - intros ->. by exists m.
  - intros H. destruct (IH (f acc x)) as (a' & Ha' & HP); [|done|].
    { intros y Hy. apply Hl. by right. }
    destruct acc as [a|e]; [|by rewrite Hraise in Ha'].
    exists a. split; [done|]. intros Pa. apply HP.
    apply (Hstep a x a'); [apply Hl; by left|done|done].
Qed.

Lemma build_issue_lookup_spec self m :
  build_issue_lookup self = Ok m →
  ∀ k e, m !! k = Some e →
    id (issue_of e) = k ∧ issue_of e ∈ issues (data_source self)
    ∧ allowed self (mapped_type (issue_of e)) = true.
Proof.
  unfold build_issue_lookup. intros H.
  eapply (foldl_result_inv
            (λ m : gmap string IssueEntry, ∀ k e, m !! k = Some e →
               id (issue_of e) = k ∧ issue_of e ∈ issues (data_source self)
               ∧ allowed self (mapped_type (issue_of e)) = true)
            (issues (data_source self))) in H as (a & [= <-] & HP).
  - apply HP. intros k e Hk. by rewrite lookup_empty in Hk.
  - done.
  - intros a x a' Hx Pa. cbn.
    destruct (allowed self (mapped_type x)) eqn:Hall; cbn; [|by intros [= <-]].
    intros Hb. apply bind_ok in Hb as (uid & _ & [= <-]).
    intros k e. rewrite lookup_insert.
    case_decide as Hk; [|apply Pa]. intros [= <-]. by subst k.
  - done.
Qed.

Lemma build_change_set_lookup_spec self m :
  build_change_set_lookup self = Ok m →
  ∀ k e, m !! k = Some e →
    commit_hash (change_set_of e) = k
    ∧ change_set_of e ∈ change_sets (data_source self).
Proof.
  unfold build_change_set_lookup. intros H.
  eapply (foldl_result_inv
            (λ m : gmap string ChangeSetEntry, ∀ k e, m !! k = Some e →
               commit_hash (change_set_of e) = k
               ∧ change_set_of e ∈ change_sets (data_source self))
            (change_sets (data_source self))) in H as (a & [= <-] & HP).
  - apply HP. intros k e Hk. by rewrite lookup_empty in Hk.
  - done.
  - intros a x a' Hx Pa. cbn.
    intros Hb. apply bind_ok in Hb as (uid & _ & [= <-]).
    intros k e. rewrite lookup_insert.
    case_decide as Hk; [|apply Pa]. intros [= <-]. by subst k.
  - done.
Qed.

End Lookups.

Section Inverse.
Import Profile Engine.

(** the body of the inner loop of [build_change_set_issue_inverse_lookup] *)
Lemma inverse_lookup_inner (issue_id : string) (data : list string)
  (m : gmap string (list string)) (h : string) :
  let old := default [] (m !! h) in
  default []
    (foldl (λ (hash_to_issue_ids : gmap string (list string)) commit_hash,
              match hash_to_issue_ids !! commit_hash with
              | Some issues =>
                  if negb (mem issue_id issues)
                  then <[commit_hash := issues ++ [issue_id]]> hash_to_issue_ids
                  else hash_to_issue_ids
              | None => <[commit_hash := [issue_id]]> hash_to_issue_ids
              end) m data !! h)
  = if decide (h ∈ data)
    then (if decide (issue_id ∈ old) then old else old ++ [issue_id])
    else old.
Proof.
  revert m. induction data as [|x data IH]; intros m; simpl.
  - done.
  - rewrite IH. clear IH.
    set (m1 := match m !! x with
               | Some issues =>
                   if negb (mem issue_id issues)
                   then <[x := issues ++ [issue_id]]> m else m
               | None => <[x := [issue_id]]> m
               end).
    assert (Hm1 : default [] (m1 !! h)
                  = if decide (h = x)
                    then (if decide (issue_id ∈ default [] (m !! h))
                          then default [] (m !! h)
                          else default [] (m !! h) ++ [issue_id])
                    else default [] (m !! h)).
    { subst m1. destruct (decide (h = x)) as [->|Hne].
      - destruct (m !! x) as [issues|] eqn:Hx; simpl.
        + destruct (decide (issue_id ∈ issues)) as [Hin|Hnin].
          * apply mem_true in Hin. rewrite Hin. simpl. by rewrite Hx.
          * apply mem_false in Hnin. rewrite Hnin. simpl.
            by rewrite lookup_insert_eq.
        + by rewrite lookup_insert_eq.
      - destruct (m !! x) as [issues|] eqn:Hx.
        + destruct (negb (mem issue_id issues)); [|done].
          by rewrite lookup_insert_ne.
        + by rewrite lookup_insert_ne. }
    rewrite Hm1. clear Hm1 m1.
    set (old := default [] (m !! h)).
    destruct (decide (h = x)) as [->|Hne].
    + rewrite (decide_True (P := x ∈ x :: data)) by by left.
      destruct (decide (issue_id ∈ old)) as [Hin|Hnin].
      * rewrite (decide_True (P := issue_id ∈ old)) by done.
        by destruct (decide (x ∈ data)).
      * rewrite (decide_True (P := issue_id ∈ old ++ [issue_id])).
        2:{ apply elem_of_app. right. by left. }
        by destruct (decide (x ∈ data)).
    + destruct (decide (h ∈ data)) as [Hd|Hd].
      * rewrite (decide_True (P := h ∈ x :: data)) by by right. done.
      * rewrite (decide_False (P := h ∈ x :: data)); [done|].
        intros [?|?]%elem_of_cons; done.
Qed.

Lemma inverse_lookup_spec self h :
  NoDup (default [] (build_change_set_issue_inverse_lookup self !! h))
  ∧ ∀ i, i ∈ default [] (build_change_set_issue_inverse_lookup self !! h)
         ↔ ∃ hashes, (i, hashes) ∈ issue_to_change_set (data_source self)
                     ∧ h ∈ hashes.
Proof.
  unfold build_change_set_issue_inverse_lookup.
  induction (issue_to_change_set (data_source self)) as [|[i0 data] l IH]
    using rev_ind.
  - simpl. rewrite lookup_empty. simpl. split; [constructor|].
    intros i. split; [by intros ?%elem_of_nil|].
    by intros (hs & ?%elem_of_nil & _).
  - rewrite foldl_app. simpl. rewrite inverse_lookup_inner.
    destruct IH as [IHnd IHin].
    set (old := default [] (foldl _ ∅ l !! h)) in *.
    destruct (decide (h ∈ data)) as [Hd|Hd].
    + destruct (decide (i0 ∈ old)) as [Hin|Hnin].
      * split; [done|]. intros i. rewrite IHin. split.
        -- intros (hs & Hl & Hh). exists hs. split; [|done].
           apply elem_of_app. by left.
        -- intros (hs & Hl & Hh). apply elem_of_app in Hl as [Hl|Hl].
           ++ by exists hs.
           ++ apply list_elem_of_singleton in Hl as [= -> ->]. by apply IHin.
      * split.
        -- apply NoDup_app. split; [done|]. split; [|apply NoDup_singleton].
           intros x Hx ->%list_elem_of_singleton. done.
        -- intros i. rewrite elem_of_app, list_elem_of_singleton, IHin. split.
           ++ intros [(hs & Hl & Hh) | ->].
              ** exists hs. split; [|done]. apply elem_of_app. by left.
              ** exists data. split; [|done]. apply elem_of_app. right. by left.
           ++ intros (hs & Hl & Hh). apply elem_of_app in Hl as [Hl|Hl].
              ** left. by exists hs.
              ** apply list_elem_of_singleton in Hl as [= -> ->]. by right.
    + split; [done|]. intros i. rewrite IHin. split.
      * intros (hs & Hl & Hh). exists hs. split; [|done].
        apply elem_of_app. by left.
      * intros (hs & Hl & Hh). apply elem_of_app in Hl as [Hl|Hl].
        -- by exists hs.
        -- apply list_elem_of_singleton in Hl as [= -> ->]. done.
Qed.

End Inverse.

Section Reachability.
Import Profile Engine.

Variable utc_offset : Z → Z.

Lemma prepare_run_consistent self0 self1 events :
  issue_manager self0 = new_manager →
  prepare_run utc_offset self0 = Ok (self1, events) →
  consistent utc_offset self1.
Proof.
  intros Hm H. unfold prepare_run in H.
  apply bind_ok in H as (stream & Hgen & H).
  apply bind_ok in H as (i & Hi & H). apply bind_ok in H as (c & Hc & H).
  injection H as <- <-. split; [|split; [|split; [|split]]].
  - by apply (generate_dates_parse utc_offset (esc self0) _ stream).
  - apply (build_issue_lookup_spec self0 i Hi).
  - apply (build_change_set_lookup_spec self0 c Hc).
  - done.
  - simpl. rewrite Hm. simpl. intros j [Hj|Hj]; by apply elem_of_nil in Hj.
Qed.

Lemma step_consistent self out event self' out' :
  consistent utc_offset self →
  step utc_offset (self, out) event = Ok (self', out') →
  consistent utc_offset self'.
Proof.
  intros Hcons. pose proof Hcons as (Hd & Hi & Hc & Hl & Hm). unfold step.
  destruct (is_relevant_event self event) eqn:Hrel; simpl;
    [|intros [= <- <-]; exact Hcons].
  destruct event as [d t i action|d t h].
  - simpl in Hrel.
    assert (Hknown : is_Some (issue_id_to_issue self !! i)).
    { by destruct (issue_id_to_issue self !! i). }
    destruct (String.eqb action "create").
    { intros [= <- <-]. split; [done|]. split; [done|]. split; [done|].
      split; [done|]. simpl. intros j [Hj|Hj].
      - apply elem_of_open_create in Hj as [Hj| ->]; [|done]. apply Hm. by left.
      - rewrite resolved_create in Hj. apply Hm. by right. }
    destruct (String.eqb action "resolve"); [|done].
    intros [= <- <-]. split; [done|]. split; [done|]. split; [done|].
    split; [done|]. simpl. intros j [Hj|Hj].
    + apply elem_of_open_resolve in Hj as [Hj _]. apply Hm. by left.
    + apply elem_of_resolved_resolve in Hj as [Hj| ->]; [|done]. apply Hm. by right.
  - intros H. apply bind_ok in H as (samples & _ & H).
    destruct (commit_hash_to_change_set self !! h); [|done].
    destruct (_is_marked_as_to_predict _); injection H as <- <-; exact Hcons.
Qed.

Lemma reachable_consistent self0 self out :
  reachable utc_offset self0 self out → consistent utc_offset self.
Proof.
  induction 1 as [self1 events Hm Hp | self out event self' out' _ IH Hstep].
  - by apply (prepare_run_consistent self0 self1 events).
  - by apply (step_consistent self out event self' out').
Qed.

End Reachability.

Section PyLists.
Import Profile Engine.
Context {A : Type}.

Lemma elem_of_takewhile (p : A → bool) x l : x ∈ takewhile p l → x ∈ l.
Proof.
  induction l as [|y l IH]; simpl; [done|].
  destruct (p y); [|by intros ?%elem_of_nil].
  intros [->|H]%elem_of_cons; [by left | right; by apply IH].
Qed.

Lemma elem_of_dropwhile (p : A → bool) x l : x ∈ dropwhile p l → x ∈ l.
Proof.
  induction l as [|y l IH]; simpl; [done|].
  destruct (p y); [|done]. intros H. right. by apply IH.
Qed.

Lemma last_elem_of (l : list A) x : last l = Some x → x ∈ l.
Proof.
  intros H. apply last_Some in H as [l' ->]. apply elem_of_app. right. by left.
Qed.

Lemma head_elem_of (l : list A) x : head l = Some x → x ∈ l.
Proof. destruct l; [done|]. intros [= ->]. by left. Qed.

End PyLists.

Section Samples.
Import Profile Engine.

Variable utc_offset : Z → Z.

Lemma neighbour_ok sign commit other :
  Stream.parses utc_offset (committed_date (change_set_of commit)) →
  Stream.parses utc_offset (committed_date (change_set_of other)) →
  ∃ lc, neighbour utc_offset sign commit other = Ok lc.
Proof.
  intros H1 H2. unfold neighbour.
  rewrite (parses_seconds _ _ H1), (parses_seconds _ _ H2). cbn. by eexists.
Qed.

Lemma commit_entry_parses self k e :
  consistent utc_offset self →
  commit_hash_to_change_set self !! k = Some e →
  Stream.parses utc_offset (committed_date (change_set_of e)).
Proof.
  intros ([_ Hd] & _ & Hc & _) Hk. apply Hd. by apply (Hc k e).
Qed.

Lemma issue_entry_parses self k e :
  consistent utc_offset self →
  issue_id_to_issue self !! k = Some e →
  Stream.parses utc_offset (created_date (issue_of e))
  ∧ Stream.parses utc_offset (Stream.resolution_date (issue_of e)).
Proof.
  intros ([Hd _] & Hi & _) Hk. apply Hd. by apply (Hi k e).
Qed.

Lemma check_previous_and_next_commits_ok self h commit issue :
  consistent utc_offset self →
  commit_hash_to_change_set self !! h = Some commit →
  ∃ pn, check_previous_and_next_commits utc_offset self commit issue = Ok pn.
Proof.
  intros Hcons Hh. unfold check_previous_and_next_commits.
  set (hashes := default [] _).
  assert (Hlinked : ∀ e, e ∈ omap (λ h, commit_hash_to_change_set self !! h) hashes →
            Stream.parses utc_offset (committed_date (change_set_of e))).
  { intros e He. apply list_elem_of_omap in He as (k & _ & Hk).
    by apply (commit_entry_parses self k e). }
  destruct (omap _ hashes) as [|e0 es] eqn:E; [by eexists|].
  rewrite <- E in *. clear E e0 es.
  pose proof (commit_entry_parses self h commit Hcons Hh) as Hp.
  set (sorted := stable_sort by_committed_date _).
  assert (Hs : ∀ e, e ∈ sorted →
            Stream.parses utc_offset (committed_date (change_set_of e))).
  { intros e He. apply Hlinked. subst sorted.
    by rewrite stable_sort_perm in He. }
  destruct (last (takewhile _ sorted)) as [p|] eqn:Ep.
  - destruct (neighbour_ok 1 commit p Hp) as [lp ->].
    { apply Hs. apply last_elem_of in Ep. by apply elem_of_takewhile in Ep. }
    cbn. destruct (head (dropwhile _ sorted)) as [n|] eqn:En; [|by eexists].
    destruct (neighbour_ok (-1) commit n Hp) as [ln ->]; [|by eexists].
    apply Hs. apply head_elem_of in En. by apply elem_of_dropwhile in En.
  - cbn. destruct (head (dropwhile _ sorted)) as [n|] eqn:En; [|by eexists].
    destruct (neighbour_ok (-1) commit n Hp) as [ln ->]; [|by eexists].
    apply Hs. apply head_elem_of in En. by apply elem_of_dropwhile in En.
Qed.

Lemma create_training_sample_ok self h commit i issue :
  consistent utc_offset self →
  commit_hash_to_change_set self !! h = Some commit →
  issue_id_to_issue self !! i = Some issue →
  ∃ s, create_training_sample utc_offset self commit issue = Ok s
       ∧ ∀ b, Example.view (set_f06 b s) = (h, i, Some b).
Proof.
  intros Hcons Hh Hi. unfold create_training_sample.
  pose proof (open_issues_of_user_le self (change_set_user_id commit)) as Hle.
  apply Nat.leb_le in Hle. rewrite Hle. cbn [negb].
  destruct (issue_entry_parses self i issue Hcons Hi) as [Hpc Hpr].
  pose proof (commit_entry_parses self h commit Hcons Hh) as Hp.
  rewrite (parses_seconds _ _ Hpc). cbn [mbind result_bind].
  rewrite (parses_seconds _ _ Hp). cbn [mbind result_bind].
  assert (Hf15 : ∃ f15,
            (if truthy (resolved_date (issue_of issue))
             then t3 ← Util.date_time_to_timestamp utc_offset
                         (default ""%string (resolved_date (issue_of issue)));
                  Ok (Some (t3 - Stream.seconds utc_offset
                                   (committed_date (change_set_of commit))))
             else Ok None) = Ok f15).
  { unfold Stream.resolution_date in Hpr.
    destruct (truthy _); [|by eexists].
    rewrite (parses_seconds _ _ Hpr). by eexists. }
  destruct Hf15 as [f15 ->]. cbn [mbind result_bind].
  destruct (check_previous_and_next_commits_ok self h commit issue Hcons Hh)
    as [[prev next] ->].
  cbn [mbind result_bind]. eexists. split; [done|].
  intros b. unfold Example.view. cbn.
  destruct Hcons as (_ & HI & HC & _).
  destruct (HI i issue Hi) as [-> _]. by destruct (HC h commit Hh) as [-> _].
Qed.

End Samples.

Section Loops.
Import Profile Engine.

Variable utc_offset : Z → Z.

Lemma Qltb_tolerance z :
  Qltb (inject_Z z) MAX_DIFFERENCE_BETWEEN_RESOLVED_AND_COMMITTED_SEC
  = (z <? TOLERANCE).
Proof.
  unfold Qltb, Qle_bool, TOLERANCE. cbn.
  change (15 * 24 * 3600 * 1) with 1296000. change (Z.pos (10 * 1 * 1)) with 10.
  destruct (Z.leb_spec 1296000 (z * 10)), (Z.ltb_spec z 129600); simpl; lia.
Qed.

Lemma linked_samples_ok self h commit ids :
  consistent utc_offset self →
  commit_hash_to_change_set self !! h = Some commit →
  ∃ samples,
    linked_samples utc_offset self commit ids = Ok samples
    ∧ map Example.view samples
      = map (λ i, (h, i, Some (is_open self i))) (List.filter (in_scope self) ids).
Proof.
  intros Hcons Hh. induction ids as [|i ids (samples & IH & IHv)]; simpl.
  - by exists [].
  - unfold in_scope at 1.
    destruct (issue_id_to_issue self !! i) as [issue|] eqn:Hi; [|by exists samples].
    destruct (allowed self _); [|by exists samples].
    destruct (create_training_sample_ok utc_offset self h commit i issue Hcons Hh Hi)
      as (s & -> & Hv).
    cbn [mbind result_bind]. rewrite IH. cbn [mbind result_bind].
    eexists. split; [done|]. simpl. by rewrite Hv, IHv.
Qed.

Lemma open_samples_ok self h commit ids :
  consistent utc_offset self →
  commit_hash_to_change_set self !! h = Some commit →
  (∀ i, i ∈ ids → is_Some (issue_id_to_issue self !! i)) →
  ∃ samples,
    open_samples utc_offset self commit ids = Ok samples
    ∧ map Example.view samples = map (λ i, (h, i, Some true)) ids.
Proof.
  intros Hcons Hh. induction ids as [|i ids IH]; intros Hknown; simpl.
  - by exists [].
  - destruct IH as (samples & IH & IHv); [intros j Hj; apply Hknown; by right|].
    destruct (Hknown i) as [issue Hi]; [by left|]. rewrite Hi.
    destruct (create_training_sample_ok utc_offset self h commit i issue Hcons Hh Hi)
      as (s & -> & Hv).
    cbn [mbind result_bind]. rewrite IH. cbn [mbind result_bind].
    eexists. split; [done|]. simpl. by rewrite Hv, IHv.
Qed.

Lemma resolved_samples_ok self h commit ids :
  consistent utc_offset self →
  commit_hash_to_change_set self !! h = Some commit →
  (∀ i issue, i ∈ ids → issue_id_to_issue self !! i = Some issue →
              truthy (resolved_date (issue_of issue)) = true) →
  ∃ samples,
    resolved_samples utc_offset self commit
      (Stream.seconds utc_offset (committed_date (change_set_of commit))) ids
    = Ok samples
    ∧ map Example.view samples
      = map (λ i, (h, i, Some false))
            (List.filter (resolved_within utc_offset self commit) ids).
Proof.
  intros Hcons Hh. induction ids as [|i ids IH]; intros Hres; simpl.
  - by exists [].
  - destruct IH as (samples & IH & IHv).
    { intros j issue Hj. apply Hres. by right. }
    unfold resolved_within at 1.
    destruct (issue_id_to_issue self !! i) as [issue|] eqn:Hi; [|by exists samples].
    destruct (issue_entry_parses utc_offset self i issue Hcons Hi) as [_ Hpr].
    pose proof (Hres i issue (ltac:(by left)) Hi) as Htruthy.
    assert (Hopt : Util.date_time_to_timestamp_opt utc_offset
                     (resolved_date (issue_of issue))
                   = Ok (Stream.seconds utc_offset
                           (Stream.resolution_date (issue_of issue)))).
    { rewrite <- (parses_seconds _ _ Hpr). unfold Stream.resolution_date.
      rewrite Htruthy. by destruct (resolved_date (issue_of issue)). }
    rewrite Hopt. cbn [mbind result_bind]. rewrite Qltb_tolerance.
    destruct (_ <? TOLERANCE); [|by exists samples].
    destruct (create_training_sample_ok utc_offset self h commit i issue Hcons Hh Hi)
      as (s & -> & Hv).
    cbn [mbind result_bind]. rewrite IH. cbn [mbind result_bind].
    eexists. split; [done|]. simpl. by rewrite Hv, IHv.
Qed.

Lemma unlinked_samples_ok self h commit :
  consistent utc_offset self →
  commit_hash_to_change_set self !! h = Some commit →
  (∀ i issue, i ∈ resolved_issues (issue_manager self) →
              issue_id_to_issue self !! i = Some issue →
              truthy (resolved_date (issue_of issue)) = true) →
  ∃ samples,
    unlinked_samples utc_offset self commit = Ok samples
    ∧ map Example.view samples
      = map (λ i, (h, i, Some true)) (current_open_issues (issue_manager self))
        ++ map (λ i, (h, i, Some false))
             (List.filter (resolved_within utc_offset self commit)
                (resolved_issues (issue_manager self))).
Proof.
  intros Hcons Hh Hres. unfold unlinked_samples.
  destruct (open_samples_ok self h commit
              (current_open_issues (issue_manager self)) Hcons Hh)
    as (active & -> & Ha).
  { intros i Hi. destruct Hcons as (_ & _ & _ & _ & Hm). apply Hm. by left. }
  cbn [mbind result_bind].
  rewrite (parses_seconds _ _ (commit_entry_parses utc_offset self h commit Hcons Hh)).
  cbn [mbind result_bind].
  destruct (resolved_samples_ok self h commit
              (resolved_issues (issue_manager self)) Hcons Hh Hres)
    as (previous & -> & Hp).
  cbn [mbind result_bind]. eexists. split; [done|].
  by rewrite map_app, Ha, Hp.
Qed.

End Loops.

Section Links.
Import Profile Engine.

Lemma foldl_invariant {A B : Type} (P : A → Prop) (f : A → B → A) l a :
  P a → (∀ a x, P a → P (f a x)) → P (foldl f a l).
Proof.
  intros Ha Hf. revert a Ha. induction l as [|x l IH]; intros a Ha; simpl; [done|].
  apply IH. by apply Hf.
Qed.

Lemma inverse_lookup_nonempty self h :
  build_change_set_issue_inverse_lookup self !! h ≠ Some [].
Proof.
  unfold build_change_set_issue_inverse_lookup. revert h.
  apply (foldl_invariant (λ m : gmap string (list string), ∀ h, m !! h ≠ Some [])).
  - intros h. by rewrite lookup_empty.
  - intros m [i data] Hm.
    apply (foldl_invariant (λ m : gmap string (list string), ∀ h, m !! h ≠ Some []));
      [done|].
    intros m' x Hm' h. destruct (m' !! x) as [issues|] eqn:Hx.
    + destruct (negb (mem i issues)); [|done].
      rewrite lookup_insert. case_decide; [|done].
      intros [= Happ]. by apply app_nil in Happ as [_ ?].
    + rewrite lookup_insert. case_decide; [done|done].
Qed.

Lemma linked_issue_ids_spec utc_offset self h :
  consistent utc_offset self →
  NoDup (linked_issue_ids self h)
  ∧ (∀ i, i ∈ linked_issue_ids self h ↔ linked_in_table self h i)
  ∧ (linked_issue_ids self h = [] → commit_hash_to_issue_ids self !! h = None).
Proof.
  intros (_ & _ & _ & Hl & _). unfold linked_issue_ids, linked_in_table.
  rewrite Hl. destruct (inverse_lookup_spec self h) as [Hnd Hin].
  split; [done|]. split; [done|].
  pose proof (inverse_lookup_nonempty self h) as Hne.
  destruct (build_change_set_issue_inverse_lookup self !! h) as [[|i l]|]; done.
Qed.

(** in a list without duplicates an element that passes a filter is
    counted once *)
Lemma count_in_filter (p : string → bool) (i : string) (l : list string) :
  NoDup l →
  length (List.filter (λ j, String.eqb j i) (List.filter p l))
  = if p i && mem i l then 1%nat else 0%nat.
Proof.
  induction 1 as [|j l Hj Hnd IH]; simpl.
  - by rewrite andb_false_r.
  - rewrite (String.eqb_sym i j).
    destruct (String.eqb_spec j i) as [->|Hne]; simpl.
    + rewrite andb_true_r.
      assert (Hz : length (List.filter (λ j, String.eqb j i) (List.filter p l)) = 0%nat).
      { rewrite IH. apply mem_false in Hj. rewrite Hj. by rewrite andb_false_r. }
      destruct (p i); simpl; [|done].
      rewrite String.eqb_refl. simpl. by rewrite Hz.
    + destruct (p j); simpl; [|done].
      apply String.eqb_neq in Hne. by rewrite Hne.
Qed.

Lemma records_for_view (h : string) (i : string) (ids : list string)
  (b : string → option bool) (samples : list TrainingSample) :
  map Example.view samples = map (λ j, (h, j, b j)) ids →
  records_for i samples = length (List.filter (λ j, String.eqb j i) ids).
Proof.
  unfold records_for. revert ids.
  induction samples as [|s samples IH]; intros [|j ids]; simpl; try done.
  intros [= _ Hj _ Hrest]. rewrite Hj.
  destruct (String.eqb j i); simpl; by rewrite (IH ids Hrest).
Qed.

End Links.

Section SamplingRules.
Import Profile Engine.




End SamplingRules.

Section SamplingExamples.
Import Profile Engine.

Lemma init_fresh_manager set_order ds to_predict text trace issue_types self :
  init set_order ds to_predict text trace issue_types = Ok self →
  issue_manager self = new_manager.
Proof.
  unfold init. intros H. apply bind_ok in H as (ds' & _ & H).
  apply bind_ok in H as (pu & _ & H). by injection H as <-.
Qed.

Lemma replay_reachable utc_offset self0 events self out self' out' :
  reachable utc_offset self0 self out →
  replay utc_offset (self, out) events = Ok (self', out') →
  reachable utc_offset self0 self' out'.
Proof.
  revert self out. induction events as [|event events IH]; intros self out Hr; simpl.
  - by intros [= <- <-].
  - intros H. apply bind_ok in H as ([self1 out1] & Hstep & H).
    apply (IH self1 out1); [|done].
    by apply (reachable_step utc_offset self0 self out event).
Qed.

(** what the examples read off the prepared generator *)
Lemma started_facts :
  match Example.started with
  | Ok (self, _) =>
      match commit_hash_to_change_set self !! "c2"%string with
      | Some commit => to_predict (change_set_of commit) = false
      | None => False
      end
      ∧ in_scope self "I-1" = true
      ∧ linked_issue_ids self "c2" = ["I-1"%string]
      ∧ is_open self "I-1" = false
      ∧ issue_to_change_set (data_source self) = [("I-1", ["c2"; "p1"])]%string
  | Raise _ => False
  end.
Proof. vm_compute. by repeat split. Qed.


(** the state after the first six events of the stream *)
Lemma sixth_event_facts :
  match Example.started with
  | Ok (self1, events) =>
      match replay tz_utc (self1, no_samples) (take 6 events) with
      | Ok (self, _) =>
          match commit_hash_to_change_set self !! "c4"%string with
          | Some commit => resolved_within tz_utc self commit "I-1" = true
          | None => False
          end
          ∧ issue_to_change_set (data_source self)
            = [("I-1", ["c2"; "p1"])]%string
          ∧ current_open_issues (issue_manager self) = ["I-2"%string]
          ∧ resolved_issues (issue_manager self) = ["I-1"%string]
          ∧ match issue_id_to_issue self !! "I-1"%string with
            | Some issue => truthy (resolved_date (issue_of issue)) = true
            | None => False
            end
      | Raise _ => False
      end
  | Raise _ => False
  end.
Proof. vm_compute. by repeat split. Qed.


End SamplingExamples.

Section LifeTimeMore.
Import Profile LifeTime.

Lemma create_issue_idempotent i m :
  create_issue i (create_issue i m) = create_issue i m.
Proof.
  destruct (mem i (current_open_issues (create_issue i m))) eqn:E.
  - unfold create_issue at 1. by rewrite E.
  - apply mem_false in E. exfalso. apply E. apply elem_of_open_create. by right.
Qed.

Lemma filter_ne_idempotent (i : string) (l : list string) :
  filter (λ e, e ≠ i) (filter (λ e, e ≠ i) l) = filter (λ e, e ≠ i) l.
Proof.
  induction l as [|x l IH]; [done|]. rewrite filter_cons.
  destruct (decide (x ≠ i)); [|done]. rewrite filter_cons.
  rewrite decide_True by done. by rewrite IH.
Qed.

Lemma resolve_issue_idempotent i m :
  resolve_issue i (resolve_issue i m) = resolve_issue i m.
Proof.
  destruct (mem i (resolved_issues (resolve_issue i m))) eqn:E.
  - unfold resolve_issue at 1. rewrite E.
    unfold resolve_issue. destruct (mem i (resolved_issues m)); simpl;
      by rewrite filter_ne_idempotent.
  - apply mem_false in E. exfalso. apply E. apply elem_of_resolved_resolve.
    by right.
Qed.

Lemma create_issue_NoDup i m :
  NoDup (current_open_issues m) → NoDup (current_open_issues (create_issue i m)).
Proof.
  unfold create_issue. destruct (mem i (current_open_issues m)) eqn:E; [done|].
  simpl. intros H. apply NoDup_app. split; [done|]. split; [|apply NoDup_singleton].
  intros x Hx ->%list_elem_of_singleton. by apply mem_false in E.
Qed.

Lemma resolve_issue_NoDup i m :
  NoDup (current_open_issues m) → NoDup (resolved_issues m) →
  NoDup (current_open_issues (resolve_issue i m))
  ∧ NoDup (resolved_issues (resolve_issue i m)).
Proof.
  unfold resolve_issue. intros Ho Hr.
  destruct (mem i (resolved_issues m)) eqn:E; simpl.
  - split; [by apply NoDup_filter | done].
  - split; [by apply NoDup_filter|]. apply NoDup_app. split; [done|].
    split; [|apply NoDup_singleton].
    intros x Hx ->%list_elem_of_singleton. by apply mem_false in E.
Qed.

Lemma apply_operations_NoDup ops :
  NoDup (current_open_issues (apply_operations ops))
  ∧ NoDup (resolved_issues (apply_operations ops)).
Proof.
  induction ops as [|op ops [IHo IHr]] using rev_ind.
  - split; constructor.
  - rewrite apply_operations_snoc. destruct op as [i|i]; simpl.
    + split; [by apply create_issue_NoDup | by rewrite resolved_create].
    + by apply resolve_issue_NoDup.
Qed.

Lemma elem_of_open_iff ops i :
  i ∈ current_open_issues (apply_operations ops)
  ↔ ∃ pre post, ops = pre ++ CreateIssue i :: post ∧ ResolveIssue i ∉ post.
Proof.
  split; [apply elem_of_open|].
  intros (pre & post & -> & Hpost).
  induction post as [|op post IH] using rev_ind.
  - rewrite apply_operations_snoc. simpl. apply elem_of_open_create. by right.
  - replace (pre ++ CreateIssue i :: post ++ [op])
      with ((pre ++ CreateIssue i :: post) ++ [op]) by by rewrite <- app_assoc.
    rewrite apply_operations_snoc.
    assert (Hin : i ∈ current_open_issues
                      (apply_operations (pre ++ CreateIssue i :: post))).
    { apply IH. intros H. apply Hpost. apply elem_of_app. by left. }
    destruct op as [k|k]; simpl.
    + apply elem_of_open_create. by left.
    + apply elem_of_open_resolve. split; [done|]. intros ->.
      apply Hpost. apply elem_of_app. right. by left.
Qed.

End LifeTimeMore.

(** X1: after any sequence of [create_issue] and [resolve_issue] calls on a
    fresh manager, neither list holds an id twice; an id is in the resolved
    list exactly when it was resolved at some point; and an id is in the
    open list exactly when it was created at some point and not resolved
    after that. *)
Theorem lifetime_manager_tracks_operations (ops : list LifeTime.operation) :
  let m := LifeTime.apply_operations ops in
  NoDup (Profile.current_open_issues m)
  ∧ NoDup (Profile.resolved_issues m)
  ∧ (∀ i, i ∈ Profile.resolved_issues m ↔ LifeTime.ResolveIssue i ∈ ops)
  ∧ (∀ i, i ∈ Profile.current_open_issues m
          ↔ ∃ pre post, ops = pre ++ LifeTime.CreateIssue i :: post
                        ∧ LifeTime.ResolveIssue i ∉ post).
Proof.
  intros m. destruct (apply_operations_NoDup ops) as [Ho Hr].
  split; [done|]. split; [done|]. split.
  - intros i. apply elem_of_resolved.
  - intros i. apply elem_of_open_iff.
Qed.

(** X2: [create_issue] and [resolve_issue] are idempotent: a second call
    with the same id changes nothing.  After [resolve_issue] the id is in
    the resolved list and not in the open list; after [create_issue] it is
    in the open list. *)
Theorem lifetime_operations_idempotent (i : string) (m : Profile.IssueLifeTimeManager) :
  Profile.create_issue i (Profile.create_issue i m) = Profile.create_issue i m
  ∧ Profile.resolve_issue i (Profile.resolve_issue i m) = Profile.resolve_issue i m
  ∧ i ∈ Profile.resolved_issues (Profile.resolve_issue i m)
  ∧ (i ∉ Profile.current_open_issues (Profile.resolve_issue i m))
  ∧ i ∈ Profile.current_open_issues (Profile.create_issue i m).
Proof.
  split; [apply create_issue_idempotent|]. split; [apply resolve_issue_idempotent|].
  split; [apply elem_of_resolved_resolve; by right|].
  split; [rewrite elem_of_open_resolve; by intros [_ ?]|].
  apply elem_of_open_create. by right.
Qed.

Section UpdateFirst.
Import UserModel Roster Identity.

Lemma update_first_some p f members members' :
  update_first p f members = Some members' →
  ∃ pre d post, members = pre ++ d :: post ∧ members' = pre ++ f d :: post
                ∧ p d = true ∧ Forall (λ x, p x = false) pre.
Proof.
  revert members'. induction members as [|x l IH]; intros members'; simpl; [done|].
  destruct (p x) eqn:E.
  - intros [= <-]. by exists [], x, l.
  - destruct (update_first p f l) as [l'|]; [|done]. simpl. intros [= <-].
    destruct (IH l' eq_refl) as (pre & d & post & -> & -> & Hd & Hpre).
    exists (x :: pre), d, post. repeat split; try done. by constructor.
Qed.

Lemma update_first_none p f members :
  update_first p f members = None → Forall (λ x, p x = false) members.
Proof.
  induction members as [|x l IH]; simpl; [done|].
  destruct (p x) eqn:E; [done|].
  destruct (update_first p f l); [done|]. intros _. constructor; [done|by apply IH].
Qed.

Lemma find_app_skip {A : Type} (p : A → bool) pre l :
  Forall (λ x, p x = false) pre → List.find p (pre ++ l) = List.find p l.
Proof.
  induction 1 as [|x pre Hx _ IH]; simpl; [done|]. by rewrite Hx.
Qed.

Lemma has_name_true name dev : has_name name dev = true ↔ name ∈ names dev.
Proof. unfold has_name. apply bool_decide_eq_true. Qed.

(** what [add_or_update_developer] does, case by case *)
Lemma add_or_update_developer_cases name user_name members :
  (name = ""%string ∧ user_name = ""%string
   ∧ add_or_update_developer name user_name members = members)
  ∨ (¬ (name = ""%string ∧ user_name = ""%string)
     ∧ ((∃ pre d post,
           members = pre ++ d :: post
           ∧ add_or_update_developer name user_name members
             = pre ++ add_name name d :: post
           ∧ user_name ∈ user_names d
           ∧ Forall (λ x, user_name ∉ user_names x) pre)
        ∨ (∃ pre d post,
             members = pre ++ d :: post
             ∧ add_or_update_developer name user_name members
               = pre ++ add_user_name user_name d :: post
             ∧ name ∈ names d
             ∧ Forall (λ x, user_name ∉ user_names x) members)
        ∨ (add_or_update_developer name user_name members
           = members ++ [ {| number := length members; names := {[name]};
                             user_names := {[user_name]} |} ]
           ∧ Forall (λ x, user_name ∉ user_names x) members))).
Proof.
  unfold add_or_update_developer.
  destruct (String.eqb_spec name "") as [->|Hn]; simpl.
  - destruct (String.eqb_spec user_name "") as [->|Hu]; [by left|].
    right. split; [by intros [_ ?]|].
    destruct (update_first _ (add_name _) members) as [m1|] eqn:E1.
    { left. apply update_first_some in E1 as (pre & d & post & -> & -> & Hd & Hpre).
      exists pre, d, post. repeat split; try done.
      - by apply has_user_name_true.
      - eapply Forall_impl; [exact Hpre|]. intros x Hx Hin.
        apply has_user_name_true in Hin. congruence. }
    apply update_first_none in E1.
    assert (Hnone : Forall (λ x, user_name ∉ user_names x) members).
    { eapply Forall_impl; [exact E1|]. intros x Hx Hin.
      apply has_user_name_true in Hin. congruence. }
    destruct (update_first _ (add_user_name _) members) as [m2|] eqn:E2.
    { right; left.
      apply update_first_some in E2 as (pre & d & post & -> & -> & Hd & Hpre).
      exists pre, d, post. repeat split; try done. by apply has_name_true. }
    right; right. by split.
  - right. split; [by intros [? _]|].
    destruct (update_first _ (add_name _) members) as [m1|] eqn:E1.
    { left. apply update_first_some in E1 as (pre & d & post & -> & -> & Hd & Hpre).
      exists pre, d, post. repeat split; try done.
      - by apply has_user_name_true.
      - eapply Forall_impl; [exact Hpre|]. intros x Hx Hin.
        apply has_user_name_true in Hin. congruence. }
    apply update_first_none in E1.
    assert (Hnone : Forall (λ x, user_name ∉ user_names x) members).
    { eapply Forall_impl; [exact E1|]. intros x Hx Hin.
      apply has_user_name_true in Hin. congruence. }
    destruct (update_first _ (add_user_name _) members) as [m2|] eqn:E2.
    { right; left.
      apply update_first_some in E2 as (pre & d & post & -> & -> & Hd & Hpre).
      exists pre, d, post. repeat split; try done. by apply has_name_true. }
    right; right. by split.
Qed.

End UpdateFirst.

Section TeamInvariants.
Import UserModel Roster Identity.

Lemma lookup_middle_cases {A : Type} (pre post : list A) (d d' : A) k x :
  (pre ++ d' :: post) !! k = Some x →
  (k = length pre ∧ x = d')
  ∨ (k ≠ length pre ∧ (pre ++ d :: post) !! k = Some x).
Proof.
  revert k. induction pre as [|y pre IH]; intros [|k]; simpl.
  - intros [= <-]. by left.
  - intros H. right. by split.
  - intros H. right. by split.
  - intros H. destruct (IH k H) as [[-> ->]|[Hne Hk]]; [by left|].
    right. split; [lia|done].
Qed.

Lemma add_or_update_developer_registers name user_name members :
  ¬ (name = ""%string ∧ user_name = ""%string) →
  ∃ k d,
    add_or_update_developer name user_name members !! k = Some d
    ∧ owns_pair name user_name d
    ∧ (user_name ≠ ""%string →
       identify_by_user_name user_name
         (add_or_update_developer name user_name members) = Some d).
Proof.
  intros Hne. unfold identify_by_user_name.
  destruct (add_or_update_developer_cases name user_name members)
    as [(-> & -> & _) | (_ & [H | [H | H]])]; [by destruct Hne| | |].
  - destruct H as (pre & d & post & -> & -> & Hd & Hpre).
    exists (length pre), (add_name name d). split; [by rewrite list_lookup_middle|].
    split; [split; simpl; set_solver|]. intros Hu.
    apply String.eqb_neq in Hu. rewrite Hu. rewrite find_app_skip.
    + simpl. assert (H : has_user_name user_name (add_name name d) = true).
      { by apply has_user_name_true. }
      by rewrite H.
    + eapply Forall_impl; [exact Hpre|]. intros x Hx. simpl in Hx.
      destruct (has_user_name user_name x) eqn:E; [|done].
      by apply has_user_name_true in E.
  - destruct H as (pre & d & post & -> & -> & Hd & Hnone).
    exists (length pre), (add_user_name user_name d).
    split; [by rewrite list_lookup_middle|].
    split; [split; simpl; set_solver|]. intros Hu.
    apply String.eqb_neq in Hu. rewrite Hu. rewrite find_app_skip.
    + simpl. assert (H : has_user_name user_name (add_user_name user_name d) = true).
      { apply has_user_name_true. simpl. set_solver. }
      by rewrite H.
    + apply Forall_app in Hnone as [Hpre _].
      eapply Forall_impl; [exact Hpre|]. intros x Hx. simpl in Hx.
      destruct (has_user_name user_name x) eqn:E; [|done].
      by apply has_user_name_true in E.
  - destruct H as (-> & Hnone).
    eexists (length members), _. split.
    { rewrite lookup_app_r by lia. by rewrite Nat.sub_diag. }
    split; [split; simpl; set_solver|]. intros Hu.
    apply String.eqb_neq in Hu. rewrite Hu. rewrite find_app_skip.
    + simpl.
      assert (H : has_user_name user_name
                    {| number := length members; names := {[name]};
                       user_names := {[user_name]} |} = true).
      { apply has_user_name_true. simpl. set_solver. }
      by rewrite H.
    + eapply Forall_impl; [exact Hnone|]. intros x Hx. simpl in Hx.
      destruct (has_user_name user_name x) eqn:E; [|done].
      by apply has_user_name_true in E.
Qed.

Lemma add_or_update_developer_grown name user_name members :
  grown members (add_or_update_developer name user_name members)
  ∧ (length members ≤ length (add_or_update_developer name user_name members)
     ≤ length members + 1)%nat.
Proof.
  destruct (add_or_update_developer_cases name user_name members)
    as [(_ & _ & ->) | (_ & [H | [H | H]])].
  - split; [|lia]. intros k d Hk. exists d. by repeat split.
  - destruct H as (pre & d & post & -> & -> & _).
    split; [|rewrite !length_app; simpl; lia]. intros k x Hk.
    destruct (lookup_middle_cases pre post (add_name name d) d k x Hk)
      as [[-> ->]|[Hne Hk']].
    + exists (add_name name d). rewrite list_lookup_middle by done.
      split; [done|]. split; [done|]. simpl. split; set_solver.
    + exists x. by repeat split.
  - destruct H as (pre & d & post & -> & -> & _).
    split; [|rewrite !length_app; simpl; lia]. intros k x Hk.
    destruct (lookup_middle_cases pre post (add_user_name user_name d) d k x Hk)
      as [[-> ->]|[Hne Hk']].
    + exists (add_user_name user_name d). rewrite list_lookup_middle by done.
      split; [done|]. split; [done|]. simpl. split; set_solver.
    + exists x. by repeat split.
  - destruct H as (-> & _). split; [|rewrite length_app; simpl; lia].
    intros k x Hk. exists x. split; [|by repeat split].
    by apply lookup_app_l_Some.
Qed.

Lemma handles_unique_step members members' u k0 :
  handles_unique members →
  (∀ k d, members !! k = Some d → u ∈ user_names d → k = k0) →
  (∀ k d' v, members' !! k = Some d' → v ∈ user_names d' →
     (∃ d, members !! k = Some d ∧ v ∈ user_names d) ∨ (v = u ∧ k = k0)) →
  handles_unique members'.
Proof.
  intros Hu Hold Hrel k1 k2 d1 d2 v H1 H2 Hv1 Hv2.
  destruct (Hrel k1 d1 v H1 Hv1) as [(e1 & He1 & Hve1)|[Hv Hk1]];
    destruct (Hrel k2 d2 v H2 Hv2) as [(e2 & He2 & Hve2)|[Hv' Hk2]].
  - by apply (Hu k1 k2 e1 e2 v).
  - subst v k2. by apply (Hold k1 e1).
  - subst v k1. symmetry. by apply (Hold k2 e2).
  - by subst.
Qed.

Lemma add_or_update_developer_handles_unique name user_name members :
  handles_unique members →
  handles_unique (add_or_update_developer name user_name members).
Proof.
  intros Hu.
  destruct (add_or_update_developer_cases name user_name members)
    as [(_ & _ & ->) | (_ & [H | [H | H]])]; [done| | |].
  - destruct H as (pre & d & post & Hm & -> & Hd & _).
    apply (handles_unique_step members _ user_name (length pre)); [done| |].
    + intros k x Hk Hx. subst members.
      apply (Hu k (length pre) x d user_name); try done.
      by rewrite list_lookup_middle.
    + intros k x v Hk Hv. left. subst members.
      destruct (lookup_middle_cases pre post d (add_name name d) k x Hk)
        as [[-> ->]|[Hne Hk']].
      * exists d. by rewrite list_lookup_middle.
      * by exists x.
  - destruct H as (pre & d & post & Hm & -> & Hd & Hnone).
    apply (handles_unique_step members _ user_name (length pre)); [done| |].
    + intros k x Hk Hx. exfalso.
      rewrite Forall_forall in Hnone. apply (Hnone x); [|done].
      by apply (list_elem_of_lookup_2 _ k).
    + intros k x v Hk Hv. subst members.
      destruct (lookup_middle_cases pre post d (add_user_name user_name d) k x Hk)
        as [[-> ->]|[Hne Hk']].
      * simpl in Hv. apply elem_of_union in Hv as [Hv|Hv%elem_of_singleton].
        -- left. exists d. by rewrite list_lookup_middle.
        -- by right.
      * left. by exists x.
  - destruct H as (-> & Hnone).
    apply (handles_unique_step members _ user_name (length members)); [done| |].
    + intros k x Hk Hx. exfalso.
      rewrite Forall_forall in Hnone. apply (Hnone x); [|done].
      by apply (list_elem_of_lookup_2 _ k).
    + intros k x v Hk Hv. apply lookup_app_Some in Hk as [Hk|[Hlen Hk]].
      * left. by exists x.
      * apply list_lookup_singleton_Some in Hk as [Hk <-]. simpl in Hv.
        apply elem_of_singleton in Hv. right. split; [done|lia].
Qed.

End TeamInvariants.

Section LinkTeams.
Import UserModel Roster Identity.

Lemma numbered_numbers members :
  numbered members → map number members = seq 0 (length members).
Proof.
  intros Hn. apply list_eq. intros k. rewrite list_lookup_fmap.
  destruct (members !! k) as [d|] eqn:Hk; simpl.
  - rewrite (Hn k d Hk). symmetry. apply lookup_seq. split; [done|].
    by apply lookup_lt_Some in Hk.
  - symmetry. apply lookup_seq_ge. by apply lookup_ge_None in Hk.
Qed.

Lemma remove_first_perm idx l : idx ∈ l → l ≡ₚ idx :: remove_first idx l.
Proof.
  induction l as [|x l IH]; [by intros ?%elem_of_nil|]. simpl.
  destruct (Nat.eqb_spec x idx) as [->|Hne]; [done|].
  intros [->|Hin]%elem_of_cons; [done|].
  rewrite (IH Hin) at 1. apply Permutation_swap.
Qed.

Lemma shares_name_true a b :
  shares_name a b = true → ∃ name, name ∈ names a ∧ name ∈ names b.
Proof.
  unfold shares_name. rewrite existsb_exists. intros (name & Hin & Hb).
  exists name. split; [|by apply has_name_true].
  apply elem_of_elements. by apply list_elem_of_In.
Qed.

Lemma find_matching_total git_members jira_dev remaining :
  (∀ i, i ∈ remaining → (i < length git_members)%nat) →
  ∃ m, find_matching git_members jira_dev remaining = Ok m.
Proof.
  induction remaining as [|idx rest IH]; intros Hr; simpl; [by eexists|].
  destruct (lookup_lt_is_Some_2 git_members idx) as [gd Hgd]; [apply Hr; by left|].
  unfold member. rewrite Hgd. cbn.
  destruct (shares_name jira_dev gd); [by eexists|].
  apply IH. intros i Hi. apply Hr. by right.
Qed.

Lemma find_matching_shares git_members jira_dev remaining idx git_dev :
  find_matching git_members jira_dev remaining = Ok (Some (idx, git_dev)) →
  shares_name jira_dev git_dev = true.
Proof.
  induction remaining as [|i rest IH]; simpl; [done|].
  unfold member. destruct (git_members !! i) as [d|] eqn:Hi; [|done]. cbn.
  destruct (shares_name jira_dev d) eqn:E; [|apply IH].
  by intros [= <- <-].
Qed.

(** the loop of [link_teams] over the tracker roster *)
Lemma link_jira_spec jira git js remaining links :
  numbered git →
  (∀ d, d ∈ js → jira !! number d = Some d) →
  (∀ i, i ∈ remaining → (i < length git)%nat) →
  ∃ remaining' links',
    link_jira git js remaining links = Ok (remaining', links')
    ∧ omap jira_idx links' = omap jira_idx links ++ map number js
    ∧ remaining' ++ omap git_idx links' ≡ₚ remaining ++ omap git_idx links
    ∧ (Forall has_side links → Forall has_side links')
    ∧ (∀ pu, jira_team pu = jira → git_team pu = git →
         Forall (linked_by_name pu) links → Forall (linked_by_name pu) links').
Proof.
  intros Hgit. revert remaining links.
  induction js as [|jd js IH]; intros remaining links Hjs Hrem; simpl.
  - exists remaining, links. rewrite app_nil_r. by repeat split.
  - destruct (find_matching_total git jd remaining Hrem) as [m Hm]. rewrite Hm. cbn.
    assert (Hjs' : ∀ d, d ∈ js → jira !! number d = Some d).
    { intros d Hd. apply Hjs. by right. }
    destruct m as [[idx gd]|].
    + pose proof (find_matching_shares _ _ _ _ _ Hm) as Hshare.
      apply find_matching_some in Hm as [Hidx Hgd].
      destruct (IH (remove_first idx remaining)
                   (links ++ [ {| jira_idx := Some (number jd);
                                  git_idx := Some (number gd) |} ]) Hjs')
        as (r' & l' & -> & Hj & Hp & Hside & Hname).
      { intros i Hi. apply Hrem. by apply elem_of_remove_first in Hi. }
      exists r', l'. split; [done|]. split; [|split; [|split]].
      * rewrite Hj, omap_app. simpl. by rewrite <- app_assoc.
      * rewrite Hp, omap_app. simpl. rewrite (Hgit idx gd Hgd).
        rewrite (remove_first_perm idx remaining Hidx) at 2.
        rewrite app_assoc. rewrite <- (Permutation_cons_append _ idx). simpl.
        by rewrite Permutation_middle.
      * intros H. apply Hside. apply Forall_app. split; [done|].
        constructor; [|done]. by left.
      * intros pu Hpj Hpg H. apply (Hname pu Hpj Hpg). apply Forall_app.
        split; [done|]. constructor; [|done].
        intros j g [= <-] [= <-]. simpl.
        apply shares_name_true in Hshare as (name & Hn1 & Hn2).
        exists jd, gd, name. rewrite Hpj, Hpg. rewrite (Hgit idx gd Hgd).
        split; [apply Hjs; by left|]. by repeat split.
    + destruct (IH remaining
                   (links ++ [ {| jira_idx := Some (number jd);
                                  git_idx := None |} ]) Hjs' Hrem)
        as (r' & l' & -> & Hj & Hp & Hside & Hname).
      exists r', l'. split; [done|]. split; [|split; [|split]].
      * rewrite Hj, omap_app. simpl. by rewrite <- app_assoc.
      * rewrite Hp, omap_app. simpl. by rewrite app_nil_r.
      * intros H. apply Hside. apply Forall_app. split; [done|].
        constructor; [|done]. by left.
      * intros pu Hpj Hpg H. apply (Hname pu Hpj Hpg). apply Forall_app.
        split; [done|]. constructor; [|done]. intros j g _ [=].
Qed.

Lemma link_teams_spec pu :
  numbered (jira_team pu) → numbered (git_team pu) → team_links pu = [] →
  ∃ pu',
    link_teams pu = Ok pu'
    ∧ jira_team pu' = jira_team pu ∧ git_team pu' = git_team pu
    ∧ omap jira_idx (team_links pu') = seq 0 (length (jira_team pu))
    ∧ omap git_idx (team_links pu') ≡ₚ seq 0 (length (git_team pu))
    ∧ Forall has_side (team_links pu')
    ∧ Forall (linked_by_name pu') (team_links pu').
Proof.
  intros Hj Hg Hl. unfold link_teams. rewrite Hl.
  destruct (link_jira_spec (jira_team pu) (git_team pu) (jira_team pu)
              (map number (git_team pu)) [] Hg)
    as (r' & l' & -> & Hjl & Hp & Hside & Hname).
  { intros d Hd. apply list_elem_of_lookup in Hd as [k Hk].
    by rewrite (Hj k d Hk). }
  { intros i Hi. rewrite (numbered_numbers _ Hg) in Hi.
    apply elem_of_seq in Hi. lia. }
  cbn. eexists. split; [done|]. simpl. split; [done|]. split; [done|].
  assert (Hnone_j : ∀ r, omap jira_idx
            (map (λ idx, {| jira_idx := None; git_idx := Some idx |}) r) = []).
  { induction r as [|x r IHr]; simpl; [done|]. exact IHr. }
  assert (Hsome_g : ∀ r, omap git_idx
            (map (λ idx, {| jira_idx := None; git_idx := Some idx |}) r) = r).
  { induction r as [|x r IHr]; simpl; [done|]. f_equal. exact IHr. }
  split; [|split; [|split]].
  - rewrite omap_app, Hnone_j, app_nil_r, Hjl. simpl.
    by apply numbered_numbers.
  - rewrite omap_app, Hsome_g. rewrite (Permutation_app_comm _ r'), Hp.
    simpl. rewrite app_nil_r. by rewrite (numbered_numbers _ Hg).
  - apply Forall_app. split; [by apply Hside|].
    apply Forall_fmap. apply Forall_forall. intros idx _. by right.
  - apply Forall_app. split.
    + by apply (Hname _ eq_refl eq_refl).
    + apply Forall_fmap. apply Forall_forall. intros idx _ j g [=].
Qed.

Lemma fold_add_or_update_handles_unique (users : list (string * string)) members :
  handles_unique members →
  handles_unique (fold_left (λ ms '(name, user_name),
                               add_or_update_developer name user_name ms)
                            users members).
Proof.
  revert members. induction users as [|[n u] users IH]; intros members Hn; simpl;
    [done|].
  apply IH. by apply add_or_update_developer_handles_unique.
Qed.

Lemma handles_unique_nil : handles_unique [].
Proof. intros k1 k2 d1 d2 u H. by rewrite lookup_nil in H. Qed.

Lemma numbered_nil : numbered [].
Proof. intros k d H. by rewrite lookup_nil in H. Qed.

End LinkTeams.

Lemma roster_links_partition_facts (jira_users git_users : list (string * string)) :
  ∃ pu,
    UserModel.run jira_users git_users = Ok pu
    ∧ Identity.numbered (UserModel.jira_team pu)
    ∧ Identity.numbered (UserModel.git_team pu)
    ∧ Roster.handles_unique (UserModel.jira_team pu)
    ∧ Roster.handles_unique (UserModel.git_team pu)
    ∧ omap UserModel.jira_idx (UserModel.team_links pu)
      = seq 0 (length (UserModel.jira_team pu))
    ∧ omap UserModel.git_idx (UserModel.team_links pu)
      ≡ₚ seq 0 (length (UserModel.git_team pu))
    ∧ Forall Roster.has_side (UserModel.team_links pu)
    ∧ Forall (Roster.linked_by_name pu) (UserModel.team_links pu).
Proof.
  unfold UserModel.run.
  set (jira := fold_left _ jira_users []). set (git := fold_left _ git_users []).
  assert (Hj : Identity.numbered jira).
  { apply fold_add_or_update_numbered, numbered_nil. }
  assert (Hg : Identity.numbered git).
  { apply fold_add_or_update_numbered, numbered_nil. }
  destruct (link_teams_spec
              {| UserModel.jira_team := jira; UserModel.git_team := git;
                 UserModel.team_links := [] |} Hj Hg eq_refl)
    as (pu & Hpu & Hpj & Hpg & H1 & H2 & H3 & H4).
  exists pu. split; [done|]. rewrite Hpj, Hpg. simpl.
  split; [done|]. split; [done|].
  split; [apply fold_add_or_update_handles_unique, handles_unique_nil|].
  split; [apply fold_add_or_update_handles_unique, handles_unique_nil|].
  by repeat split.
Qed.

Section Resolve.
Import UserModel Roster Identity.

Lemma grown_refl members : grown members members.
Proof. intros k d Hk. exists d. by repeat split. Qed.

Lemma grown_trans a b c : grown a b → grown b c → grown a c.
Proof.
  intros Hab Hbc k d Hk.
  destruct (Hab k d Hk) as (d1 & Hk1 & Hn1 & Hs1 & Hu1).
  destruct (Hbc k d1 Hk1) as (d2 & Hk2 & Hn2 & Hs2 & Hu2).
  exists d2. split; [done|]. split; [congruence|]. split; set_solver.
Qed.

Lemma fold_add_or_update_grown (users : list (string * string)) members :
  grown members (fold_left (λ ms '(name, user_name),
                              add_or_update_developer name user_name ms)
                           users members).
Proof.
  revert members. induction users as [|[n u] users IH]; intros members; simpl.
  - apply grown_refl.
  - eapply grown_trans; [|apply IH]. apply add_or_update_developer_grown.
Qed.

Lemma fold_add_or_update_registers (users : list (string * string)) members
  name user_name :
  (name, user_name) ∈ users → ¬ (name = ""%string ∧ user_name = ""%string) →
  ∃ k d, fold_left (λ ms '(name, user_name),
                      add_or_update_developer name user_name ms)
                   users members !! k = Some d
         ∧ owns_pair name user_name d.
Proof.
  intros Hin Hne. revert members.
  induction users as [|[n u] users IH]; intros members; [by apply elem_of_nil in Hin|].
  simpl. apply elem_of_cons in Hin as [[= <- <-]|Hin]; [|by apply IH].
  destruct (add_or_update_developer_registers name user_name members Hne)
    as (k & d & Hk & [Hn Hu] & _).
  destruct (fold_add_or_update_grown users
              (add_or_update_developer name user_name members) k d Hk)
    as (d' & Hk' & _ & Hs & Hus).
  exists k, d'. split; [done|]. split; set_solver.
Qed.

(** the loop of [get_link_id] finds an owning link when there is one *)
Lemma get_link_id_from_finds pu user_name team_name links idx :
  team_name = "jira"%string ∨ team_name = "git"%string →
  (∀ ld j, ld ∈ links → side team_name ld = Some j →
           is_Some (roster pu team_name !! j)) →
  (∃ ld, ld ∈ links ∧ owns pu team_name user_name ld) →
  ∃ k ld, get_link_id_from pu user_name team_name idx links = Ok (Some (idx + k)%nat)
          ∧ links !! k = Some ld ∧ owns pu team_name user_name ld.
Proof.
  intros Hteam. revert idx.
  induction links as [|ld links IH]; intros idx Hrange (ld0 & Hin & Hown).
  { by apply elem_of_nil in Hin. }
  destruct (get_link_id_from_cons pu user_name team_name idx ld links Hteam)
    as [[Ho Heq]|[Hno Heq]].
  { intros j. apply Hrange. by left. }
  - exists 0%nat, ld. by rewrite Nat.add_0_r.
  - apply elem_of_cons in Hin as [->|Hin]; [done|].
    destruct (IH (S idx)) as (k & ld' & Hk & Hl & Ho).
    { intros ld' j H. apply Hrange. by right. }
    { by exists ld0. }
    exists (S k), ld'. rewrite Heq, Hk.
    split; [f_equal; f_equal; lia|done].
Qed.

Lemma omap_lookup_unique {A : Type} (f : A → option nat) (l : list A) a b x y j :
  NoDup (omap f l) → l !! a = Some x → l !! b = Some y →
  f x = Some j → f y = Some j → a = b.
Proof.
  revert a b. induction l as [|z l IH]; intros a b Hnd Ha Hb Hx Hy; [done|].
  assert (Hin : ∀ k w, l !! k = Some w → f w = Some j → j ∈ omap f l).
  { intros k w Hk Hw. apply list_elem_of_omap. exists w. split; [|done].
    by apply list_elem_of_lookup_2 in Hk. }
  simpl in Hnd. destruct a as [|a], b as [|b]; simpl in *.
  - done.
  - injection Ha as ->. rewrite Hx in Hnd. apply NoDup_cons in Hnd as [Hn _].
    destruct Hn. by apply (Hin b y).
  - injection Hb as ->. rewrite Hy in Hnd. apply NoDup_cons in Hnd as [Hn _].
    destruct Hn. by apply (Hin a x).
  - f_equal. apply IH; try done.
    destruct (f z); [by apply NoDup_cons in Hnd as [_ ?]|done].
Qed.

(** what [run] establishes, for either roster *)
Lemma run_roster_facts jira_users git_users pu team_name :
  UserModel.run jira_users git_users = Ok pu →
  team_name = "jira"%string ∨ team_name = "git"%string →
  numbered (roster pu team_name) ∧ handles_unique (roster pu team_name)
  ∧ omap (side team_name) (team_links pu) ≡ₚ seq 0 (length (roster pu team_name))
  ∧ links_in_range pu.
Proof.
  intros Hrun Hteam.
  destruct (roster_links_partition_facts jira_users git_users)
    as (pu' & Hpu & Hnj & Hng & Huj & Hug & Hlj & Hlg & _).
  rewrite Hrun in Hpu. injection Hpu as <-.
  pose proof (run_links_in_range _ _ _ Hrun) as Hr.
  destruct Hteam as [-> | ->]; unfold roster, side; simpl.
  - split; [done|]. split; [done|]. split; [|done]. by rewrite <- Hlj.
  - split; [done|]. split; [done|]. by split.
Qed.

Lemma resolves_to_member_link jira_users git_users pu team_name j d u :
  UserModel.run jira_users git_users = Ok pu →
  team_name = "jira"%string ∨ team_name = "git"%string →
  roster pu team_name !! j = Some d → u ∈ user_names d →
  ∃ id ld,
    get_link_id pu u team_name = Ok (Some id)
    ∧ team_links pu !! id = Some ld ∧ side team_name ld = Some j
    ∧ (∀ id' ld', team_links pu !! id' = Some ld' →
                  side team_name ld' = Some j → id' = id).
Proof.
  intros Hrun Hteam Hj Hu.
  destruct (run_roster_facts _ _ _ team_name Hrun Hteam) as (Hn & Huniq & Hperm & Hr).
  assert (Hjin : j ∈ omap (side team_name) (team_links pu)).
  { rewrite Hperm. apply elem_of_seq. apply lookup_lt_Some in Hj. lia. }
  apply list_elem_of_omap in Hjin as (ld0 & Hld0 & Hs0).
  destruct (get_link_id_from_finds pu u team_name (team_links pu) 0 Hteam)
    as (k & ld & Hk & Hl & (j' & d' & Hs & Hd' & Hu')).
  { intros ld' j' Hin. by apply links_in_range_side. }
  { exists ld0. split; [done|]. by exists j, d. }
  assert (j' = j) as -> by apply (Huniq j' j d' d u Hd' Hj Hu' Hu).
  exists k, ld. split; [done|]. split; [done|]. split; [done|].
  intros id' ld' Hid' Hs'.
  apply (omap_lookup_unique (side team_name) (team_links pu) id' k ld' ld j);
    try done.
  rewrite Hperm. apply NoDup_seq.
Qed.

End Resolve.

Section Stats.
Import UserModel Roster Identity.

Lemma get_stats_sides pu :
  let '(unique_jira, unique_git, linked) := get_stats pu in
  (unique_jira + linked = length (omap jira_idx (team_links pu))
   ∧ unique_git + linked = length (omap git_idx (team_links pu)))%nat
  ∧ (Forall has_side (team_links pu) →
     (unique_jira + unique_git + linked = len pu)%nat).
Proof.
  unfold get_stats, len. induction (team_links pu) as [|[[j|] [g|]] l IH].
  - by split.
  - destruct IH as [[IH1 IH2] IH3]. split; [split; unfold omap in *; simpl in *; lia|].
    intros [_ H]%Forall_cons. apply IH3 in H. simpl in *. lia.
  - destruct IH as [[IH1 IH2] IH3]. split; [split; unfold omap in *; simpl in *; lia|].
    intros [_ H]%Forall_cons. apply IH3 in H. simpl in *. lia.
  - destruct IH as [[IH1 IH2] IH3]. split; [split; unfold omap in *; simpl in *; lia|].
    intros [_ H]%Forall_cons. apply IH3 in H. simpl in *. lia.
  - destruct IH as [[IH1 IH2] IH3]. split; [split; unfold omap in *; simpl in *; lia|].
    intros [[H|H] _]%Forall_cons; by destruct H.
Qed.

End Stats.

Section Persistence.
Import UserModel Roster Identity.
Variable set_order : list string → list string.
Hypothesis Henum : enumerates set_order.

Lemma set_round_trip (s : gset string) :
  list_to_set (set_order (elements s)) = s.
Proof.
  apply (leibniz_equiv (A := gset string)). intros x.
  rewrite elem_of_list_to_set, (Henum (elements s) x). apply elem_of_elements.
Qed.

Lemma from_json_to_json d : from_json (to_json set_order d) = d.
Proof.
  destruct d as [n ns us]. unfold from_json, to_json. simpl.
  by rewrite !set_round_trip.
Qed.

Lemma load_save pu project_name :
  load (save set_order pu project_name) = (project_name, pu).
Proof.
  destruct pu as [jira git links]. unfold load, save. simpl. f_equal. f_equal.
  - rewrite map_map. rewrite <- (map_id jira) at 2. apply map_ext.
    apply from_json_to_json.
  - rewrite map_map. rewrite <- (map_id git) at 2. apply map_ext.
    apply from_json_to_json.
  - rewrite map_map. rewrite <- (map_id links) at 2. apply map_ext.
    by intros [a b].
Qed.

End Persistence.

Section DataSourceUsers.
Import UserModel Roster Identity IO.

Lemma run_teams jira_users git_users pu :
  UserModel.run jira_users git_users = Ok pu →
  jira_team pu = fold_left (λ ms '(name, user_name),
                              add_or_update_developer name user_name ms)
                           jira_users []
  ∧ git_team pu = fold_left (λ ms '(name, user_name),
                               add_or_update_developer name user_name ms)
                            git_users [].
Proof.
  unfold UserModel.run, link_teams. intros H.
  apply bind_ok in H as ([remaining links] & _ & [= <-]). by split.
Qed.

Lemma dict_get_set_eq {V : Type} k (v : V) d : dict_get k (dict_set k v d) = Some v.
Proof.
  induction d as [|[k' v'] d IH]; simpl; [by rewrite String.eqb_refl|].
  destruct (String.eqb_spec k k') as [->|Hne]; simpl.
  - by rewrite String.eqb_refl.
  - by apply String.eqb_neq in Hne as ->.
Qed.

Lemma dict_get_set_ne {V : Type} k k' (v : V) d :
  k ≠ k' → dict_get k (dict_set k' v d) = dict_get k d.
Proof.
  intros Hne. induction d as [|[k0 v0] d IH]; simpl.
  - by apply String.eqb_neq in Hne as ->.
  - destruct (String.eqb_spec k' k0) as [->|Hne0]; simpl.
    + by apply String.eqb_neq in Hne as ->.
    + by rewrite IH.
Qed.

Lemma dict_get_elem_of {V : Type} k (v : V) d : dict_get k d = Some v → (k, v) ∈ d.
Proof.
  induction d as [|[k' v'] d IH]; simpl; [done|].
  destruct (String.eqb_spec k k') as [->|Hne].
  - intros [= ->]. by left.
  - intros H. right. by apply IH.
Qed.

Lemma elem_of_set_add x y l : x ∈ set_add y l ↔ x = y ∨ x ∈ l.
Proof.
  unfold set_add. destruct (mem y l) eqn:E.
  - apply mem_true in E. split; [by right|]. by intros [->|?].
  - rewrite elem_of_app, list_elem_of_singleton. tauto.
Qed.

Lemma raw_update_new key value raw :
  ∃ values, dict_get key (raw_update key value raw) = Some values ∧ value ∈ values.
Proof.
  unfold raw_update. destruct (dict_get key raw) as [values|].
  - eexists. rewrite dict_get_set_eq. split; [done|].
    apply elem_of_set_add. by left.
  - eexists. rewrite dict_get_set_eq. split; [done|]. by left.
Qed.

Lemma raw_update_old key value raw k v :
  (∃ values, dict_get k raw = Some values ∧ v ∈ values) →
  ∃ values, dict_get k (raw_update key value raw) = Some values ∧ v ∈ values.
Proof.
  intros (values & Hk & Hv). unfold raw_update.
  destruct (String.eqb_spec k key) as [->|Hne].
  - rewrite Hk. eexists. rewrite dict_get_set_eq. split; [done|].
    apply elem_of_set_add. by right.
  - exists values. split; [|done].
    destruct (dict_get key raw); by rewrite dict_get_set_ne.
Qed.

Lemma fold_raw_keeps {A : Type} (f : dict string (list string) → A → dict string (list string))
  (l : list A) raw k v :
  (∀ raw a, (∃ values, dict_get k raw = Some values ∧ v ∈ values) →
            ∃ values, dict_get k (f raw a) = Some values ∧ v ∈ values) →
  (∃ values, dict_get k raw = Some values ∧ v ∈ values) →
  ∃ values, dict_get k (fold_left f l raw) = Some values ∧ v ∈ values.
Proof.
  intros Hf. revert raw. induction l as [|a l IH]; intros raw H; simpl; [done|].
  apply IH. by apply Hf.
Qed.

Lemma fold_raw_adds {A : Type} (f : dict string (list string) → A → dict string (list string))
  (l : list A) raw a k v :
  (∀ raw a, (∃ values, dict_get k raw = Some values ∧ v ∈ values) →
            ∃ values, dict_get k (f raw a) = Some values ∧ v ∈ values) →
  (∀ raw, ∃ values, dict_get k (f raw a) = Some values ∧ v ∈ values) →
  a ∈ l →
  ∃ values, dict_get k (fold_left f l raw) = Some values ∧ v ∈ values.
Proof.
  intros Hkeep Hadd. revert raw.
  induction l as [|b l IH]; intros raw Hin; [by apply elem_of_nil in Hin|].
  simpl. apply elem_of_cons in Hin as [<-|Hin]; [|by apply IH].
  by apply fold_raw_keeps.
Qed.

Section Flatten.
Variable set_order : list string → list string.
Hypothesis Henum : enumerates set_order.

Lemma flatten_elem_of d k v :
  (∃ values, dict_get k d = Some values ∧ v ∈ values) →
  (k, v) ∈ _flatten set_order d.
Proof.
  intros (values & Hk & Hv). unfold _flatten.
  apply list_elem_of_In, in_flat_map. exists (k, values).
  split; [by apply list_elem_of_In, dict_get_elem_of|].
  apply in_map, list_elem_of_In. by apply Henum.
Qed.

Lemma build_project_users_resolve ds :
  ∃ pu,
    build_project_users set_order ds = Ok pu
    ∧ (∀ c, c ∈ change_sets ds →
         ¬ (author c = ""%string ∧ author_email c = ""%string) →
         ∃ id, get_link_id pu (author_email c) "git" = Ok (Some id)
               ∧ (id < len pu)%nat)
    ∧ (∀ i, i ∈ issues ds → truthy (assignee i) = true →
         ∃ id, get_link_id pu (assignee_username i) "jira" = Ok (Some id)
               ∧ (id < len pu)%nat).
Proof.
  unfold build_project_users. cbv zeta.
  set (jira_raw := fold_left _ (issues ds) _).
  set (git_raw := fold_left _ (change_sets ds) _).
  destruct (roster_links_partition_facts
              (stable_sort by_name (_flatten set_order jira_raw))
              (stable_sort by_name (_flatten set_order git_raw)))
    as (pu & Hrun & _).
  exists pu. split; [done|].
  destruct (run_teams _ _ _ Hrun) as [Hjt Hgt].
  split.
  - intros c Hc Hne.
    assert (Hin : (author c, author_email c)
                  ∈ stable_sort by_name (_flatten set_order git_raw)).
    { rewrite stable_sort_perm. apply flatten_elem_of.
      apply (fold_raw_adds _ (change_sets ds) [] c); [| |done].
      - intros raw a. apply raw_update_old.
      - intros raw. apply raw_update_new. }
    destruct (fold_add_or_update_registers _ [] _ _ Hin Hne)
      as (k & d & Hk & _ & Hu).
    rewrite <- Hgt in Hk.
    destruct (resolves_to_member_link _ _ pu "git" k d (author_email c) Hrun)
      as (id & ld & Hid & Hl & _); [by right|done|done|].
    exists id. split; [done|]. by apply lookup_lt_Some in Hl.
  - intros i Hi Ht.
    destruct (assignee i) as [name|] eqn:Ha; [|done]. simpl in Ht.
    apply negb_true_iff, String.eqb_neq in Ht.
    assert (Hin : (name, assignee_username i)
                  ∈ stable_sort by_name (_flatten set_order jira_raw)).
    { rewrite stable_sort_perm. apply flatten_elem_of.
      apply (fold_raw_adds _ (issues ds) [] i); [| |done].
      - intros raw a H. destruct (truthy (assignee a)); [|done].
        by apply raw_update_old.
      - intros raw. rewrite Ha. simpl.
        apply String.eqb_neq in Ht as ->. simpl. apply raw_update_new. }
    destruct (fold_add_or_update_registers _ [] _ _ Hin) as (k & d & Hk & _ & Hu).
    { by intros [? _]. }
    rewrite <- Hjt in Hk.
    destruct (resolves_to_member_link _ _ pu "jira" k d (assignee_username i) Hrun)
      as (id & ld & Hid & Hl & _); [by left|done|done|].
    exists id. split; [done|]. by apply lookup_lt_Some in Hl.
Qed.

End Flatten.
End DataSourceUsers.


(** X3: registering a name with a handle, not both empty, leaves a member of
    the roster that owns both; a lookup of a non-empty handle with
    [identify_by_user_name] then returns that member. *)
Theorem developer_registration_round_trip (name user_name : string)
  (members : list UserModel.Developer) :
  ¬ (name = ""%string ∧ user_name = ""%string) →
  ∃ k d,
    UserModel.add_or_update_developer name user_name members !! k = Some d
    ∧ Roster.owns_pair name user_name d
    ∧ (user_name ≠ ""%string →
       UserModel.identify_by_user_name user_name
         (UserModel.add_or_update_developer name user_name members) = Some d).
Proof. apply add_or_update_developer_registers. Qed.

Lemma developer_registration_round_trip_witness :
  ∃ k d,
    UserModel.add_or_update_developer "Bruce Wayne" "batman" [] !! k = Some d
    ∧ Roster.owns_pair "Bruce Wayne" "batman" d
    ∧ ("batman"%string ≠ ""%string →
       UserModel.identify_by_user_name "batman"
         (UserModel.add_or_update_developer "Bruce Wayne" "batman" []) = Some d).
Proof.
  apply (developer_registration_round_trip "Bruce Wayne" "batman" []).
  intros [H _]. discriminate H.
Defined.



(** X5: [ProjectUsers.run] never fails on a fresh object, and the links it
    builds partition the two rosters: the tracker members appear once each,
    in roster order, the version-control members once each, no link is
    empty, and the two members of a two-sided link share a name. *)
Theorem roster_links_partition (jira_users git_users : list (string * string)) :
  ∃ pu,
    UserModel.run jira_users git_users = Ok pu
    ∧ Identity.numbered (UserModel.jira_team pu)
    ∧ Identity.numbered (UserModel.git_team pu)
    ∧ Roster.handles_unique (UserModel.jira_team pu)
    ∧ Roster.handles_unique (UserModel.git_team pu)
    ∧ omap UserModel.jira_idx (UserModel.team_links pu)
      = seq 0 (length (UserModel.jira_team pu))
    ∧ omap UserModel.git_idx (UserModel.team_links pu)
      ≡ₚ seq 0 (length (UserModel.git_team pu))
    ∧ Forall Roster.has_side (UserModel.team_links pu)
    ∧ Forall (Roster.linked_by_name pu) (UserModel.team_links pu).
Proof. apply roster_links_partition_facts. Qed.

(** X6: the three numbers of [get_stats] count the links with a tracker
    member only, with a version-control member only and with both; after
    [run] the first and third add up to the size of the tracker roster, the
    second and third to the size of the version-control roster, and all
    three to the number of links. *)
Theorem get_stats_counts :
  (∀ pu,
     let '(unique_jira, unique_git, linked) := UserModel.get_stats pu in
     (unique_jira + linked
      = length (omap UserModel.jira_idx (UserModel.team_links pu))
      ∧ unique_git + linked
        = length (omap UserModel.git_idx (UserModel.team_links pu)))%nat)
  ∧ (∀ jira_users git_users,
       ∃ pu, UserModel.run jira_users git_users = Ok pu
             ∧ let '(unique_jira, unique_git, linked) := UserModel.get_stats pu in
               (unique_jira + linked = length (UserModel.jira_team pu)
                ∧ unique_git + linked = length (UserModel.git_team pu)
                ∧ unique_jira + unique_git + linked = UserModel.len pu)%nat).
Proof.
  split.
  - intros pu. pose proof (get_stats_sides pu) as H.
    destruct (UserModel.get_stats pu) as [[uj ug] l]. apply H.
  - intros jira_users git_users.
    destruct (roster_links_partition_facts jira_users git_users)
      as (pu & Hrun & _ & _ & _ & _ & Hj & Hg & Hside & _).
    exists pu. split; [done|]. pose proof (get_stats_sides pu) as H.
    destruct (UserModel.get_stats pu) as [[uj ug] l].
    destruct H as [[H1 H2] H3]. rewrite Hj in H1. rewrite Hg in H2.
    rewrite length_seq in H1, H2. split; [done|]. split; [done|]. by apply H3.
Qed.

(** X7: after [run], every handle of a roster member resolves with
    [get_link_id] to the one link that carries the member: all handles of
    one member get the same id, and no other link carries the member; a
    handle that no member of the roster has resolves to [None]. *)
Theorem link_id_identifies_member (jira_users git_users : list (string * string))
  (team_name : string) :
  team_name = "jira"%string ∨ team_name = "git"%string →
  ∃ pu,
    UserModel.run jira_users git_users = Ok pu
    ∧ (∀ j d u,
         Identity.roster pu team_name !! j = Some d → u ∈ UserModel.user_names d →
         ∃ id ld,
           UserModel.get_link_id pu u team_name = Ok (Some id)
           ∧ UserModel.team_links pu !! id = Some ld
           ∧ Identity.side team_name ld = Some j
           ∧ (∀ id' ld', UserModel.team_links pu !! id' = Some ld' →
                         Identity.side team_name ld' = Some j → id' = id))
    ∧ (∀ u, (∀ j d, Identity.roster pu team_name !! j = Some d →
                    u ∉ UserModel.user_names d) →
            UserModel.get_link_id pu u team_name = Ok None).
Proof.
  intros Hteam.
  destruct (roster_links_partition_facts jira_users git_users) as (pu & Hrun & _).
  exists pu. split; [done|]. split.
  - intros j d u. by apply (resolves_to_member_link jira_users git_users).
  - intros u Hnone.
    destruct (run_roster_facts _ _ _ team_name Hrun Hteam) as (_ & _ & _ & Hr).
    destruct (get_link_id_from_spec pu u team_name (UserModel.team_links pu) 0%nat
                Hteam) as [_ Hspec].
    { intros ld j Hin. by apply links_in_range_side. }
    apply Hspec. intros ld _ (j & dev & _ & Hdev & Hu). by apply (Hnone j dev).
Qed.

Lemma link_id_identifies_member_witness :
  ∃ pu,
    UserModel.run [("Bruce Wayne", "batman"); ("Bruce Wayne", "the-bat")]%string
                  [("Bruce Wayne", "bruce@wayne.com")]%string = Ok pu
    ∧ (∀ j d u,
         Identity.roster pu "jira" !! j = Some d → u ∈ UserModel.user_names d →
         ∃ id ld,
           UserModel.get_link_id pu u "jira" = Ok (Some id)
           ∧ UserModel.team_links pu !! id = Some ld
           ∧ Identity.side "jira" ld = Some j
           ∧ (∀ id' ld', UserModel.team_links pu !! id' = Some ld' →
                         Identity.side "jira" ld' = Some j → id' = id))
    ∧ (∀ u, (∀ j d, Identity.roster pu "jira" !! j = Some d →
                    u ∉ UserModel.user_names d) →
            UserModel.get_link_id pu u "jira" = Ok None).
Proof.
  apply (link_id_identifies_member
           [("Bruce Wayne", "batman"); ("Bruce Wayne", "the-bat")]%string
           [("Bruce Wayne", "bruce@wayne.com")]%string "jira").
  by left.
Defined.

(** X8: the roster that [build_project_users] builds from a data source
    knows every identity of the data source: the e-mail address of every
    commit with an author name or an address, and the login of every issue
    with an assignee, resolve to a link id below the number of links, so
    never to one of the two substitutes for an unknown identity. *)
Theorem data_source_identities_resolve (set_order : list string → list string)
  (ds : DataSource) :
  Roster.enumerates set_order →
  ∃ pu,
    IO.build_project_users set_order ds = Ok pu
    ∧ (∀ c, c ∈ change_sets ds →
         ¬ (author c = ""%string ∧ author_email c = ""%string) →
         ∃ id, UserModel.get_link_id pu (author_email c) "git" = Ok (Some id)
               ∧ (id < UserModel.len pu)%nat)
    ∧ (∀ i, i ∈ issues ds → truthy (assignee i) = true →
         ∃ id, UserModel.get_link_id pu (assignee_username i) "jira" = Ok (Some id)
               ∧ (id < UserModel.len pu)%nat).
Proof. intros H. by apply build_project_users_resolve. Qed.

Lemma data_source_identities_resolve_witness :
  ∃ pu,
    IO.build_project_users order_b Example.aliases = Ok pu
    ∧ ∃ id, UserModel.get_link_id pu "rob@y.org" "git" = Ok (Some id)
            ∧ (id < UserModel.len pu)%nat.
Proof.
  destruct (data_source_identities_resolve order_b Example.aliases)
    as (pu & Hpu & Hc & _).
  { intros l x. unfold order_b. rewrite !list_elem_of_In. symmetry. apply in_rev. }
  exists pu. split; [done|].
  apply (Hc (Example.commit "Robert" "rob@y.org" "c3" "2017-01-04T00:00:00Z")).
  - right. right. by left.
  - intros [H _]. discriminate H.
Defined.

(** X9: what [save] writes, [load] reads back: the project name, the two
    rosters and the links are those that were saved, whatever the order in
    which the sets of names and handles are written. *)
Theorem project_users_save_load (set_order : list string → list string)
  (pu : UserModel.ProjectUsers) (project_name : string) :
  Roster.enumerates set_order →
  UserModel.load (UserModel.save set_order pu project_name) = (project_name, pu).
Proof. intros H. by apply load_save. Qed.

Lemma project_users_save_load_witness :
  let pu :=
    {| UserModel.jira_team :=
         [ {| UserModel.number := 0;
              UserModel.names := {["Bruce Wayne"%string; "Master Wayne"%string]};
              UserModel.user_names := {["batman"%string]} |} ];
       UserModel.git_team := [];
       UserModel.team_links :=
         [ {| UserModel.jira_idx := Some 0%nat; UserModel.git_idx := None |} ] |} in
  UserModel.load (UserModel.save order_b pu "gotham") = ("gotham"%string, pu).
Proof.
  intros pu. apply (project_users_save_load order_b pu "gotham").
  intros l x. unfold order_b. rewrite !list_elem_of_In. symmetry. apply in_rev.
Defined.

Section FilterFacts.
Import Profile Filtering.

Lemma is_source_file_extension f :
  DefaultFilter.is_source_file f = DefaultFilter.has_source_file_extension f.
Proof. unfold DefaultFilter.is_source_file. by destruct (DefaultFilter.has_source_file_extension f). Qed.

Lemma filter_idemp {A : Type} (p : A → bool) (l : list A) :
  filter (λ x, p x = true) (filter (λ x, p x = true) l) = filter (λ x, p x = true) l.
Proof.
  induction l as [|x l IH]; [done|]. rewrite filter_cons.
  destruct (decide (p x = true)) as [Hx|Hx]; [|done].
  rewrite filter_cons. by rewrite decide_True, IH.
Qed.

Lemma filter_nonempty_existsb {A : Type} (p : A → bool) (l : list A) :
  (0 <? length (filter (λ x, p x = true) l))%nat = existsb p l.
Proof.
  induction l as [|x l IH]; [done|]. rewrite filter_cons. simpl.
  destruct (decide (p x = true)) as [Hx|Hx].
  - by rewrite Hx.
  - apply not_true_is_false in Hx. by rewrite Hx.
Qed.

Lemma existsb_pointwise {A : Type} (p q : A → bool) (l : list A) :
  (∀ x, p x = q x) → existsb p l = existsb q l.
Proof. intros H. induction l as [|x l IH]; simpl; [done|]. by rewrite H, IH. Qed.

Lemma default_relevant_source_part c :
  DefaultFilter.is_relevant_commit (source_part c) = has_source_file c.
Proof.
  unfold DefaultFilter.is_relevant_commit, source_part, has_source_file. simpl.
  rewrite filter_idemp, filter_nonempty_existsb.
  apply existsb_pointwise. intros f. apply is_source_file_extension.
Qed.

Lemma filter_change_sets_map l :
  _filter_change_sets l default_filter = map source_part (List.filter has_source_file l).
Proof.
  unfold _filter_change_sets. induction l as [|c l IH]; [done|].
  cbn [flat_map List.filter]. rewrite IH.
  change (with_file_path _ c) with (source_part c).
  change (@is_relevant_commit default_filter (source_part c))
    with (DefaultFilter.is_relevant_commit (source_part c)).
  rewrite default_relevant_source_part.
  by destruct (has_source_file c).
Qed.

Lemma source_part_files c :
  has_source_file c = true →
  file_path (source_part c) ≠ []
  ∧ Forall (λ f, DefaultFilter.has_source_file_extension f = true)
           (file_path (source_part c)).
Proof.
  intros H. unfold source_part. simpl. split.
  - unfold has_source_file in H. apply existsb_exists in H as (f & Hin & Hf).
    intros Hnil. assert (Hf' : f ∈ filter (λ f, DefaultFilter.is_source_file f = true) (file_path c)).
    { apply list_elem_of_filter. split; [by rewrite is_source_file_extension|by apply list_elem_of_In]. }
    rewrite Hnil in Hf'. by apply elem_of_nil in Hf'.
  - apply Forall_forall. intros f Hf. apply list_elem_of_filter in Hf as [Hf _].
    by rewrite is_source_file_extension in Hf.
Qed.

Lemma source_part_fixed c :
  has_source_file (source_part c) = has_source_file c
  ∧ source_part (source_part c) = source_part c.
Proof.
  split.
  - rewrite <- !default_relevant_source_part. unfold DefaultFilter.is_relevant_commit.
    unfold source_part. simpl. by rewrite !filter_idemp.
  - unfold source_part, with_file_path. simpl. by rewrite filter_idemp.
Qed.

End FilterFacts.

(** X10: with the default filter, [_filter_change_sets] keeps, in order,
    the commits that touch at least one file with a source extension, each
    restricted to those files; so every commit of the result has a
    non-empty file list of source files only, and filtering the result again
    changes nothing. *)
Theorem filter_change_sets_source_files (change_sets : list ChangeSet) :
  let kept := Profile._filter_change_sets change_sets default_filter in
  kept = map Filtering.source_part (List.filter Filtering.has_source_file change_sets)
  ∧ Forall (λ c, file_path c ≠ []
                 ∧ Forall (λ f, DefaultFilter.has_source_file_extension f = true)
                          (file_path c)) kept
  ∧ Profile._filter_change_sets kept default_filter = kept.
Proof.
  intros kept. unfold kept. rewrite !filter_change_sets_map. split; [done|]. split.
  - apply Forall_forall. intros c' Hc'.
    apply list_elem_of_fmap in Hc' as (c & -> & Hc).
    apply list_elem_of_In, filter_In in Hc as [_ Hc]. by apply source_part_files.
  - induction change_sets as [|c l IH]; [done|]. cbn [List.filter].
    destruct (Filtering.has_source_file c) eqn:E; [|done].
    cbn [map List.filter].
    destruct (source_part_fixed c) as [H1 H2]. rewrite H1, E.
    cbn [map]. by rewrite H2, IH.
Qed.

Section DataSourceFilter.
Import Profile Filtering.

Lemma elem_of_dict_set {V : Type} k (v : V) d k' v' :
  (k', v') ∈ dict_set k v d → (k' = k ∧ v' = v) ∨ (k', v') ∈ d.
Proof.
  induction d as [|[k0 v0] d IH]; simpl.
  - intros [= -> ->]%list_elem_of_singleton. by left.
  - destruct (String.eqb_spec k k0) as [->|Hne].
    + intros [[= -> ->]|H]%elem_of_cons; [by left|]. right. by right.
    + intros [[= -> ->]|H]%elem_of_cons; [right; by left|].
      destruct (IH H) as [?|?]; [by left|]. right. by right.
Qed.

Lemma dict_set_keys {V : Type} k (v : V) d :
  map fst (dict_set k v d) = if mem k (map fst d) then map fst d else map fst d ++ [k].
Proof.
  induction d as [|[k0 v0] d IH]; simpl; [done|].
  destruct (String.eqb_spec k k0) as [->|Hne]; simpl; [done|].
  rewrite IH. unfold mem. by destruct (existsb _ _).
Qed.

Lemma dict_set_NoDup {V : Type} k (v : V) d :
  NoDup (map fst d) → NoDup (map fst (dict_set k v d)).
Proof.
  intros Hnd. rewrite dict_set_keys. destruct (mem k (map fst d)) eqn:E; [done|].
  apply mem_false in E. apply NoDup_app. split; [done|]. split.
  - intros x Hx ->%list_elem_of_singleton. done.
  - apply NoDup_singleton.
Qed.

Lemma elem_of_set_of_list x l : x ∈ set_of_list l ↔ x ∈ l.
Proof.
  unfold set_of_list.
  assert (H : ∀ acc, x ∈ fold_left (λ acc x, set_add x acc) l acc ↔ x ∈ acc ∨ x ∈ l).
  { induction l as [|y l IH]; intros acc; simpl.
    - rewrite elem_of_nil. tauto.
    - rewrite IH. unfold set_add. destruct (mem y acc) eqn:E.
      + apply mem_true in E. rewrite elem_of_cons. split; [tauto|].
        intros [?|[->|?]]; tauto.
      + rewrite elem_of_app, list_elem_of_singleton, elem_of_cons. tauto. }
  rewrite H, elem_of_nil. tauto.
Qed.

Lemma fold_left_inv {A B : Type} (P : A → Prop) (f : A → B → A) (l : list B) a :
  P a → (∀ a x, x ∈ l → P a → P (f a x)) → P (fold_left f l a).
Proof.
  revert a. induction l as [|x l IH]; intros a Ha Hf; simpl; [done|].
  apply IH.
  - apply Hf; [by left|done].
  - intros a' y Hy. apply Hf. by right.
Qed.

Lemma mapping_categories t c :
  dict_get t DefaultFilter.ISSUE_TYPE_MAPPING = Some c → c ∈ categories.
Proof.
  unfold DefaultFilter.ISSUE_TYPE_MAPPING, categories. simpl.
  repeat (destruct (String.eqb t _); [intros [= <-]; set_solver|]). done.
Qed.

Section Order.
Variable set_order : list string → list string.
Hypothesis Henum : ∀ l x, x ∈ set_order l ↔ x ∈ l.

Lemma filter_data_source_issues ds i' :
  i' ∈ issues (_filter_data_source set_order ds default_filter) →
  ∃ i, i ∈ issues ds ∧ i' = add_mapped_type default_filter i
       ∧ DefaultFilter.is_relevant_issue i = true.
Proof.
  unfold _filter_data_source. cbn [issues]. intros H.
  apply list_elem_of_fmap in H as (i & -> & Hi).
  apply list_elem_of_filter in Hi as [Hrel Hi]. by exists i.
Qed.

Lemma filter_data_source_links ds :
  let ds' := _filter_data_source set_order ds default_filter in
  NoDup (map fst (issue_to_change_set ds'))
  ∧ ∀ k hashes, (k, hashes) ∈ issue_to_change_set ds' →
      hashes ≠ [] ∧ k ∈ map id (issues ds')
      ∧ ∀ h, h ∈ hashes →
          h ∈ map commit_hash (change_sets ds')
          ∧ ∃ hashes0, (k, hashes0) ∈ issue_to_change_set ds ∧ h ∈ hashes0.
Proof.
  unfold _filter_data_source. cbn [issues issue_to_change_set change_sets].
  set (issues' := map _ (filter _ (issues ds))).
  set (change_sets' := _filter_change_sets _ _).
  apply (fold_left_inv
           (λ acc : dict string (list string),
              NoDup (map fst acc)
              ∧ ∀ k hashes, (k, hashes) ∈ acc →
                  hashes ≠ [] ∧ k ∈ map id issues'
                  ∧ ∀ h, h ∈ hashes →
                      h ∈ map commit_hash change_sets'
                      ∧ ∃ hashes0, (k, hashes0) ∈ issue_to_change_set ds
                                   ∧ h ∈ hashes0)).
  - split; [constructor|]. intros k hashes H. by apply elem_of_nil in H.
  - intros acc [issue_id commits] Hin [Hnd Hacc].
    destruct (mem issue_id (map id issues')) eqn:Hused; simpl; [|done].
    destruct (set_of_list _) as [|v vs] eqn:Hvalid; [done|].
    split; [by apply dict_set_NoDup|].
    intros k hashes Hk. apply elem_of_dict_set in Hk as [[-> ->]|Hk]; [|by apply Hacc].
    split; [|split].
    + intros Hnil. assert (Hv : v ∈ set_order (v :: vs)) by (apply Henum; by left).
      rewrite Hnil in Hv. by apply elem_of_nil in Hv.
    + by apply mem_true.
    + intros h Hh. apply (proj1 (Henum _ _)) in Hh. rewrite <- Hvalid in Hh.
      apply (proj1 (elem_of_set_of_list _ _)) in Hh.
      apply list_elem_of_filter in Hh as [Hh1 Hh2].
      apply mem_true in Hh1. split; [done|]. by exists commits.
Qed.

End Order.
End DataSourceFilter.

(** X11: the data source that [_filter_data_source] builds with the
    default filter is closed: every issue has one of the four categories as
    its mapped type, and a resolution and a status that the filter accepts;
    the commits are those of [_filter_change_sets]; and the link table has
    each key once, maps only ids of kept issues, to non-empty lists of
    hashes of kept commits that the input linked to that issue. *)
Theorem filter_data_source_closed (set_order : list string → list string)
  (ds : DataSource) :
  Roster.enumerates set_order →
  let ds' := Profile._filter_data_source set_order ds default_filter in
  (∀ i, i ∈ issues ds' →
     (∃ t, mapped_type i = Some t ∧ t ∈ Filtering.categories)
     ∧ resolution i ∈ [None; Some "Done"; Some "Fixed"]%string
     ∧ status i ∈ ["Open"; "Reopened"; "Resolved"; "Closed"]%string)
  ∧ change_sets ds' = Profile._filter_change_sets (change_sets ds) default_filter
  ∧ NoDup (map fst (issue_to_change_set ds'))
  ∧ ∀ k hashes, (k, hashes) ∈ issue_to_change_set ds' →
      hashes ≠ [] ∧ k ∈ map id (issues ds')
      ∧ ∀ h, h ∈ hashes →
          h ∈ map commit_hash (change_sets ds')
          ∧ ∃ hashes0, (k, hashes0) ∈ issue_to_change_set ds ∧ h ∈ hashes0.
Proof.
  intros Henum ds'. split; [|split; [done|by apply filter_data_source_links]].
  intros i' Hi'. apply filter_data_source_issues in Hi' as (i & Hi & -> & Hrel).
  unfold DefaultFilter.is_relevant_issue in Hrel.
  apply andb_true_iff in Hrel as [[H1 H2]%andb_true_iff H3].
  apply bool_decide_eq_true in H1, H2. apply mem_true in H3.
  split; [|by split]. simpl. unfold DefaultFilter.issue_type_to_category in *.
  destruct (dict_get (issue_type i) DefaultFilter.ISSUE_TYPE_MAPPING) as [t|] eqn:E;
    [|done].
  exists t. split; [done|]. by apply (mapping_categories (issue_type i)).
Qed.

Lemma filter_data_source_closed_witness :
  let ds' := Profile._filter_data_source order_b Example.history default_filter in
  (∀ i, i ∈ issues ds' →
     (∃ t, mapped_type i = Some t ∧ t ∈ Filtering.categories)
     ∧ resolution i ∈ [None; Some "Done"; Some "Fixed"]%string
     ∧ status i ∈ ["Open"; "Reopened"; "Resolved"; "Closed"]%string)
  ∧ change_sets ds'
    = Profile._filter_change_sets (change_sets Example.history) default_filter
  ∧ NoDup (map fst (issue_to_change_set ds'))
  ∧ ∀ k hashes, (k, hashes) ∈ issue_to_change_set ds' →
      hashes ≠ [] ∧ k ∈ map id (issues ds')
      ∧ ∀ h, h ∈ hashes →
          h ∈ map commit_hash (change_sets ds')
          ∧ ∃ hashes0, (k, hashes0) ∈ issue_to_change_set Example.history
                       ∧ h ∈ hashes0.
Proof.
  apply (filter_data_source_closed order_b Example.history).
  intros l x. unfold order_b. rewrite !list_elem_of_In. symmetry. apply in_rev.
Defined.

Section Prepare.
Import Profile Filtering.

Lemma source_part_mark c :
  source_part (_mark_as_to_predict c) = _mark_as_to_predict (source_part c).
Proof. done. Qed.

Lemma filter_change_sets_mark l :
  _filter_change_sets (map _mark_as_to_predict l) default_filter
  = map _mark_as_to_predict (_filter_change_sets l default_filter).
Proof.
  rewrite !filter_change_sets_map. induction l as [|c l IH]; [done|].
  cbn [map List.filter].
  change (has_source_file (_mark_as_to_predict c)) with (has_source_file c).
  destruct (has_source_file c); [|done]. cbn [map]. by rewrite IH, source_part_mark.
Qed.

Lemma filter_change_sets_app l1 l2 f :
  _filter_change_sets (l1 ++ l2) f = _filter_change_sets l1 f ++ _filter_change_sets l2 f.
Proof. unfold _filter_change_sets. apply flat_map_app. Qed.

Lemma filter_change_sets_hash l c :
  c ∈ _filter_change_sets l default_filter →
  ∃ c0, c0 ∈ l ∧ commit_hash c = commit_hash c0 ∧ to_predict c = to_predict c0.
Proof.
  rewrite filter_change_sets_map. intros (c0 & -> & H)%list_elem_of_fmap.
  apply list_elem_of_In, filter_In in H as [H _]. apply list_elem_of_In in H.
  by exists c0.
Qed.

Lemma overlap_nil (history new : list string) :
  filter (λ h, mem h history = true) new = []
  ↔ ¬ ∃ h, h ∈ history ∧ h ∈ new.
Proof.
  split.
  - intros Hnil (h & Hh & Hn).
    assert (H : h ∈ filter (λ h, mem h history = true) new).
    { apply list_elem_of_filter. split; [by apply mem_true|done]. }
    rewrite Hnil in H. by apply elem_of_nil in H.
  - intros Hno. destruct (filter _ new) as [|h l] eqn:E; [done|]. exfalso.
    apply Hno. exists h.
    assert (H : h ∈ filter (λ h, mem h history = true) new) by (rewrite E; by left).
    apply list_elem_of_filter in H as [H1 H2]. by apply mem_true in H1.
Qed.

End Prepare.

(** X12: [_prepare_data_source] raises [ValueError] exactly when a commit
    hash occurs both in the history and in the new commits, and raises
    nothing else; otherwise the commits of the result are the filtered
    history followed by the filtered new commits, each of these marked as
    to predict, so a commit of the result with the hash of a new commit
    carries the marker. *)
Theorem prepare_data_source_marks_new (set_order : list string → list string)
  (ds : DataSource) (new_change_sets : list ChangeSet) :
  (Profile._prepare_data_source set_order ds new_change_sets = Raise ValueError
   ↔ ∃ h, h ∈ map commit_hash (change_sets ds)
          ∧ h ∈ map commit_hash new_change_sets)
  ∧ (∀ e, Profile._prepare_data_source set_order ds new_change_sets = Raise e →
          e = ValueError)
  ∧ (∀ ds', Profile._prepare_data_source set_order ds new_change_sets = Ok ds' →
       change_sets ds'
       = Profile._filter_change_sets (change_sets ds) default_filter
         ++ map Profile._mark_as_to_predict
              (Profile._filter_change_sets new_change_sets default_filter)
       ∧ ∀ c, c ∈ change_sets ds' →
              commit_hash c ∈ map commit_hash new_change_sets →
              to_predict c = true).
Proof.
  unfold Profile._prepare_data_source.
  pose proof (overlap_nil (map commit_hash (change_sets ds))
                (map commit_hash new_change_sets)) as Hov.
  destruct (filter _ (map commit_hash new_change_sets)) as [|h0 l0] eqn:E.
  - assert (Hno : ¬ ∃ h, h ∈ map commit_hash (change_sets ds)
                         ∧ h ∈ map commit_hash new_change_sets) by by apply Hov.
    split; [split; [done|by intros ?]|]. split; [done|].
    intros ds' [= <-]. cbn [change_sets Profile._filter_data_source].
    rewrite filter_change_sets_app, filter_change_sets_mark. split; [done|].
    intros c [Hc|Hc]%elem_of_app Hnew.
    + exfalso. apply Hno. exists (commit_hash c). split; [|done].
      apply filter_change_sets_hash in Hc as (c0 & Hc0 & -> & _).
      apply list_elem_of_fmap. by exists c0.
    + by apply list_elem_of_fmap in Hc as (c1 & -> & _).
  - split; [|split; [by intros e [= <-]|done]].
    split; [intros _|done]. exists h0.
    assert (H : h0 ∈ filter (λ h, mem h (map commit_hash (change_sets ds)) = true)
                       (map commit_hash new_change_sets)) by (rewrite E; by left).
    apply list_elem_of_filter in H as [H1 H2]. by apply mem_true in H1.
Qed.

Section Extensions.
Import DefaultFilter.

Lemma starts_with_prefix (p s : list ascii) :
  starts_with p s = true ↔ ∃ r, s = p ++ r.
Proof.
  revert s. induction p as [|a p IH]; intros s; simpl.
  - split; [intros _; by exists s|done].
  - destruct s as [|b s].
    + split; [done|]. by intros (r & ?).
    + rewrite andb_true_iff, IH. split.
      * intros [->%Ascii.eqb_eq (r & ->)]. by exists r.
      * intros (r & [= -> ->]). split; [apply Ascii.eqb_refl|by exists r].
Qed.

Lemma list_ascii_of_string_app (a b : string) :
  list_ascii_of_string (a +:+ b)
  = list_ascii_of_string a ++ list_ascii_of_string b.
Proof. induction a as [|c a IH]; simpl; [done|]. by rewrite IH. Qed.

Lemma endswith_suffix (fn ext : string) :
  endswith fn ext = true ↔ ∃ stem : string, fn = stem +:+ ext.
Proof.
  unfold endswith. rewrite starts_with_prefix. split.
  - intros (r & Hr). exists (string_of_list_ascii (rev r)).
    rewrite <- (string_of_list_ascii_of_string fn).
    rewrite <- (string_of_list_ascii_of_string (_ +:+ ext)).
    f_equal. rewrite list_ascii_of_string_app, list_ascii_of_string_of_list_ascii.
    rewrite <- (rev_involutive (list_ascii_of_string fn)), Hr.
    by rewrite rev_app_distr, rev_involutive.
  - intros (stem & ->). exists (rev (list_ascii_of_string stem)).
    by rewrite list_ascii_of_string_app, rev_app_distr.
Qed.

End Extensions.

(** X13: [DefaultFilter.is_source_file] accepts exactly the paths that
    end with one of the source file extensions. *)
Theorem source_file_iff_extension (file_path : string) :
  DefaultFilter.is_source_file file_path = true
  ↔ ∃ stem ext, ext ∈ DefaultFilter.SOURCE_FILE_EXTENSIONS
                ∧ file_path = (stem +:+ ext)%string.
Proof.
  unfold DefaultFilter.is_source_file, DefaultFilter.has_source_file_extension.
  destruct (existsb _ _) eqn:E; simpl.
  - split; [intros _|done]. apply existsb_exists in E as (ext & Hin & He).
    apply endswith_suffix in He as (stem & ->). exists stem, ext.
    split; [by apply list_elem_of_In|done].
  - split; [done|]. intros (stem & ext & Hin & ->).
    assert (existsb (DefaultFilter.endswith (stem +:+ ext))
              DefaultFilter.SOURCE_FILE_EXTENSIONS = true); [|congruence].
    apply existsb_exists. exists ext. split; [by apply list_elem_of_In|].
    apply endswith_suffix. by exists stem.
Qed.

Section StableOrder.
Context {A : Type} (key : A → Z).
Import Order.

#[local] Abbreviation leb := (λ a b : A, key a <=? key b).

Lemma filter_app_inv (P : A → Prop) `{∀ x, Decision (P x)} (l f1 r : list A) :
  filter P l = f1 ++ r →
  ∃ l1 l2, l = l1 ++ l2 ∧ filter P l1 = f1 ∧ filter P l2 = r.
Proof.
  revert f1. induction l as [|x l IH]; intros f1 Hf.
  - symmetry in Hf. apply app_eq_nil in Hf as [-> ->]. by exists [], [].
  - rewrite filter_cons in Hf. destruct (decide (P x)) as [Hx|Hx].
    + destruct f1 as [|y f1]; simpl in Hf.
      * exists [], (x :: l). split; [done|]. split; [done|].
        rewrite filter_cons. by rewrite decide_True.
      * injection Hf as <- Hf. destruct (IH f1 Hf) as (l1 & l2 & -> & H1 & H2).
        exists (x :: l1), l2. split; [done|]. split; [|done].
        rewrite filter_cons. by rewrite decide_True, H1.
    + destruct (IH f1 Hf) as (l1 & l2 & -> & H1 & H2).
      exists (x :: l1), l2. split; [done|]. split; [|done].
      rewrite filter_cons. by rewrite decide_False.
Qed.

Lemma filter_cons_inv (P : A → Prop) `{∀ x, Decision (P x)} (l r : list A) x :
  filter P l = x :: r → ∃ l1 l2, l = l1 ++ x :: l2 ∧ filter P l2 = r.
Proof.
  induction l as [|y l IH]; [done|]. rewrite filter_cons.
  destruct (decide (P y)) as [Hy|Hy].
  - intros [= -> <-]. by exists [], l.
  - intros Hf. destruct (IH Hf) as (l1 & l2 & -> & H2). by exists (y :: l1), l2.
Qed.

Lemma before_filter (P : A → Prop) `{∀ x, Decision (P x)} a b (l : list A) :
  before a b (filter P l) → before a b l.
Proof.
  intros (f1 & f2 & f3 & Hf).
  apply filter_app_inv in Hf as (l1 & l' & -> & _ & Hf).
  apply filter_cons_inv in Hf as (l1' & l'' & -> & Hf).
  apply filter_app_inv in Hf as (l2 & l''' & -> & _ & Hf).
  apply filter_cons_inv in Hf as (l2' & l3 & -> & _).
  exists (l1 ++ l1'), (l2 ++ l2'), l3. by rewrite <- !app_assoc.
Qed.

Lemma filter_before (P : A → Prop) `{∀ x, Decision (P x)} a b (l : list A) :
  P a → P b → before a b l → before a b (filter P l).
Proof.
  intros Ha Hb (l1 & l2 & l3 & ->).
  exists (filter P l1), (filter P l2), (filter P l3).
  rewrite filter_app, filter_cons, decide_True by done.
  by rewrite filter_app, filter_cons, decide_True by done.
Qed.

(** a stable sort keeps [a] before [b] when the key of [a] is not greater *)
Lemma stable_sort_before a b (l : list A) :
  before a b l → key a ≤ key b → before a b (stable_sort leb l).
Proof.
  intros Hbefore Hle. destruct (decide (key a = key b)) as [Heq|Hne].
  - apply (before_filter (λ x, key x = key a)).
    rewrite (filter_stable_sort key). by apply filter_before.
  - assert (Hlt : key a < key b) by lia.
    pose proof (stable_sort_sorted key l) as Hs.
    pose proof (stable_sort_perm leb l) as Hp.
    destruct Hbefore as (l1 & l2 & l3 & Hl).
    assert (Ha : a ∈ stable_sort leb l).
    { rewrite Hp, Hl. set_solver. }
    assert (Hb : b ∈ stable_sort leb l).
    { rewrite Hp, Hl. set_solver. }
    apply list_elem_of_split in Ha as (o1 & o2 & Ho). rewrite Ho in Hb, Hs.
    apply elem_of_app in Hb as [Hb|Hb].
    + exfalso.
      assert (Hall : Forall (λ x, key x ≤ key a) o1).
      { clear -Hs. induction o1 as [|x o1 IH]; [done|]. simpl in Hs.
        apply StronglySorted_inv in Hs as [Hs Hx]. constructor; [|by apply IH].
        rewrite Forall_app, Forall_cons in Hx. by destruct Hx as (_ & ? & _). }
      rewrite Forall_forall in Hall. specialize (Hall b Hb). lia.
    + apply elem_of_cons in Hb as [->|Hb]; [lia|].
      apply list_elem_of_split in Hb as (o2' & o3 & ->). by exists o1, o2', o3.
Qed.

End StableOrder.

Section StreamMore.
Import EventPkg Stream Order.
Variable utc_offset : Z → Z.

Lemma issue_events_before esc ds issue :
  issue ∈ issues ds →
  before (creation_event utc_offset esc issue) (resolution_event utc_offset esc issue)
         (issue_events utc_offset esc ds ++ commit_events utc_offset esc ds).
Proof.
  intros Hin. apply list_elem_of_split in Hin as (i1 & i2 & Hi).
  unfold issue_events. rewrite Hi, flat_map_app. simpl.
  exists (flat_map (λ issue, [creation_event utc_offset esc issue;
                              resolution_event utc_offset esc issue]) i1), [].
  eexists. rewrite <- app_assoc. simpl. reflexivity.
Qed.

Lemma bind_raise {A B : Type} (r : result A) (k : A → result B) e :
  r ≫= k = Raise e → r = Raise e ∨ ∃ a, r = Ok a ∧ k a = Raise e.
Proof. destruct r as [a|e']; cbn; [right; by exists a|intros [= ->]; by left]. Qed.

Lemma generate_raises esc ds e :
  generate utc_offset esc ds = Raise e → e = ValueError.
Proof.
  unfold generate, generate_jira_events, generate_git_events.
  assert (Hj : ∀ co ro l e, jira_events_of utc_offset co ro l = Raise e → e = ValueError).
  { intros co ro l. induction l as [|i l IH]; intros e0; simpl; [done|].
    unfold _new_issue_created_event, _new_issue_resolved_event.
    intros [H|(c & _ & [H|(r & _ & [H|(es & _ & H)]%bind_raise)]%bind_raise)]%bind_raise;
      [| |by apply IH|done].
    - apply bind_raise in H as [H|(t & _ & H)]; [|done].
      by apply date_time_to_timestamp_raises in H.
    - apply bind_raise in H as [H|(t & _ & H)]; [|done].
      by apply date_time_to_timestamp_raises in H. }
  assert (Hg : ∀ o l e, mapM (_new_git_event utc_offset o) l = Raise e → e = ValueError).
  { intros o l. induction l as [|c l IH]; intros e0; cbn [mapM]; [done|].
    unfold _new_git_event at 1.
    intros [H|(ev & _ & [H|(es & _ & H)]%bind_raise)]%bind_raise; [|by apply IH|done].
    apply bind_raise in H as [H|(t & _ & H)]; [|done].
    by apply date_time_to_timestamp_raises in H. }
  intros [H|(je & _ & [H|(ge & _ & H)]%bind_raise)]%bind_raise; [| |done].
  - by apply Hj in H.
  - by apply Hg in H.
Qed.

End StreamMore.

(** X14: [generate] produces a stream exactly when every date of the
    data source converts (creation and resolution date of every issue,
    committed date of every commit); otherwise it raises [ValueError] and
    nothing else; a stream has two events per issue and one per commit. *)
Theorem event_stream_iff_dates_parse (utc_offset : Z → Z)
  (esc : EventPkg.EventStreamCreator) (ds : DataSource) :
  ((∃ stream, EventPkg.generate utc_offset esc ds = Ok stream)
   ↔ Stream.dates_parse utc_offset ds)
  ∧ (∀ e, EventPkg.generate utc_offset esc ds = Raise e → e = ValueError)
  ∧ (∀ stream, EventPkg.generate utc_offset esc ds = Ok stream →
       length stream = (2 * length (issues ds) + length (change_sets ds))%nat).
Proof.
  split; [split|split].
  - intros (stream & H). by apply (generate_dates_parse utc_offset esc ds stream).
  - intros H. eexists. by apply generate_ok.
  - apply generate_raises.
  - intros stream H.
    pose proof (generate_dates_parse utc_offset esc ds stream H) as Hd.
    rewrite (generate_ok utc_offset esc ds Hd) in H. injection H as <-.
    rewrite (Permutation_length (stable_sort_perm _ _)), length_app.
    unfold Stream.issue_events, Stream.commit_events. rewrite length_map.
    f_equal. induction (issues ds) as [|i l IH]; simpl; [done|]. rewrite IH. lia.
Qed.

(** X15: when the dates convert and the creation time of an issue plus
    the creation offset is not later than its resolution time plus the
    resolution offset, the creation event of the issue comes before its
    resolution event in the stream, also when the two time stamps are
    equal. *)
Theorem creation_precedes_resolution (utc_offset : Z → Z)
  (esc : EventPkg.EventStreamCreator) (ds : DataSource) (issue : Issue) :
  Stream.dates_parse utc_offset ds → issue ∈ issues ds →
  Stream.seconds utc_offset (created_date issue)
    + EventPkg.jira_create_offset_seconds esc
  ≤ Stream.seconds utc_offset (Stream.resolution_date issue)
    + EventPkg.jira_resolve_offset_seconds esc →
  ∃ stream,
    EventPkg.generate utc_offset esc ds = Ok stream
    ∧ Order.before (Stream.creation_event utc_offset esc issue)
                   (Stream.resolution_event utc_offset esc issue) stream.
Proof.
  intros Hd Hin Hle. eexists. split; [by apply generate_ok|].
  apply (stable_sort_before EventPkg.time_stamp).
  - by apply issue_events_before.
  - simpl. lia.
Qed.

Lemma creation_precedes_resolution_witness :
  ∃ stream,
    EventPkg.generate tz_utc EventPkg.new_creator Example.aliases = Ok stream
    ∧ Order.before
        (Stream.creation_event tz_utc EventPkg.new_creator
           (Example.issue "I-1" "2017-01-01T00:00:00Z" None))
        (Stream.resolution_event tz_utc EventPkg.new_creator
           (Example.issue "I-1" "2017-01-01T00:00:00Z" None)) stream.
Proof.
  apply (creation_precedes_resolution tz_utc EventPkg.new_creator Example.aliases
           (Example.issue "I-1" "2017-01-01T00:00:00Z" None)).
  - split.
    + intros i Hi. apply list_elem_of_singleton in Hi as ->. by vm_compute.
    + intros c Hc. repeat (apply elem_of_cons in Hc as [->|Hc]; [by vm_compute|]).
      by apply elem_of_nil in Hc.
  - by left.
  - by vm_compute.
Defined.

Section Overlap.
Import Resource.

Lemma pos_of_nat_Z d : (0 < d)%nat → Z.pos (Pos.of_nat d) = Z.of_nat d.
Proof. intros Hd. rewrite <- positive_nat_Z, Nat2Pos.id; lia. Qed.

Lemma true_div_range n d :
  (n ≤ d)%nat → (0 < d)%nat → (0 <= true_div n d)%Q ∧ (true_div n d <= 1)%Q.
Proof.
  intros Hn Hd. unfold true_div. rewrite Qred_correct. unfold Qle.
  cbn [Qnum Qden]. rewrite (pos_of_nat_Z d Hd). lia.
Qed.

Lemma true_div_zero n d : (0 < d)%nat → true_div n d = 0%Q ↔ n = 0%nat.
Proof.
  intros Hd. unfold true_div. split.
  - intros H. assert (Hq : (Z.of_nat n # Pos.of_nat d == 0)%Q).
    { rewrite <- (Qred_correct (Z.of_nat n # Pos.of_nat d)), H. reflexivity. }
    unfold Qeq in Hq. cbn [Qnum Qden] in Hq. lia.
  - intros ->. apply (Qred_complete (0 # Pos.of_nat d) 0). unfold Qeq.
    cbn [Qnum Qden]. lia.
Qed.

Lemma true_div_one n d : (0 < d)%nat → true_div n d = 1%Q ↔ n = d.
Proof.
  intros Hd. unfold true_div. split.
  - intros H. assert (Hq : (Z.of_nat n # Pos.of_nat d == 1)%Q).
    { rewrite <- (Qred_correct (Z.of_nat n # Pos.of_nat d)), H. reflexivity. }
    unfold Qeq in Hq. cbn [Qnum Qden] in Hq. rewrite (pos_of_nat_Z d Hd) in Hq. lia.
  - intros ->. apply (Qred_complete (Z.of_nat d # Pos.of_nat d) 1).
    unfold Qeq. cbn [Qnum Qden]. rewrite (pos_of_nat_Z d Hd). lia.
Qed.

Lemma size_inter_le (x y : gset string) :
  (size (x ∩ y) ≤ size x)%nat ∧ (size (x ∩ y) ≤ size y)%nat.
Proof.
  split; apply subseteq_size; [apply intersection_subseteq_l|apply intersection_subseteq_r].
Qed.

Lemma size_inter_full (x y : gset string) :
  (size y ≤ size x)%nat → size (x ∩ y) = size x → x = y.
Proof.
  intros Hle Heq.
  assert (H1 : x ∩ y = x).
  { apply set_subseteq_size_eq; [apply intersection_subseteq_l|lia]. }
  assert (H2 : x ⊆ y) by (rewrite <- H1; apply intersection_subseteq_r).
  apply set_subseteq_size_eq; [done|lia].
Qed.

End Overlap.

(** X16: the resource overlap lies between 0 and 1; it is 0 exactly when
    the two collections have no element in common, and 1 exactly when they
    hold the same elements and are not empty. *)
Theorem resource_similarity_range (first second : Resource.collection) :
  let s := Resource.resource_similarity first second in
  (0 <= s)%Q ∧ (s <= 1)%Q
  ∧ (s = 0%Q ↔ Resource.as_set first ∩ Resource.as_set second = ∅)
  ∧ (s = 1%Q ↔ Resource.as_set first = Resource.as_set second
               ∧ Resource.as_set first ≠ ∅).
Proof.
  unfold Resource.resource_similarity.
  generalize (Resource.as_set first) (Resource.as_set second). intros x y.
  destruct (size_inter_le x y) as [Hx Hy].
  assert (Hempty : ∀ z : gset string, size z = 0%nat ↔ z = ∅).
  { intros z. rewrite size_empty_iff. split; [apply leibniz_equiv|by intros ->]. }
  destruct (Nat.ltb_spec (size y) (size x)) as [Hlt|Hge].
  - rewrite (proj2 (Nat.ltb_lt 0 (size x))) by lia. cbv zeta.
    destruct (true_div_range (size (x ∩ y)) (size x)) as [H0 H1]; [done|lia|].
    split; [done|]. split; [done|]. split.
    + rewrite true_div_zero by lia. apply Hempty.
    + rewrite true_div_one by lia. split.
      * intros H. apply size_inter_full in H; [|lia]. subst y. lia.
      * intros [<- _]. lia.
  - destruct (Nat.ltb_spec 0 (size y)) as [Hpos|Hzero]; cbv zeta.
    + destruct (true_div_range (size (x ∩ y)) (size y)) as [H0 H1]; [done|lia|].
      split; [done|]. split; [done|]. split.
      * rewrite true_div_zero by lia. apply Hempty.
      * rewrite true_div_one by lia. split.
        -- intros H. rewrite (comm_L (∩) x y) in H.
           apply size_inter_full in H; [|lia]. split; [done|].
           intros Hx0. apply Hempty in Hx0. subst y. lia.
        -- intros [Heq _]. rewrite Heq. f_equal. apply (idemp_L (∩)).
    + assert (Hy0 : size y = 0%nat) by lia. assert (Hx0 : size x = 0%nat) by lia.
      apply Hempty in Hy0, Hx0. split; [done|]. split; [done|]. split.
      * split; [intros _|done]. rewrite Hx0. apply (left_absorb_L ∅ (∩)).
      * split; [done|]. by intros [_ ?].
Qed.

Section Maximum.
Import Profile.

Lemma Qltb_false a b : Qltb a b = false ↔ (b <= a)%Q.
Proof. unfold Qltb. rewrite negb_false_iff. apply Qle_bool_iff. Qed.

Lemma Qltb_true a b : Qltb a b = true ↔ (a < b)%Q.
Proof.
  unfold Qltb. rewrite negb_true_iff. split.
  - intros H. apply Qnot_le_lt. intros Hle. apply Qle_bool_iff in Hle. congruence.
  - intros H. destruct (Qle_bool b a) eqn:E; [|done].
    apply Qle_bool_iff in E. exfalso. by apply (Qlt_not_le a b).
Qed.

Lemma fold_max_spec (vs : list Q) (v : Q) :
  let m := fold_left (λ m x, if Qltb m x then x else m) vs v in
  m ∈ v :: vs ∧ ∀ x, x ∈ v :: vs → (x <= m)%Q.
Proof.
  revert v. induction vs as [|y vs IH]; intros v; simpl.
  - split; [by left|]. intros x ->%list_elem_of_singleton. apply Qle_refl.
  - destruct (Qltb v y) eqn:E.
    + destruct (IH y) as [Hin Hmax]. split; [by right|].
      intros x [->|Hx]%elem_of_cons; [|by apply Hmax].
      apply Qltb_true in E. eapply Qle_trans; [apply Qlt_le_weak, E|].
      apply Hmax. by left.
    + destruct (IH v) as [Hin Hmax]. split.
      * apply elem_of_cons in Hin as [->|Hin]; [by left|right; by right].
      * intros x [->|[->|Hx]%elem_of_cons]%elem_of_cons.
        -- apply Hmax. by left.
        -- apply Qltb_false in E. eapply Qle_trans; [exact E|]. apply Hmax. by left.
        -- apply Hmax. by right.
Qed.

End Maximum.

(** X17: [_get_maximum_text_similarity] returns the default when the
    handler has no value for any file of the commit; otherwise it returns
    the value of one of the files, and no file has a greater value. *)
Theorem maximum_text_similarity_is_maximum
  (handler : string → string → string → option Q)
  (issue_id commit_hash : string) (file_paths : list string) (default : Q) :
  let m := Profile._get_maximum_text_similarity handler issue_id commit_hash
             file_paths default in
  ((∀ f, f ∈ file_paths → handler issue_id commit_hash f = None) ∧ m = default)
  ∨ ((∃ f, f ∈ file_paths ∧ handler issue_id commit_hash f = Some m)
     ∧ ∀ f v, f ∈ file_paths → handler issue_id commit_hash f = Some v →
              (v <= m)%Q).
Proof.
  unfold Profile._get_maximum_text_similarity, Profile.py_max.
  set (get_sim := λ f, handler issue_id commit_hash f).
  destruct (omap (λ val, val) (map get_sim file_paths)) as [|v vs] eqn:E.
  - left. split; [|done]. intros f Hf.
    destruct (get_sim f) as [q|] eqn:Hq; [|done].
    assert (H : q ∈ omap (λ val, val) (map get_sim file_paths)).
    { apply list_elem_of_omap. exists (Some q). split; [|done].
      apply list_elem_of_fmap. by exists f. }
    rewrite E in H. by apply elem_of_nil in H.
  - right. destruct (fold_max_spec vs v) as [Hin Hmax]. rewrite <- E in Hin, Hmax.
    split.
    + apply list_elem_of_omap in Hin as (o & Ho & Hm).
      apply list_elem_of_fmap in Ho as (f & -> & Hf). by exists f.
    + intros f q Hf Hq. apply Hmax. apply list_elem_of_omap. exists (Some q).
      split; [|done]. apply list_elem_of_fmap. by exists f.
Qed.

Section LookupFacts.
Import Profile Engine Identity Lookup.

Context {B V : Type} (keep : B → bool) (key : B → string) (g : B → result nat)
  (mk : B → nat → V).

#[local] Abbreviation body :=
  (λ (acc : result (gmap string V)) (x : B),
     result ← acc;
     if negb (keep x) then Ok result
     else user_id ← g x; Ok (<[key x := mk x user_id]> result)).

Lemma foldl_insert_spec (l : list B) (m0 : gmap string V) :
  (∀ x, x ∈ l → keep x = true → ∃ u, g x = Ok u) →
  ∃ m, foldl body (Ok m0) l = Ok m
       ∧ ∀ k, match last_with (λ x, keep x && String.eqb (key x) k) l with
              | Some x => ∃ u, g x = Ok u ∧ m !! k = Some (mk x u)
              | None => m !! k = m0 !! k
              end.
Proof.
  induction l as [|x l IH] using rev_ind; intros Hg.
  - exists m0. by split.
  - destruct IH as (m & Hm & Hspec).
    { intros y Hy. apply Hg. apply elem_of_app. by left. }
    rewrite foldl_app. cbn [foldl]. rewrite Hm. cbn.
    unfold last_with in *.
    destruct (keep x) eqn:Hk; cbn.
    + destruct (Hg x) as [u Hu]; [apply elem_of_app; right; by left|done|].
      rewrite Hu. cbn. eexists. split; [done|]. intros k.
      rewrite List.filter_app. cbn [List.filter]. rewrite Hk. cbn [andb].
      destruct (String.eqb_spec (key x) k) as [<-|Hne].
      * rewrite last_snoc. exists u. split; [done|]. by rewrite lookup_insert_eq.
      * rewrite app_nil_r. specialize (Hspec k). rewrite lookup_insert_ne by done.
        exact Hspec.
    + exists m. split; [done|]. intros k.
      rewrite List.filter_app. cbn [List.filter]. rewrite Hk. cbn [andb].
      rewrite app_nil_r. apply Hspec.
Qed.

End LookupFacts.

Section LookupTotal.
Import Profile Engine Identity Lookup.

Lemma get_link_id_from_total pu user_name team_name links idx :
  team_name = "jira"%string ∨ team_name = "git"%string →
  (∀ ld j, ld ∈ links → side team_name ld = Some j →
           is_Some (roster pu team_name !! j)) →
  ∃ r, UserModel.get_link_id_from pu user_name team_name idx links = Ok r.
Proof.
  intros Hteam. revert idx. induction links as [|ld links IH]; intros idx Hr.
  - by eexists.
  - destruct (get_link_id_from_cons pu user_name team_name idx ld links Hteam)
      as [[_ ->]|[_ ->]].
    + intros j. apply Hr. by left.
    + by eexists.
    + apply IH. intros ld' j H. apply Hr. by right.
Qed.

Lemma link_id_or_total pu user_name team_name unknown :
  team_name = "jira"%string ∨ team_name = "git"%string →
  links_in_range pu →
  link_id_or pu user_name team_name unknown
  = Ok (user_id_of pu user_name team_name unknown).
Proof.
  intros Hteam Hr. unfold user_id_of, link_id_or, UserModel.get_link_id.
  destruct (get_link_id_from_total pu user_name team_name (UserModel.team_links pu) 0%nat
              Hteam) as [r ->]; [|done].
  intros ld j Hin. by apply links_in_range_side.
Qed.

Lemma last_with_Some {A : Type} (p : A → bool) (l : list A) x :
  last_with p l = Some x → x ∈ l ∧ p x = true.
Proof.
  unfold last_with. intros H. apply last_elem_of in H.
  apply list_elem_of_In, filter_In in H as [H1 H2]. by apply list_elem_of_In in H1.
Qed.

Lemma last_with_None {A : Type} (p : A → bool) (l : list A) :
  last_with p l = None → ∀ x, x ∈ l → p x = false.
Proof.
  unfold last_with. intros H x Hx. apply last_None in H.
  destruct (p x) eqn:E; [|done].
  assert (Hin : In x (List.filter p l)) by (apply filter_In; split; [by apply list_elem_of_In|done]).
  rewrite H in Hin. done.
Qed.

Lemma last_with_is_Some {A : Type} (p : A → bool) (l : list A) x :
  x ∈ l → p x = true → is_Some (last_with p l).
Proof.
  intros Hx Hp. destruct (last_with p l) as [y|] eqn:E; [done|].
  by rewrite (last_with_None p l E x Hx) in Hp.
Qed.

End LookupTotal.

Lemma build_lookups_spec (self : Profile.ProfileGenerator) :
  Identity.links_in_range (Profile.project_users self) →
  ∃ issue_id_to_issue commit_hash_to_change_set,
    Profile.build_issue_lookup self = Ok issue_id_to_issue
    ∧ Profile.build_change_set_lookup self = Ok commit_hash_to_change_set
    ∧ (∀ k, issue_id_to_issue !! k
            = Lookup.issue_entry self
              <$> Lookup.last_with
                    (λ i, Profile.allowed self (mapped_type i) && String.eqb (id i) k)
                    (issues (Profile.data_source self)))
    ∧ (∀ h, commit_hash_to_change_set !! h
            = Lookup.change_set_entry self
              <$> Lookup.last_with (λ c, String.eqb (commit_hash c) h)
                    (change_sets (Profile.data_source self))).
Proof.
  intros Hr.
  destruct (foldl_insert_spec
              (λ i, Profile.allowed self (mapped_type i)) id
              (λ i, Profile.link_id_or (Profile.project_users self)
                      (assignee_username i) "jira"
                      (Profile.unknown_jira_user_id self))
              (λ i u, {| Profile.issue_of := i; Profile.issue_user_id := u |})
              (issues (Profile.data_source self)) ∅)
    as (mi & Hmi & Hi).
  { intros x _ _. eexists. apply link_id_or_total; [by left|done]. }
  destruct (foldl_insert_spec
              (λ _ : ChangeSet, true) commit_hash
              (λ c, Profile.link_id_or (Profile.project_users self)
                      (author_email c) "git"
                      (Profile.unknown_git_user_id self))
              (λ c u, {| Profile.change_set_of := c; Profile.change_set_user_id := u |})
              (change_sets (Profile.data_source self)) ∅)
    as (mc & Hmc & Hc).
  { intros x _ _. eexists. apply link_id_or_total; [by right|done]. }
  exists mi, mc. split; [exact Hmi|]. split; [exact Hmc|]. split.
  - intros k. specialize (Hi k).
    destruct (Lookup.last_with _ _) as [i|]; cbn.
    + destruct Hi as (u & Hu & ->).
      rewrite link_id_or_total in Hu; [|by left|done]. by injection Hu as <-.
    + by rewrite Hi, lookup_empty.
  - intros h. specialize (Hc h). cbn [andb] in Hc.
    destruct (Lookup.last_with _ _) as [c|]; cbn.
    + destruct Hc as (u & Hu & ->).
      rewrite link_id_or_total in Hu; [|by right|done]. by injection Hu as <-.
    + by rewrite Hc, lookup_empty.
Qed.




Section RecordFacts.
Import Profile Engine Records.
Variable utc_offset : Z → Z.

Lemma create_training_sample_fields self commit issue s :
  create_training_sample utc_offset self commit issue = Ok s →
  f00_commit_hash s = commit_hash (change_set_of commit)
  ∧ f01_issue_id s = id (issue_of issue)
  ∧ date_time s = committed_date (change_set_of commit).
Proof.
  unfold create_training_sample. destruct (negb _); [done|].
  intros H. apply bind_ok in H as (t1 & _ & H). apply bind_ok in H as (t2 & _ & H).
  apply bind_ok in H as (f15 & _ & H). apply bind_ok in H as ([prev next] & _ & H).
  by injection H as <-.
Qed.

Lemma made_for_set_f06 self commit issue k b s :
  issue_id_to_issue self !! k = Some issue →
  create_training_sample utc_offset self commit issue = Ok s →
  made_for self commit (set_f06 b s).
Proof.
  intros Hk Hs. apply create_training_sample_fields in Hs as (H0 & H1 & H2).
  split; [done|]. split; [done|]. split; [done|]. by exists k, issue.
Qed.

Lemma linked_samples_made_for self commit ids samples :
  linked_samples utc_offset self commit ids = Ok samples →
  Forall (made_for self commit) samples.
Proof.
  revert samples. induction ids as [|k ids IH]; intros samples; simpl.
  { by intros [= <-]. }
  destruct (issue_id_to_issue self !! k) as [issue|] eqn:Hk; [|apply IH].
  destruct (allowed self _); [|apply IH].
  intros H. apply bind_ok in H as (s & Hs & H). apply bind_ok in H as (rest & Hrest & H).
  injection H as <-. constructor; [by apply (made_for_set_f06 _ _ issue k)|by apply IH].
Qed.

Lemma open_samples_made_for self commit ids samples :
  open_samples utc_offset self commit ids = Ok samples →
  Forall (made_for self commit) samples.
Proof.
  revert samples. induction ids as [|k ids IH]; intros samples; simpl.
  { by intros [= <-]. }
  destruct (issue_id_to_issue self !! k) as [issue|] eqn:Hk; [|apply IH].
  intros H. apply bind_ok in H as (s & Hs & H). apply bind_ok in H as (rest & Hrest & H).
  injection H as <-. constructor; [by apply (made_for_set_f06 _ _ issue k)|by apply IH].
Qed.

Lemma resolved_samples_made_for self commit t ids samples :
  resolved_samples utc_offset self commit t ids = Ok samples →
  Forall (made_for self commit) samples.
Proof.
  revert samples. induction ids as [|k ids IH]; intros samples; simpl.
  { by intros [= <-]. }
  destruct (issue_id_to_issue self !! k) as [issue|] eqn:Hk; [|apply IH].
  intros H. apply bind_ok in H as (rt & _ & H).
  destruct (Qltb _ _); [|by apply IH].
  apply bind_ok in H as (s & Hs & H). apply bind_ok in H as (rest & Hrest & H).
  injection H as <-. constructor; [by apply (made_for_set_f06 _ _ issue k)|by apply IH].
Qed.

Lemma unlinked_samples_made_for self commit samples :
  unlinked_samples utc_offset self commit = Ok samples →
  Forall (made_for self commit) samples.
Proof.
  unfold unlinked_samples. intros H.
  apply bind_ok in H as (active & Ha & H). apply bind_ok in H as (t & _ & H).
  apply bind_ok in H as (previous & Hp & H). injection H as <-.
  apply Forall_app. split.
  - by apply (open_samples_made_for _ _ _ _ Ha).
  - by apply (resolved_samples_made_for _ _ _ _ _ Hp).
Qed.

Lemma create_samples_made_for self h samples :
  create_samples_for_change_set utc_offset self h = Ok samples →
  ∃ commit, commit_hash_to_change_set self !! h = Some commit
            ∧ Forall (made_for self commit) samples.
Proof.
  unfold create_samples_for_change_set.
  destruct (commit_hash_to_change_set self !! h) as [commit|]; [|done].
  intros H. exists commit. split; [done|].
  destruct (negb _); [|by apply unlinked_samples_made_for].
  destruct (commit_hash_to_issue_ids self !! h) as [[|i rest]|];
    [by apply unlinked_samples_made_for| |by apply unlinked_samples_made_for].
  by apply (linked_samples_made_for _ _ _ _ H).
Qed.

Lemma made_for_pairs self0 self commit h s :
  indexed self0 self → commit_hash_to_change_set self !! h = Some commit →
  made_for self commit s →
  pairs self0 (to_predict (change_set_of commit)) s.
Proof.
  intros [Hi Hc] Hh (H6 & H0 & Hd & k & issue & Hk & H1).
  split; [done|]. exists (change_set_of commit), (issue_of issue).
  destruct (Hi k issue Hk) as [Hin Hall]. specialize (Hc h commit Hh).
  by repeat split.
Qed.

Lemma step_records self0 self out event self' out' :
  indexed self0 self →
  Forall (pairs self0 false) (data_source_collector out) →
  Forall (pairs self0 true) (to_predict_collector out) →
  step utc_offset (self, out) event = Ok (self', out') →
  indexed self0 self'
  ∧ Forall (pairs self0 false) (data_source_collector out')
  ∧ Forall (pairs self0 true) (to_predict_collector out').
Proof.
  intros Hidx Hd Hp. unfold step.
  destruct (negb _); [by intros [= <- <-]|].
  destruct event as [d t i action|d t h].
  - destruct (String.eqb action "create"); [by intros [= <- <-]|].
    destruct (String.eqb action "resolve"); [by intros [= <- <-]|done].
  - intros H. apply bind_ok in H as (samples & Hs & H).
    apply create_samples_made_for in Hs as (commit & Hh & Hall).
    rewrite Hh in H. unfold _is_marked_as_to_predict in H.
    assert (Hnew : Forall (pairs self0 (to_predict (change_set_of commit))) samples).
    { eapply Forall_impl; [exact Hall|]. intros s. by apply (made_for_pairs _ self _ h). }
    destruct (to_predict (change_set_of commit)); injection H as <- <-; cbn.
    + split; [done|]. split; [done|]. apply Forall_app. by split.
    + split; [done|]. split; [|done]. apply Forall_app. by split.
Qed.

Lemma replay_records self0 events self out self' out' :
  indexed self0 self →
  Forall (pairs self0 false) (data_source_collector out) →
  Forall (pairs self0 true) (to_predict_collector out) →
  replay utc_offset (self, out) events = Ok (self', out') →
  Forall (pairs self0 false) (data_source_collector out')
  ∧ Forall (pairs self0 true) (to_predict_collector out').
Proof.
  revert self out. induction events as [|e events IH]; intros self out Hi Hd Hp; simpl.
  - by intros [= <- <-].
  - intros H. apply bind_ok in H as ([self1 out1] & Hstep & H).
    destruct (step_records _ _ _ _ _ _ Hi Hd Hp Hstep) as (Hi1 & Hd1 & Hp1).
    by apply (IH self1 out1).
Qed.

Lemma run_records self out :
  run utc_offset self = Ok out →
  Forall (pairs self false) (data_source_collector out)
  ∧ Forall (pairs self true) (to_predict_collector out).
Proof.
  unfold run. intros H. apply bind_ok in H as ([self1 events] & Hprep & H).
  apply bind_ok in H as ([self2 out2] & Hreplay & H). injection H as <-.
  apply (replay_records self events self1 no_samples self2 out2); [|done|done|done].
  unfold prepare_run in Hprep. apply bind_ok in Hprep as (stream & _ & Hprep).
  apply bind_ok in Hprep as (mi & Hmi & Hprep).
  apply bind_ok in Hprep as (mc & Hmc & Hprep). injection Hprep as <- _.
  split; cbn.
  - intros k e Hk. by destruct (build_issue_lookup_spec self mi Hmi k e Hk) as (_ & ? & ?).
  - intros k e Hk. by destruct (build_change_set_lookup_spec self mc Hmc k e Hk) as (_ & ?).
Qed.

End RecordFacts.

(** X19: every record that [run] collects pairs a commit of the data
    source with an issue of the data source whose category is allowed,
    carries the hash and the date of that commit and the id of that issue,
    and has its "within issue life time" flag set; the records of commits
    marked as to predict go to the to-predict collector, and all others to
    the data-source collector. *)
Theorem run_records_routed (utc_offset : Z → Z) (self : Profile.ProfileGenerator)
  (out : Profile.Collectors) :
  Profile.run utc_offset self = Ok out →
  Forall (Records.pairs self false) (Profile.data_source_collector out)
  ∧ Forall (Records.pairs self true) (Profile.to_predict_collector out).
Proof. apply run_records. Qed.

Lemma example_run_returns :
  match Profile.init order_a Example.history Example.to_predict
          IO.no_text_similarity IO.no_trace_similarity ["bug"%string] with
  | Ok self => is_ok (Profile.run tz_utc self) = true
  | Raise _ => False
  end.
Proof. by vm_compute. Qed.

Lemma run_records_routed_witness :
  match Profile.init order_a Example.history Example.to_predict
          IO.no_text_similarity IO.no_trace_similarity ["bug"%string] with
  | Ok self =>
      match Profile.run tz_utc self with
      | Ok out =>
          Forall (Records.pairs self false) (Profile.data_source_collector out)
          ∧ Forall (Records.pairs self true) (Profile.to_predict_collector out)
      | Raise _ => False
      end
  | Raise _ => False
  end.
Proof.
  pose proof example_run_returns as Hrun.
  destruct (Profile.init order_a Example.history Example.to_predict
              IO.no_text_similarity IO.no_trace_similarity ["bug"%string])
    as [self|]; [|done].
  destruct (Profile.run tz_utc self) as [out|] eqn:E; [|done].
  by apply (run_records_routed tz_utc self out).
Defined.

Section RunReturns.
Import Profile Engine EventPkg Returns.
Variable utc_offset : Z → Z.

Lemma ascending_app_le (done rest : list Event) x e :
  Stream.ascending (done ++ e :: rest) → x ∈ done → time_stamp x ≤ time_stamp e.
Proof.
  unfold Stream.ascending. induction done as [|y done IH]; intros Hs Hx.
  - by apply elem_of_nil in Hx.
  - simpl in Hs. apply StronglySorted_inv in Hs as [Hs Hy].
    apply elem_of_cons in Hx as [->|Hx]; [|by apply IH].
    rewrite Forall_app, Forall_cons in Hy. by destruct Hy as (_ & ? & _).
Qed.

Lemma NoDup_map_inj {A B : Type} (f : A → B) (l : list A) x y :
  NoDup (map f l) → x ∈ l → y ∈ l → f x = f y → x = y.
Proof.
  induction l as [|z l IH]; intros Hnd Hx Hy Hf; [by apply elem_of_nil in Hx|].
  simpl in Hnd. apply NoDup_cons in Hnd as [Hz Hnd].
  apply elem_of_cons in Hx as [->|Hx]; apply elem_of_cons in Hy as [->|Hy].
  - done.
  - exfalso. apply Hz. rewrite Hf. apply list_elem_of_fmap. by exists y.
  - exfalso. apply Hz. rewrite <- Hf. apply list_elem_of_fmap. by exists x.
  - by apply IH.
Qed.

(** the events of the stream *)
Lemma stream_jira_event esc ds d t i action :
  JiraEvent d t i action
  ∈ Stream.issue_events utc_offset esc ds ++ Stream.commit_events utc_offset esc ds →
  ∃ issue, issue ∈ issues ds ∧ id issue = i
    ∧ ((action = "create"%string)
       ∨ (action = "resolve"%string
          ∧ t = time_stamp (Stream.resolution_event utc_offset esc issue))).
Proof.
  intros [H|H]%elem_of_app.
  - unfold Stream.issue_events in H. apply list_elem_of_In, in_flat_map in H
      as (issue & Hin & He). apply list_elem_of_In in Hin. exists issue.
    destruct He as [He|[He|[]]]; injection He as <- <- <- <-.
    + split; [done|]. split; [done|]. by left.
    + split; [done|]. split; [done|]. by right.
  - unfold Stream.commit_events in H. by apply list_elem_of_fmap in H as (c & ? & _).
Qed.

Lemma stream_git_event esc ds d t h :
  GitEvent d t h
  ∈ Stream.issue_events utc_offset esc ds ++ Stream.commit_events utc_offset esc ds →
  ∃ c, c ∈ change_sets ds ∧ commit_hash c = h
       ∧ t = time_stamp (Stream.commit_event utc_offset esc c).
Proof.
  intros [H|H]%elem_of_app.
  - unfold Stream.issue_events in H. apply list_elem_of_In, in_flat_map in H
      as (issue & Hin & He). by destruct He as [He|[He|[]]].
  - unfold Stream.commit_events in H. apply list_elem_of_fmap in H as (c & He & Hc).
    injection He as -> -> ->. by exists c.
Qed.

(** one iteration changes the manager only *)
Lemma step_frame self out event self' out' :
  step utc_offset (self, out) event = Ok (self', out') →
  self' = with_manager (issue_manager self') self
  ∧ ∀ i, i ∈ resolved_issues (issue_manager self') →
         i ∈ resolved_issues (issue_manager self)
         ∨ ∃ d t, event = JiraEvent d t i "resolve".
Proof.
  unfold step. destruct (negb _).
  { intros [= <- <-]. split; [by destruct self|]. intros i Hi. by left. }
  destruct event as [d t j action|d t h].
  - destruct (String.eqb action "create").
    { intros [= <- <-]. split; [done|]. intros i. cbn. rewrite resolved_create.
      by left. }
    destruct (String.eqb_spec action "resolve") as [->|]; [|done].
    intros [= <- <-]. split; [done|]. intros i. cbn.
    intros [Hi| ->]%elem_of_resolved_resolve; [by left|right; by exists d, t].
  - intros H. apply bind_ok in H as (samples & _ & H).
    destruct (commit_hash_to_change_set self !! h); [|done].
    destruct (_is_marked_as_to_predict _); injection H as <- <-;
      (split; [by destruct self|intros i Hi; by left]).
Qed.

(** the resolved issues that the look-up knows have a resolution date when
    a commit event is processed *)
Lemma resolved_have_date self done rest d t h :
  in_progress utc_offset self done (GitEvent d t h :: rest) →
  ∀ i issue, i ∈ resolved_issues (issue_manager self) →
             issue_id_to_issue self !! i = Some issue →
             truthy (resolved_date (issue_of issue)) = true.
Proof.
  intros (Hcons & (Hdates & Hids & Hend) & Hall & Hres & Hev & Hasc) i issue Hi Hk.
  destruct (truthy (resolved_date (issue_of issue))) eqn:Ht; [done|]. exfalso.
  destruct (Hres i Hi) as (d' & t' & Hin).
  pose proof (ascending_app_le done rest _ _ Hasc Hin) as Hle. simpl in Hle.
  destruct (stream_jira_event (esc self) (data_source self) d' t' i "resolve")
    as (j & Hj & Hid & [Hc|[_ Ht']]); [apply Hev, elem_of_app; by left|done|].
  destruct (stream_git_event (esc self) (data_source self) d t h)
    as (c & Hc & _ & Htc).
  { apply Hev, elem_of_app. right. by left. }
  destruct Hcons as (_ & Hi2i & _).
  destruct (Hi2i i issue Hk) as (Hid' & Hin' & _).
  assert (j = issue_of issue) as ->.
  { apply (NoDup_map_inj id (issues (data_source self))); try done. congruence. }
  specialize (Hend c (issue_of issue) Hc Hin' Ht). lia.
Qed.

Lemma step_returns self out done event rest :
  in_progress utc_offset self done (event :: rest) →
  ∃ st', step utc_offset (self, out) event = Ok st'.
Proof.
  intros Hin. pose proof Hin as (Hcons & Hwd & Hall & Hres & Hev & Hasc).
  unfold step. destruct (negb _); [by eexists|].
  destruct event as [d t i action|d t h].
  - destruct (stream_jira_event (esc self) (data_source self) d t i action)
      as (j & _ & _ & [->|[-> _]]).
    { apply Hev, elem_of_app. right. by left. }
    + by eexists.
    + by eexists.
  - destruct (stream_git_event (esc self) (data_source self) d t h)
      as (c & Hc & Hh & _).
    { apply Hev, elem_of_app. right. by left. }
    destruct (Hall c Hc) as [commit Hcommit]. rewrite Hh in Hcommit.
    assert (Hs : ∃ samples,
               create_samples_for_change_set utc_offset self h = Ok samples).
    { unfold create_samples_for_change_set. rewrite Hcommit.
      destruct (unlinked_samples_ok utc_offset self h commit Hcons Hcommit)
        as (samples & Hsamples & _).
      { by apply (resolved_have_date self done rest d t h). }
      destruct (negb _); [|by exists samples].
      destruct (commit_hash_to_issue_ids self !! h) as [[|i ids]|];
        [by exists samples| |by exists samples].
      destruct (linked_samples_ok utc_offset self h commit (i :: ids) Hcons Hcommit)
        as (linked & Hlinked & _). by exists linked. }
    destruct Hs as [samples ->]. cbn. rewrite Hcommit.
    destruct (_is_marked_as_to_predict _); by eexists.
Qed.

Lemma step_in_progress self out done event rest self' out' :
  in_progress utc_offset self done (event :: rest) →
  step utc_offset (self, out) event = Ok (self', out') →
  in_progress utc_offset self' (done ++ [event]) rest.
Proof.
  intros (Hcons & Hwd & Hall & Hres & Hev & Hasc) Hstep.
  pose proof (step_consistent utc_offset self out event self' out' Hcons Hstep)
    as Hcons'.
  destruct (step_frame self out event self' out' Hstep) as [Hself Hresolved].
  rewrite Hself in *. cbn [with_manager esc data_source commit_hash_to_change_set
                           issue_manager].
  split; [done|]. split; [done|]. split; [done|]. split.
  - cbn in Hresolved. intros i Hi. destruct (Hresolved i Hi) as [Hold|(d & t & ->)].
    + destruct (Hres i Hold) as (d & t & Hin). exists d, t.
      apply elem_of_app. by left.
    + exists d, t. apply elem_of_app. right. by left.
  - rewrite <- app_assoc. by split.
Qed.

Lemma replay_returns rest : ∀ self out done,
  in_progress utc_offset self done rest →
  ∃ st', replay utc_offset (self, out) rest = Ok st'.
Proof.
  induction rest as [|event rest IH]; intros self out done Hin; cbn [replay].
  - by eexists.
  - destruct (step_returns self out done event rest Hin) as [[self' out'] Hstep].
    rewrite Hstep. cbn.
    apply (IH self' out' (done ++ [event])).
    by apply (step_in_progress self out done event rest self' out').
Qed.

Lemma run_returns_ready self :
  ready utc_offset self → ∃ out, run utc_offset self = Ok out.
Proof.
  intros (Hfresh & Hrange & Hwd). pose proof Hwd as (Hdates & Hids & Hend).
  destruct (build_lookups_spec self Hrange) as (mi & mc & Hmi & Hmc & Hi & Hc).
  unfold run.
  assert (Hprep : prepare_run utc_offset self
                  = Ok (with_lookups mi mc (build_change_set_issue_inverse_lookup self)
                          self,
                        stable_sort by_time_stamp
                          (Stream.issue_events utc_offset (esc self) (data_source self)
                           ++ Stream.commit_events utc_offset (esc self)
                                (data_source self)))).
  { unfold prepare_run. rewrite (generate_ok utc_offset _ _ Hdates). cbn.
    rewrite Hmi. cbn. by rewrite Hmc. }
  rewrite Hprep. cbn.
  destruct (replay_returns
              (stable_sort by_time_stamp
                 (Stream.issue_events utc_offset (esc self) (data_source self)
                  ++ Stream.commit_events utc_offset (esc self) (data_source self)))
              (with_lookups mi mc (build_change_set_issue_inverse_lookup self) self)
              no_samples []) as [[self' out] Hreplay].
  { split; [by apply (prepare_run_consistent utc_offset self _ _ Hfresh Hprep)|].
    split; [done|]. split; [|split; [|split]].
    - intros c Hc0. cbn. rewrite Hc. apply fmap_is_Some.
      apply (last_with_is_Some _ _ c Hc0). apply String.eqb_refl.
    - cbn. rewrite Hfresh. intros i Hi0. by apply elem_of_nil in Hi0.
    - cbn. intros e He. by rewrite stable_sort_perm in He.
    - cbn. apply (stable_sort_sorted time_stamp). }
  rewrite Hreplay. cbn. by eexists.
Qed.

End RunReturns.

Section PipelineReturns.
Import Profile Engine EventPkg Returns Filtering.
Variable utc_offset : Z → Z.

Lemma NoDup_map_filter {A B : Type} (f : A → B) (P : A → Prop)
  `{∀ x, Decision (P x)} (l : list A) :
  NoDup (map f l) → NoDup (map f (filter P l)).
Proof.
  induction l as [|x l IH]; [done|]. simpl. intros [Hx Hnd]%NoDup_cons.
  rewrite filter_cons. destruct (decide (P x)); [|by apply IH].
  simpl. apply NoDup_cons. split; [|by apply IH].
  intros Hin. apply Hx. apply list_elem_of_fmap in Hin as (y & Hy & Hin).
  apply list_elem_of_filter in Hin as [_ Hin]. apply list_elem_of_fmap. by exists y.
Qed.

(** the filtered data source keeps the dates and the issue ids *)
Lemma prepared_well_dated set_order ds new_change_sets ds' esc :
  _prepare_data_source set_order ds new_change_sets = Ok ds' →
  well_dated utc_offset esc (combined ds new_change_sets) →
  well_dated utc_offset esc ds'.
Proof.
  unfold _prepare_data_source. destruct (filter _ _); [|done]. intros [= <-].
  intros ((Hdi & Hdc) & Hids & Hend).
  assert (Hissues : ∀ i', i' ∈ issues (_filter_data_source set_order
                      {| issues := issues ds;
                         issue_to_change_set := issue_to_change_set ds;
                         change_sets := change_sets ds
                                        ++ map _mark_as_to_predict new_change_sets |}
                      default_filter) →
            ∃ i, i ∈ issues ds ∧ i' = add_mapped_type default_filter i).
  { intros i' Hi'. apply filter_data_source_issues in Hi' as (i & Hi & -> & _).
    by exists i. }
  assert (Hcommits : ∀ c', c' ∈ change_sets (_filter_data_source set_order
                      {| issues := issues ds;
                         issue_to_change_set := issue_to_change_set ds;
                         change_sets := change_sets ds
                                        ++ map _mark_as_to_predict new_change_sets |}
                      default_filter) →
            ∃ c, c ∈ change_sets ds ++ new_change_sets
                 ∧ committed_date c' = committed_date c).
  { cbn [change_sets _filter_data_source]. intros c'.
    rewrite filter_change_sets_map. intros (c0 & -> & Hc0)%list_elem_of_fmap.
    apply list_elem_of_In, filter_In in Hc0 as [Hc0 _]. apply list_elem_of_In in Hc0.
    apply elem_of_app in Hc0 as [Hc0|Hc0].
    - exists c0. split; [apply elem_of_app; by left|done].
    - apply list_elem_of_fmap in Hc0 as (c1 & -> & Hc1). exists c1.
      split; [apply elem_of_app; by right|done]. }
  split; [split|split].
  - intros i' Hi'. destruct (Hissues i' Hi') as (i & Hi & ->). exact (Hdi i Hi).
  - intros c' Hc'. destruct (Hcommits c' Hc') as (c & Hc & Heq).
    rewrite Heq. exact (Hdc c Hc).
  - cbn [issues _filter_data_source]. rewrite map_map.
    change (map (λ x, id (add_mapped_type default_filter x))) with (map id).
    by apply NoDup_map_filter.
  - intros c' i' Hc' Hi' Ht.
    destruct (Hissues i' Hi') as (i & Hi & ->).
    destruct (Hcommits c' Hc') as (c & Hc & Heq).
    specialize (Hend c i Hc Hi Ht).
    unfold Stream.commit_event, Stream.resolution_event, Stream.resolution_date in *.
    cbn in *. by rewrite Heq.
Qed.

Lemma build_project_users_total set_order ds :
  ∃ pu, IO.build_project_users set_order ds = Ok pu ∧ Identity.links_in_range pu.
Proof.
  unfold IO.build_project_users. cbv zeta.
  set (jira_users := stable_sort _ _). set (git_users := stable_sort _ _).
  destruct (roster_links_partition_facts jira_users git_users) as (pu & Hpu & _).
  exists pu. split; [done|]. by apply (run_links_in_range jira_users git_users).
Qed.

Lemma init_ready set_order ds new_change_sets text trace issue_types :
  (¬ ∃ h, h ∈ map commit_hash (change_sets ds)
          ∧ h ∈ map commit_hash new_change_sets) →
  well_dated utc_offset new_creator (combined ds new_change_sets) →
  ∃ self, init set_order ds new_change_sets text trace issue_types = Ok self
          ∧ ready utc_offset self.
Proof.
  intros Hno Hwd. unfold init.
  destruct (_prepare_data_source set_order ds new_change_sets) as [ds'|e] eqn:Hprep.
  - cbn [mbind result_bind].
    destruct (build_project_users_total set_order ds') as (pu & -> & Hrange).
    cbn [mbind result_bind]. eexists. split; [done|]. split; [done|]. split; [done|].
    cbn. by apply (prepared_well_dated set_order ds new_change_sets).
  - exfalso. apply Hno. unfold _prepare_data_source in Hprep.
    destruct (filter _ (map commit_hash new_change_sets)) as [|h l] eqn:E; [done|].
    exists h.
    assert (H : h ∈ filter (λ h, mem h (map commit_hash (change_sets ds)) = true)
                      (map commit_hash new_change_sets)) by (rewrite E; by left).
    apply list_elem_of_filter in H as [H1 H2]. by apply mem_true in H1.
Qed.

End PipelineReturns.

(** X20: [run] returns, with the two collectors, for every generator with
    a fresh life-time manager and link indices in range whose data source
    has dates that convert, unique issue ids and no commit as late as the
    far-future date that stands in for a missing resolution date. *)
Theorem run_returns (utc_offset : Z → Z) (self : Profile.ProfileGenerator) :
  Returns.ready utc_offset self → ∃ out, Profile.run utc_offset self = Ok out.
Proof. apply run_returns_ready. Qed.

(** X21: the whole pipeline, the constructor followed by [run], returns
    when no commit hash is both in the history and among the new commits,
    all dates of the issues, of the history and of the new commits convert,
    the issue ids are unique, and every commit is earlier than the
    far-future date. *)
Theorem pipeline_returns (utc_offset : Z → Z) (set_order : list string → list string)
  (ds : DataSource) (new_change_sets : list ChangeSet)
  (text : IO.TextSimilarityHandler) (trace : IO.TraceSimilarityHandler)
  (issue_types : list string) :
  (¬ ∃ h, h ∈ map commit_hash (change_sets ds)
          ∧ h ∈ map commit_hash new_change_sets) →
  Returns.well_dated utc_offset EventPkg.new_creator
    (Returns.combined ds new_change_sets) →
  ∃ out, Profile.pipeline utc_offset set_order ds new_change_sets text trace
           issue_types = Ok out.
Proof.
  intros Hno Hwd. unfold Profile.pipeline.
  destruct (init_ready utc_offset set_order ds new_change_sets text trace
              issue_types Hno Hwd) as (self & -> & Hready).
  cbn. by apply run_returns_ready.
Qed.

Lemma example_well_dated :
  Returns.well_dated tz_utc EventPkg.new_creator
    (Returns.combined Example.history Example.to_predict).
Proof.
  split; [split|split].
  - intros i Hi. cbn in Hi.
    repeat (apply elem_of_cons in Hi as [->|Hi]; [by vm_compute|]).
    by apply elem_of_nil in Hi.
  - intros c Hc. cbn in Hc.
    repeat (apply elem_of_cons in Hc as [->|Hc]; [by vm_compute|]).
    by apply elem_of_nil in Hc.
  - cbn. apply NoDup_cons. split; [by intros ?%list_elem_of_singleton|].
    apply NoDup_singleton.
  - intros c i Hc Hi. cbn in Hc, Hi.
    repeat (apply elem_of_cons in Hi as [->|Hi];
            [repeat (apply elem_of_cons in Hc as [->|Hc]; [by vm_compute|]);
             by apply elem_of_nil in Hc|]).
    by apply elem_of_nil in Hi.
Qed.

Lemma pipeline_returns_witness :
  ∃ out, Profile.pipeline tz_utc order_a Example.history Example.to_predict
           IO.no_text_similarity IO.no_trace_similarity ["bug"%string] = Ok out.
Proof.
  apply (pipeline_returns tz_utc order_a Example.history Example.to_predict
           IO.no_text_similarity IO.no_trace_similarity ["bug"%string]).
  - intros (h & H1 & H2). cbn in H1, H2.
    apply list_elem_of_singleton in H2 as ->.
    repeat (apply elem_of_cons in H1 as [H1|H1]; [discriminate H1|]).
    by apply elem_of_nil in H1.
  - exact example_well_dated.
Defined.

Lemma run_returns_witness :
  ∃ out,
    Profile.run tz_utc
      {| Profile.data_source := Returns.combined Example.history Example.to_predict;
         Profile.esc := EventPkg.new_creator;
         Profile.allowed_issue_types := ["bug"%string];
         Profile.text_similarity_handler := IO.no_text_similarity;
         Profile.trace_handler := IO.no_trace_similarity;
         Profile.issue_manager := Profile.new_manager;
         Profile.project_users := UserModel.empty;
         Profile.unknown_jira_user_id := 0;
         Profile.unknown_git_user_id := 1;
         Profile.issue_id_to_issue := ∅;
         Profile.commit_hash_to_change_set := ∅;
         Profile.commit_hash_to_issue_ids := ∅;
         Profile.linked_change_sets_unconstrained := ∅ |} = Ok out.
Proof.
  apply run_returns. split; [done|]. split.
  - intros ld Hld. by apply elem_of_nil in Hld.
  - exact example_well_dated.
Defined.

Section OnlyValueError.
Import Profile Engine EventPkg Errors.
Variable utc_offset : Z → Z.

Lemma raises_only_ok {A : Type} e0 (a : A) : raises_only e0 (Ok a).
Proof. by intros e. Qed.

Lemma raises_only_bind {A B : Type} e0 (r : result A) (k : A → result B) :
  raises_only e0 r → (∀ a, r = Ok a → raises_only e0 (k a)) →
  raises_only e0 (r ≫= k).
Proof.
  intros Hr Hk e. destruct r as [a|e']; cbn.
  - by apply Hk.
  - intros [= <-]. by apply Hr.
Qed.

Lemma timestamp_raises_only arg :
  raises_only ValueError (Util.date_time_to_timestamp utc_offset arg).
Proof. intros e. apply date_time_to_timestamp_raises. Qed.

Lemma timestamp_opt_raises_only arg :
  raises_only ValueError (Util.date_time_to_timestamp_opt utc_offset arg).
Proof.
  destruct arg as [s|]; simpl; [apply timestamp_raises_only|]. by intros e [= <-].
Qed.

Lemma neighbour_raises_only sign commit other :
  raises_only ValueError (neighbour utc_offset sign commit other).
Proof.
  unfold neighbour. apply raises_only_bind; [apply timestamp_raises_only|intros t1 _].
  apply raises_only_bind; [apply timestamp_raises_only|intros t2 _].
  apply raises_only_ok.
Qed.

Lemma check_previous_and_next_commits_raises_only self commit issue :
  raises_only ValueError
    (check_previous_and_next_commits utc_offset self commit issue).
Proof.
  unfold check_previous_and_next_commits.
  destruct (omap _ _) as [|e0 es]; [apply raises_only_ok|].
  apply raises_only_bind.
  { destruct (last _); [apply neighbour_raises_only|apply raises_only_ok]. }
  intros prev _. apply raises_only_bind.
  { destruct (head _); [apply neighbour_raises_only|apply raises_only_ok]. }
  intros next _. apply raises_only_ok.
Qed.

Lemma create_training_sample_raises_only self commit issue :
  raises_only ValueError (create_training_sample utc_offset self commit issue).
Proof.
  unfold create_training_sample.
  pose proof (open_issues_of_user_le self (change_set_user_id commit)) as Hle.
  apply Nat.leb_le in Hle. rewrite Hle. cbn [negb].
  apply raises_only_bind; [apply timestamp_raises_only|intros t1 _].
  apply raises_only_bind; [apply timestamp_raises_only|intros t2 _].
  apply raises_only_bind.
  { destruct (truthy _); [|apply raises_only_ok].
    apply raises_only_bind; [apply timestamp_raises_only|intros t3 _].
    apply raises_only_ok. }
  intros f15 _. apply raises_only_bind;
    [apply check_previous_and_next_commits_raises_only|].
  intros [prev next] _. apply raises_only_ok.
Qed.

Lemma linked_samples_raises_only self commit ids :
  raises_only ValueError (linked_samples utc_offset self commit ids).
Proof.
  induction ids as [|i ids IH]; simpl; [apply raises_only_ok|].
  destruct (issue_id_to_issue self !! i) as [issue|]; [|apply IH].
  destruct (allowed self _); [|apply IH].
  apply raises_only_bind; [apply create_training_sample_raises_only|intros s _].
  apply raises_only_bind; [apply IH|intros rest _]. apply raises_only_ok.
Qed.

Lemma open_samples_raises_only self commit ids :
  raises_only ValueError (open_samples utc_offset self commit ids).
Proof.
  induction ids as [|i ids IH]; simpl; [apply raises_only_ok|].
  destruct (issue_id_to_issue self !! i) as [issue|]; [|apply IH].
  apply raises_only_bind; [apply create_training_sample_raises_only|intros s _].
  apply raises_only_bind; [apply IH|intros rest _]. apply raises_only_ok.
Qed.

Lemma resolved_samples_raises_only self commit t ids :
  raises_only ValueError (resolved_samples utc_offset self commit t ids).
Proof.
  induction ids as [|i ids IH]; simpl; [apply raises_only_ok|].
  destruct (issue_id_to_issue self !! i) as [issue|]; [|apply IH].
  apply raises_only_bind; [apply timestamp_opt_raises_only|intros rt _].
  destruct (Qltb _ _); [|apply IH].
  apply raises_only_bind; [apply create_training_sample_raises_only|intros s _].
  apply raises_only_bind; [apply IH|intros rest _]. apply raises_only_ok.
Qed.

Lemma unlinked_samples_raises_only self commit :
  raises_only ValueError (unlinked_samples utc_offset self commit).
Proof.
  unfold unlinked_samples.
  apply raises_only_bind; [apply open_samples_raises_only|intros active _].
  apply raises_only_bind; [apply timestamp_raises_only|intros t _].
  apply raises_only_bind; [apply resolved_samples_raises_only|intros previous _].
  apply raises_only_ok.
Qed.

Lemma create_samples_raises_only self h :
  raises_only ValueError (create_samples_for_change_set utc_offset self h).
Proof.
  unfold create_samples_for_change_set.
  destruct (commit_hash_to_change_set self !! h) as [commit|]; [|by intros e [= <-]].
  destruct (negb _); [|apply unlinked_samples_raises_only].
  destruct (commit_hash_to_issue_ids self !! h) as [[|i ids]|];
    [apply unlinked_samples_raises_only| |apply unlinked_samples_raises_only].
  apply linked_samples_raises_only.
Qed.

Lemma step_raises_only st event :
  known_action event → raises_only ValueError (step utc_offset st event).
Proof.
  intros Hk. destruct st as [self out]. unfold step.
  destruct (negb _); [apply raises_only_ok|].
  destruct event as [d t i action|d t h].
  - destruct Hk as [-> | ->]; apply raises_only_ok.
  - apply raises_only_bind; [apply create_samples_raises_only|].
    intros samples Hs. apply create_samples_made_for in Hs as (commit & -> & _).
    destruct (_is_marked_as_to_predict _); apply raises_only_ok.
Qed.

Lemma replay_raises_only events : ∀ st,
  Forall known_action events →
  raises_only ValueError (replay utc_offset st events).
Proof.
  induction events as [|event events IH]; intros st Hk; cbn [replay].
  - apply raises_only_ok.
  - apply Forall_cons in Hk as [Hk Hks].
    apply raises_only_bind; [by apply step_raises_only|].
    intros st' _. by apply IH.
Qed.

Lemma generate_known_actions esc ds stream :
  generate utc_offset esc ds = Ok stream → Forall known_action stream.
Proof.
  intros H. pose proof (generate_dates_parse utc_offset esc ds stream H) as Hd.
  rewrite (generate_ok utc_offset esc ds Hd) in H. injection H as <-.
  apply Forall_forall. intros e He. rewrite stable_sort_perm in He.
  destruct e as [d t i action|d t h]; [|done].
  destruct (stream_jira_event utc_offset esc ds d t i action He)
    as (j & _ & _ & [->|[-> _]]); [by left|by right].
Qed.

Lemma run_raises_only self :
  Identity.links_in_range (project_users self) →
  raises_only ValueError (run utc_offset self).
Proof.
  intros Hrange. unfold run. apply raises_only_bind.
  - unfold prepare_run. apply raises_only_bind.
    { intros e. apply generate_raises. }
    intros stream _.
    destruct (build_lookups_spec self Hrange) as (mi & mc & -> & -> & _).
    cbn. apply raises_only_ok.
  - intros [self1 stream] Hprep. apply raises_only_bind.
    + apply replay_raises_only. unfold prepare_run in Hprep.
      apply bind_ok in Hprep as (stream0 & Hgen & Hprep).
      apply bind_ok in Hprep as (mi & _ & Hprep).
      apply bind_ok in Hprep as (mc & _ & Hprep). injection Hprep as _ <-.
      by apply (generate_known_actions (esc self) (data_source self)).
    + intros [self2 out] _. apply raises_only_ok.
Qed.

Lemma pipeline_raises_only set_order ds new_change_sets text trace issue_types :
  raises_only ValueError
    (pipeline utc_offset set_order ds new_change_sets text trace issue_types).
Proof.
  unfold pipeline. apply raises_only_bind.
  - unfold init. apply raises_only_bind.
    { unfold _prepare_data_source. destruct (filter _ _); [apply raises_only_ok|].
      by intros e [= <-]. }
    intros ds' _.
    destruct (build_project_users_total set_order ds') as (pu & -> & _).
    cbn [mbind result_bind]. apply raises_only_ok.
  - intros self Hinit. apply run_raises_only.
    unfold init in Hinit. apply bind_ok in Hinit as (ds' & _ & Hinit).
    destruct (build_project_users_total set_order ds') as (pu & Hpu & Hrange).
    rewrite Hpu in Hinit. cbn [mbind result_bind] in Hinit. by injection Hinit as <-.
Qed.

End OnlyValueError.

(** X22: the pipeline raises no error other than [ValueError]: not the
    [RuntimeError] for an unknown event action, not a [KeyError] or an
    [IndexError] of a look-up, and not the assertion error of the sanity
    check; the same holds for [run] on a roster whose link indices are in
    range. *)
Theorem pipeline_raises_only_value_error (utc_offset : Z → Z) :
  (∀ set_order ds new_change_sets text trace issue_types,
     Errors.raises_only ValueError
       (Profile.pipeline utc_offset set_order ds new_change_sets text trace
          issue_types))
  ∧ (∀ self, Identity.links_in_range (Profile.project_users self) →
             Errors.raises_only ValueError (Profile.run utc_offset self)).
Proof. split; [apply pipeline_raises_only|apply run_raises_only]. Qed.

Lemma pipeline_raises_only_value_error_witness :
  ∃ e, Profile.pipeline tz_utc order_a Example.history (change_sets Example.history)
         IO.no_text_similarity IO.no_trace_similarity ["bug"%string] = Raise e
       ∧ e = ValueError.
Proof.
  destruct (Profile.pipeline tz_utc order_a Example.history
              (change_sets Example.history) IO.no_text_similarity
              IO.no_trace_similarity ["bug"%string]) as [out|e] eqn:E.
  - vm_compute in E. discriminate E.
  - exists e. split; [done|].
    exact (proj1 (pipeline_raises_only_value_error tz_utc) order_a Example.history
             (change_sets Example.history) IO.no_text_similarity
             IO.no_trace_similarity ["bug"%string] e E).
Defined.

Section StringOrder.

Lemma string_compare_lt_trans (a b c : string) :
  String.compare a b = Lt → String.compare b c = Lt → String.compare a c = Lt.
Proof.
  revert b c. induction a as [|x a IH]; intros [|y b] [|z c]; simpl; try done.
  unfold Ascii.compare.
  destruct (N.compare_spec (N_of_ascii x) (N_of_ascii y)) as [Hxy|Hxy|Hxy];
    destruct (N.compare_spec (N_of_ascii y) (N_of_ascii z)) as [Hyz|Hyz|Hyz];
    try done; intros H1 H2.
  - rewrite Hxy, Hyz, N.compare_refl. by apply (IH b c).
  - rewrite Hxy. by apply N.compare_lt_iff in Hyz as ->.
  - rewrite <- Hyz. by apply N.compare_lt_iff in Hxy as ->.
  - assert (Hxz : (N_of_ascii x < N_of_ascii z)%N) by lia.
    by apply N.compare_lt_iff in Hxz as ->.
Qed.

Lemma string_leb_iff a b : String.leb a b = true ↔ String.compare a b ≠ Gt.
Proof. unfold String.leb. by destruct (String.compare a b). Qed.

Lemma string_ltb_iff a b : String.ltb a b = true ↔ String.compare a b = Lt.
Proof. unfold String.ltb. by destruct (String.compare a b). Qed.

Lemma string_leb_refl a : String.leb a a = true.
Proof. by destruct (String.leb_total a a). Qed.

Lemma string_leb_ltb_trans a b c :
  String.leb a b = true → String.ltb b c = true → String.ltb a c = true.
Proof.
  rewrite string_leb_iff, !string_ltb_iff. intros Hab Hbc.
  destruct (String.compare a b) eqn:E; [|by apply (string_compare_lt_trans a b c)|done].
  by apply String.compare_eq_iff in E as ->.
Qed.

Lemma string_leb_trans a b c :
  String.leb a b = true → String.leb b c = true → String.leb a c = true.
Proof.
  rewrite !string_leb_iff. intros Hab Hbc.
  destruct (String.compare a b) eqn:E1; [| |done].
  - by apply String.compare_eq_iff in E1 as ->.
  - destruct (String.compare b c) eqn:E2; [| |done].
    + apply String.compare_eq_iff in E2 as <-. by rewrite E1.
    + by rewrite (string_compare_lt_trans a b c E1 E2).
Qed.

Lemma string_ltb_leb a b : String.ltb a b = true → String.leb a b = true.
Proof. rewrite string_ltb_iff, string_leb_iff. by intros ->. Qed.

End StringOrder.

Section SortByText.
Context {A : Type} (key : A → string).

#[local] Abbreviation leb_key := (λ a b : A, String.leb (key a) (key b)).
#[local] Abbreviation le_key := (λ a b : A, String.leb (key a) (key b) = true).

Lemma insert_sorted_text x l :
  StronglySorted le_key l → StronglySorted le_key (insert_sorted leb_key x l).
Proof.
  induction 1 as [|y l Hs IH Hy]; simpl.
  - repeat constructor.
  - destruct (String.leb (key x) (key y)) eqn:E.
    + constructor; [by constructor|]. constructor; [done|].
      eapply Forall_impl; [exact Hy|]. intros z Hz. simpl in *.
      by apply (string_leb_trans _ (key y)).
    + constructor; [done|]. rewrite insert_sorted_perm.
      constructor; [|done]. by destruct (String.leb_total (key x) (key y)); [congruence|].
Qed.

Lemma stable_sort_text l : StronglySorted le_key (stable_sort leb_key l).
Proof.
  induction l as [|x l IH]; simpl; [constructor|]. by apply insert_sorted_text.
Qed.

Lemma takewhile_dropwhile (p : A → bool) l :
  Profile.takewhile p l ++ Profile.dropwhile p l = l.
Proof. induction l as [|x l IH]; simpl; [done|]. destruct (p x); simpl; by rewrite ?IH. Qed.

Lemma takewhile_Forall (p : A → bool) l :
  Forall (λ x, p x = true) (Profile.takewhile p l).
Proof.
  induction l as [|x l IH]; simpl; [done|]. destruct (p x) eqn:E; by constructor.
Qed.

Lemma dropwhile_head (p : A → bool) l x :
  head (Profile.dropwhile p l) = Some x → p x = false.
Proof.
  induction l as [|y l IH]; simpl; [done|]. destruct (p y) eqn:E; [done|].
  by intros [= <-].
Qed.

Lemma sorted_app_le l1 l2 x y :
  StronglySorted le_key (l1 ++ l2) → x ∈ l1 → y ∈ l2 → le_key x y.
Proof.
  induction l1 as [|z l1 IH]; intros Hs Hx Hy; [by apply elem_of_nil in Hx|].
  simpl in Hs. apply StronglySorted_inv in Hs as [Hs Hz].
  apply elem_of_cons in Hx as [->|Hx]; [|by apply IH].
  rewrite Forall_forall in Hz. apply Hz. apply elem_of_app. by right.
Qed.

Lemma sorted_app_r l1 l2 :
  StronglySorted le_key (l1 ++ l2) → StronglySorted le_key l2.
Proof.
  induction l1 as [|z l1 IH]; [done|]. simpl.
  intros [Hs _]%StronglySorted_inv. by apply IH.
Qed.

(** the last element of the sorted list that is earlier than [d] *)
Lemma last_before_spec (d : string) l p :
  StronglySorted le_key l →
  last (Profile.takewhile (λ c, String.ltb (key c) d) l) = Some p →
  p ∈ l ∧ String.ltb (key p) d = true
  ∧ ∀ q, q ∈ l → String.ltb (key q) d = true → le_key q p.
Proof.
  intros Hs Hlast. set (lt_d := λ c, String.ltb (key c) d) in *.
  pose proof (takewhile_dropwhile lt_d l) as Hsplit.
  pose proof (takewhile_Forall lt_d l) as Hall. rewrite Forall_forall in Hall.
  apply last_Some in Hlast as (pre & Hpre).
  assert (Hp : p ∈ Profile.takewhile lt_d l) by (rewrite Hpre; set_solver).
  split; [rewrite <- Hsplit; apply elem_of_app; by left|].
  split; [by apply Hall|].
  intros q Hq Hqd. rewrite <- Hsplit in Hq, Hs.
  apply elem_of_app in Hq as [Hq|Hq].
  - rewrite Hpre in Hq, Hs. apply elem_of_app in Hq as [Hq|Hq].
    + rewrite <- app_assoc in Hs. apply (sorted_app_le pre ([p] ++ Profile.dropwhile lt_d l));
        [done|done|]. by left.
    + apply list_elem_of_singleton in Hq as ->. apply string_leb_refl.
  - exfalso. destruct (Profile.dropwhile lt_d l) as [|r rest] eqn:Hd;
      [by apply elem_of_nil in Hq|].
    assert (Hr : lt_d r = false) by (apply (dropwhile_head lt_d l); by rewrite Hd).
    apply elem_of_cons in Hq as [->|Hq]; [unfold lt_d in Hr; congruence|].
    apply sorted_app_r in Hs. apply StronglySorted_inv in Hs as [_ Hle].
    rewrite Forall_forall in Hle. specialize (Hle q Hq). simpl in Hle.
    unfold lt_d in Hr. by rewrite (string_leb_ltb_trans _ _ _ Hle Hqd) in Hr.
Qed.

Lemma none_before_spec (d : string) l :
  StronglySorted le_key l →
  last (Profile.takewhile (λ c, String.ltb (key c) d) l) = None →
  ∀ q, q ∈ l → String.ltb (key q) d = false.
Proof.
  intros Hs Hlast q Hq. apply last_None in Hlast.
  destruct l as [|r rest]; [by apply elem_of_nil in Hq|]. simpl in Hlast.
  destruct (String.ltb (key r) d) eqn:Hr; [done|].
  apply elem_of_cons in Hq as [->|Hq]; [done|].
  apply StronglySorted_inv in Hs as [_ Hle].
  rewrite Forall_forall in Hle. specialize (Hle q Hq). simpl in Hle.
  destruct (String.ltb (key q) d) eqn:Hqd; [|done].
  by rewrite (string_leb_ltb_trans _ _ _ Hle Hqd) in Hr.
Qed.

(** the first element of the sorted list that is later than [d] *)
Lemma first_after_spec (d : string) l n :
  StronglySorted le_key l →
  head (Profile.dropwhile (λ c, String.leb (key c) d) l) = Some n →
  n ∈ l ∧ String.leb (key n) d = false
  ∧ ∀ q, q ∈ l → String.leb (key q) d = false → le_key n q.
Proof.
  intros Hs Hhead. set (le_d := λ c, String.leb (key c) d) in *.
  pose proof (takewhile_dropwhile le_d l) as Hsplit.
  pose proof (takewhile_Forall le_d l) as Hall. rewrite Forall_forall in Hall.
  pose proof (dropwhile_head le_d l n Hhead) as Hn.
  destruct (Profile.dropwhile le_d l) as [|n' rest] eqn:Hd; [done|].
  injection Hhead as ->.
  split; [rewrite <- Hsplit; apply elem_of_app; right; by left|].
  split; [done|].
  intros q Hq Hqd. rewrite <- Hsplit in Hq, Hs.
  apply elem_of_app in Hq as [Hq|Hq].
  - apply Hall in Hq. unfold le_d in Hq. congruence.
  - apply elem_of_cons in Hq as [->|Hq]; [apply string_leb_refl|].
    apply sorted_app_r in Hs. apply StronglySorted_inv in Hs as [_ Hle].
    rewrite Forall_forall in Hle. by apply Hle.
Qed.

Lemma none_after_spec (d : string) l :
  head (Profile.dropwhile (λ c, String.leb (key c) d) l) = None →
  ∀ q, q ∈ l → String.leb (key q) d = true.
Proof.
  intros Hhead q Hq. set (le_d := λ c, String.leb (key c) d) in *.
  pose proof (takewhile_dropwhile le_d l) as Hsplit.
  pose proof (takewhile_Forall le_d l) as Hall. rewrite Forall_forall in Hall.
  destruct (Profile.dropwhile le_d l) as [|n rest]; [|done].
  rewrite app_nil_r in Hsplit. rewrite <- Hsplit in Hq. by apply Hall.
Qed.

End SortByText.

Section NearestNeighbours.
Import Profile Neighbours.
Variable utc_offset : Z → Z.

Lemma neighbour_descriptor sign commit other d :
  neighbour utc_offset sign commit other = Ok d →
  ∃ tc to,
    Util.date_time_to_timestamp utc_offset (date commit) = Ok tc
    ∧ Util.date_time_to_timestamp utc_offset (date other) = Ok to
    ∧ d = descriptor (sign * (tc - to)) commit other.
Proof.
  unfold neighbour. intros H. apply bind_ok in H as (t1 & H1 & H).
  apply bind_ok in H as (t2 & H2 & H). injection H as <-. by exists t1, t2.
Qed.

Lemma check_previous_and_next_commits_nearest self commit issue prev next :
  check_previous_and_next_commits utc_offset self commit issue = Ok (prev, next) →
  ((prev = no_linked_commit
    ∧ ∀ q, q ∈ linked_commits self issue →
           String.ltb (date q) (date commit) = false)
   ∨ ∃ p tc tp,
       latest_before self commit issue p
       ∧ Util.date_time_to_timestamp utc_offset (date commit) = Ok tc
       ∧ Util.date_time_to_timestamp utc_offset (date p) = Ok tp
       ∧ prev = descriptor (tc - tp) commit p)
  ∧ ((next = no_linked_commit
      ∧ ∀ q, q ∈ linked_commits self issue →
             String.leb (date q) (date commit) = true)
     ∨ ∃ n tc tn,
         earliest_after self commit issue n
         ∧ Util.date_time_to_timestamp utc_offset (date commit) = Ok tc
         ∧ Util.date_time_to_timestamp utc_offset (date n) = Ok tn
         ∧ next = descriptor (tn - tc) commit n).
Proof.
  unfold check_previous_and_next_commits, latest_before, earliest_after.
  fold (linked_commits self issue).
  destruct (linked_commits self issue) as [|e0 es] eqn:Hlinked.
  { intros [= <- <-]. split; left; (split; [done|]); intros q Hq;
      by apply elem_of_nil in Hq. }
  rewrite <- Hlinked. clear e0 es Hlinked.
  set (linked := linked_commits self issue).
  set (sorted := stable_sort by_committed_date linked).
  assert (Hs : StronglySorted (λ a b, String.leb (date a) (date b) = true) sorted).
  { apply (stable_sort_text date). }
  assert (Hperm : ∀ q, q ∈ sorted ↔ q ∈ linked).
  { intros q. unfold sorted. by rewrite stable_sort_perm. }
  intros H. apply bind_ok in H as (prev' & Hprev & H).
  apply bind_ok in H as (next' & Hnext & H). injection H as -> ->. split.
  - destruct (last _) as [p|] eqn:Hlast.
    + right. apply neighbour_descriptor in Hprev as (tc & tp & Htc & Htp & ->).
      destruct (last_before_spec date (date commit) sorted p Hs Hlast)
        as (Hp & Hlt & Hmax).
      exists p, tc, tp. split; [|split; [done|split; [done|]]].
      * split; [by apply Hperm|]. split; [done|].
        intros q Hq. apply Hmax. by apply Hperm.
      * f_equal. lia.
    + left. injection Hprev as <-. split; [done|]. intros q Hq.
      apply (none_before_spec date (date commit) sorted Hs Hlast). by apply Hperm.
  - destruct (head _) as [n|] eqn:Hhead.
    + right. apply neighbour_descriptor in Hnext as (tc & tn & Htc & Htn & ->).
      destruct (first_after_spec date (date commit) sorted n Hs Hhead)
        as (Hn & Hgt & Hmin).
      exists n, tc, tn. split; [|split; [done|split; [done|]]].
      * split; [by apply Hperm|]. split; [done|].
        intros q Hq. apply Hmin. by apply Hperm.
      * f_equal. lia.
    + left. injection Hnext as <-. split; [done|]. intros q Hq.
      apply (none_after_spec date (date commit) sorted Hhead). by apply Hperm.
Qed.

End NearestNeighbours.

Section SampleNeighbours.
Import Profile Neighbours.
Variable utc_offset : Z → Z.

Lemma links_before_zero self issue_id d :
  get_number_of_links_to_issue_before self issue_id d = 0%nat
  ↔ ∀ q, q ∈ omap (λ h, commit_hash_to_change_set self !! h)
               (default [] (dict_get issue_id (issue_to_change_set (data_source self))))
         → String.ltb (date q) d = false.
Proof.
  unfold get_number_of_links_to_issue_before.
  induction (default [] _) as [|h hashes IH]; simpl.
  - split; [intros _ q Hq; by apply elem_of_nil in Hq|done].
  - destruct (commit_hash_to_change_set self !! h) as [c|] eqn:Hc; simpl; [|exact IH].
    fold (date c). destruct (String.ltb (date c) d) eqn:E; simpl.
    + split; [done|]. intros H. specialize (H c). rewrite E in H.
      by discriminate H; left.
    + rewrite IH. split.
      * intros H q [->|Hq]%elem_of_cons; [done|by apply H].
      * intros H q Hq. apply H. by right.
Qed.

Lemma create_training_sample_neighbours self commit issue s :
  create_training_sample utc_offset self commit issue = Ok s →
  check_previous_and_next_commits utc_offset self commit issue
  = Ok (f07_09_previous_linked_commit s, f17_19_next_linked_commit s)
  ∧ f11_num_commits_to_this_issues s
    = get_number_of_links_to_issue_before self (id (issue_of issue)) (date commit).
Proof.
  unfold create_training_sample. destruct (negb _); [done|].
  intros H. apply bind_ok in H as (t1 & _ & H). apply bind_ok in H as (t2 & _ & H).
  apply bind_ok in H as (f15 & _ & H). apply bind_ok in H as ([prev next] & Hpn & H).
  by injection H as <-.
Qed.

End SampleNeighbours.

(** X23: the two neighbour descriptors that [check_previous_and_next_commits]
    fills describe the nearest linked commits of the issue: the previous one
    is a latest linked commit dated before the commit, the next one an
    earliest linked commit dated after it (dates compared as texts), each
    with its distance in time, its resource overlap and its author; a
    descriptor stays empty exactly when there is no such linked commit. *)
Theorem neighbours_are_nearest (utc_offset : Z → Z)
  (self : Profile.ProfileGenerator) (commit : Profile.ChangeSetEntry)
  (issue : Profile.IssueEntry) (prev next : LinkedCommit) :
  Profile.check_previous_and_next_commits utc_offset self commit issue
  = Ok (prev, next) →
  ((prev = no_linked_commit
    ∧ ∀ q, q ∈ Neighbours.linked_commits self issue →
           String.ltb (Neighbours.date q) (Neighbours.date commit) = false)
   ∨ ∃ p tc tp,
       Neighbours.latest_before self commit issue p
       ∧ Util.date_time_to_timestamp utc_offset (Neighbours.date commit) = Ok tc
       ∧ Util.date_time_to_timestamp utc_offset (Neighbours.date p) = Ok tp
       ∧ prev = Neighbours.descriptor (tc - tp) commit p)
  ∧ ((next = no_linked_commit
      ∧ ∀ q, q ∈ Neighbours.linked_commits self issue →
             String.leb (Neighbours.date q) (Neighbours.date commit) = true)
     ∨ ∃ n tc tn,
         Neighbours.earliest_after self commit issue n
         ∧ Util.date_time_to_timestamp utc_offset (Neighbours.date commit) = Ok tc
         ∧ Util.date_time_to_timestamp utc_offset (Neighbours.date n) = Ok tn
         ∧ next = Neighbours.descriptor (tn - tc) commit n).
Proof. apply check_previous_and_next_commits_nearest. Qed.

(** X24: in every record that [create_training_sample] returns, the
    features 07 to 09 and 11 agree: the descriptor of the previous linked
    commit is empty exactly when the number of commits linked to the issue
    before the commit is zero. *)
Theorem previous_commit_iff_links_before (utc_offset : Z → Z)
  (self : Profile.ProfileGenerator) (commit : Profile.ChangeSetEntry)
  (issue : Profile.IssueEntry) (s : TrainingSample) :
  Profile.create_training_sample utc_offset self commit issue = Ok s →
  (f07_09_previous_linked_commit s = no_linked_commit
   ↔ f11_num_commits_to_this_issues s = 0%nat)
  ∧ (time_difference (f07_09_previous_linked_commit s) = None
     ↔ f11_num_commits_to_this_issues s = 0%nat).
Proof.
  intros H. apply create_training_sample_neighbours in H as [Hpn ->].
  apply check_previous_and_next_commits_nearest in Hpn as [Hprev _].
  rewrite links_before_zero. fold (Neighbours.linked_commits self issue).
  destruct Hprev as [[-> Hnone]|(p & tc & tp & (Hp & Hlt & _) & _ & _ & ->)].
  - by split.
  - split; (split; [done|]); intros H; specialize (H p Hp); congruence.
Qed.

Lemma neighbour_example_facts :
  is_ok (Profile.check_previous_and_next_commits tz_utc NeighbourExample.generator
           NeighbourExample.c NeighbourExample.issue) = true
  ∧ is_ok (Profile.create_training_sample tz_utc NeighbourExample.generator
             NeighbourExample.c NeighbourExample.issue) = true.
Proof. by vm_compute. Qed.

Lemma neighbours_are_nearest_witness :
  match Profile.check_previous_and_next_commits tz_utc NeighbourExample.generator
          NeighbourExample.c NeighbourExample.issue with
  | Ok (prev, next) =>
      (∃ p tc tp,
         Neighbours.latest_before NeighbourExample.generator NeighbourExample.c
           NeighbourExample.issue p
         ∧ Util.date_time_to_timestamp tz_utc (Neighbours.date NeighbourExample.c)
           = Ok tc
         ∧ Util.date_time_to_timestamp tz_utc (Neighbours.date p) = Ok tp
         ∧ prev = Neighbours.descriptor (tc - tp) NeighbourExample.c p)
      ∧ time_difference next ≠ None
  | Raise _ => False
  end.
Proof.
  pose proof (proj1 neighbour_example_facts) as Hok.
  destruct (Profile.check_previous_and_next_commits tz_utc
              NeighbourExample.generator NeighbourExample.c NeighbourExample.issue)
    as [[prev next]|] eqn:E; [|done].
  destruct (neighbours_are_nearest tz_utc NeighbourExample.generator
              NeighbourExample.c NeighbourExample.issue prev next E)
    as [Hprev Hnext].
  split.
  - destruct Hprev as [[_ Hnone]|Hp]; [|done]. exfalso.
    specialize (Hnone NeighbourExample.a). 
    assert (Ha : NeighbourExample.a
                 ∈ Neighbours.linked_commits NeighbourExample.generator
                     NeighbourExample.issue).
    { vm_compute. right. by left. }
    specialize (Hnone Ha). by vm_compute in Hnone.
  - destruct Hnext as [[_ Hnone]|(n & tc & tn & _ & _ & _ & ->)]; [|done]. exfalso.
    assert (Hb : NeighbourExample.b
                 ∈ Neighbours.linked_commits NeighbourExample.generator
                     NeighbourExample.issue).
    { vm_compute. by left. }
    specialize (Hnone NeighbourExample.b Hb). by vm_compute in Hnone.
Defined.

Lemma previous_commit_iff_links_before_witness :
  match Profile.create_training_sample tz_utc NeighbourExample.generator
          NeighbourExample.c NeighbourExample.issue with
  | Ok s =>
      (f07_09_previous_linked_commit s = no_linked_commit
       ↔ f11_num_commits_to_this_issues s = 0%nat)
      ∧ (time_difference (f07_09_previous_linked_commit s) = None
         ↔ f11_num_commits_to_this_issues s = 0%nat)
  | Raise _ => False
  end.
Proof.
  pose proof (proj2 neighbour_example_facts) as Hok.
  destruct (Profile.create_training_sample tz_utc NeighbourExample.generator
              NeighbourExample.c NeighbourExample.issue) as [s|] eqn:E; [|done].
  by apply (previous_commit_iff_links_before tz_utc NeighbourExample.generator
              NeighbourExample.c NeighbourExample.issue).
Defined.

Section ExportFacts.
Import Weka Sample Schema.

Lemma nominal_bool_conforms name desc (b : option bool) :
  conforms (_weka_att_nom name NOMINAL_TRUE_FALSE_VALUES desc) (_to_nominal_bool b).
Proof.
  unfold conforms. simpl. destruct b as [[|]|]; [right|right|by left].
  - exists "t"%string. split; [done|]. by left.
  - exists "f"%string. split; [done|]. right. by left.
Qed.

Lemma num_conforms name desc q : conforms (_weka_att_num name desc) (VNum q).
Proof. right. by exists q. Qed.

Lemma num_or_none_conforms {A : Type} name desc (f : A → Q) (o : option A) :
  conforms (_weka_att_num name desc) (num_or_none (λ a, VNum (f a)) o).
Proof. destruct o as [a|]; [right; by eexists|by left]. Qed.

Lemma time_difference_conforms n1 d1 n2 d2 closeness d :
  Forall2 conforms
    [_weka_att_num n1 d1; _weka_att_nom n2 NOMINAL_TRUE_FALSE_VALUES d2]
    (time_difference_values closeness d).
Proof.
  unfold time_difference_values. destruct (time_difference d) as [t|].
  - constructor; [apply num_conforms|]. constructor; [|constructor].
    apply nominal_bool_conforms.
  - constructor; [by left|]. constructor; [by left|constructor].
Qed.

Lemma time_difference_length closeness d :
  length (time_difference_values closeness d) = 2%nat.
Proof. unfold time_difference_values. by destruct (time_difference d). Qed.

Lemma sample_to_weka_instance_spec sample :
  ∃ rest,
    sample_to_weka_instance sample = Ok (num_of_Z 0 :: rest)
    ∧ Forall2 conforms SPOJIT_ATTRIBUTES (num_of_Z 0 :: rest)
    ∧ last rest
      = Some (VStr (if f99_is_linked sample then "linked" else "non_linked")).
Proof.
  unfold sample_to_weka_instance.
  pose proof (time_difference_conforms "previous_commit_time_difference"
    "07: time difference in seconds to a previous commit
    that was linked to the same issue [seconds]" "previous_commit_is_close"
    "08: Was the previous to the same issue 'close'"
    CLOSENESS_PREVIOUS_LINKED_COMMIT_SEC (f07_09_previous_linked_commit sample))
    as Hprev.
  pose proof (time_difference_conforms "next_commit_time_difference"
    "17: time difference in seconds to a next commit
    that was linked to the same issue [seconds]" "next_commit_is_close"
    "18: Is the next commit to the same issue 'close'"
    CLOSENESS_NEXT_LINKED_COMMIT_SEC (f17_19_next_linked_commit sample))
    as Hnext.
  unfold time_difference_values in *.
  destruct (time_difference (f07_09_previous_linked_commit sample)) as [tp|];
    destruct (time_difference (f17_19_next_linked_commit sample)) as [tn|];
    (eexists; split; [reflexivity|]; split;
     [|by destruct (f15_time_difference_commit_and_issue_resolve sample)]);
    apply Forall2_cons_1 in Hprev as [Hp1 [Hp2 _]%Forall2_cons_1];
    apply Forall2_cons_1 in Hnext as [Hn1 [Hn2 _]%Forall2_cons_1];
    unfold SPOJIT_ATTRIBUTES;
    repeat (first
      [ apply Forall2_nil_2
      | apply Forall2_cons; split ]);
    try exact Hp1; try exact Hp2; try exact Hn1; try exact Hn2;
    try apply nominal_bool_conforms; try apply num_conforms;
    try (by eexists);
    try (apply (num_or_none_conforms _ _ (λ q : Q, q)));
    try (apply (num_or_none_conforms _ _ inject_Z)).
  all: try (destruct (f15_time_difference_commit_and_issue_resolve sample) as [f15|];
            [destruct (negb _)|]; right; eexists; (split; [reflexivity|]);
            (by left) || (right; by left)).
  all: destruct (f99_is_linked sample); right; eexists; (split; [reflexivity|]);
       (by left) || (right; by left).
Qed.

End ExportFacts.

Section Dataset.
Import Weka Sample Schema.

Lemma numbered_spec sample_id sample :
  ∃ rest, sample_to_weka_instance sample = Ok (num_of_Z 0 :: rest)
          ∧ numbered sample_id sample = num_of_nat sample_id :: rest
          ∧ Forall2 conforms SPOJIT_ATTRIBUTES (numbered sample_id sample).
Proof.
  destruct (sample_to_weka_instance_spec sample) as (rest & Hinst & Hc & _).
  exists rest. unfold numbered. rewrite Hinst. split; [done|]. split; [done|].
  unfold SPOJIT_ATTRIBUTES in *. apply Forall2_cons_1 in Hc as [_ Hc].
  apply Forall2_cons. split; [apply num_conforms|done].
Qed.

Lemma add_numbered dataset sample :
  attributes dataset = SPOJIT_ATTRIBUTES →
  (inst ← sample_to_weka_instance sample;
   inst ← set_first (num_of_nat (length (values dataset) + 1)) inst;
   add_instance dataset inst)
  = Ok {| relation_name := relation_name dataset;
          attributes := attributes dataset;
          values := values dataset
                    ++ [numbered (length (values dataset) + 1) sample] |}.
Proof.
  intros Hattr.
  destruct (numbered_spec (length (values dataset) + 1) sample)
    as (rest & Hinst & Hnum & Hc).
  rewrite Hinst. cbn [mbind result_bind set_first]. unfold add_instance.
  rewrite Hnum in Hc. apply Forall2_length in Hc. rewrite Hattr, <- Hc.
  rewrite Nat.eqb_refl. cbn [negb]. by rewrite Hnum.
Qed.

Lemma fold_add_numbered samples : ∀ dataset,
  attributes dataset = SPOJIT_ATTRIBUTES →
  fold_left
    (λ acc s,
       dataset ← acc;
       inst ← sample_to_weka_instance s;
       inst ← set_first (num_of_nat (length (values dataset) + 1)) inst;
       add_instance dataset inst)
    samples (Ok dataset)
  = Ok {| relation_name := relation_name dataset;
          attributes := attributes dataset;
          values := values dataset
                    ++ imap (λ k s, numbered (length (values dataset) + k + 1) s)
                            samples |}.
Proof.
  induction samples as [|s samples IH]; intros dataset Hattr.
  - cbn. rewrite app_nil_r. by destruct dataset.
  - cbn [fold_left]. cbn [mbind result_bind]. rewrite (add_numbered dataset s Hattr).
    rewrite IH by done. cbn [relation_name attributes values imap].
    rewrite <- app_assoc. cbn [app]. rewrite Nat.add_0_r. do 4 f_equal.
    apply imap_ext. intros k x _. cbn. rewrite length_app. cbn.
    f_equal. lia.
Qed.

End Dataset.



Section LifeSpanFacts.
Import Profile Engine EventPkg Returns LifeSpan.
Variable utc_offset : Z → Z.

Lemma operation_of_with_manager m self event :
  operation_of (with_manager m self) event = operation_of self event.
Proof. by destruct event. Qed.

Lemma operations_with_manager m self events :
  operations (with_manager m self) events = operations self events.
Proof.
  unfold operations. induction events as [|e events IH]; [done|].
  change (match operation_of (with_manager m self) e with
          | Some y => y :: omap (operation_of (with_manager m self)) events
          | None => omap (operation_of (with_manager m self)) events
          end
          = match operation_of self e with
            | Some y => y :: omap (operation_of self) events
            | None => omap (operation_of self) events
            end).
  by rewrite operation_of_with_manager, IH.
Qed.

Lemma step_manager self out event self1 out1 :
  step utc_offset (self, out) event = Ok (self1, out1) →
  issue_manager self1
  = match operation_of self event with
    | Some op => LifeTime.apply_operation (issue_manager self) op
    | None => issue_manager self
    end.
Proof.
  unfold step, operation_of. destruct event as [d t i action|d t h].
  - destruct (is_relevant_event self _); cbn [negb]; [|by intros [= <- <-]].
    destruct (String.eqb action "create"); [by intros [= <- <-]|].
    destruct (String.eqb action "resolve"); [by intros [= <- <-]|done].
  - destruct (negb _); [by intros [= <- <-]|]. intros H.
    apply bind_ok in H as (samples & _ & H).
    destruct (commit_hash_to_change_set self !! h); [|done].
    by destruct (_is_marked_as_to_predict _); injection H as <- <-.
Qed.

(** the manager after a part of the stream *)
Lemma replay_manager events : ∀ self out self' out',
  replay utc_offset (self, out) events = Ok (self', out') →
  issue_manager self'
  = fold_left LifeTime.apply_operation (operations self events) (issue_manager self).
Proof.
  induction events as [|event events IH]; intros self out self' out'; cbn [replay].
  - by intros [= <- <-].
  - intros H. apply bind_ok in H as ([self1 out1] & Hstep & H).
    rewrite (IH self1 out1 self' out' H).
    destruct (step_frame utc_offset self out event self1 out1 Hstep) as [Hself _].
    assert (Hops : operations self1 events = operations self events).
    { rewrite Hself. apply operations_with_manager. }
    rewrite Hops, (step_manager self out event self1 out1 Hstep).
    unfold operations.
    change (omap (operation_of self) (event :: events))
      with (match operation_of self event with
            | Some y => y :: omap (operation_of self) events
            | None => omap (operation_of self) events
            end).
    by destruct (operation_of self event).
Qed.

Lemma omap_cons {A B : Type} (f : A → option B) (y : A) (l : list A) :
  omap f (y :: l) = match f y with Some z => z :: omap f l | None => omap f l end.
Proof. done. Qed.

Lemma omap_split {A B : Type} (f : A → option B) (l : list A) a x b :
  omap f l = a ++ x :: b →
  ∃ la e lb, l = la ++ e :: lb ∧ f e = Some x ∧ omap f la = a ∧ omap f lb = b.
Proof.
  revert a. induction l as [|y l IH]; intros a.
  - intros H. symmetry in H. by apply app_eq_nil in H as [_ ?].
  - rewrite omap_cons. destruct (f y) as [z|] eqn:Hy.
    + destruct a as [|a0 a]; cbn [app].
      * intros [= -> <-]. by exists [], y, l.
      * intros [= -> H]. destruct (IH a H) as (la & e & lb & -> & He & Ha & Hb).
        exists (y :: la), e, lb. rewrite omap_cons, Hy, Ha. by repeat split.
    + intros H. destruct (IH a H) as (la & e & lb & -> & He & Ha & Hb).
      exists (y :: la), e, lb. rewrite omap_cons, Hy. by repeat split.
Qed.

Lemma operation_of_create self event i :
  operation_of self event = Some (LifeTime.CreateIssue i) →
  ∃ d t, event = JiraEvent d t i "create".
Proof.
  destruct event as [d t j action|d t h]; [|done]. unfold operation_of.
  destruct (is_relevant_event _ _); [|done].
  destruct (String.eqb_spec action "create") as [->|_].
  - intros [= ->]. by exists d, t.
  - by destruct (String.eqb action "resolve").
Qed.

Lemma operation_of_resolve self event i :
  operation_of self event = Some (LifeTime.ResolveIssue i) →
  ∃ d t, event = JiraEvent d t i "resolve".
Proof.
  destruct event as [d t j action|d t h]; [|done]. unfold operation_of.
  destruct (is_relevant_event _ _); [|done].
  destruct (String.eqb_spec action "create") as [->|_]; [done|].
  destruct (String.eqb_spec action "resolve") as [->|_]; [|done].
  intros [= ->]. by exists d, t.
Qed.

(** the two events of an issue whose id is unique *)
Lemma stream_issue_event esc ds issue d t action :
  NoDup (map id (issues ds)) → issue ∈ issues ds →
  JiraEvent d t (id issue) action
  ∈ Stream.issue_events utc_offset esc ds ++ Stream.commit_events utc_offset esc ds →
  (action = "create"%string
   ∧ t = time_stamp (Stream.creation_event utc_offset esc issue))
  ∨ (action = "resolve"%string
     ∧ t = time_stamp (Stream.resolution_event utc_offset esc issue)).
Proof.
  intros Hnd Hissue [H|H]%elem_of_app.
  - unfold Stream.issue_events in H. apply list_elem_of_In, in_flat_map in H
      as (issue' & Hin & He). apply list_elem_of_In in Hin.
    destruct He as [He|[He|[]]]; injection He as <- <- Hid <-;
      assert (issue' = issue) as ->
        by (by apply (NoDup_map_inj id (issues ds))); [by left|by right].
  - unfold Stream.commit_events in H. by apply list_elem_of_fmap in H as (c & ? & _).
Qed.

Lemma ascending_app_ge (done rest : list Event) e x :
  Stream.ascending (done ++ e :: rest) → x ∈ rest → time_stamp e ≤ time_stamp x.
Proof.
  unfold Stream.ascending. induction done as [|y done IH]; intros Hs Hx.
  - simpl in Hs. apply StronglySorted_inv in Hs as [_ He].
    rewrite Forall_forall in He. by apply He.
  - simpl in Hs. apply StronglySorted_inv in Hs as [Hs _]. by apply IH.
Qed.

Lemma ascending_middle (a b c : list Event) x y :
  Stream.ascending (a ++ x :: b ++ y :: c) → time_stamp x ≤ time_stamp y.
Proof.
  intros Hs. apply (ascending_app_ge a (b ++ y :: c) x y Hs).
  apply elem_of_app. right. by left.
Qed.

Lemma prepare_run_ready self self1 stream :
  ready utc_offset self →
  prepare_run utc_offset self = Ok (self1, stream) →
  in_progress utc_offset self1 [] stream
  ∧ issue_manager self1 = new_manager
  ∧ data_source self1 = data_source self ∧ esc self1 = esc self
  ∧ stream ≡ₚ Stream.issue_events utc_offset (esc self) (data_source self)
              ++ Stream.commit_events utc_offset (esc self) (data_source self)
  ∧ (∀ issue, issue ∈ issues (data_source self) →
              allowed self (mapped_type issue) = true →
              in_scope self1 (id issue) = true).
Proof.
  intros (Hfresh & Hrange & Hwd) Hprep. pose proof Hwd as (Hdates & Hids & Hend).
  destruct (build_lookups_spec self Hrange) as (mi & mc & Hmi & Hmc & Hi & Hc).
  pose proof (prepare_run_consistent utc_offset self self1 stream Hfresh Hprep)
    as Hcons.
  unfold prepare_run in Hprep.
  rewrite (generate_ok utc_offset _ _ Hdates), Hmi, Hmc in Hprep.
  cbn [mbind result_bind] in Hprep. injection Hprep as <- <-.
  split; [|split; [done|split; [done|split; [done|split]]]].
  - split; [done|]. split; [done|]. split; [|split; [|split]].
    + intros c Hc0. cbn. rewrite Hc. apply fmap_is_Some.
      apply (last_with_is_Some _ _ c Hc0). apply String.eqb_refl.
    + cbn. rewrite Hfresh. intros i Hi0. by apply elem_of_nil in Hi0.
    + cbn. intros e He. by rewrite stable_sort_perm in He.
    + cbn. apply (stable_sort_sorted time_stamp).
  - apply stable_sort_perm.
  - intros issue Hissue Hallowed. unfold in_scope. cbn. rewrite Hi.
    destruct (last_with_is_Some
                (λ i, allowed self (mapped_type i) && String.eqb (id i) (id issue))
                (issues (data_source self)) issue Hissue) as [issue' Hlast].
    { by rewrite Hallowed, String.eqb_refl. }
    rewrite Hlast. cbn.
    apply last_with_Some in Hlast as [_ [H _]%andb_true_iff]. exact H.
Qed.

Lemma open_at_commit self1 done d t h rest self2 out2 issue :
  in_progress utc_offset self1 [] (done ++ GitEvent d t h :: rest) →
  done ++ GitEvent d t h :: rest
  ≡ₚ Stream.issue_events utc_offset (esc self1) (data_source self1)
     ++ Stream.commit_events utc_offset (esc self1) (data_source self1) →
  issue_manager self1 = new_manager →
  replay utc_offset (self1, no_samples) done = Ok (self2, out2) →
  issue ∈ issues (data_source self1) → in_scope self1 (id issue) = true →
  (created utc_offset (esc self1) issue < t < resolved utc_offset (esc self1) issue →
   id issue ∈ current_open_issues (issue_manager self2))
  ∧ (t < created utc_offset (esc self1) issue →
     id issue ∉ current_open_issues (issue_manager self2))
  ∧ (t < resolved utc_offset (esc self1) issue →
     id issue ∉ resolved_issues (issue_manager self2))
  ∧ (created utc_offset (esc self1) issue < resolved utc_offset (esc self1) issue
     ∧ resolved utc_offset (esc self1) issue < t →
     id issue ∈ resolved_issues (issue_manager self2)
     ∧ id issue ∉ current_open_issues (issue_manager self2)).
Proof.
  intros (_ & (_ & Hids & _) & _ & _ & Hev & Hasc) Hperm Hfresh Hreplay Hissue Hscope.
  cbn [app] in Hev, Hasc.
  pose proof (replay_manager done self1 no_samples self2 out2 Hreplay) as Hm.
  rewrite Hfresh in Hm. fold (LifeTime.apply_operations (operations self1 done)) in Hm.
  rewrite Hm. clear Hm.
  set (i := id issue) in *. set (ops := operations self1 done).
  assert (Hdone : ∀ e, e ∈ done → time_stamp e ≤ t).
  { intros e He. apply (ascending_app_le done rest e _ Hasc He). }
  assert (Hrest : ∀ e, e ∈ rest → t ≤ time_stamp e).
  { intros e He. apply (ascending_app_ge done rest _ e Hasc He). }
  assert (Hcreate : LifeTime.CreateIssue i ∈ ops →
            created utc_offset (esc self1) issue ≤ t).
  { intros Hin. apply list_elem_of_omap in Hin as (e & He & Hop).
    apply operation_of_create in Hop as (d' & t' & ->).
    destruct (stream_issue_event (esc self1) (data_source self1) issue d' t' "create"
                Hids Hissue) as [[_ ->]|[? _]]; [|by apply Hdone in He|done].
    apply Hev, elem_of_app. by left. }
  assert (Hresolve : LifeTime.ResolveIssue i ∈ ops →
            resolved utc_offset (esc self1) issue ≤ t).
  { intros Hin. apply list_elem_of_omap in Hin as (e & He & Hop).
    apply operation_of_resolve in Hop as (d' & t' & ->).
    destruct (stream_issue_event (esc self1) (data_source self1) issue d' t' "resolve"
                Hids Hissue) as [[? _]|[_ ->]]; [|done|by apply Hdone in He].
    apply Hev, elem_of_app. by left. }
  assert (Hin_done : ∀ e : Event, (∃ d' t' a, e = JiraEvent d' t' i a) →
            e ∈ Stream.issue_events utc_offset (esc self1) (data_source self1) →
            time_stamp e < t → e ∈ done).
  { intros e (d' & t' & a & ->) He Hlt.
    assert (Hs : JiraEvent d' t' i a ∈ done ++ GitEvent d t h :: rest).
    { rewrite Hperm. apply elem_of_app. by left. }
    apply elem_of_app in Hs as [Hs|[Hs|Hs]%elem_of_cons]; [done|done|].
    apply Hrest in Hs. simpl in *. lia. }
  assert (Hc_in : Stream.creation_event utc_offset (esc self1) issue
                  ∈ Stream.issue_events utc_offset (esc self1) (data_source self1)).
  { unfold Stream.issue_events. apply list_elem_of_In, in_flat_map. exists issue.
    split; [by apply list_elem_of_In|by left]. }
  assert (Hr_in : Stream.resolution_event utc_offset (esc self1) issue
                  ∈ Stream.issue_events utc_offset (esc self1) (data_source self1)).
  { unfold Stream.issue_events. apply list_elem_of_In, in_flat_map. exists issue.
    split; [by apply list_elem_of_In|right; by left]. }
  assert (Hc_op : operation_of self1 (Stream.creation_event utc_offset (esc self1) issue)
                  = Some (LifeTime.CreateIssue i)).
  { unfold operation_of, Stream.creation_event, is_relevant_event.
    unfold in_scope in Hscope. fold i. by rewrite Hscope. }
  assert (Hr_op : operation_of self1
                    (Stream.resolution_event utc_offset (esc self1) issue)
                  = Some (LifeTime.ResolveIssue i)).
  { unfold operation_of, Stream.resolution_event, is_relevant_event.
    unfold in_scope in Hscope. fold i. by rewrite Hscope. }
  split; [|split; [|split]].
  - intros [Hc Hr]. apply elem_of_open_iff.
    assert (Hin : LifeTime.CreateIssue i ∈ ops).
    { apply list_elem_of_omap. eexists. split; [|exact Hc_op].
      apply Hin_done; [by eexists _, _, _|done|done]. }
    apply list_elem_of_split in Hin as (pre & post & Hops). exists pre, post.
    split; [done|]. intros Hpost. assert (LifeTime.ResolveIssue i ∈ ops).
    { rewrite Hops. apply elem_of_app. right. by right. }
    apply Hresolve in H. lia.
  - intros Hlt Hopen. apply elem_of_open_iff in Hopen as (pre & post & Hops & _).
    assert (LifeTime.CreateIssue i ∈ ops).
    { rewrite Hops. apply elem_of_app. right. by left. }
    apply Hcreate in H. lia.
  - intros Hlt Hres. apply elem_of_resolved in Hres. apply Hresolve in Hres. lia.
  - intros [Hcr Hrt]. split.
    + apply elem_of_resolved. apply list_elem_of_omap. eexists. split; [|exact Hr_op].
      apply Hin_done; [by eexists _, _, _|done|done].
    + intros Hopen. apply elem_of_open_iff in Hopen as (pre & post & Hops & Hpost).
      assert (Hres : LifeTime.ResolveIssue i ∈ pre).
      { assert (Hres : LifeTime.ResolveIssue i ∈ ops).
        { apply list_elem_of_omap. eexists. split; [|exact Hr_op].
          apply Hin_done; [by eexists _, _, _|done|done]. }
        rewrite Hops in Hres.
        by apply elem_of_app in Hres as [Hres|[Hres|Hres]%elem_of_cons]. }
      apply list_elem_of_split in Hres as (p1 & p2 & ->).
      rewrite <- app_assoc in Hops. cbn [app] in Hops. unfold ops, operations in Hops.
      apply omap_split in Hops as (la & er & lb & Hdone_eq & Her & _ & Hlb).
      apply omap_split in Hlb as (lb1 & ec & lb2 & -> & Hec & _ & _).
      apply operation_of_resolve in Her as (dr & tr & ->).
      apply operation_of_create in Hec as (dc & tc & ->).
      assert (Htr : tr = resolved utc_offset (esc self1) issue).
      { destruct (stream_issue_event (esc self1) (data_source self1) issue dr tr
                    "resolve" Hids Hissue) as [[? _]|[_ ->]]; [|done|done].
        apply Hev. rewrite Hdone_eq. rewrite <- !app_assoc.
        rewrite !elem_of_app, !elem_of_cons, !elem_of_app, !elem_of_cons. tauto. }
      assert (Htc : tc = created utc_offset (esc self1) issue).
      { destruct (stream_issue_event (esc self1) (data_source self1) issue dc tc
                    "create" Hids Hissue) as [[_ ->]|[? _]]; [|done|done].
        apply Hev. rewrite Hdone_eq. rewrite <- !app_assoc.
        rewrite !elem_of_app, !elem_of_cons, !elem_of_app, !elem_of_cons. tauto. }
      rewrite Hdone_eq in Hasc. rewrite <- !app_assoc in Hasc. cbn [app] in Hasc.
      rewrite <- !app_assoc in Hasc. cbn [app] in Hasc.
      apply ascending_middle in Hasc. simpl in Hasc. lia.
Qed.

End LifeSpanFacts.

Lemma life_span_example_ready : Returns.ready tz_utc LifeSpan.example.
Proof.
  split; [done|]. split.
  - intros ld Hld. by apply elem_of_nil in Hld.
  - split; [split|split].
    + intros i Hi. cbn in Hi.
      repeat (apply elem_of_cons in Hi as [->|Hi]; [by vm_compute|]).
      by apply elem_of_nil in Hi.
    + intros c Hc. cbn in Hc.
      repeat (apply elem_of_cons in Hc as [->|Hc]; [by vm_compute|]).
      by apply elem_of_nil in Hc.
    + cbn. apply NoDup_singleton.
    + intros c i Hc Hi. cbn in Hc, Hi.
      repeat (apply elem_of_cons in Hi as [->|Hi];
              [repeat (apply elem_of_cons in Hc as [->|Hc]; [by vm_compute|]);
               by apply elem_of_nil in Hc|]).
      by apply elem_of_nil in Hi.
Qed.

Lemma life_span_example_facts :
  match Profile.prepare_run tz_utc LifeSpan.example with
  | Ok (self1, e :: EventPkg.GitEvent d t h :: rest) =>
      is_ok (Profile.replay tz_utc (self1, Profile.no_samples) [e]) = true
      ∧ (LifeSpan.created tz_utc EventPkg.new_creator LifeSpan.example_issue <? t)
        = true
      ∧ (t <? LifeSpan.resolved tz_utc EventPkg.new_creator LifeSpan.example_issue)
        = true
  | _ => False
  end.
Proof. by vm_compute. Qed.

(** X27: while [run] replays the event stream, the life-time manager holds,
    at every commit event, the issues of an allowed category by their life
    span: such an issue created before the commit's time stamp and resolved
    after it is open; one created after it is not open; one resolved after
    it is not among the resolved issues; one created, then resolved, both
    before it, is resolved and no longer open.  (Time stamps are those of
    the issue's two events, the far-future date standing in for a missing
    resolution date; the generator starts with a fresh manager, and the
    issue ids are unique.) *)
Theorem open_issues_at_commit_time (utc_offset : Z → Z)
  (self self1 self2 : Profile.ProfileGenerator) (out2 : Profile.Collectors)
  (stream done rest : list EventPkg.Event) (d : string) (t : Z) (h : string)
  (issue : Issue) :
  Returns.ready utc_offset self →
  Profile.prepare_run utc_offset self = Ok (self1, stream) →
  stream = done ++ EventPkg.GitEvent d t h :: rest →
  Profile.replay utc_offset (self1, Profile.no_samples) done = Ok (self2, out2) →
  issue ∈ issues (Profile.data_source self) →
  Profile.allowed self (mapped_type issue) = true →
  (LifeSpan.created utc_offset (Profile.esc self) issue < t
   < LifeSpan.resolved utc_offset (Profile.esc self) issue →
   id issue ∈ Profile.current_open_issues (Profile.issue_manager self2))
  ∧ (t < LifeSpan.created utc_offset (Profile.esc self) issue →
     id issue ∉ Profile.current_open_issues (Profile.issue_manager self2))
  ∧ (t < LifeSpan.resolved utc_offset (Profile.esc self) issue →
     id issue ∉ Profile.resolved_issues (Profile.issue_manager self2))
  ∧ (LifeSpan.created utc_offset (Profile.esc self) issue
     < LifeSpan.resolved utc_offset (Profile.esc self) issue
     ∧ LifeSpan.resolved utc_offset (Profile.esc self) issue < t →
     id issue ∈ Profile.resolved_issues (Profile.issue_manager self2)
     ∧ id issue ∉ Profile.current_open_issues (Profile.issue_manager self2)).
Proof.
  intros Hready Hprep -> Hreplay Hissue Hallowed.
  destruct (prepare_run_ready utc_offset self self1 _ Hready Hprep)
    as (Hprog & Hfresh & Hds & Hesc & Hperm & Hscope).
  rewrite <- Hds in Hissue, Hperm. rewrite <- Hesc in Hperm. rewrite <- Hesc.
  rewrite <- Hds in Hscope.
  apply (open_at_commit utc_offset self1 done d t h rest self2 out2 issue
           Hprog Hperm Hfresh Hreplay Hissue (Hscope issue Hissue Hallowed)).
Qed.

Lemma open_issues_at_commit_time_witness :
  match Profile.prepare_run tz_utc LifeSpan.example with
  | Ok (self1, e :: EventPkg.GitEvent d t h :: rest) =>
      match Profile.replay tz_utc (self1, Profile.no_samples) [e] with
      | Ok (self2, _) =>
          "I-1"%string ∈ Profile.current_open_issues (Profile.issue_manager self2)
      | Raise _ => False
      end
  | _ => False
  end.
Proof.
  pose proof life_span_example_facts as H.
  destruct (Profile.prepare_run tz_utc LifeSpan.example)
    as [[self1 [|e [|[|d t h] rest]]]|] eqn:Hp; try done.
  destruct H as (Hok & Hc & Hr).
  destruct (Profile.replay tz_utc (self1, Profile.no_samples) [e])
    as [[self2 out2]|] eqn:Hrep; [|done].
  apply (open_issues_at_commit_time tz_utc LifeSpan.example self1 self2 out2
           (e :: EventPkg.GitEvent d t h :: rest) [e] rest d t h
           LifeSpan.example_issue).
  - exact life_span_example_ready.
  - exact Hp.
  - done.
  - exact Hrep.
  - by left.
  - done.
  - apply Z.ltb_lt in Hc, Hr. done.
Defined.

Section CalendarFacts.
Import Util Canonical.

Lemma days_from_civil_march y m d :
  days_from_civil y m d
  = march_days (if m <=? 2 then y - 1 else y)
    + (153 * (if 2 <? m then m - 3 else m + 9) + 2) / 5 + d - 1 - 719468.
Proof.
  unfold days_from_civil, march_days. cbv zeta.
  generalize (if m <=? 2 then y - 1 else y). intros z.
  generalize ((153 * (if 2 <? m then m - 3 else m + 9) + 2) / 5). intros k.
  Z.div_mod_to_equations. lia.
Qed.

Lemma march_days_step y :
  march_days (y + 1) = march_days y + (if is_leap (y + 1) then 366 else 365).
Proof.
  unfold march_days, is_leap.
  destruct ((y + 1) mod 4 =? 0) eqn:E4, ((y + 1) mod 100 =? 0) eqn:E100,
           ((y + 1) mod 400 =? 0) eqn:E400; simpl;
    rewrite ?Z.eqb_eq, ?Z.eqb_neq in *; Z.div_mod_to_equations; lia.
Qed.

Lemma march_days_mono y n : 0 ≤ n → march_days y + 365 * n ≤ march_days (y + n).
Proof.
  intros Hn. revert n Hn. apply natlike_ind.
  - replace (y + 0) with y by lia. lia.
  - intros n Hn IH. replace (y + Z.succ n) with (y + n + 1) by lia.
    rewrite march_days_step. destruct (is_leap (y + n + 1)); lia.
Qed.

Lemma valid_datetime_bounds d :
  valid_datetime d = true →
  1 ≤ year d ≤ 9999 ∧ 1 ≤ month d ≤ 12
  ∧ 1 ≤ day d ≤ days_in_month (year d) (month d)
  ∧ 0 ≤ hour d ≤ 23 ∧ 0 ≤ minute d ≤ 59 ∧ 0 ≤ second d ≤ 59.
Proof. unfold valid_datetime. rewrite !andb_true_iff, !Z.leb_le. tauto. Qed.

(** the days of a date grow with the calendar *)
Lemma days_from_civil_mono y m d y' m' d' :
  1 ≤ m ≤ 12 → 1 ≤ d ≤ days_in_month y m →
  1 ≤ m' ≤ 12 → 1 ≤ d' ≤ days_in_month y' m' →
  y < y' ∨ y = y' ∧ (m < m' ∨ m = m' ∧ d < d') →
  days_from_civil y m d < days_from_civil y' m' d'.
Proof.
  intros Hm Hd Hm' Hd' Hlt. rewrite !days_from_civil_march.
  assert (Hdim : ∀ y m, 1 ≤ m ≤ 12 → 28 ≤ days_in_month y m ≤ 31).
  { intros y0 m0 H0. unfold days_in_month.
    destruct (m0 =? 2); [destruct (is_leap y0); lia|].
    destruct ((m0 =? 4) || (m0 =? 6) || (m0 =? 9) || (m0 =? 11)); lia. }
  assert (Hcases : ∀ m, 1 ≤ m ≤ 12 →
            m = 1 ∨ m = 2 ∨ m = 3 ∨ m = 4 ∨ m = 5 ∨ m = 6 ∨ m = 7 ∨ m = 8
            ∨ m = 9 ∨ m = 10 ∨ m = 11 ∨ m = 12) by (intros; lia).
  (* the day of the March-based year, at most the length of that year *)
  assert (Hyear : ∀ y m d, 1 ≤ m ≤ 12 → 1 ≤ d ≤ days_in_month y m →
            let z := if m <=? 2 then y - 1 else y in
            0 ≤ (153 * (if 2 <? m then m - 3 else m + 9) + 2) / 5
            ∧ (153 * (if 2 <? m then m - 3 else m + 9) + 2) / 5 + d
              ≤ (if is_leap (z + 1) then 366 else 365)).
  { intros y0 m0 d0 H0 H1. cbv zeta. unfold days_in_month in H1.
    destruct (Hcases m0 H0) as [->|[->|[->|[->|[->|[->|[->|[->|[->|[->|[->| ->]]]]]]]]]]];
      cbn in H1 |- *;
      try (destruct (is_leap _); Z.div_mod_to_equations; lia).
    replace (y0 - 1 + 1) with y0 by lia.
    destruct (is_leap y0); Z.div_mod_to_equations; lia. }
  destruct Hlt as [Hy|[-> Hlt]].
  - assert (Hz : (if m <=? 2 then y - 1 else y) < (if m' <=? 2 then y' - 1 else y')
                 ∨ (if m <=? 2 then y - 1 else y) = (if m' <=? 2 then y' - 1 else y')
                   ∧ 2 < m ∧ m' ≤ 2).
    { destruct (Z.leb_spec m 2), (Z.leb_spec m' 2); lia. }
    destruct Hz as [Hz|(Hz & Hm2 & Hm2')].
    + pose proof (Hyear y m d Hm Hd) as [H1 H2].
      pose proof (Hyear y' m' d' Hm' Hd') as [H3 H4]. cbv zeta in *.
      revert Hz H1 H2 H3 H4.
      generalize (if m <=? 2 then y - 1 else y).
      generalize (if m' <=? 2 then y' - 1 else y').
      generalize ((153 * (if 2 <? m then m - 3 else m + 9) + 2) / 5).
      generalize ((153 * (if 2 <? m' then m' - 3 else m' + 9) + 2) / 5).
      intros k' k z' z Hz H1 H2 H3 H4.
      pose proof (march_days_step z) as Hs.
      pose proof (march_days_mono (z + 1) (z' - (z + 1)) ltac:(lia)) as Hmono.
      replace (z + 1 + (z' - (z + 1))) with z' in Hmono by lia.
      destruct (is_leap (z + 1)); lia.
    + rewrite <- Hz. clear Hz.
      generalize (march_days (if m <=? 2 then y - 1 else y)). intros f.
      destruct (Hcases m Hm) as [->|[->|[->|[->|[->|[->|[->|[->|[->|[->|[->| ->]]]]]]]]]]];
        try lia;
        (assert (m' = 1 ∨ m' = 2) as [-> | ->] by lia);
        unfold days_in_month in Hd; cbn in Hd |- *;
        Z.div_mod_to_equations; lia.
  - destruct Hlt as [Hlt|[-> Hlt]]; [|lia].
    unfold days_in_month in Hd.
    destruct (Hcases m Hm) as [->|[->|[->|[->|[->|[->|[->|[->|[->|[->|[->| ->]]]]]]]]]]];
      destruct (Hcases m' Hm') as [->|[->|[->|[->|[->|[->|[->|[->|[->|[->|[->| ->]]]]]]]]]]];
      try lia; cbn in Hd |- *;
      pose proof (march_days_step (y' - 1)) as Hs;
      replace (y' - 1 + 1) with y' in Hs by lia;
      destruct (is_leap y'); Z.div_mod_to_equations; lia.
Qed.

Lemma wall_seconds_mono a b :
  valid_datetime a = true → valid_datetime b = true → earlier a b →
  wall_seconds a < wall_seconds b.
Proof.
  intros Ha Hb Hlt. apply valid_datetime_bounds in Ha, Hb.
  destruct Ha as (Hy & Hm & Hd & Hh & Hmi & Hs).
  destruct Hb as (Hy' & Hm' & Hd' & Hh' & Hmi' & Hs').
  unfold wall_seconds.
  assert (Hdays : days_from_civil (year a) (month a) (day a)
                  < days_from_civil (year b) (month b) (day b)
                  ∨ days_from_civil (year a) (month a) (day a)
                    = days_from_civil (year b) (month b) (day b)
                    ∧ (hour a < hour b
                       ∨ hour a = hour b
                         ∧ (minute a < minute b
                            ∨ minute a = minute b ∧ second a < second b))).
  { destruct Hlt as [H|[Ey [H|[Em [H|[Ed H]]]]]].
    - left. apply days_from_civil_mono; auto.
    - left. apply days_from_civil_mono; auto.
    - left. apply days_from_civil_mono; auto.
    - right. by rewrite Ey, Em, Ed. }
  lia.
Qed.

End CalendarFacts.

Section CanonicalFacts.
Import Util Canonical.

Lemma strptime_valid s d : strptime s = Ok d → valid_datetime d = true.
Proof.
  unfold strptime. destruct (format_regex _) as [|[d' rest] ms]; [done|].
  destruct rest; [|done]. destruct (valid_datetime d') eqn:E; [|done].
  by intros [= <-].
Qed.

Lemma string_compare_cons x s y t :
  String.compare (String x s) (String y t)
  = lex (Ascii.compare x y) (String.compare s t).
Proof. simpl. by destruct (Ascii.compare x y). Qed.

Lemma ascii_compare_refl x : Ascii.compare x x = Eq.
Proof. unfold Ascii.compare. apply N.compare_refl. Qed.

Lemma string_compare_refl s : String.compare s s = Eq.
Proof. induction s as [|x s IH]; [done|]. simpl. by rewrite ascii_compare_refl. Qed.

Lemma digit_char_compare x y :
  Ascii.compare (digit_char x) (digit_char y) = (x mod 10 ?= y mod 10).
Proof.
  unfold digit_char.
  pose proof (Z.mod_pos_bound x 10 ltac:(lia)) as Hx.
  pose proof (Z.mod_pos_bound y 10 ltac:(lia)) as Hy.
  revert Hx Hy. generalize (x mod 10) (y mod 10). intros a b Ha Hb.
  assert (Hcases : ∀ a, 0 ≤ a < 10 →
            a = 0 ∨ a = 1 ∨ a = 2 ∨ a = 3 ∨ a = 4 ∨ a = 5 ∨ a = 6 ∨ a = 7
            ∨ a = 8 ∨ a = 9) by (intros; lia).
  destruct (Hcases a Ha) as [->|[->|[->|[->|[->|[->|[->|[->|[->| ->]]]]]]]]];
    destruct (Hcases b Hb) as [->|[->|[->|[->|[->|[->|[->|[->|[->| ->]]]]]]]]];
    reflexivity.
Qed.

Lemma two_digits_compare n m k :
  0 ≤ n ≤ 99 → 0 ≤ m ≤ 99 →
  lex ((n / 10) mod 10 ?= (m / 10) mod 10) (lex (n mod 10 ?= m mod 10) k)
  = lex (n ?= m) k.
Proof.
  intros Hn Hm.
  destruct (Z.compare_spec ((n / 10) mod 10) ((m / 10) mod 10)) as [H1|H1|H1];
    destruct (Z.compare_spec (n mod 10) (m mod 10)) as [H2|H2|H2];
    destruct (Z.compare_spec n m) as [H3|H3|H3]; simpl; try done;
    exfalso; Z.div_mod_to_equations; lia.
Qed.

Lemma four_digits_compare n m k :
  0 ≤ n ≤ 9999 → 0 ≤ m ≤ 9999 →
  lex ((n / 1000) mod 10 ?= (m / 1000) mod 10)
    (lex ((n / 100) mod 10 ?= (m / 100) mod 10)
       (lex ((n / 10) mod 10 ?= (m / 10) mod 10) (lex (n mod 10 ?= m mod 10) k)))
  = lex (n ?= m) k.
Proof.
  intros Hn Hm.
  assert (Hdigits : ∀ n, 0 ≤ n ≤ 9999 →
            n = 1000 * ((n / 1000) mod 10) + 100 * ((n / 100) mod 10)
                + 10 * ((n / 10) mod 10) + n mod 10
            ∧ 0 ≤ (n / 1000) mod 10 < 10 ∧ 0 ≤ (n / 100) mod 10 < 10
            ∧ 0 ≤ (n / 10) mod 10 < 10 ∧ 0 ≤ n mod 10 < 10).
  { intros n0 H0. Z.div_mod_to_equations. lia. }
  destruct (Hdigits n Hn) as (En & Hn3 & Hn2 & Hn1 & Hn0).
  destruct (Hdigits m Hm) as (Em & Hm3 & Hm2 & Hm1 & Hm0).
  revert En Em Hn3 Hn2 Hn1 Hn0 Hm3 Hm2 Hm1 Hm0.
  generalize ((n / 1000) mod 10) ((n / 100) mod 10) ((n / 10) mod 10) (n mod 10)
             ((m / 1000) mod 10) ((m / 100) mod 10) ((m / 10) mod 10) (m mod 10).
  intros n3 n2 n1 n0 m3 m2 m1 m0 -> -> ? ? ? ? ? ? ? ?.
  destruct (Z.compare_spec n3 m3) as [H3|H3|H3];
    destruct (Z.compare_spec n2 m2) as [H2|H2|H2];
    destruct (Z.compare_spec n1 m1) as [H1|H1|H1];
    destruct (Z.compare_spec n0 m0) as [H0|H0|H0];
    destruct (Z.compare_spec (1000 * n3 + 100 * n2 + 10 * n1 + n0)
                             (1000 * m3 + 100 * m2 + 10 * m1 + m0)) as [H|H|H];
    simpl; try done; exfalso; lia.
Qed.

(** texts in padded form compare as the date-times they denote *)
Lemma padded_compare a b :
  valid_datetime a = true → valid_datetime b = true →
  String.compare (padded a) (padded b) = calendar_compare a b.
Proof.
  intros Ha Hb. apply valid_datetime_bounds in Ha, Hb.
  destruct Ha as (Hy & Hm & Hd & Hh & Hmi & Hs).
  destruct Hb as (Hy' & Hm' & Hd' & Hh' & Hmi' & Hs').
  assert (Hdim : ∀ y m, days_in_month y m ≤ 31).
  { intros y m. unfold days_in_month.
    destruct (m =? 2); [destruct (is_leap y); lia|].
    destruct ((m =? 4) || (m =? 6) || (m =? 9) || (m =? 11)); lia. }
  pose proof (Hdim (year a) (month a)). pose proof (Hdim (year b) (month b)).
  unfold padded, four_digits, two_digits, calendar_compare.
  cbn [app string_of_list_ascii].
  rewrite !string_compare_cons, !digit_char_compare, !ascii_compare_refl.
  cbn [lex String.compare].
  rewrite <- (two_digits_compare (minute a) (minute b)) by lia.
  rewrite <- (two_digits_compare (hour a) (hour b)) by lia.
  rewrite <- (two_digits_compare (day a) (day b)) by lia.
  rewrite <- (two_digits_compare (month a) (month b)) by lia.
  rewrite <- (four_digits_compare (year a) (year b)) by lia.
  do 12 f_equal.
  destruct (Z.compare_spec ((second a / 10) mod 10) ((second b / 10) mod 10));
    destruct (Z.compare_spec (second a mod 10) (second b mod 10));
    destruct (Z.compare_spec (second a) (second b)); simpl; try done;
    exfalso; Z.div_mod_to_equations; lia.
Qed.

Lemma calendar_compare_lt a b : calendar_compare a b = Lt → earlier a b.
Proof.
  unfold calendar_compare, earlier, lex.
  destruct (Z.compare_spec (year a) (year b)); [|tauto|done].
  destruct (Z.compare_spec (month a) (month b)); [|tauto|done].
  destruct (Z.compare_spec (day a) (day b)); [|tauto|done].
  destruct (Z.compare_spec (hour a) (hour b)); [|tauto|done].
  destruct (Z.compare_spec (minute a) (minute b)); [|tauto|done].
  destruct (Z.compare_spec (second a) (second b)); [done|tauto|done].
Qed.

Lemma calendar_compare_eq a b : calendar_compare a b = Eq → a = b.
Proof.
  unfold calendar_compare, lex. destruct a, b. simpl.
  destruct (Z.compare_spec year0 year1); [|done|done].
  destruct (Z.compare_spec month0 month1); [|done|done].
  destruct (Z.compare_spec day0 day1); [|done|done].
  destruct (Z.compare_spec hour0 hour1); [|done|done].
  destruct (Z.compare_spec minute0 minute1); [|done|done].
  destruct (Z.compare_spec second0 second1); [|done|done].
  intros _. by subst.
Qed.

Lemma calendar_compare_gt a b : calendar_compare a b = Gt → earlier b a.
Proof.
  unfold calendar_compare, earlier, lex.
  destruct (Z.compare_spec (year a) (year b)); [|done|intros _; lia].
  destruct (Z.compare_spec (month a) (month b)); [|done|intros _; lia].
  destruct (Z.compare_spec (day a) (day b)); [|done|intros _; lia].
  destruct (Z.compare_spec (hour a) (hour b)); [|done|intros _; lia].
  destruct (Z.compare_spec (minute a) (minute b)); [|done|intros _; lia].
  destruct (Z.compare_spec (second a) (second b)); [done|done|intros _; lia].
Qed.

Lemma is_canonical_inv s :
  is_canonical s = true →
  ∃ d, strptime s = Ok d ∧ s = padded d ∧ valid_datetime d = true.
Proof.
  unfold is_canonical. destruct (strptime s) as [d|] eqn:E; [|done].
  intros H%String.eqb_eq. exists d. split; [done|]. split; [done|].
  by apply (strptime_valid s).
Qed.

Section Zone.
Variable utc_offset : Z → Z.

Lemma canonical_timestamp s :
  is_canonical s = true →
  ∃ d, strptime s = Ok d ∧ s = padded d ∧ valid_datetime d = true
       ∧ date_time_to_timestamp utc_offset s = Ok (timestamp utc_offset d).
Proof.
  intros (d & Hd & Hs & Hv)%is_canonical_inv. exists d.
  split; [done|]. split; [done|]. split; [done|].
  unfold date_time_to_timestamp. destruct (String.eqb s "") eqn:E.
  - apply String.eqb_eq in E. by subst s.
  - by rewrite Hd.
Qed.

(** on canonical texts the order of the texts is the order in time *)
Lemma canonical_order s t :
  increasing utc_offset → is_canonical s = true → is_canonical t = true →
  ∃ a b, date_time_to_timestamp utc_offset s = Ok a
         ∧ date_time_to_timestamp utc_offset t = Ok b
         ∧ (String.compare s t = Lt → a < b)
         ∧ (String.compare s t = Eq → a = b)
         ∧ (String.compare s t = Gt → b < a).
Proof.
  intros Hinc (ds & _ & Hs & Hvs & Hts)%canonical_timestamp
         (dt & _ & Ht & Hvt & Htt)%canonical_timestamp.
  exists (timestamp utc_offset ds), (timestamp utc_offset dt).
  split; [done|]. split; [done|].
  rewrite Hs, Ht, (padded_compare ds dt Hvs Hvt). unfold timestamp.
  split; [|split].
  - intros H%calendar_compare_lt. by apply Hinc, wall_seconds_mono.
  - by intros ->%calendar_compare_eq.
  - intros H%calendar_compare_gt. by apply Hinc, wall_seconds_mono.
Qed.

End Zone.

End CanonicalFacts.

Section NearestInTime.
Import Profile Neighbours Canonical InTime.
Variable utc_offset : Z → Z.

Lemma canonical_order_lt s t a b :
  increasing utc_offset → is_canonical s = true → is_canonical t = true →
  Util.date_time_to_timestamp utc_offset s = Ok a →
  Util.date_time_to_timestamp utc_offset t = Ok b →
  (String.ltb s t = true ↔ a < b) ∧ (String.leb s t = true ↔ a ≤ b)
  ∧ (s = t ↔ a = b).
Proof.
  intros Hinc Hs Ht Ha Hb.
  destruct (canonical_order utc_offset s t Hinc Hs Ht)
    as (a' & b' & Ha' & Hb' & Hlt & Heq & Hgt).
  rewrite Ha in Ha'. rewrite Hb in Hb'. injection Ha' as <-. injection Hb' as <-.
  assert (Hst : s = t ↔ String.compare s t = Eq).
  { split; [intros ->; apply string_compare_refl|apply String.compare_eq_iff]. }
  rewrite string_ltb_iff, string_leb_iff, Hst. clear Hst.
  destruct (String.compare s t);
    [specialize (Heq eq_refl)|specialize (Hlt eq_refl)|specialize (Hgt eq_refl)];
    (split; [|split]); split; intros ?; try done; try lia; exfalso; lia.
Qed.

Lemma check_previous_and_next_commits_in_time self commit issue prev next :
  increasing utc_offset →
  is_canonical (date commit) = true →
  (∀ q, q ∈ linked_commits self issue → is_canonical (date q) = true) →
  check_previous_and_next_commits utc_offset self commit issue = Ok (prev, next) →
  ∃ tc,
    at_time utc_offset commit tc
    ∧ previous_in_time utc_offset self issue tc prev
    ∧ next_in_time utc_offset self issue tc next.
Proof.
  unfold at_time, previous_in_time, next_in_time. intros Hinc Hc Hlinked Hrun.
  destruct (canonical_timestamp utc_offset _ Hc) as (dc & _ & _ & _ & Htc).
  exists (Util.timestamp utc_offset dc). split; [done|].
  set (tc := Util.timestamp utc_offset dc) in *.
  assert (Hord : ∀ q tq, q ∈ linked_commits self issue →
            Util.date_time_to_timestamp utc_offset (date q) = Ok tq →
            (String.ltb (date q) (date commit) = true ↔ tq < tc)
            ∧ (String.leb (date q) (date commit) = true ↔ tq ≤ tc)).
  { intros q tq Hq Htq.
    destruct (canonical_order_lt (date q) (date commit) tq tc Hinc
                (Hlinked q Hq) Hc Htq Htc) as (H1 & H2 & _). by split. }
  assert (Hpair : ∀ q r tq tr, q ∈ linked_commits self issue →
            r ∈ linked_commits self issue →
            Util.date_time_to_timestamp utc_offset (date q) = Ok tq →
            Util.date_time_to_timestamp utc_offset (date r) = Ok tr →
            String.leb (date q) (date r) = true → tq ≤ tr).
  { intros q r tq tr Hq Hr Htq Htr Hle.
    destruct (canonical_order_lt (date q) (date r) tq tr Hinc
                (Hlinked q Hq) (Hlinked r Hr) Htq Htr) as (_ & H2 & _).
    by apply H2. }
  apply check_previous_and_next_commits_nearest in Hrun as [Hprev Hnext]. split.
  - destruct Hprev as [[-> Hnone]|(p & tc' & tp & (Hp & Hlt & Hmax) & Htc' & Htp & ->)].
    + left. split; [done|]. intros q tq Hq Htq.
      destruct (Hord q tq Hq Htq) as [H1 _]. specialize (Hnone q Hq).
      destruct (Z.lt_ge_cases tq tc) as [H|H]; [|lia].
      apply H1 in H. congruence.
    + right. rewrite Htc in Htc'. injection Htc' as <-. exists p, tp.
      split; [done|]. split; [done|].
      split; [by apply (Hord p tp Hp Htp)|]. split; [done|].
      intros q tq Hq Htq Hqc. apply (Hpair q p tq tp Hq Hp Htq Htp).
      apply Hmax; [done|]. by apply (Hord q tq Hq Htq).
  - destruct Hnext as [[-> Hnone]|(n & tc' & tn & (Hn & Hgt & Hmin) & Htc' & Htn & ->)].
    + left. split; [done|]. intros q tq Hq Htq.
      apply (Hord q tq Hq Htq). by apply Hnone.
    + right. rewrite Htc in Htc'. injection Htc' as <-. exists n, tn.
      split; [done|]. split; [done|].
      assert (Hgt_iff : ∀ q tq, q ∈ linked_commits self issue →
                Util.date_time_to_timestamp utc_offset (date q) = Ok tq →
                (String.leb (date q) (date commit) = false ↔ tc < tq)).
      { intros q tq Hq Htq. destruct (Hord q tq Hq Htq) as [_ H2].
        destruct (String.leb (date q) (date commit)).
        - split; [done|]. intros H. assert (tq ≤ tc) by by apply H2. lia.
        - split; [|done]. intros _. destruct (Z.lt_ge_cases tc tq) as [H|H]; [done|].
          assert (false = true) by (apply H2; lia). done. }
      split; [by apply (Hgt_iff n tn Hn Htn)|]. split; [done|].
      intros q tq Hq Htq Hqc. apply (Hpair n q tn tq Hn Hq Htn Htq).
      apply Hmin; [done|]. by apply (Hgt_iff q tq Hq Htq).
Qed.

End NearestInTime.


Lemma tz_utc_increasing : Canonical.increasing tz_utc.
Proof. intros a b H. unfold tz_utc. lia. Qed.


(** The padding is needed: a month written with one digit is read as well,
    and then the earlier text is the later date. *)
Lemma unpadded_dates_out_of_order :
  String.ltb "2017-10-01T00:00:00Z" "2017-9-01T00:00:00Z" = true
  ∧ Util.date_time_to_timestamp tz_utc "2017-10-01T00:00:00Z" = Ok 1506816000
  ∧ Util.date_time_to_timestamp tz_utc "2017-9-01T00:00:00Z" = Ok 1504224000
  ∧ Canonical.is_canonical "2017-9-01T00:00:00Z" = false.
Proof. by vm_compute. Qed.



Section RelevanceFacts.
Import Profile Engine EventPkg Relevance.
Variable utc_offset : Z → Z.

Lemma in_scope_iff self self1 stream k :
  Identity.links_in_range (project_users self) →
  prepare_run utc_offset self = Ok (self1, stream) →
  in_scope self1 k = true
  ↔ ∃ issue, issue ∈ issues (data_source self)
             ∧ allowed self (mapped_type issue) = true ∧ id issue = k.
Proof.
  intros Hrange Hprep.
  destruct (build_lookups_spec self Hrange) as (mi & mc & Hmi & Hmc & Hi & _).
  unfold prepare_run in Hprep. apply bind_ok in Hprep as (ev & _ & Hprep).
  rewrite Hmi, Hmc in Hprep. cbn [mbind result_bind] in Hprep.
  injection Hprep as <- _. unfold in_scope. cbn. rewrite Hi. split.
  - destruct (Lookup.last_with _ _) as [issue|] eqn:E; [|done]. cbn. intros Ha.
    apply last_with_Some in E as [Hin [_ Hid]%andb_true_iff].
    exists issue. split; [done|]. split; [done|]. by apply String.eqb_eq.
  - intros (issue & Hin & Ha & <-).
    destruct (last_with_is_Some
                (λ i, allowed self (mapped_type i) && String.eqb (id i) (id issue))
                (issues (data_source self)) issue Hin) as [issue' Hlast].
    { by rewrite Ha, String.eqb_refl. }
    rewrite Hlast. cbn.
    by apply last_with_Some in Hlast as [_ [H _]%andb_true_iff].
Qed.

Lemma commit_event_relevant self self1 stream d t h :
  Identity.links_in_range (project_users self) →
  issue_manager self = new_manager →
  prepare_run utc_offset self = Ok (self1, stream) →
  is_relevant_event self1 (GitEvent d t h) = true
  ↔ linked_in_scope self h
    ∨ never_linked (data_source self) h
      ∧ h ∉ linked_change_sets_unconstrained self.
Proof.
  intros Hrange Hfresh Hprep.
  pose proof (prepare_run_consistent utc_offset self self1 stream Hfresh Hprep)
    as (_ & _ & _ & Hinv & _).
  pose proof (in_scope_iff self self1 stream) as Hscope.
  specialize (λ k, Hscope k Hrange Hprep).
  assert (Hself : data_source self1 = data_source self
                  ∧ linked_change_sets_unconstrained self1
                    = linked_change_sets_unconstrained self).
  { unfold prepare_run in Hprep. apply bind_ok in Hprep as (ev & _ & Hprep).
    apply bind_ok in Hprep as (i & _ & Hprep).
    apply bind_ok in Hprep as (c & _ & Hprep). by injection Hprep as <- _. }
  destruct Hself as [Hds Hun].
  pose proof (inverse_lookup_spec self1 h) as [_ Hspec].
  pose proof (inverse_lookup_nonempty self1 h) as Hne.
  unfold is_relevant_event. rewrite Hinv, Hun.
  fold (in_scope self1). unfold linked_in_scope, never_linked.
  rewrite Hds in Hspec.
  destruct (build_change_set_issue_inverse_lookup self1 !! h) as [linked|] eqn:E;
    cbn [default] in Hspec.
  - rewrite existsb_exists. split.
    + intros (i & Hi%list_elem_of_In & Hs). left.
      apply Hspec in Hi as (hashes & Hl & Hh).
      apply Hscope in Hs as (issue & Hin & Ha & <-). by exists issue, hashes.
    + intros [(issue & hashes & Hin & Ha & Hl & Hh)|[Hnever _]].
      * exists (id issue). split.
        -- apply list_elem_of_In, Hspec. by exists hashes.
        -- apply Hscope. by exists issue.
      * destruct linked as [|i linked]; [done|].
        assert (Hi : i ∈ i :: linked) by by left.
        apply Hspec in Hi as (hashes & Hl & Hh). by destruct (Hnever i hashes Hl).
  - split.
    + destruct (bool_decide _) eqn:Hd; [done|]. intros _. right.
      apply bool_decide_eq_false in Hd. split; [|done].
      intros i hashes Hl Hh.
      assert (Hi : i ∈ []) by (apply Hspec; by exists hashes).
      by apply elem_of_nil in Hi.
    + intros [(issue & hashes & Hin & Ha & Hl & Hh)|[_ Hun']].
      * assert (Hi : id issue ∈ []) by (apply Hspec; by exists hashes).
        by apply elem_of_nil in Hi.
      * by rewrite bool_decide_eq_false_2.
Qed.

End RelevanceFacts.

Section PipelineRelevance.
Import Profile Engine EventPkg Relevance.
Variable utc_offset : Z → Z.
Variable set_order : list string → list string.
Hypothesis Henum : Roster.enumerates set_order.

Lemma init_fields ds new_change_sets text trace issue_types self :
  init set_order ds new_change_sets text trace issue_types = Ok self →
  Identity.links_in_range (project_users self)
  ∧ issue_manager self = new_manager
  ∧ linked_change_sets_unconstrained self = _all_linked_changed_sets ds
  ∧ ∀ k hashes h, (k, hashes) ∈ issue_to_change_set (data_source self) →
      h ∈ hashes → ∃ hashes0, (k, hashes0) ∈ issue_to_change_set ds ∧ h ∈ hashes0.
Proof.
  unfold init. intros H. apply bind_ok in H as (ds' & Hds' & H).
  apply bind_ok in H as (pu & Hpu & H). injection H as <-. cbn.
  destruct (build_project_users_total set_order ds') as (pu' & Hpu' & Hrange).
  rewrite Hpu in Hpu'. injection Hpu' as <-.
  split; [done|]. split; [done|]. split; [done|].
  unfold _prepare_data_source in Hds'.
  destruct (filter _ (map commit_hash new_change_sets)); [|done].
  injection Hds' as <-. intros k hashes h Hk Hh.
  destruct (filter_data_source_links set_order Henum
              {| issues := issues ds;
                 issue_to_change_set := issue_to_change_set ds;
                 change_sets := change_sets ds
                                ++ map _mark_as_to_predict new_change_sets |})
    as [_ Hlinks].
  destruct (Hlinks k hashes Hk) as (_ & _ & Hh0).
  by destruct (Hh0 h Hh) as [_ H0].
Qed.

Lemma never_linked_iff ds h : never_linked ds h ↔ h ∉ _all_linked_changed_sets ds.
Proof.
  unfold never_linked, _all_linked_changed_sets.
  rewrite elem_of_list_to_set, list_elem_of_In, in_flat_map. split.
  - intros Hn ([i hashes] & Hin%list_elem_of_In & Hh%list_elem_of_In).
    by apply (Hn i hashes).
  - intros Hn i hashes Hin Hh. apply Hn. exists (i, hashes).
    split; by apply list_elem_of_In.
Qed.

Lemma commit_event_relevant_init ds new_change_sets text trace issue_types
  self self1 stream d t h :
  init set_order ds new_change_sets text trace issue_types = Ok self →
  prepare_run utc_offset self = Ok (self1, stream) →
  is_relevant_event self1 (GitEvent d t h) = true
  ↔ linked_in_scope self h ∨ never_linked ds h.
Proof.
  intros Hinit Hprep.
  destruct (init_fields _ _ _ _ _ _ Hinit) as (Hrange & Hfresh & Hun & Hsub).
  rewrite (commit_event_relevant utc_offset self self1 stream d t h Hrange Hfresh
             Hprep), Hun, <- never_linked_iff.
  split; (intros [H|H]; [by left|right]).
  - by destruct H.
  - split; [|done]. intros i hashes Hin Hh.
    destruct (Hsub i hashes h Hin Hh) as (hashes0 & Hin0 & Hh0).
    by apply (H i hashes0).
Qed.

End PipelineRelevance.

(** X30: which commits the pipeline makes records for.  After
    [__init__] and the preparations of [run], a commit event is relevant
    exactly when the link table of the prepared data links the commit to an
    issue of an allowed category, or the link table that was handed to
    [__init__] does not name the commit at all.  So a commit is skipped
    when its links were all filtered away, or lead only to issues of other
    categories. *)
Theorem commit_relevance (utc_offset : Z → Z) (set_order : list string → list string)
  (ds : DataSource) (new_change_sets : list ChangeSet)
  (text : IO.TextSimilarityHandler) (trace : IO.TraceSimilarityHandler)
  (issue_types : list string) (self self1 : Profile.ProfileGenerator)
  (stream : list EventPkg.Event) (d : string) (t : Z) (h : string) :
  Roster.enumerates set_order →
  Profile.init set_order ds new_change_sets text trace issue_types = Ok self →
  Profile.prepare_run utc_offset self = Ok (self1, stream) →
  Profile.is_relevant_event self1 (EventPkg.GitEvent d t h) = true
  ↔ Relevance.linked_in_scope self h ∨ Relevance.never_linked ds h.
Proof. intros Henum. by apply commit_event_relevant_init. Qed.

Lemma relevance_example_facts :
  match Profile.init order_a Example.history Example.to_predict
          IO.no_text_similarity IO.no_trace_similarity ["bug"%string] with
  | Ok self => is_ok (Profile.prepare_run tz_utc self) = true
  | Raise _ => False
  end.
Proof. by vm_compute. Qed.

Lemma commit_relevance_witness :
  match Profile.init order_a Example.history Example.to_predict
          IO.no_text_similarity IO.no_trace_similarity ["bug"%string] with
  | Ok self =>
      match Profile.prepare_run tz_utc self with
      | Ok (self1, _) =>
          Profile.is_relevant_event self1
            (EventPkg.GitEvent "2017-01-03T00:00:00Z" 1483401600 "c1") = true
          ↔ Relevance.linked_in_scope self "c1"
            ∨ Relevance.never_linked Example.history "c1"
      | Raise _ => False
      end
  | Raise _ => False
  end.
Proof.
  pose proof relevance_example_facts as Hok.
  destruct (Profile.init order_a Example.history Example.to_predict
              IO.no_text_similarity IO.no_trace_similarity ["bug"%string])
    as [self|] eqn:Hinit; [|done].
  destruct (Profile.prepare_run tz_utc self) as [[self1 stream]|] eqn:Hprep; [|done].
  apply (commit_relevance tz_utc order_a Example.history Example.to_predict
           IO.no_text_similarity IO.no_trace_similarity ["bug"%string]
           self self1 stream).
  - by intros l x.
  - exact Hinit.
  - exact Hprep.
Defined.
